(* ===== verification/_CoqProject ===== *)
-Q . S2P
Prelude.v
Capability.v
FrameAlloc.v
Task.v
Paging.v
Scheduler.v
Kernel.v
Ownership.v
Switch.v
Ipc.v
Agent.v
Bytes.v
AgentTree.v
BlockCache.v
OxideFs.v
ContextStore.v
Heap.v
Timer.v
Gpu.v
Crypto.v
Text.v
Net.v
Syscall.v
Os.v
Console.v
Pci.v
Vring.v
VirtioBlk.v
Storage.v
Mount.v
VirtioNet.v
VirtioNetInit.v
Bringup.v
Apic.v
Elf.v
Segments.v
Boot.v
Start.v
