(* ===== verification/Prelude.v ===== *)
(** * Oxide OS kernel: verification library

    A model of the kernel of Oxide OS (the Rust crate under src/oxide-os/kernel/src; paths below are
    relative to it) and the theorems that make its components correct.

    ** The program

    Tasks run under a preemptive scheduler with three priorities.  Every privileged operation is
    guarded by a capability: an unforgeable token with an owner, a permission mask and a resource,
    which can be delegated with fewer rights and revoked with everything derived from it.  Tasks
    talk through mailboxes, publish/subscribe channels, request/reply and shared memory; agents are
    tasks in a supervision tree.  Their context is a key-value store over a file system, a
    write-back block cache and a virtio disk.  Network access goes through a firewall to a TCP
    stack; system calls expose a part of all this to user programs; the timer interrupt drives
    preemption, timeouts and deadlines.

    ** Files

    In the order of the kernel's layers; the Module of a file has the name in brackets.

    - Prelude (this file): results, panics and the command monad, machine integers, the Vec,
      VecDeque and BTreeMap operations and shared lemmas and tactics.
    - Capability: capability/permissions.rs ([Perm]), capability/resource.rs ([Res]),
      capability/table.rs ([CapTable]).
    - FrameAlloc: memory/frame_allocator.rs ([Frames]).
    - Task: task/mod.rs and alloc_and_map of memory/paging.rs ([Tasks]); page tables are the
      interface [Mapper].
    - Paging: the rest of memory/paging.rs, and allocator.rs, the mapping of the kernel heap
      ([Paging]).
    - Scheduler: task/scheduler.rs ([Sched]).
    - Kernel: the record of the kernel statics and the data of the ipc modules ([Kern]);
      Ownership: which frames and pages the tasks of the scheduler own.
    - Switch: task/context.rs and the public functions of task/scheduler.rs ([Switch]).
    - Ipc: ipc/message.rs, ipc/channel.rs, ipc/request_reply.rs, ipc/shared_memory.rs ([Ipc]).
    - Agent: agent/mod.rs, agent/registry.rs, agent/lifecycle.rs, agent/supervisor.rs ([Agents]);
      AgentTree: print_tree of agent/registry.rs.
    - Bytes, Text: little-endian integers, slices, UTF-8, and the str methods the kernel uses.
    - BlockCache: storage/block_cache.rs ([Cache]) over the interface [BlockDevice].
    - OxideFs: storage/oxide_fs.rs ([Fs]); ContextStore: storage/context_store.rs ([Ctx]).
    - Heap: BinaryHeap of the standard library; Timer: timer/deadline.rs, timer/clock.rs and the
      timer interrupt of interrupts.rs; Gpu: gpu/scheduler.rs.
    - Crypto: crypto/rng.rs, crypto/hmac_cap.rs, crypto/signing.rs.
    - Net: net/firewall.rs, net/dns.rs, net/tls.rs, net/socket.rs, net/http.rs, and init and poll of
      net/stack.rs over the interface [Smoltcp].
    - Syscall: syscall/numbers.rs, syscall/handler.rs, the entry code of syscall/mod.rs; Os: the
      statics of all components as one state, its steps and their invariant.
    - Console: serial.rs, the handlers and the table of interrupts.rs, and the spin locks of all
      components as a processor that takes interrupts sees them.
    - Pci: pci/mod.rs over port I/O ([Ports], [PciBus]); Vring: physical memory and the layout of a
      virtqueue; VirtioBlk: storage/virtio_blk.rs, its rings in that memory, over the device
      interface [VirtioBlkHw]; Storage: that driver with a working device as a [BlockDevice], under
      the cache and the file system; Mount: the same at boot, with or without a disk.
    - VirtioNet: the data path of net/virtio_net.rs and the device of net/stack.rs; VirtioNetInit:
      its initialisation, and the card's histories after it ([NicInit]); Bringup: both drivers'
      initialisation on a platform whose registers follow the specifications.
    - Apic: apic.rs, as the writes to the interrupt controllers.
    - Elf: userspace/elf.rs and the data of userspace/process.rs.
    - Segments: gdt.rs, the model-specific registers of syscall/mod.rs, enter_usermode of
      userspace/process.rs, and the instructions that read them.
    - Boot: main.rs, the agents it starts and their entry functions; Start: all of _start, in its
      order, over the components above, up to the state of Os; and qemu.rs.

    ** Conventions

    A definition has the name of its function; fields carry a prefix where records would clash.
    Integers are Z with the width written out: the Makefile builds the dev profile, so [+], [-] and
    [*] panic on overflow ([checked_add64] and the like) while [fetch_add] and [wrapping_*] wrap.  A
    panic has no state, because the handler spins.  A refused allocation is a panic too: where it
    matters (what [_start] and the system calls allocate) whether the heap serves a request is an
    argument, and elsewhere the heap serves.  A static is a field of the state its users
    share.  Outside Console the spin locks serialise the operations, so each runs to completion; a
    [try_lock] that may fail takes its outcome as a boolean argument.  Console has the other view:
    code as its lock scopes, critical sections and console bytes, with interrupts at every point.  A
    PhysFrame is its start address.  Strings are byte strings.  Messages to the console are left out
    elsewhere, except the bytes of the print system call and the report of the agents.

    Hardware and other crates are parameters: page tables ([Mapper]; [MapperLaws] what a mapping
    does, [MapperProgress] when it succeeds), the TCP stack ([Smoltcp], [SmoltcpLaws],
    [SmoltcpInit], [SmoltcpInitLaws]), the descriptor table ([GdtOps], [GdtLaws]), SHA-256, HMAC,
    RDRAND, the ports and the PCI bus, the virtio disk ([VirtioBlkHw], [VirtioBlkHwLaws]; [VirtioBlkReliable]
    a medium that works and answers in time), the virtio network device, the values in the devices'
    registers ([platform]) and the memory of user programs ([Surroundings]), each with the documented
    behaviour that the code relies on as the laws of a class or as hypotheses, and with an instance
    that satisfies them.  What the code needs beyond the documentation is a hypothesis by its own
    name: [small_queues] (at most 256 entries for the network card), a disk queue of 128 entries,
    [heap_on_bus] (the device finds a heap buffer at its virtual address), [heap_enough].

    ** What is proved

    - Capabilities: every reachable table is well formed; revocation marks exactly the descendants;
      a delegated capability never has more rights than its source; the effect of delegate and
      validate on every branch; containment of resources is sound for what they denote.
    - Memory: over any history the bitmap allocator is equivalent to an ordered list of free frames
      and conserves them, including after boot; the heap is mapped to distinct free frames; task
      stacks never overlap; creating a task, and why it fails after a task with the same id has
      exited.
    - Scheduling: the three queues refine one ready list; every reachable state is well formed;
      round robin among equals, starvation below realtime; a task that is switched out is resumed
      with its registers; what happens when the last task blocks or exits.
    - Interrupts: a task under the timer interrupt can come to spin if and only if it takes one of
      the four locks that the interrupt waits for; otherwise its lines appear whole and in order.
    - IPC: the effect of send, publish, reply, grant_access and create_region on every branch; a
      mailbox is a FIFO of bounded length over any history of the ipc operations.
    - Agents: every reachable registry is a forest; kill terminates and removes exactly the subtree;
      the report of the tree terminates and has one line per agent.
    - Storage: over a device that accepts its writes the cache refines the disk, the file system
      refines a map from paths to data; the virtio driver implements a disk up to a timeout, and
      with a working medium the one the cache assumes; through all three, a store that was synced
      survives a restart of the machine; contexts of different agents do not interfere.
    - Time: the timer interrupt wakes every task whose deadline has come; the sleep system call
      returns its caller to the ready queue after the requested ticks, with the interrupt's locks
      free; the inference scheduler always runs a best request by class and deadline.
    - Crypto: tags accept exactly what they were made for up to an HMAC collision; the generator
      never reaches its fixed point.
    - Network: with full queues, buffers the device can reach and transmissions completed in
      order, the card is a FIFO of packets; what goes wrong without each; without an admitting
      capability a request has no effect at all; with any stack that keeps its handles, requests
      return.
    - System calls: the round trip of a call through STAR, the entry stub, the dispatcher and
      sysretq; sleep; the missing check of storage_set; when the jump to ring 3 has the right frame.
    - The whole kernel: over any sequence of the operations of all components, the invariant of each
      is kept; stacks of live tasks never share a frame and are never on a free one; user programs
      alone create no authority, channel, region or task; which system calls panic, which hang on
      memory that cannot be read, and that all others end.
    - Boot: the APIC is programmed at its physical addresses; on a machine whose registers follow the
      specifications and that meets the named hypotheses above, _start reaches its idle loop in that
      invariant, with the heap mapped, the files of the disk mounted and the four agents ready; the
      agents' findings are accounted for in
      any order of their turns, and their counters do not overflow in the first 2^39 ticks.

    ** Bounds and fuel

    Recursion that is not structural takes fuel, and a theorem shows the fuel is enough: revoke
    uses the number of live capabilities plus one; kill needs at most [fuel_bound] for a tree of
    bounded rank and its result does not depend on a larger fuel; print_tree one more than the rank;
    the frame scan counts the frames left; the heap loop the 256 pages of the heap; continuation
    blocks of the file system are bounded by the length of the file; sift_up and the sink loop of
    the heap by the position and the length; check_expired by the length of the heap; fill_bytes by
    the length of the buffer; reclaim_tx by the distance of the two indices; the collecting loop of
    the aggregator by the capacity of a mailbox plus one.  The waiting loops of the HTTP client
    recurse over the tick values they read and report when these are used up.  Booting needs 1100
    free frames: 1024 for the heap, a page and three page tables for each of its 256 pages, and the
    rest for the rings, the APIC and the stacks with their tables.  The report of the agents at
    boot has fuel for one more level than there are agents.

    ** Not modelled

    - The banner and the messages of main.rs and of the init functions: prints.  Outside Console a
      panic is [Panic]: the handler prints and spins.
    - The allocator inside the heap (linked_list_allocator), page tables (x86_64), the TCP stack
      (smoltcp), the hashes (sha2, hmac): other crates, parameters as described above.  The heap
      buffers of the drivers and their addresses are arguments.
    - The placement of kernel objects: values live in records, and only the rings and the DMA page of
      the disk driver are bytes of physical memory.  The depth of the kernel stacks is not counted.
    - Memory ordering: the kernel runs on one processor, and fences do not appear. *)

From stdpp Require Export base numbers list list_numbers gmap strings sorting option pretty.
From Stdlib Require Export ZArith Lia.

#[global] Open Scope Z_scope.

(** ** Rust results, panics and state

    [result E A] is Rust's [Result<A, E>].  [outcome] adds the kernel panic: the
    panic handler of main.rs prints and spins, so nothing after a panic runs and
    no state is observable.  [cmd S E A] is a fallible operation on state [S]: an
    early return through [?] keeps the writes made before it. *)
Inductive result (E A : Type) : Type :=
| Ok (a : A)
| Err (e : E).
Arguments Ok {E A} a.
Arguments Err {E A} e.

Inductive outcome (A : Type) : Type :=
| Ret (a : A)
| Panic.
Arguments Ret {A} a.
Arguments Panic {A}.

Definition cmd (S E A : Type) : Type := S → outcome (result E A * S).

Definition outcome_bind {A B} (m : outcome A) (k : A → outcome B) : outcome B :=
  match m with
  | Ret a => k a
  | Panic => Panic
  end.

Definition cmd_bind {S E A B} (m : cmd S E A) (k : A → cmd S E B) : cmd S E B :=
  λ s, match m s with
       | Ret (Ok a, s') => k a s'
       | Ret (Err e, s') => Ret (Err e, s')
       | Panic => Panic
       end.

Definition ret {S E A} (a : A) : cmd S E A := λ s, Ret (Ok a, s).
Definition throw {S E A} (e : E) : cmd S E A := λ s, Ret (Err e, s).
Definition get_state {S E} : cmd S E S := λ s, Ret (Ok s, s).
Definition put_state {S E} (s : S) : cmd S E () := λ _, Ret (Ok (), s).
Definition lift_outcome {S E A} (m : outcome A) : cmd S E A :=
  λ s, match m with Ret a => Ret (Ok a, s) | Panic => Panic end.
Definition lift_result {S E E' A} (f : E → E') (r : result E A) : cmd S E' A :=
  λ s, match r with Ok a => Ret (Ok a, s) | Err e => Ret (Err (f e), s) end.
Definition ok_or {S E A} (o : option A) (e : E) : cmd S E A :=
  λ s, match o with Some a => Ret (Ok a, s) | None => Ret (Err e, s) end.

Declare Scope oxide_scope.
Delimit Scope oxide_scope with oxide.
Notation "'let!' x := m 'in' k" := (cmd_bind m (λ x, k))
  (at level 10, x binder, m at level 100, k at level 200) : oxide_scope.
Notation "'let!' ' p := m 'in' k" := (cmd_bind m (λ x, match x with p => k end))
  (at level 10, p pattern, m at level 100, k at level 200) : oxide_scope.
Notation "'let?' x := m 'in' k" := (outcome_bind m (λ x, k))
  (at level 10, x binder, m at level 100, k at level 200) : oxide_scope.
#[global] Open Scope oxide_scope.

(** An operation that keeps [Q], on the states of [Q]. *)
Definition keep {T A} (Q : T → Prop) (o : outcome (A * T)) : (∀ a t, o = Ret (a, t) → Q t) → outcome (A * sig Q) :=
  match o with
  | Ret (a, t) => λ H, Ret (a, exist _ t (H a t eq_refl))
  | Panic => λ _, Panic
  end.

Lemma keep_spec {T A} (Q : T → Prop) (o : outcome (A * T)) H :
  match keep Q o H with Ret (a, x) => o = Ret (a, proj1_sig x) | Panic => o = Panic end.
Proof. by destruct o as [[a t]|]. Qed.

(** Split the [keep] of the goal into its outcomes, [Hk] relating them to the operation's. *)
Ltac destruct_keep Hk :=
  match goal with
  | |- context [keep ?Q ?o ?H] => pose proof (keep_spec Q o H) as Hk; destruct (keep Q o H) as [[? ?]|]
  end.

#[global] Instance result_eq_dec {E A} `{EqDecision E, EqDecision A} : EqDecision (result E A).
Proof. solve_decision. Defined.
#[global] Instance outcome_eq_dec {A} `{EqDecision A} : EqDecision (outcome A).
Proof. solve_decision. Defined.
#[global] Instance Ok_inj {E A} : Inj (=) (=) (@Ok E A).
Proof. by intros ?? [=]. Qed.
#[global] Instance Ret_inj {A} : Inj (=) (=) (@Ret A).
Proof. by intros ?? [=]. Qed.

(** ** Machine integers

    [cargo build] of the Makefile is the dev profile: [+], [-] and [*] on an
    integer type panic on overflow; [fetch_add] and [wrapping_*] wrap. *)
Definition U8_MAX : Z := 2 ^ 8 - 1.
Definition U16_MAX : Z := 2 ^ 16 - 1.
Definition U32_MAX : Z := 2 ^ 32 - 1.
Definition U64_MAX : Z := 2 ^ 64 - 1.

Definition u8_ok (z : Z) : Prop := 0 ≤ z ≤ U8_MAX.
Definition u32_ok (z : Z) : Prop := 0 ≤ z ≤ U32_MAX.
Definition u64_ok (z : Z) : Prop := 0 ≤ z ≤ U64_MAX.

Definition checked_add64 (a b : Z) : outcome Z :=
  if decide (a + b ≤ U64_MAX) then Ret (a + b) else Panic.
Definition checked_sub64 (a b : Z) : outcome Z :=
  if decide (b ≤ a) then Ret (a - b) else Panic.
Definition checked_mul64 (a b : Z) : outcome Z :=
  if decide (a * b ≤ U64_MAX) then Ret (a * b) else Panic.
Definition checked_add32 (a b : Z) : outcome Z :=
  if decide (a + b ≤ U32_MAX) then Ret (a + b) else Panic.
Definition checked_add16 (a b : Z) : outcome Z :=
  if decide (a + b ≤ U16_MAX) then Ret (a + b) else Panic.
Definition saturating_add64 (a b : Z) : Z := Z.min (a + b) U64_MAX.
Definition wrapping_add64 (a b : Z) : Z := (a + b) mod 2 ^ 64.
Definition wrapping_mul64 (a b : Z) : Z := (a * b) mod 2 ^ 64.
(** [v as i64] of a u64. *)
Definition as_i64 (v : Z) : Z := if v <? 2 ^ 63 then v else v - 2 ^ 64.
Definition wrapping_add16 (a b : Z) : Z := (a + b) mod 2 ^ 16.

Lemma checked_add64_Ret a b c :
  checked_add64 a b = Ret c ↔ c = a + b ∧ a + b ≤ U64_MAX.
Proof. unfold checked_add64. case_decide; split; intros; destruct_and?; simplify_eq; auto with lia. Qed.

Lemma checked_sub64_Ret a b c :
  checked_sub64 a b = Ret c ↔ c = a - b ∧ b ≤ a.
Proof. unfold checked_sub64. case_decide; split; intros; destruct_and?; simplify_eq; auto with lia. Qed.

Lemma checked_add32_Ret a b c :
  checked_add32 a b = Ret c ↔ c = a + b ∧ a + b ≤ U32_MAX.
Proof. unfold checked_add32. case_decide; split; intros; destruct_and?; simplify_eq; auto with lia. Qed.

(** ** Shared tactics *)
Create HintDb oxide.

(** Split one [let?]/[let!]/[match] of a hypothesis and keep the equation. *)
Ltac split_step H :=
  match type of H with
  | context [match ?x with _ => _ end] =>
      lazymatch x with
      | context [match _ with _ => _ end] => fail
      | _ => let E := fresh "E" in destruct x eqn:E; simplify_eq/=
      end
  end.
Ltac split_all H := repeat split_step H.

(** ** Lists: the Vec and VecDeque operations the kernel uses *)

(** [iter().position(p)]. *)
Fixpoint position {A} (p : A → bool) (l : list A) : option nat :=
  match l with
  | [] => None
  | x :: l' => if p x then Some O else S <$> position p l'
  end.

(** [remove(i)]: the element and the list without it. *)
Fixpoint remove_at {A} (i : nat) (l : list A) : option (A * list A) :=
  match l, i with
  | [], _ => None
  | x :: l', O => Some (x, l')
  | x :: l', S i' => match remove_at i' l' with
                     | Some (y, r) => Some (y, x :: r)
                     | None => None
                     end
  end.

(** [resize_with(n, || d)] when [n] is not smaller than the length. *)
Definition resize_with {A} (n : nat) (d : A) (l : list A) : list A :=
  take n l ++ replicate (n - length l) d.

Lemma position_Some {A} (p : A → bool) l i :
  position p l = Some i →
  ∃ l1 x l2, l = l1 ++ x :: l2 ∧ length l1 = i ∧ p x = true ∧ Forall (λ y, p y = false) l1.
Proof.
  revert i. induction l as [|x l IH]; intros i H; simplify_eq/=.
  destruct (p x) eqn:E; simplify_eq/=.
  - exists [], x, l. naive_solver.
  - destruct (position p l) as [j|] eqn:Ej; simplify_eq/=.
    destruct (IH j eq_refl) as (l1 & y & l2 & -> & <- & Hp & Hl).
    exists (x :: l1), y, l2. naive_solver.
Qed.

Lemma position_None {A} (p : A → bool) l :
  position p l = None ↔ Forall (λ y, p y = false) l.
Proof.
  induction l as [|x l IH]; simpl; [naive_solver|].
  rewrite Forall_cons. destruct (p x); [naive_solver|].
  rewrite fmap_None. naive_solver.
Qed.

Lemma remove_at_middle {A} (l1 : list A) x l2 :
  remove_at (length l1) (l1 ++ x :: l2) = Some (x, l1 ++ l2).
Proof. induction l1 as [|y l1 IH]; simpl; [done|]. by rewrite IH. Qed.

Lemma remove_at_Some {A} i (l : list A) x r :
  remove_at i l = Some (x, r) → ∃ l1 l2, l = l1 ++ x :: l2 ∧ r = l1 ++ l2 ∧ length l1 = i.
Proof.
  revert i x r. induction l as [|y l IH]; intros [|i] x r H; simplify_eq/=.
  - by exists [], r.
  - destruct (remove_at i l) as [[z r']|] eqn:E; simplify_eq/=.
    destruct (IH _ _ _ E) as (l1 & l2 & -> & -> & <-). by exists (y :: l1), l2.
Qed.

Lemma lookup_resize_with {A} n (d : A) l i :
  (length l ≤ n)%nat →
  resize_with n d l !! i = match l !! i with
                           | Some x => Some x
                           | None => if decide (i < n)%nat then Some d else None
                           end.
Proof.
  intros Hn. unfold resize_with. rewrite take_ge by done.
  destruct (l !! i) as [x|] eqn:E.
  - by apply lookup_app_l_Some.
  - apply lookup_ge_None in E. rewrite lookup_app_r by done.
    case_decide; [apply lookup_replicate_2; lia | apply lookup_replicate_None; lia].
Qed.

Lemma length_resize_with {A} n (d : A) l :
  (length l ≤ n)%nat → length (resize_with n d l) = n.
Proof.
  intros. unfold resize_with. rewrite length_app, length_take, length_replicate. lia.
Qed.

Lemma length_filter_fmap {A B} (f : A → B) (P : B → Prop) (Q : A → Prop)
    `{∀ y, Decision (P y), ∀ x, Decision (Q x)} (l : list A) :
  (∀ x, P (f x) ↔ Q x) → length (filter P (f <$> l)) = length (filter Q l).
Proof.
  intros HPQ. induction l as [|x l IH]; [done|]. rewrite fmap_cons, !filter_cons.
  specialize (HPQ x). repeat case_decide; simpl; try naive_solver; auto.
Qed.

Lemma filter_all {A} (P : A → Prop) `{∀ x, Decision (P x)} (l : list A) :
  (∀ x, x ∈ l → P x) → filter P l = l.
Proof.
  induction l as [|x l IH]; intros HP; [done|]. rewrite filter_cons, decide_True by (apply HP; set_solver).
  f_equal. apply IH. set_solver.
Qed.

Lemma filter_none {A} (P : A → Prop) `{∀ x, Decision (P x)} (l : list A) :
  (∀ x, x ∈ l → ¬ P x) → filter P l = [].
Proof.
  induction l as [|x l IH]; intros HP; [done|]. rewrite filter_cons, decide_False by (apply HP; set_solver).
  apply IH. set_solver.
Qed.

Lemma sub_NoDup {A} (l k : list A) : l ⊆+ k → NoDup k → NoDup l.
Proof. intros [m ->]%submseteq_Permutation. rewrite NoDup_app. tauto. Qed.

Lemma sub_Forall {A} (P : A → Prop) (l k : list A) : l ⊆+ k → Forall P k → Forall P l.
Proof. intros [m ->]%submseteq_Permutation. rewrite Forall_app. tauto. Qed.

Lemma length_filter_split {A} (f : A → bool) (l : list A) :
  (length (filter (λ x, f x = true) l) + length (filter (λ x, f x = false) l) = length l)%nat.
Proof.
  induction l as [|x l IH]; [done|]. rewrite !filter_cons.
  destruct (f x); repeat case_decide; simpl; try done; lia.
Qed.

(** ** Strings are byte strings *)
Lemma string_app_assoc s1 s2 s3 : s1 +:+ (s2 +:+ s3) = (s1 +:+ s2) +:+ s3.
Proof.
  induction s1 as [|c s1 IH]; [done|].
  change (String c (s1 +:+ (s2 +:+ s3)) = String c ((s1 +:+ s2) +:+ s3)). by rewrite IH.
Qed.

Lemma string_app_nil_r s : s +:+ "" = s.
Proof. induction s as [|c s IH]; [done|]. change (String c (s +:+ "") = String c s). by rewrite IH. Qed.

Lemma prefix_app_iff s1 s2 : String.prefix s1 s2 = true ↔ ∃ s, s2 = s1 +:+ s.
Proof.
  revert s2. induction s1 as [|c s1 IH]; intros [|d s2]; simpl.
  - naive_solver.
  - naive_solver.
  - split; [done|]. by intros [? ?].
  - destruct (Ascii.ascii_dec c d) as [->|Hne].
    + rewrite IH. split; intros [s Hs]; exists s; [by subst|]. by injection Hs.
    + split; [done|]. intros [s Hs]. by injection Hs.
Qed.

(** ** BTreeMap: a finite map iterated in key order *)
Section btree.
Context {K V : Type} `{Countable K} (R : relation K) `{!RelDecision R}.

Definition entry_le (x y : K * V) : Prop := R (x.1) (y.1).

#[global] Instance entry_le_dec : RelDecision entry_le.
Proof. intros x y. unfold entry_le. apply _. Defined.

(** [map.iter()]: the bindings in ascending key order. *)
Definition btree_iter (m : gmap K V) : list (K * V) := merge_sort entry_le (map_to_list m).

Lemma btree_iter_Permutation m : btree_iter m ≡ₚ map_to_list m.
Proof. apply merge_sort_Permutation. Qed.

Lemma elem_of_btree_iter m k v : (k, v) ∈ btree_iter m ↔ m !! k = Some v.
Proof. rewrite btree_iter_Permutation. apply elem_of_map_to_list. Qed.

Lemma NoDup_btree_iter_keys m : NoDup ((btree_iter m).*1).
Proof. rewrite btree_iter_Permutation. apply NoDup_fst_map_to_list. Qed.

Lemma length_btree_iter m : length (btree_iter m) = size m.
Proof. rewrite btree_iter_Permutation. apply length_map_to_list. Qed.

Lemma StronglySorted_btree_iter `{!Transitive R, !Total R} m :
  StronglySorted entry_le (btree_iter m).
Proof.
  assert (Transitive entry_le).
  { intros x y z. unfold entry_le. apply transitivity. }
  assert (Total entry_le).
  { intros x y. unfold entry_le. apply (total R). }
  apply StronglySorted_merge_sort; apply _.
Qed.

Lemma list_to_map_btree_iter m : list_to_map (btree_iter m) = m.
Proof.
  rewrite <- (list_to_map_to_list m) at 2.
  apply list_to_map_proper; [apply NoDup_btree_iter_keys | apply btree_iter_Permutation].
Qed.
End btree.

Abbreviation btree_iter_Z := (btree_iter Z.le).
Abbreviation btree_iter_str := (btree_iter String.le).
