(* ===== verification/Capability.v ===== *)
(** * Capability system: capability/permissions.rs, capability/resource.rs, capability/table.rs

    [Perm] models the permission bit field, [Res] the resource references and their
    subset test, [CapTable] the capability table behind the static CAP_TABLE. *)

From S2P Require Import Prelude.

(** ** Permission bits *)
Module Perm.

(** [PermissionBits(u32)]. *)
Definition PermissionBits : Type := Z.

Definition NONE : PermissionBits := 0.
Definition READ : PermissionBits := Z.shiftl 1 0.
Definition WRITE : PermissionBits := Z.shiftl 1 1.
Definition EXECUTE : PermissionBits := Z.shiftl 1 2.
Definition DELEGATE : PermissionBits := Z.shiftl 1 3.
Definition SPAWN : PermissionBits := Z.shiftl 1 4.
Definition KILL : PermissionBits := Z.shiftl 1 5.
Definition SUBSCRIBE : PermissionBits := Z.shiftl 1 6.
Definition PUBLISH : PermissionBits := Z.shiftl 1 7.
Definition CONNECT : PermissionBits := Z.shiftl 1 8.
Definition ALL : PermissionBits := 0xFFFFFFFF.

Definition contains (self other : PermissionBits) : bool := Z.land self other =? other.
Definition union (self other : PermissionBits) : PermissionBits := Z.lor self other.
Definition intersect (self other : PermissionBits) : PermissionBits := Z.land self other.
Definition can_delegate_to (self subset : PermissionBits) : bool :=
  contains self DELEGATE && contains self subset.

(** [impl Display]: the names of the contained flags, in table order. *)
Definition flag_table : list (string * PermissionBits) :=
  [("R", READ); ("W", WRITE); ("X", EXECUTE); ("D", DELEGATE); ("SPAWN", SPAWN);
   ("KILL", KILL); ("SUB", SUBSCRIBE); ("PUB", PUBLISH); ("CONN", CONNECT)].

Fixpoint fmt_flags (self : PermissionBits) (first : bool) (flags : list (string * PermissionBits))
    : string :=
  match flags with
  | [] => ""
  | (name, flag) :: flags' =>
      if contains self flag
      then (if first then "" else "|") +:+ name +:+ fmt_flags self false flags'
      else fmt_flags self first flags'
  end.

Definition fmt (self : PermissionBits) : string :=
  if self =? 0 then "[NONE]" else "[" +:+ fmt_flags self true flag_table +:+ "]".

Lemma contains_spec self other :
  contains self other = true ↔ ∀ n, 0 ≤ n → Z.testbit other n = true → Z.testbit self n = true.
Proof.
  unfold contains. rewrite Z.eqb_eq. split.
  - intros H n Hn Ht. rewrite <- H, Z.land_spec in Ht. by apply andb_true_iff in Ht as [? _].
  - intros H. apply Z.bits_inj'. intros n Hn. rewrite Z.land_spec.
    specialize (H n Hn). destruct (Z.testbit other n); [|by rewrite andb_false_r].
    by rewrite H.
Qed.

Lemma contains_false self other :
  contains self other = false → ∃ n, Z.testbit other n = true ∧ Z.testbit self n = false.
Proof.
  unfold contains. rewrite Z.eqb_neq. intros Hne.
  assert (Z.ldiff other self ≠ 0) as Hd.
  { intros H0. apply Hne. rewrite Z.land_comm. apply Z.bits_inj'. intros n Hn.
    assert (Z.testbit (Z.ldiff other self) n = false) as Hb by (rewrite H0; apply Z.bits_0).
    rewrite Z.ldiff_spec in Hb. rewrite Z.land_spec.
    destruct (Z.testbit other n), (Z.testbit self n); done. }
  assert (∃ n, Z.testbit (Z.ldiff other self) n = true) as [n Hn].
  { destruct (decide (0 < Z.ldiff other self)).
    - eexists. by apply Z.bit_log2.
    - eexists. apply Z.bits_above_log2_neg; [lia|]. apply Z.lt_succ_diag_r. }
  rewrite Z.ldiff_spec in Hn.
  apply andb_true_iff in Hn as [? ?%negb_true_iff]. by exists n.
Qed.

Lemma contains_refl self : contains self self = true.
Proof. by apply contains_spec. Qed.

Lemma contains_trans a b c : contains a b = true → contains b c = true → contains a c = true.
Proof. rewrite !contains_spec. naive_solver. Qed.

Lemma contains_union a b c :
  contains a (union b c) = contains a b && contains a c.
Proof.
  apply eq_bool_prop_intro. rewrite !Is_true_true, andb_true_iff, !contains_spec.
  unfold union. split.
  - intros H. split; intros n Hn Ht; apply H; [done| |done|];
      rewrite Z.lor_spec, Ht; [done|apply orb_true_r].
  - intros [H1 H2] n Hn. rewrite Z.lor_spec, orb_true_iff. naive_solver.
Qed.

Lemma contains_intersect a b c :
  contains (intersect a b) c = contains a c && contains b c.
Proof.
  apply eq_bool_prop_intro. rewrite !Is_true_true, andb_true_iff, !contains_spec.
  unfold intersect. setoid_rewrite Z.land_spec. setoid_rewrite andb_true_iff. naive_solver.
Qed.

Lemma can_delegate_to_spec self subset :
  can_delegate_to self subset = contains self (union DELEGATE subset).
Proof. by rewrite contains_union. Qed.
End Perm.

(** ** Resource references *)
Module Res.

Inductive ResourceRef : Type :=
| Agent (task : Z)
| Memory (base length : Z)
| Network (host : string) (port : Z)
| Storage (path : string)
| Channel (name : string)
| Tool (name : string)
| Model (model_id : string)
| AgentSpawn
| System (name : string).

#[export] Instance ResourceRef_eq_dec : EqDecision ResourceRef.
Proof. solve_decision. Defined.

(** The arms in source order: the memory arm first, then [a == b], then the
    network and storage arms. *)
Definition is_subset_of (self parent : ResourceRef) : bool :=
  match self, parent with
  | Memory cb cl, Memory pb pl =>
      let child_end := saturating_add64 cb cl in
      let parent_end := saturating_add64 pb pl in
      (pb <=? cb) && (child_end <=? parent_end)
  | a, b =>
      if decide (a = b) then true
      else match a, b with
           | Network ch cp, Network ph pp =>
               (bool_decide (ph = "*") || bool_decide (ch = ph)) && ((pp =? 0) || (cp =? pp))
           | Storage child, Storage parent_path => String.prefix parent_path child
           | _, _ => false
           end
  end.

(** What a reference denotes: the addresses of a memory region, the endpoints a
    network reference admits (net/firewall.rs), the paths a storage reference
    names as a prefix. *)
Definition covers_addr (r : ResourceRef) (a : Z) : Prop :=
  match r with Memory b l => b ≤ a < b + l | _ => False end.

Definition admits (r : ResourceRef) (host : string) (port : Z) : bool :=
  match r with
  | Network h p => (bool_decide (h = "*") || bool_decide (h = host)) && ((p =? 0) || (p =? port))
  | _ => false
  end.

Lemma is_subset_of_refl r : is_subset_of r r = true.
Proof.
  unfold is_subset_of. destruct r; try case_decide; rewrite ?Z.leb_refl; done.
Qed.

(** The rules the subset test decides. *)
Inductive subset_of : ResourceRef → ResourceRef → Prop :=
| subset_same r : subset_of r r
| subset_memory cb cl pb pl :
    pb ≤ cb → saturating_add64 cb cl ≤ saturating_add64 pb pl →
    subset_of (Memory cb cl) (Memory pb pl)
| subset_network ch cp ph pp :
    ph = "*" ∨ ch = ph → pp = 0 ∨ cp = pp → subset_of (Network ch cp) (Network ph pp)
| subset_storage p s : subset_of (Storage (p +:+ s)) (Storage p).

Lemma is_subset_of_spec a b : is_subset_of a b = true ↔ subset_of a b.
Proof.
  split.
  - unfold is_subset_of. intros H.
    destruct a, b; repeat case_decide; simplify_eq; try apply subset_same;
      rewrite ?andb_true_iff, ?orb_true_iff, ?bool_decide_eq_true, ?Z.leb_le, ?Z.eqb_eq in H.
    all: first [ apply prefix_app_iff in H as [s ->]; apply subset_storage
               | destruct H; constructor; auto; naive_solver ].
  - intros [r|????|????|p s]; [apply is_subset_of_refl|..]; unfold is_subset_of;
      try case_decide; try done;
      rewrite ?andb_true_iff, ?orb_true_iff, ?bool_decide_eq_true, ?Z.leb_le, ?Z.eqb_eq; try done.
    apply prefix_app_iff. eauto.
Qed.

Lemma is_subset_of_trans a b c :
  is_subset_of a b = true → is_subset_of b c = true → is_subset_of a c = true.
Proof.
  rewrite !is_subset_of_spec. intros Hab Hbc.
  destruct Hab as [r|????|????|p s]; [done|..]; inversion Hbc; simplify_eq; try (by constructor).
  - constructor; lia.
  - constructor; naive_solver.
  - rewrite <- string_app_assoc. constructor.
Qed.
(** C36: the subset test is sound for what references denote.  Every endpoint a child network
    reference admits is admitted by the parent; every address of a child memory region whose
    end does not exceed the largest u64 lies in the parent region; a child storage path extends
    the parent path. *)
Theorem subset_denotation_sound (child parent : ResourceRef) :
  is_subset_of child parent = true →
  (∀ h p, admits child h p = true → admits parent h p = true) ∧
  (∀ cb cl, child = Memory cb cl → cb + cl ≤ U64_MAX → ∀ a, covers_addr child a → covers_addr parent a) ∧
  (∀ path, child = Storage path → ∃ pp s, parent = Storage pp ∧ path = pp +:+ s).
Proof.
  intros H. apply is_subset_of_spec in H as [r|cb cl pb pl Hb He|ch cp ph pp Hh Hp|p s].
  - split_and!; [done..|]. intros path ->. exists path, "". split; [done|].
    by rewrite string_app_nil_r.
  - split_and!; [done| |done]. intros ? ? [= <- <-] Hlt a. simpl. unfold saturating_add64 in He. lia.
  - split_and!; [|done..]. intros h p. simpl.
    rewrite !andb_true_iff, !orb_true_iff, !bool_decide_eq_true, !Z.eqb_eq.
    intros [[->| ->] [->| ->]]; naive_solver.
  - split_and!; [done..|]. intros path [= <-]. eauto.
Qed.

Lemma subset_denotation_sound_witness :
  is_subset_of (Network "api.local" 443) (Network "*" 443) = true ∧
  admits (Network "*" 443) "api.local" 443 = true.
Proof.
  split; [reflexivity|].
  apply (subset_denotation_sound (Network "api.local" 443) (Network "*" 443)); reflexivity.
Defined.

(** The saturating ends lose the last byte of the address space: a region that reaches
    address 2^64 - 1 passes as a subset of a region that stops one byte below it. *)
Lemma memory_subset_top_byte :
  is_subset_of (Memory 0x1000 (2 ^ 64 - 0x1000)) (Memory 0x1000 (2 ^ 64 - 1 - 0x1000)) = true ∧
  covers_addr (Memory 0x1000 (2 ^ 64 - 0x1000)) U64_MAX ∧
  ¬ covers_addr (Memory 0x1000 (2 ^ 64 - 1 - 0x1000)) U64_MAX.
Proof. split_and!; [reflexivity|..]; unfold covers_addr, U64_MAX; lia. Qed.

(** The storage test is a string prefix, not a path prefix: the directory of agent 10 passes
    as a subset of the directory of agent 1. *)
Lemma storage_prefix_confusion :
  is_subset_of (Storage "/agents/10/secret") (Storage "/agents/1") = true.
Proof. reflexivity. Qed.
End Res.

(** ** The capability table *)
Module CapTable.
Import Perm Res.

Record Capability : Type := mkCap {
  c_id : Z;
  c_resource : ResourceRef;
  c_permissions : PermissionBits;
  c_owner : Z;
  c_parent_cap : option Z;
  c_revoked : bool;
}.

Record CapabilityTable : Type := mkTable {
  capabilities : list (option Capability);
  next_id : Z;
}.

Inductive CapError : Type :=
| NotFound
| InsufficientPermissions
| InvalidDelegation
| Revoked
| NotOwner.

#[export] Instance Capability_eq_dec : EqDecision Capability.
Proof. solve_decision. Defined.
#[export] Instance CapError_eq_dec : EqDecision CapError.
Proof. solve_decision. Defined.
#[export] Instance CapabilityTable_eq_dec : EqDecision CapabilityTable.
Proof. solve_decision. Defined.

Definition new : CapabilityTable := {| capabilities := []; next_id := 1 |}.

(** [self.capabilities[idx] = Some(cap)] after growing the vector. *)
Definition put_cap (caps : list (option Capability)) (cap : Capability)
    : list (option Capability) :=
  let idx := Z.to_nat (c_id cap) in
  let grown := if decide (length caps ≤ idx)%nat then resize_with (S idx) None caps else caps in
  <[idx := Some cap]> grown.

Definition create_root (self : CapabilityTable) (owner : Z) (resource : ResourceRef)
    (permissions : PermissionBits) : outcome (Z * CapabilityTable) :=
  let id := next_id self in
  let? next := checked_add64 id 1 in
  let cap := {| c_id := id; c_resource := resource; c_permissions := permissions;
                c_owner := owner; c_parent_cap := None; c_revoked := false |} in
  Ret (id, {| capabilities := put_cap (capabilities self) cap; next_id := next |}).

Definition get (self : CapabilityTable) (id : Z) : result CapError Capability :=
  match capabilities self !! Z.to_nat id with
  | Some (Some cap) => if c_revoked cap then Err Revoked else Ok cap
  | _ => Err NotFound
  end.

Definition validate (self : CapabilityTable) (cap_id task_id : Z) (required : PermissionBits)
    : result CapError Capability :=
  match get self cap_id with
  | Err e => Err e
  | Ok cap =>
      if decide (c_owner cap ≠ task_id) then Err NotOwner
      else if negb (contains (c_permissions cap) required) then Err InsufficientPermissions
      else Ok cap
  end.

Definition delegate (source_id from to : Z) (permissions : PermissionBits)
    (resource_override : option ResourceRef) : cmd CapabilityTable CapError Z :=
  let! self := get_state in
  let! source := lift_result (λ e, e) (get self source_id) in
  if decide (c_owner source ≠ from) then throw NotOwner
  else if negb (can_delegate_to (c_permissions source) permissions) then throw InvalidDelegation
  else
    let! resource :=
      match resource_override with
      | Some r => if is_subset_of r (c_resource source) then ret r else throw InvalidDelegation
      | None => ret (c_resource source)
      end in
    let id := next_id self in
    let! next := lift_outcome (checked_add64 id 1) in
    let cap := {| c_id := id; c_resource := resource; c_permissions := permissions;
                  c_owner := to; c_parent_cap := Some source_id; c_revoked := false |} in
    let! _ := put_state {| capabilities := put_cap (capabilities self) cap; next_id := next |} in
    ret id.

Definition set_revoked (cap : Capability) : Capability :=
  {| c_id := c_id cap; c_resource := c_resource cap; c_permissions := c_permissions cap;
     c_owner := c_owner cap; c_parent_cap := c_parent_cap cap; c_revoked := true |}.

Definition is_live (slot : option Capability) : bool :=
  match slot with Some cap => negb (c_revoked cap) | None => false end.

Definition live_count (caps : list (option Capability)) : nat := length (filter is_live caps).

(** The children collected by the [filter_map] of revoke_recursive. *)
Definition live_child (cap_id : Z) (slot : option Capability) : option Z :=
  match slot with
  | Some c => if bool_decide (c_parent_cap c = Some cap_id) && negb (c_revoked c)
              then Some (c_id c) else None
  | None => None
  end.

Definition children_of (caps : list (option Capability)) (cap_id : Z) : list Z :=
  omap (live_child cap_id) caps.

(** The recursion marks a capability before it visits its children, so the number
    of live capabilities bounds its depth; [None] is exhausted fuel. *)
Fixpoint revoke_recursive (fuel : nat) (caps : list (option Capability)) (cap_id : Z)
    : option (nat * list (option Capability)) :=
  match fuel with
  | O => None
  | S fuel' =>
      match caps !! Z.to_nat cap_id with
      | Some (Some cap) =>
          if c_revoked cap then Some (O, caps)
          else
            let caps0 := <[Z.to_nat cap_id := Some (set_revoked cap)]> caps in
            foldl (λ acc child_id,
                     match acc with
                     | Some (count, cs) =>
                         match revoke_recursive fuel' cs child_id with
                         | Some (n, cs') => Some ((count + n)%nat, cs')
                         | None => None
                         end
                     | None => None
                     end) (Some (1%nat, caps0)) (children_of caps0 cap_id)
      | _ => Some (O, caps)
      end
  end.

(** The revoker owns the capability or its parent (revoked or not). *)
Definition authorized (self : CapabilityTable) (cap : Capability) (revoker : Z) : bool :=
  bool_decide (c_owner cap = revoker) ||
  match c_parent_cap cap with
  | Some pid => match capabilities self !! Z.to_nat pid with
                | Some (Some p) => bool_decide (c_owner p = revoker)
                | _ => false
                end
  | None => false
  end.

Definition revoke (cap_id revoker : Z) : cmd CapabilityTable CapError nat :=
  let! self := get_state in
  let! cap := lift_result (λ e, e) (get self cap_id) in
  if negb (authorized self cap revoker) then throw NotOwner
  else
    let! '(count, caps) :=
      lift_outcome (match revoke_recursive (S (live_count (capabilities self)))
                            (capabilities self) cap_id with
                    | Some r => Ret r
                    | None => Panic
                    end) in
    let! _ := put_state {| capabilities := caps; next_id := next_id self |} in
    ret count.

Definition active_count (self : CapabilityTable) : nat := live_count (capabilities self).

(** *** Live descendants *)

(** Slot [i] of the vector holds a capability that is not revoked. *)
Definition live (caps : list (option Capability)) (i : nat) : Prop :=
  ∃ c, caps !! i = Some (Some c) ∧ c_revoked c = false.

(** [j] is [i] or is derived from it through capabilities that are all live. *)
Inductive live_desc (caps : list (option Capability)) (i : nat) : nat → Prop :=
| live_desc_refl : live caps i → live_desc caps i i
| live_desc_step j k c :
    live_desc caps i j →
    caps !! k = Some (Some c) → c_revoked c = false → c_parent_cap c = Some (Z.of_nat j) →
    live_desc caps i k.

(** [caps'] is [caps] with exactly the slots of [D] revoked. *)
Definition marks (caps : list (option Capability)) (D : nat → Prop)
    (caps' : list (option Capability)) : Prop :=
  length caps' = length caps ∧
  ∀ j slot, caps !! j = Some slot →
    (D j ∧ ∃ c, slot = Some c ∧ caps' !! j = Some (Some (set_revoked c))) ∨
    (¬ D j ∧ caps' !! j = Some slot).

Definition ids_ok (caps : list (option Capability)) : Prop :=
  ∀ k c, caps !! k = Some (Some c) → c_id c = Z.of_nat k.

Lemma live_desc_live caps i j : live_desc caps i j → live caps j.
Proof. destruct 1; [done|]. by eexists. Qed.

Lemma live_desc_root caps i j : live_desc caps i j → live caps i.
Proof. induction 1; done. Qed.

(** Slots whose parent is dead root disjoint live trees. *)
Definition dead_parent (caps : list (option Capability)) (i : nat) : Prop :=
  ∀ c p, caps !! i = Some (Some c) → c_parent_cap c = Some (Z.of_nat p) → ¬ live caps p.

Lemma live_desc_disjoint caps a b k :
  dead_parent caps a → dead_parent caps b →
  live_desc caps a k → live_desc caps b k → a = b.
Proof.
  intros Ha Hb Hak. revert Hb. induction Hak as [|j k c Haj IH Hk Hr Hp]; intros Hb Hbk.
  - destruct Hbk as [|j k c Hbj Hk Hr Hp]; [done|].
    exfalso. eapply Ha; [done..|]. by eapply live_desc_live.
  - inversion Hbk as [|j' k' c' Hbj Hk' Hr' Hp']; simplify_eq.
    + exfalso. eapply Hb; [done..|]. by eapply live_desc_live.
    + auto.
Qed.

Lemma marks_slot_inv caps D caps' j c' :
  marks caps D caps' → caps' !! j = Some (Some c') →
  ∃ c, caps !! j = Some (Some c) ∧ c_id c' = c_id c ∧ c_parent_cap c' = c_parent_cap c ∧
       (c_revoked c' = false → c' = c ∧ ¬ D j) ∧
       (c' = c ∨ c' = set_revoked c ∧ D j).
Proof.
  intros [Hlen Hm] Hj. destruct (caps !! j) as [slot|] eqn:E.
  - destruct (Hm _ _ E) as [(HD & c & -> & E')|[HD E']]; rewrite Hj in E'; simplify_eq/=;
      eexists; split; naive_solver.
  - apply lookup_ge_None in E. apply lookup_lt_Some in Hj. lia.
Qed.

Lemma marks_live caps D caps' j : marks caps D caps' → live caps' j ↔ live caps j ∧ ¬ D j.
Proof.
  intros Hm. split.
  - intros (c' & Hj & Hr). destruct (marks_slot_inv _ _ _ _ _ Hm Hj) as (c & Hc & _ & _ & H & _).
    destruct (H Hr) as [-> ?]. split; [by exists c|done].
  - intros [(c & Hj & Hr) HD]. destruct Hm as [_ Hm].
    destruct (Hm _ _ Hj) as [[? _]|[_ ?]]; [done|]. by exists c.
Qed.

Lemma marks_ids_ok caps D caps' : marks caps D caps' → ids_ok caps → ids_ok caps'.
Proof.
  intros Hm Hid k c' Hk. destruct (marks_slot_inv _ _ _ _ _ Hm Hk) as (c & Hc & -> & _). auto.
Qed.

Lemma marks_dead_parent caps D caps' i :
  marks caps D caps' → dead_parent caps i → dead_parent caps' i.
Proof.
  intros Hm Hd c' p Hc Hp Hl.
  destruct (marks_slot_inv _ _ _ _ _ Hm Hc) as (c & Hc0 & _ & Hpar & _).
  apply (marks_live _ _ _ _ Hm) in Hl as [Hl _]. rewrite Hpar in Hp. by eapply Hd.
Qed.

Lemma marks_trans caps D1 caps1 D2 caps2 (D : nat → Prop) :
  marks caps D1 caps1 → marks caps1 D2 caps2 →
  (∀ j, D1 j ∨ D2 j ↔ D j) → marks caps D caps2.
Proof.
  intros [Hl1 Hm1] [Hl2 Hm2] HD. split; [lia|]. intros j slot Hj.
  destruct (Hm1 _ _ Hj) as [(H1 & c & -> & E1)|[H1 E1]];
    destruct (Hm2 _ _ E1) as [(H2 & c2 & ? & E2)|[H2 E2]]; simplify_eq.
  - left. split; [naive_solver|]. by exists c.
  - left. split; [naive_solver|]. by exists c.
  - left. split; [naive_solver|]. by exists c2.
  - right. naive_solver.
Qed.

(** Trees rooted elsewhere are not affected by the marking of one tree. *)
Lemma live_desc_after_marks caps a caps' b j :
  marks caps (live_desc caps a) caps' → a ≠ b → dead_parent caps a → dead_parent caps b →
  live_desc caps' b j ↔ live_desc caps b j.
Proof.
  intros Hm Hne Ha Hb. split; induction 1 as [Hl|j k c Hd IH Hk Hr Hp].
  - constructor. by apply (marks_live _ _ _ _ Hm) in Hl as [? _].
  - destruct (marks_slot_inv _ _ _ _ _ Hm Hk) as (c0 & Hc0 & _ & Hpar & H & _).
    destruct (H Hr) as [-> _]. by econstructor.
  - constructor. apply (marks_live _ _ _ _ Hm). split; [done|]. intros Hab.
    apply Hne. eapply live_desc_disjoint; [..|exact Hab|constructor]; done.
  - assert (live_desc caps b k) as Hbk by by econstructor.
    assert (live caps' k) as (c' & Hc' & Hr').
    { apply (marks_live _ _ _ _ Hm). split; [by exists c|]. intros Hak.
      apply Hne. by eapply live_desc_disjoint. }
    destruct (marks_slot_inv _ _ _ _ _ Hm Hc') as (c0 & Hc0 & _ & Hpar & H & _).
    destruct (H Hr') as [-> _]. simplify_eq. by econstructor.
Qed.

(** *** Revocation marks exactly the live subtree *)
Lemma live_count_insert caps i x y :
  caps !! i = Some x →
  (live_count (<[i := y]> caps) + Nat.b2n (is_live x) = live_count caps + Nat.b2n (is_live y))%nat.
Proof.
  intros Hi. rewrite <- (take_drop_middle _ _ _ Hi) at 2.
  rewrite insert_take_drop by (by eapply lookup_lt_Some).
  unfold live_count. rewrite !filter_app, !filter_cons, !length_app.
  destruct (is_live x), (is_live y); repeat case_decide; simpl in *; try done; lia.
Qed.

Lemma live_child_Some cap_id slot x :
  live_child cap_id slot = Some x →
  ∃ c, slot = Some c ∧ c_parent_cap c = Some cap_id ∧ c_revoked c = false ∧ x = c_id c.
Proof.
  destruct slot as [c|]; [|done]. unfold live_child. case_bool_decide; [|done].
  destruct (c_revoked c) eqn:E; [done|]. intros [= <-]. eauto.
Qed.

Lemma children_of_offset n caps cap_id :
  (∀ k c, caps !! k = Some (Some c) → c_id c = Z.of_nat (n + k)) →
  ∃ ks, children_of caps cap_id = Z.of_nat <$> ks ∧ NoDup ks ∧ Forall (λ k, n ≤ k)%nat ks ∧
    ∀ k, (n + k)%nat ∈ ks ↔
      ∃ c, caps !! k = Some (Some c) ∧ c_parent_cap c = Some cap_id ∧ c_revoked c = false.
Proof.
  revert n. induction caps as [|slot caps IH]; intros n Hid.
  { exists []. repeat split; try constructor; try done; intros; set_solver. }
  destruct (IH (S n)) as (ks & Hks & Hnd & Hge & Hin).
  { intros k c Hk. rewrite (Hid (S k) c Hk). lia. }
  assert (n ∉ ks) as Hn.
  { intros Hn. rewrite Forall_forall in Hge. specialize (Hge _ Hn). lia. }
  assert (Hge' : Forall (λ k, n ≤ k)%nat ks) by (eapply Forall_impl; [done|simpl; lia]).
  assert (Hrec : ∀ k, (n + S k)%nat ∈ ks ↔ ∃ c, caps !! k = Some (Some c) ∧
            c_parent_cap c = Some cap_id ∧ c_revoked c = false).
  { intros k. rewrite <- Hin. by replace (n + S k)%nat with (S n + k)%nat by lia. }
  change (children_of (slot :: caps) cap_id) with
    (match live_child cap_id slot with
     | Some x => x :: children_of caps cap_id
     | None => children_of caps cap_id
     end).
  destruct (live_child cap_id slot) as [x|] eqn:E.
  - apply live_child_Some in E as (c & -> & Hp & Hr & ->).
    exists (n :: ks). rewrite Hks, (Hid O c eq_refl). split; [simpl; do 2 f_equal; lia|].
    split; [by constructor|]. split; [constructor; [lia|done]|].
    intros [|k]; rewrite elem_of_cons.
    + rewrite Nat.add_0_r. split; [eauto|by left].
    + rewrite Hrec. split; [intros [?|?]; [lia|done]|by right].
  - exists ks. split; [done|]. split; [done|]. split; [done|].
    intros [|k]; [|apply Hrec]. rewrite Nat.add_0_r. split; [done|].
    intros (c & Hc & Hp & Hr). simplify_eq/=. rewrite bool_decide_eq_true_2, Hr in E; done.
Qed.

Lemma children_of_spec caps i :
  ids_ok caps →
  ∃ ks, children_of caps (Z.of_nat i) = Z.of_nat <$> ks ∧ NoDup ks ∧
    ∀ k, k ∈ ks ↔ ∃ c, caps !! k = Some (Some c) ∧
                       c_parent_cap c = Some (Z.of_nat i) ∧ c_revoked c = false.
Proof.
  intros Hid. destruct (children_of_offset 0 caps (Z.of_nat i) Hid) as (ks & ? & ? & _ & Hin).
  exists ks. by split_and!.
Qed.

(** The loop over the children, given the specification of the recursive call. *)
Lemma revoke_children_spec (rec : list (option Capability) → Z → option (nat * list (option Capability)))
    bound caps ks count :
  (∀ cs k, ids_ok cs → (live_count cs < bound)%nat →
     ∃ n cs', rec cs (Z.of_nat k) = Some (n, cs') ∧ marks cs (live_desc cs k) cs' ∧
              (live_count cs' + n = live_count cs)%nat) →
  ids_ok caps → (live_count caps < bound)%nat → NoDup ks →
  (∀ k, k ∈ ks → dead_parent caps k) →
  ∃ n caps',
    foldl (λ acc child_id,
             match acc with
             | Some (count, cs) =>
                 match rec cs child_id with
                 | Some (n, cs') => Some ((count + n)%nat, cs')
                 | None => None
                 end
             | None => None
             end) (Some (count, caps)) (Z.of_nat <$> ks) = Some ((count + n)%nat, caps') ∧
    marks caps (λ j, ∃ k, k ∈ ks ∧ live_desc caps k j) caps' ∧
    (live_count caps' + n = live_count caps)%nat.
Proof.
  intros Hrec. revert caps count. induction ks as [|k ks IH]; intros caps count Hid Hlt Hnd Hdead.
  { exists O, caps. split; [by rewrite Nat.add_0_r|]. split; [|lia].
    split; [done|]. intros j slot Hj. right. split; [|done]. set_solver. }
  apply NoDup_cons in Hnd as [Hk Hnd].
  destruct (Hrec caps k Hid Hlt) as (n & caps1 & E & Hm & Hc).
  destruct (IH caps1 (count + n)%nat) as (n' & caps2 & E' & Hm' & Hc'); [by eapply marks_ids_ok|lia|done|..].
  { intros k' Hk'. eapply marks_dead_parent; [done|]. apply Hdead. set_solver. }
  exists (n + n')%nat, caps2. cbn [fmap list_fmap foldl]. rewrite E, E'.
  split; [do 2 f_equal; lia|]. split; [|lia].
  eapply marks_trans; [done..|]. intros j. cbn.
  assert (∀ k', k' ∈ ks → live_desc caps1 k' j ↔ live_desc caps k' j) as Heq.
  { intros k' Hk'. eapply live_desc_after_marks; [done|set_solver|apply Hdead; set_solver..]. }
  setoid_rewrite elem_of_cons. naive_solver.
Qed.

(** Unfolding one level: the subtree is the root and the subtrees of its live children. *)
Lemma live_desc_unfold caps i cap (ks : list nat) caps0 :
  caps !! i = Some (Some cap) → c_revoked cap = false →
  caps0 = <[i := Some (set_revoked cap)]> caps →
  (∀ k, k ∈ ks ↔ ∃ c, caps0 !! k = Some (Some c) ∧
                      c_parent_cap c = Some (Z.of_nat i) ∧ c_revoked c = false) →
  ∀ j, j = i ∨ (∃ k, k ∈ ks ∧ live_desc caps0 k j) ↔ live_desc caps i j.
Proof.
  intros Hi Hr -> Hks j.
  assert (Hlook : ∀ k c, k ≠ i → (<[i := Some (set_revoked cap)]> caps) !! k = Some (Some c) ↔
                         caps !! k = Some (Some c)).
  { intros k c Hne. by rewrite list_lookup_insert_ne. }
  assert (Hdead : ∀ c, (<[i := Some (set_revoked cap)]> caps) !! i = Some (Some c) → c_revoked c = true).
  { intros c. rewrite list_lookup_insert_eq by (by eapply lookup_lt_Some). by intros [= <-]. }
  split.
  - intros [->|(k & Hk & Hd)]; [constructor; by exists cap|].
    apply Hks in Hk as (c & Hk & Hp & Hrk).
    assert (k ≠ i) by (intros ->; specialize (Hdead _ Hk); congruence).
    induction Hd as [|j k' c' Hd IH Hk' Hr' Hp'].
    + eapply live_desc_step; [constructor; by exists cap|by apply Hlook|done..].
    + assert (k' ≠ i) by (intros ->; specialize (Hdead _ Hk'); congruence).
      eapply live_desc_step; [exact IH|by apply Hlook|done..].
  - induction 1 as [|j k c Hd IH Hk Hrk Hp]; [by left|].
    destruct (decide (k = i)) as [->|Hne]; [by left|]. right.
    apply Hlook in Hk; [|done]. destruct IH as [->|(k' & Hk' & Hd')].
    + exists k. split; [apply Hks; eauto|constructor; by exists c].
    + exists k'. split; [done|]. by econstructor.
Qed.

Lemma revoke_recursive_spec fuel caps i :
  ids_ok caps → (live_count caps < fuel)%nat →
  ∃ n caps', revoke_recursive fuel caps (Z.of_nat i) = Some (n, caps') ∧
             marks caps (live_desc caps i) caps' ∧ (live_count caps' + n = live_count caps)%nat.
Proof.
  revert caps i. induction fuel as [|fuel IH]; intros caps i Hid Hlt; [lia|].
  cbn [revoke_recursive]. rewrite Nat2Z.id.
  assert (Hnone : ¬ live caps i → marks caps (live_desc caps i) caps).
  { intros Hl. split; [done|]. intros j slot Hj. right. split; [|done].
    intros Hd. apply Hl. by eapply live_desc_root. }
  destruct (caps !! i) as [[cap|]|] eqn:Hi.
  2, 3: exists O, caps; split; [done|]; split; [|lia]; apply Hnone; intros (c & Hc & _); congruence.
  destruct (c_revoked cap) eqn:Hr.
  { exists O, caps. split; [done|]. split; [|lia]. apply Hnone. intros (c & Hc & ?). congruence. }
  set (caps0 := <[i := Some (set_revoked cap)]> caps).
  assert (Hm0 : marks caps (λ j, j = i) caps0).
  { split; [apply length_insert|]. intros j slot Hj. unfold caps0. destruct (decide (j = i)) as [->|Hne].
    - left. split; [done|]. simplify_eq. exists cap. split; [done|].
      apply list_lookup_insert_eq. by eapply lookup_lt_Some.
    - right. by rewrite list_lookup_insert_ne. }
  assert (Hid0 : ids_ok caps0) by by eapply marks_ids_ok.
  assert (Hc0 : (live_count caps0 + 1 = live_count caps)%nat).
  { unfold caps0. pose proof (live_count_insert caps i (Some cap) (Some (set_revoked cap)) Hi) as H.
    simpl in H. rewrite Hr in H. simpl in H. lia. }
  destruct (children_of_spec caps0 i Hid0) as (ks & Hks & Hnd & Hin). rewrite Hks.
  destruct (revoke_children_spec (revoke_recursive fuel) fuel caps0 ks 1)
    as (n & caps' & E & Hm & Hc); [exact IH|done|lia|done|..].
  { intros k Hk c p Hck Hp Hl. apply Hin in Hk as (c' & ? & ? & ?). simplify_eq.
    apply (marks_live _ _ _ _ Hm0) in Hl as [_ Hl]. apply Hl. lia. }
  exists (1 + n)%nat, caps'. split; [exact E|]. split; [|lia].
  eapply marks_trans; [exact Hm0|exact Hm|]. by eapply live_desc_unfold.
Qed.

(** *** The table invariant *)
Record table_wf (t : CapabilityTable) : Prop := {
  wf_next : 1 ≤ next_id t ≤ U64_MAX;
  wf_len : Z.of_nat (length (capabilities t)) ≤ next_id t;
  wf_ids : ids_ok (capabilities t);
  wf_zero : ∀ k c, capabilities t !! k = Some (Some c) → (1 ≤ k)%nat;
  wf_parent : ∀ k c p, capabilities t !! k = Some (Some c) → c_parent_cap c = Some p →
    ∃ pc, 1 ≤ p < Z.of_nat k ∧ capabilities t !! Z.to_nat p = Some (Some pc) ∧
          can_delegate_to (c_permissions pc) (c_permissions c) = true ∧
          is_subset_of (c_resource c) (c_resource pc) = true ∧
          (c_revoked c = false → c_revoked pc = false);
}.

(** [j] is [i] or derived from it by any number of delegations. *)
Inductive derived (caps : list (option Capability)) (i : nat) : nat → Prop :=
| derived_refl c : caps !! i = Some (Some c) → derived caps i i
| derived_step j k c :
    derived caps i j → caps !! k = Some (Some c) → c_parent_cap c = Some (Z.of_nat j) →
    derived caps i k.

(** One call on the table; delegate and revoke may fail. *)
Inductive cap_step (t : CapabilityTable) : CapabilityTable → Prop :=
| step_create_root owner r perms id t' :
    create_root t owner r perms = Ret (id, t') → cap_step t t'
| step_delegate src from to perms r res t' :
    delegate src from to perms r t = Ret (res, t') → cap_step t t'
| step_revoke id revoker res t' :
    revoke id revoker t = Ret (res, t') → cap_step t t'.

Lemma lookup_put_cap caps cap k :
  put_cap caps cap !! k =
    if decide (k = Z.to_nat (c_id cap)) then Some (Some cap)
    else match caps !! k with
         | Some slot => Some slot
         | None => if decide (k < Z.to_nat (c_id cap))%nat then Some None else None
         end.
Proof.
  unfold put_cap. case_decide as Hlen; case_decide as Hk; subst.
  - apply list_lookup_insert_eq. rewrite length_resize_with; lia.
  - rewrite list_lookup_insert_ne by done. rewrite lookup_resize_with by lia.
    destruct (caps !! k) eqn:E; [done|]. repeat case_decide; (done || lia).
  - apply list_lookup_insert_eq. lia.
  - rewrite list_lookup_insert_ne by done. destruct (caps !! k) eqn:E; [done|].
    apply lookup_ge_None in E. rewrite decide_False by lia. done.
Qed.

Lemma length_put_cap caps cap :
  length (put_cap caps cap) = Nat.max (length caps) (S (Z.to_nat (c_id cap))).
Proof.
  unfold put_cap. rewrite length_insert. case_decide; [rewrite length_resize_with|]; lia.
Qed.

Lemma put_cap_wf t cap :
  table_wf t → next_id t + 1 ≤ U64_MAX → c_id cap = next_id t →
  (∀ p, c_parent_cap cap = Some p →
    ∃ pc, capabilities t !! Z.to_nat p = Some (Some pc) ∧ 0 ≤ p ∧
          can_delegate_to (c_permissions pc) (c_permissions cap) = true ∧
          is_subset_of (c_resource cap) (c_resource pc) = true ∧ c_revoked pc = false) →
  table_wf {| capabilities := put_cap (capabilities t) cap; next_id := next_id t + 1 |}.
Proof.
  intros [Hn Hl Hid Hz Hp] Hmax Hcid Hpar.
  assert (Hold : ∀ k c, put_cap (capabilities t) cap !! k = Some (Some c) →
            (k = Z.to_nat (next_id t) ∧ c = cap) ∨
            ((k < Z.to_nat (next_id t))%nat ∧ capabilities t !! k = Some (Some c))).
  { intros k c. rewrite lookup_put_cap, Hcid. case_decide; [naive_solver|].
    destruct (capabilities t !! k) eqn:E.
    - intros [= ->]. right. split; [|done]. apply lookup_lt_Some in E. lia.
    - case_decide; naive_solver. }
  assert (Hkeep : ∀ k c, capabilities t !! k = Some (Some c) →
            put_cap (capabilities t) cap !! k = Some (Some c)).
  { intros k c Hk. rewrite lookup_put_cap, Hk, Hcid. rewrite decide_False; [done|].
    apply lookup_lt_Some in Hk. lia. }
  split; simpl.
  - lia.
  - rewrite length_put_cap, Hcid. lia.
  - intros k c Hk. destruct (Hold _ _ Hk) as [[-> ->]|[_ ?]]; [lia|auto].
  - intros k c Hk. destruct (Hold _ _ Hk) as [[-> ->]|[_ ?]]; [lia|eauto].
  - intros k c p Hk Hcp. destruct (Hold _ _ Hk) as [[-> ->]|[_ Hk0]].
    + destruct (Hpar _ Hcp) as (pc & Hpc & ? & ? & ? & ?). exists pc.
      pose proof (Hz _ _ Hpc). pose proof (lookup_lt_Some _ _ _ Hpc).
      split; [lia|]. split; [by apply Hkeep|]. by split_and!.
    + destruct (Hp _ _ _ Hk0 Hcp) as (pc & ? & Hpc & ? & ? & ?). exists pc.
      split; [lia|]. split; [by apply Hkeep|]. by split_and!.
Qed.

Lemma new_wf : table_wf new.
Proof. split; simpl; try done; unfold U64_MAX; lia. Qed.

Lemma get_Ok t id c :
  get t id = Ok c ↔ capabilities t !! Z.to_nat id = Some (Some c) ∧ c_revoked c = false.
Proof.
  unfold get. destruct (capabilities t !! Z.to_nat id) as [[c'|]|]; [|naive_solver..].
  destruct (c_revoked c') eqn:E; split; intros; destruct_and?; simplify_eq; auto; congruence.
Qed.

Lemma create_root_wf t owner r perms id t' :
  table_wf t → create_root t owner r perms = Ret (id, t') → table_wf t'.
Proof.
  intros Hwf H. unfold create_root in H.
  destruct (checked_add64 (next_id t) 1) as [n|] eqn:E; simplify_eq/=.
  apply checked_add64_Ret in E as [-> ?]. by apply put_cap_wf.
Qed.

(** Every way [delegate] can end. *)
Lemma delegate_cases src from to perms r t res t' :
  delegate src from to perms r t = Ret (res, t') →
  (∃ e, res = Err e ∧ t' = t) ∨
  (∃ source resource,
     get t src = Ok source ∧ c_owner source = from ∧
     can_delegate_to (c_permissions source) perms = true ∧
     resource = default (c_resource source) r ∧
     is_subset_of resource (c_resource source) = true ∧
     next_id t + 1 ≤ U64_MAX ∧ res = Ok (next_id t) ∧
     t' = {| capabilities := put_cap (capabilities t)
               {| c_id := next_id t; c_resource := resource; c_permissions := perms;
                  c_owner := to; c_parent_cap := Some src; c_revoked := false |};
             next_id := next_id t + 1 |}).
Proof.
  unfold delegate, cmd_bind, get_state, lift_result. intros H.
  destruct (get t src) as [source|e] eqn:Eg; [|simplify_eq; eauto].
  case_decide; [unfold throw in H; simplify_eq; eauto|].
  destruct (can_delegate_to _ _) eqn:Ed; [|unfold throw in H; simplify_eq/=; eauto].
  simpl in H. unfold lift_outcome, put_state, ret, throw in H.
  destruct r as [r|]; [destruct (is_subset_of r (c_resource source)) eqn:Es; [|simplify_eq; eauto]|];
    destruct (checked_add64 (next_id t) 1) as [n|] eqn:E; simplify_eq/=;
    apply checked_add64_Ret in E as [-> ?]; right; eexists source, _;
    split_and!; try done; apply is_subset_of_refl.
Qed.

Lemma delegate_wf src from to perms r t res t' :
  table_wf t → delegate src from to perms r t = Ret (res, t') → table_wf t'.
Proof.
  intros Hwf [(e & -> & ->)|(source & resource & Hg & _ & Hd & -> & Hs & Hn & -> & ->)]%delegate_cases;
    [done|].
  apply put_cap_wf; [done..|]. simpl. intros p [= <-]. apply get_Ok in Hg as [Hg Hr].
  exists source. split; [done|]. split; [|done].
  pose proof (wf_zero _ Hwf _ _ Hg). lia.
Qed.

(** Every way [revoke] can end on a table whose ids match the slots. *)
Lemma revoke_cases id revoker t :
  table_wf t →
  (∃ e, revoke id revoker t = Ret (Err e, t) ∧
        (get t id = Err e ∨ ∃ c, get t id = Ok c ∧ authorized t c revoker = false ∧ e = NotOwner)) ∨
  (∃ c n caps', get t id = Ok c ∧ authorized t c revoker = true ∧
     revoke id revoker t = Ret (Ok n, {| capabilities := caps'; next_id := next_id t |}) ∧
     marks (capabilities t) (live_desc (capabilities t) (Z.to_nat id)) caps' ∧
     (live_count caps' + n = live_count (capabilities t))%nat).
Proof.
  intros Hwf. unfold revoke, cmd_bind, get_state, lift_result.
  destruct (get t id) as [c|e] eqn:Eg; [|left; eauto].
  destruct (authorized t c revoker) eqn:Ea; cbn [negb]; [|left; unfold throw; eauto 10].
  right. apply get_Ok in Eg as [Hg Hr]. pose proof (wf_zero _ Hwf _ _ Hg) as Hz.
  destruct (revoke_recursive_spec (S (live_count (capabilities t))) (capabilities t) (Z.to_nat id))
    as (n & caps' & E & Hm & Hc); [apply Hwf|lia|].
  rewrite Z2Nat.id in E by lia. exists c, n, caps'. unfold lift_outcome. rewrite E. by split_and!.
Qed.

Lemma revoke_wf id revoker t res t' :
  table_wf t → revoke id revoker t = Ret (res, t') → table_wf t'.
Proof.
  intros Hwf H. destruct (revoke_cases id revoker t Hwf)
    as [(e & E & _)|(c & n & caps' & _ & _ & E & Hm & _)]; rewrite H in E; simplify_eq; [done|].
  destruct Hwf as [Hn Hl Hid Hz Hp]. pose proof Hm as [Hlen _]. split; simpl.
  - done.
  - lia.
  - by eapply marks_ids_ok.
  - intros k c' Hk. destruct (marks_slot_inv _ _ _ _ _ Hm Hk) as (? & ? & _). eauto.
  - intros k c' p Hk Hcp.
    destruct (marks_slot_inv _ _ _ _ _ Hm Hk) as (c0 & Hc0 & _ & Hpar & Hlive & Hor).
    rewrite Hpar in Hcp. destruct (Hp _ _ _ Hc0 Hcp) as (pc & Hlt & Hpc & Hcd & Hsub & Hcl).
    assert (c_permissions c' = c_permissions c0 ∧ c_resource c' = c_resource c0) as [-> ->]
      by (by destruct Hor as [->|[-> _]]).
    destruct Hm as [_ Hm]. destruct (Hm _ _ Hpc) as [(HD & pc' & ? & Hpc')|[_ Hpc']]; simplify_eq.
    + exists (set_revoked pc'). do 4 (split; [done|]). intros Hr. exfalso.
      destruct (Hlive Hr) as [-> HnD]. apply HnD. eapply live_desc_step; [exact HD|done..|].
      rewrite Hcp. f_equal. lia.
    + exists pc. do 4 (split; [done|]). intros Hr. destruct (Hlive Hr) as [-> _]. auto.
Qed.

Lemma derived_live_desc t i j c :
  table_wf t → derived (capabilities t) i j →
  capabilities t !! j = Some (Some c) → c_revoked c = false → live_desc (capabilities t) i j.
Proof.
  intros Hwf Hd. revert c. induction Hd as [c0 Hi|j k c0 Hd IH Hk Hp]; intros c Hc Hr.
  - constructor. by exists c.
  - simplify_eq. destruct (wf_parent _ Hwf _ _ _ Hk Hp) as (pc & _ & Hpc & _ & _ & Hcl).
    rewrite Nat2Z.id in Hpc. eapply live_desc_step; eauto.
Qed.

Lemma live_desc_derived caps i j : live_desc caps i j → derived caps i j.
Proof. induction 1 as [(c & ? & _)|]; [by econstructor|by econstructor]. Qed.

Lemma derived_attenuates t i j ci cj :
  table_wf t → derived (capabilities t) i j →
  capabilities t !! i = Some (Some ci) → capabilities t !! j = Some (Some cj) →
  contains (c_permissions ci) (c_permissions cj) = true ∧
  is_subset_of (c_resource cj) (c_resource ci) = true ∧
  (i ≠ j → contains (c_permissions ci) DELEGATE = true).
Proof.
  intros Hwf Hd Hi. revert cj. induction Hd as [|j k c Hd IH Hk Hp]; intros cj Hj; simplify_eq.
  - split_and!; [apply contains_refl|apply is_subset_of_refl|done].
  - destruct (wf_parent _ Hwf _ _ _ Hk Hp) as (pc & Hlt & Hpc & Hcd & Hsub & _).
    rewrite Nat2Z.id in Hpc. destruct (IH _ Hpc) as (Hperm & Hres & Hdel).
    unfold can_delegate_to in Hcd. apply andb_true_iff in Hcd as [Hcd1 Hcd2].
    split_and!; [by eapply contains_trans|by eapply is_subset_of_trans|].
    intros _. by eapply contains_trans.
Qed.

(** *** Properties *)

(** C4: every table reached from the empty one by create_root, delegate and revoke calls
    (failed calls included) is well formed: ids are slot numbers, a child is younger than its
    parent, holds no permission or resource its parent lacks, its parent holds DELEGATE, and a
    live capability never hangs below a revoked one. *)
Theorem table_reachable_wf (t : CapabilityTable) : rtc cap_step new t → table_wf t.
Proof.
  intros H. refine (rtc_ind_r table_wf new _ _ t H); [apply new_wf|].
  intros t1 t2 _ Hs Hwf. destruct Hs; eauto using create_root_wf, delegate_wf, revoke_wf.
Qed.

Definition demo_cap1 : Capability :=
  {| c_id := 1; c_resource := Storage "/a"; c_permissions := ALL;
     c_owner := 7; c_parent_cap := None; c_revoked := false |}.
Definition demo_cap2 : Capability :=
  {| c_id := 2; c_resource := Storage "/a/b"; c_permissions := READ;
     c_owner := 8; c_parent_cap := Some 1; c_revoked := false |}.
Definition demo_root : CapabilityTable :=
  {| capabilities := put_cap [] demo_cap1; next_id := 2 |}.
Definition demo_table : CapabilityTable :=
  {| capabilities := put_cap (capabilities demo_root) demo_cap2; next_id := 3 |}.

Lemma demo_step1 : cap_step new demo_root.
Proof. by eapply (step_create_root _ 7 (Storage "/a") ALL 1). Qed.

Lemma demo_step2 : cap_step demo_root demo_table.
Proof. by eapply (step_delegate _ 1 7 8 READ (Some (Storage "/a/b")) (Ok 2)). Qed.

Lemma demo_wf : table_wf demo_table.
Proof.
  eapply (delegate_wf 1 7 8 READ (Some (Storage "/a/b")) demo_root (Ok 2)); [|done].
  by eapply (create_root_wf new 7 (Storage "/a") ALL 1); [apply new_wf|].
Qed.

Lemma table_reachable_wf_witness : table_wf demo_table.
Proof.
  apply table_reachable_wf. eapply rtc_l; [exact demo_step1|].
  eapply rtc_l; [exact demo_step2|]. apply rtc_refl.
Defined.

(** C5: on a well-formed table revoke never panics; a refusal changes nothing; a success
    revokes every capability derived from the named one, at any depth, changes no other slot,
    and returns the number of capabilities that went from active to revoked. *)
Theorem revoke_cascades (t : CapabilityTable) (id revoker : Z) :
  table_wf t →
  match revoke id revoker t with
  | Panic => False
  | Ret (Err e, t') =>
      t' = t ∧ (get t id = Err e ∨
                ∃ c, get t id = Ok c ∧ authorized t c revoker = false ∧ e = NotOwner)
  | Ret (Ok n, t') =>
      (∃ c, get t id = Ok c ∧ authorized t c revoker = true) ∧
      next_id t' = next_id t ∧
      (∀ j, derived (capabilities t) (Z.to_nat id) j → get t' (Z.of_nat j) = Err Revoked) ∧
      (∀ j, ¬ derived (capabilities t) (Z.to_nat id) j →
            capabilities t' !! j = capabilities t !! j) ∧
      (active_count t' + n = active_count t)%nat
  end.
Proof.
  intros Hwf. destruct (revoke_cases id revoker t Hwf)
    as [(e & -> & H)|(c & n & caps' & Hg & Ha & -> & Hm & Hc)]; [done|].
  split; [by exists c|]. split; [done|]. split; [|split; [|done]].
  - intros j Hd. assert (∃ cj, capabilities t !! j = Some (Some cj)) as [cj Hj] by (destruct Hd; eauto).
    destruct Hm as [_ Hm]. unfold get. rewrite Nat2Z.id. simpl.
    destruct (Hm _ _ Hj) as [(_ & c' & _ & ->)|[Hnd ->]]; [done|].
    destruct (c_revoked cj) eqn:Er; [done|]. exfalso. apply Hnd. by eapply derived_live_desc.
  - intros j Hd. simpl. destruct Hm as [Hlen Hm].
    destruct (capabilities t !! j) as [slot|] eqn:Hj.
    + destruct (Hm _ _ Hj) as [[HD _]|[_ ?]]; [|done]. exfalso. by apply Hd, live_desc_derived.
    + apply lookup_ge_None in Hj. apply lookup_ge_None. lia.
Qed.

Lemma revoke_cascades_witness :
  revoke 1 7 demo_table = Ret (Ok 2%nat, {| capabilities := match revoke 1 7 demo_table with
                                                    | Ret (_, t') => capabilities t'
                                                    | Panic => []
                                                    end; next_id := 3 |}) ∧
  match revoke 1 7 demo_table with
  | Ret (Ok n, t') => (active_count t' + n = active_count demo_table)%nat
  | _ => False
  end.
Proof.
  split; [vm_compute; reflexivity|].
  pose proof (revoke_cascades demo_table 1 7 demo_wf) as H.
  destruct (revoke 1 7 demo_table) as [[[n|e] t']|] eqn:E; [apply H|..]; vm_compute in E; discriminate E.
Defined.

(** C6: delegation never amplifies authority.  Along any chain of delegations in a well-formed
    table the ancestor contains every permission bit of the descendant, the descendant's
    resource is a subset of the ancestor's, and a proper ancestor holds DELEGATE. *)
Theorem delegation_attenuates (t : CapabilityTable) (i j : nat) (ci cj : Capability) :
  table_wf t → derived (capabilities t) i j →
  capabilities t !! i = Some (Some ci) → capabilities t !! j = Some (Some cj) →
  (∀ n, 0 ≤ n → Z.testbit (c_permissions cj) n = true → Z.testbit (c_permissions ci) n = true) ∧
  subset_of (c_resource cj) (c_resource ci) ∧
  (i ≠ j → contains (c_permissions ci) DELEGATE = true).
Proof.
  intros Hwf Hd Hi Hj. destruct (derived_attenuates t i j ci cj Hwf Hd Hi Hj) as (H1 & H2 & H3).
  split; [by apply contains_spec|]. split; [by apply is_subset_of_spec|done].
Qed.

Lemma delegation_attenuates_witness :
  subset_of (c_resource demo_cap2) (c_resource demo_cap1) ∧
  contains (c_permissions demo_cap1) DELEGATE = true.
Proof.
  destruct (delegation_attenuates demo_table 1 2 demo_cap1 demo_cap2 demo_wf) as (_ & H2 & H3).
  - eapply (derived_step _ 1 1 2 demo_cap2); [eapply (derived_refl _ 1 demo_cap1)|..]; reflexivity.
  - reflexivity.
  - reflexivity.
  - split; [exact H2|]. apply H3. lia.
Defined.

(** A failed delegate leaves the table as it was; a successful one issues a fresh id whose
    capability belongs to the recipient with exactly the requested permissions and a resource
    inside the source's, requires a live source owned by the delegator that contains DELEGATE
    and the permissions, and leaves every other lookup unchanged. *)
Theorem delegate_effect (t : CapabilityTable) (src from to : Z) (perms : PermissionBits)
    (r : option ResourceRef) (res : result CapError Z) (t' : CapabilityTable) :
  table_wf t → delegate src from to perms r t = Ret (res, t') →
  match res with
  | Err _ => t' = t
  | Ok id =>
      get t id = Err NotFound ∧
      (∃ source cap, get t src = Ok source ∧ c_owner source = from ∧
         contains (c_permissions source) (union DELEGATE perms) = true ∧
         get t' id = Ok cap ∧ c_owner cap = to ∧ c_permissions cap = perms ∧
         c_parent_cap cap = Some src ∧ c_resource cap = default (c_resource source) r ∧
         is_subset_of (c_resource cap) (c_resource source) = true) ∧
      (∀ k, 0 ≤ k → k ≠ id → get t' k = get t k)
  end.
Proof.
  intros Hwf [(e & -> & ->)|(source & resource & Hg & Ho & Hd & -> & Hs & Hn & -> & ->)]%delegate_cases;
    [done|].
  destruct Hwf as [Hnx Hl _ _ _]. split.
  - unfold get. rewrite lookup_ge_None_2 by lia. done.
  - split.
    + eexists source, _. rewrite <- can_delegate_to_spec. split; [done|]. split; [done|]. split; [done|].
      split; [apply get_Ok; simpl; rewrite lookup_put_cap, decide_True by done; done|]. by split_and!.
    + intros k Hk Hne. unfold get. simpl. rewrite lookup_put_cap. simpl.
      rewrite decide_False by lia.
      destruct (capabilities t !! Z.to_nat k) eqn:E; [done|]. by case_decide.
Qed.

Lemma delegate_effect_witness :
  delegate 1 7 8 READ (Some (Storage "/a/b")) demo_root = Ret (Ok 2, demo_table) ∧
  (∃ source cap, get demo_root 1 = Ok source ∧ get demo_table 2 = Ok cap ∧ c_owner cap = 8 ∧
                 is_subset_of (c_resource cap) (c_resource source) = true).
Proof.
  split; [reflexivity|].
  destruct (delegate_effect demo_root 1 7 8 READ (Some (Storage "/a/b")) (Ok 2) demo_table
              (create_root_wf new 7 (Storage "/a") ALL 1 demo_root new_wf eq_refl) eq_refl)
    as (_ & (source & cap & Hs & _ & _ & Hc & Ho & _ & _ & _ & Hsub) & _).
  exists source, cap. split; [exact Hs|]. split; [exact Hc|]. split; [exact Ho|exact Hsub].
Defined.

(** C35: validate accepts exactly the live capabilities of the table owned by the caller whose
    permissions include every required bit, and returns that capability; a capability that is
    revoked, missing, foreign or too weak is refused with the matching error. *)
Theorem validate_exact (t : CapabilityTable) (cap_id task_id : Z) (required : PermissionBits) :
  match validate t cap_id task_id required with
  | Ok c => capabilities t !! Z.to_nat cap_id = Some (Some c) ∧ c_revoked c = false ∧
            c_owner c = task_id ∧
            ∀ n, 0 ≤ n → Z.testbit required n = true → Z.testbit (c_permissions c) n = true
  | Err NotFound => ∀ c, capabilities t !! Z.to_nat cap_id ≠ Some (Some c)
  | Err Revoked => ∃ c, capabilities t !! Z.to_nat cap_id = Some (Some c) ∧ c_revoked c = true
  | Err NotOwner => ∃ c, get t cap_id = Ok c ∧ c_owner c ≠ task_id
  | Err InsufficientPermissions =>
      ∃ c, get t cap_id = Ok c ∧ c_owner c = task_id ∧
           ∃ n, Z.testbit required n = true ∧ Z.testbit (c_permissions c) n = false
  | Err InvalidDelegation => False
  end.
Proof.
  unfold validate. destruct (get t cap_id) as [c|e] eqn:Eg.
  - case_decide; [by exists c|].
    destruct (contains (c_permissions c) required) eqn:Ec; simpl.
    + apply get_Ok in Eg as [? ?]. rewrite contains_spec in Ec. by split_and!.
    + exists c. split; [done|]. split; [done|]. by apply contains_false.
  - unfold get in Eg. destruct (capabilities t !! Z.to_nat cap_id) as [[c|]|] eqn:E; simplify_eq; [|done..].
    destruct (c_revoked c) eqn:Er; simplify_eq. by exists c.
Qed.
End CapTable.
