(* ===== verification/FrameAlloc.v ===== *)
(** * Physical frame allocator: memory/frame_allocator.rs

    The bitmap is the list of its bytes.  A PhysFrame is identified with its start address,
    the only thing the kernel reads from it. *)

From S2P Require Import Prelude.

Module Frames.

Definition PAGE_SIZE : Z := 4096.

Record BitmapFrameAllocator : Type := mkAlloc {
  bitmap : list Z;
  total_frames : Z;
  next_free : Z;
}.

Definition with_bitmap (self : BitmapFrameAllocator) (b : list Z) : BitmapFrameAllocator :=
  {| bitmap := b; total_frames := total_frames self; next_free := next_free self |}.
Definition with_next_free (self : BitmapFrameAllocator) (n : Z) : BitmapFrameAllocator :=
  {| bitmap := bitmap self; total_frames := total_frames self; next_free := n |}.

(** All frames start allocated. *)
Definition new (total : Z) : BitmapFrameAllocator :=
  {| bitmap := replicate (Z.to_nat ((total + 7) / 8)) 0xFF; total_frames := total; next_free := 0 |}.

(** Indexing the slice out of range panics. *)
Definition is_set (self : BitmapFrameAllocator) (index : Z) : outcome bool :=
  match bitmap self !! Z.to_nat (index / 8) with
  | Some b => Ret (Z.land (Z.shiftr b (index mod 8)) 1 =? 1)
  | None => Panic
  end.

Definition set_bit (self : BitmapFrameAllocator) (index : Z) : outcome BitmapFrameAllocator :=
  match bitmap self !! Z.to_nat (index / 8) with
  | Some b => Ret (with_bitmap self
                     (<[Z.to_nat (index / 8) := Z.lor b (Z.shiftl 1 (index mod 8))]> (bitmap self)))
  | None => Panic
  end.

(** [!(1 << bit)] on u8 flips the eight bits. *)
Definition clear_bit (self : BitmapFrameAllocator) (index : Z) : outcome BitmapFrameAllocator :=
  match bitmap self !! Z.to_nat (index / 8) with
  | Some b => Ret (with_bitmap self
                     (<[Z.to_nat (index / 8) :=
                          Z.land b (Z.lxor (Z.shiftl 1 (index mod 8)) 0xFF)]> (bitmap self)))
  | None => Panic
  end.

(** [for i in start..start + count { if i < total_frames { op(i) } }]. *)
Fixpoint mark_range (op : BitmapFrameAllocator → Z → outcome BitmapFrameAllocator)
    (n : nat) (i : Z) (self : BitmapFrameAllocator) : outcome BitmapFrameAllocator :=
  match n with
  | O => Ret self
  | S n' =>
      let? self' := (if i <? total_frames self then op self i else Ret self) in
      mark_range op n' (i + 1) self'
  end.

Definition mark_region_free (self : BitmapFrameAllocator) (start_frame count : Z)
    : outcome BitmapFrameAllocator :=
  let? last := checked_add64 start_frame count in
  mark_range clear_bit (Z.to_nat (last - start_frame)) start_frame self.

Definition mark_region_used (self : BitmapFrameAllocator) (start_frame count : Z)
    : outcome BitmapFrameAllocator :=
  let? last := checked_add64 start_frame count in
  mark_range set_bit (Z.to_nat (last - start_frame)) start_frame self.

(** [PhysAddr::new] of the x86_64 crate panics on an address of more than 52 bits. *)
Definition PHYS_LIMIT : Z := 2 ^ 52.
Definition phys_addr (a : Z) : outcome Z := if decide (a < PHYS_LIMIT) then Ret a else Panic.

(** The body of both scan loops of allocate_frame. *)
Fixpoint scan (n : nat) (i : Z) (self : BitmapFrameAllocator)
    : outcome (option (Z * BitmapFrameAllocator)) :=
  match n with
  | O => Ret None
  | S n' =>
      let? s := is_set self i in
      if s then scan n' (i + 1) self
      else
        let? self' := set_bit self i in
        let? addr := checked_mul64 i PAGE_SIZE in
        let? addr := phys_addr addr in
        Ret (Some (addr, with_next_free self' (i + 1)))
  end.

Definition allocate_frame (self : BitmapFrameAllocator)
    : outcome (option Z * BitmapFrameAllocator) :=
  let? r := scan (Z.to_nat (total_frames self - next_free self)) (next_free self) self in
  match r with
  | Some (f, self') => Ret (Some f, self')
  | None =>
      let? r' := scan (Z.to_nat (next_free self)) 0 self in
      match r' with
      | Some (f, self') => Ret (Some f, self')
      | None => Ret (None, self)
      end
  end.

Definition free_frame (self : BitmapFrameAllocator) (frame : Z) : outcome BitmapFrameAllocator :=
  let index := frame / PAGE_SIZE in
  let? self' := clear_bit self index in
  Ret (if index <? next_free self' then with_next_free self' index else self').

Definition count_ones (b : Z) : Z :=
  Z.of_nat (length (filter (λ n, Z.testbit b n) (seqZ 0 8))).

Definition sum_list (l : list Z) : Z := foldr Z.add 0 l.

Definition stats (self : BitmapFrameAllocator) : outcome (Z * Z) :=
  let used := sum_list (count_ones <$> bitmap self) in
  let? free := checked_sub64 (total_frames self) used in
  Ret (free, total_frames self).

(** *** Boot-time initialisation from the Limine memory map *)
Section init.
(** The type tags are constants of the limine crate. *)
Variables MEMMAP_USABLE MEMMAP_BOOTLOADER_RECLAIMABLE MEMMAP_EXECUTABLE_AND_MODULES : Z.

Record Entry : Type := mkEntry { e_base : Z; e_length : Z; e_type : Z }.

Definition is_usable (e : Entry) : bool := e_type e =? MEMMAP_USABLE.
Definition is_protected (e : Entry) : bool :=
  (e_type e =? MEMMAP_BOOTLOADER_RECLAIMABLE) || (e_type e =? MEMMAP_EXECUTABLE_AND_MODULES).

(** [iter().filter(usable).map(base + length).max().unwrap_or(0)]. *)
Fixpoint max_usable (entries : list Entry) : outcome Z :=
  match entries with
  | [] => Ret 0
  | e :: entries' =>
      if is_usable e then
        let? last := checked_add64 (e_base e) (e_length e) in
        let? m := max_usable entries' in
        Ret (Z.max last m)
      else max_usable entries'
  end.

Fixpoint mark_usable (entries : list Entry) (self : BitmapFrameAllocator)
    : outcome BitmapFrameAllocator :=
  match entries with
  | [] => Ret self
  | e :: entries' =>
      let? self' :=
        (if is_usable e
         then mark_region_free self (e_base e / PAGE_SIZE) (e_length e / PAGE_SIZE)
         else Ret self) in
      mark_usable entries' self'
  end.

Fixpoint mark_protected (entries : list Entry) (total : Z) (self : BitmapFrameAllocator)
    : outcome BitmapFrameAllocator :=
  match entries with
  | [] => Ret self
  | e :: entries' =>
      let? self' :=
        (if is_protected e && (e_base e / PAGE_SIZE <? total)
         then mark_region_used self (e_base e / PAGE_SIZE) (e_length e / PAGE_SIZE)
         else Ret self) in
      mark_protected entries' total self'
  end.

Definition init (entries : list Entry) (hhdm_offset : Z) : outcome BitmapFrameAllocator :=
  let? max_addr := max_usable entries in
  let total := max_addr / PAGE_SIZE in
  let bitmap_size := (total + 7) / 8 in
  match list_find (λ e, is_usable e && (bitmap_size <=? e_length e)) entries with
  | None => Panic
  | Some (_, bitmap_region) =>
      let bitmap_phys := e_base bitmap_region in
      let? _ := checked_add64 bitmap_phys hhdm_offset in
      let? a1 := mark_usable entries (new total) in
      let? a2 := mark_region_used a1 (bitmap_phys / PAGE_SIZE)
                   ((bitmap_size + PAGE_SIZE - 1) / PAGE_SIZE) in
      let? a3 := mark_protected entries total a2 in
      let? _ := stats a3 in
      Ret a3
  end.
End init.

(** *** Bits of the bitmap *)

(** The bit of frame [i]; bits outside the bitmap read as allocated. *)
Definition bit (a : BitmapFrameAllocator) (i : Z) : bool :=
  match bitmap a !! Z.to_nat (i / 8) with
  | Some b => Z.testbit b (i mod 8)
  | None => true
  end.

(** The frames have physical addresses, and the bits of the padding after [total_frames] stay set. *)
Record alloc_wf (a : BitmapFrameAllocator) : Prop := {
  wf_total : 0 ≤ total_frames a;
  wf_bytes : total_frames a * PAGE_SIZE ≤ PHYS_LIMIT;
  wf_length : Z.of_nat (length (bitmap a)) = (total_frames a + 7) / 8;
  wf_hint : 0 ≤ next_free a ≤ total_frames a;
  wf_pad : ∀ i, total_frames a ≤ i → bit a i = true;
}.

(** The abstract state: the set of free frame numbers. *)
Definition free_list (a : BitmapFrameAllocator) : list Z :=
  filter (λ i, bit a i = false) (seqZ 0 (total_frames a)).
Definition free_set (a : BitmapFrameAllocator) : gset Z := list_to_set (free_list a).

Lemma elem_of_free_list a i : i ∈ free_list a ↔ 0 ≤ i < total_frames a ∧ bit a i = false.
Proof. unfold free_list. rewrite list_elem_of_filter, elem_of_seqZ. naive_solver lia. Qed.

Lemma elem_of_free_set a i : i ∈ free_set a ↔ 0 ≤ i < total_frames a ∧ bit a i = false.
Proof. unfold free_set. by rewrite elem_of_list_to_set, elem_of_free_list. Qed.

Lemma land_one_testbit b k : 0 ≤ k → (Z.land (Z.shiftr b k) 1 =? 1) = Z.testbit b k.
Proof.
  intros Hk. change 1 with (Z.ones 1) at 1. rewrite Z.land_ones by lia.
  rewrite Z.shiftr_div_pow2 by done. change (2 ^ 1) with 2.
  rewrite <- Z.testbit_spec' by done. by destruct (Z.testbit b k).
Qed.

Lemma byte_index_lt a i :
  alloc_wf a → 0 ≤ i < total_frames a → is_Some (bitmap a !! Z.to_nat (i / 8)).
Proof.
  intros Hwf Hi. apply lookup_lt_is_Some_2. pose proof (wf_length _ Hwf).
  assert (i / 8 < (total_frames a + 7) / 8) by (apply Z.div_lt_upper_bound; [lia|]; Z.div_mod_to_equations; lia).
  pose proof (Z.div_pos i 8). lia.
Qed.

Lemma is_set_spec a i :
  alloc_wf a → 0 ≤ i < total_frames a → is_set a i = Ret (bit a i).
Proof.
  intros Hwf Hi. destruct (byte_index_lt a i Hwf Hi) as [b Hb].
  unfold is_set, bit. rewrite Hb, land_one_testbit; [done|]. apply Z.mod_pos_bound. lia.
Qed.

(** Writing one byte of the bitmap changes the bits of that byte only. *)
Lemma bit_insert a i b v :
  0 ≤ i → bitmap a !! Z.to_nat (i / 8) = Some b →
  ∀ j, 0 ≤ j →
    bit (with_bitmap a (<[Z.to_nat (i / 8) := v]> (bitmap a))) j =
    if decide (j / 8 = i / 8) then Z.testbit v (j mod 8) else bit a j.
Proof.
  intros Hi Hb j Hj. unfold bit. simpl. case_decide as Hji.
  - rewrite Hji, list_lookup_insert_eq; [done|]. by eapply lookup_lt_Some.
  - rewrite list_lookup_insert_ne; [done|]. intros Heq. apply Hji.
    pose proof (Z.div_pos i 8). pose proof (Z.div_pos j 8). lia.
Qed.

Lemma same_bit i j : j / 8 = i / 8 → j mod 8 = i mod 8 ↔ j = i.
Proof.
  intros H. split; [|by intros ->]. intros Hm.
  rewrite (Z.div_mod j 8), (Z.div_mod i 8) by lia. congruence.
Qed.

Lemma testbit_set b k n : 0 ≤ k → Z.testbit (Z.lor b (Z.shiftl 1 k)) n = Z.testbit b n || (k =? n).
Proof.
  intros Hk. rewrite Z.lor_spec, Z.shiftl_1_l. f_equal. apply Z.pow2_bits_eqb. done.
Qed.

Lemma testbit_clear b k n : 0 ≤ k < 8 → 0 ≤ n < 8 →
  Z.testbit (Z.land b (Z.lxor (Z.shiftl 1 k) 0xFF)) n = Z.testbit b n && negb (k =? n).
Proof.
  intros Hk Hn. rewrite Z.land_spec, Z.lxor_spec, Z.shiftl_1_l, Z.pow2_bits_eqb by lia.
  assert (Z.testbit 0xFF n = true) as ->.
  { change 0xFF with (Z.ones 8). apply Z.ones_spec_low. lia. }
  by destruct (k =? n).
Qed.

(** [set_bit] and [clear_bit] as updates of the bit function. *)
Definition updates_bit (a a' : BitmapFrameAllocator) (i : Z) (v : bool) : Prop :=
  total_frames a' = total_frames a ∧ next_free a' = next_free a ∧
  length (bitmap a') = length (bitmap a) ∧
  ∀ j, 0 ≤ j → bit a' j = if decide (j = i) then v else bit a j.

Lemma set_bit_spec a i :
  alloc_wf a → 0 ≤ i < total_frames a → ∃ a', set_bit a i = Ret a' ∧ updates_bit a a' i true.
Proof.
  intros Hwf Hi. destruct (byte_index_lt a i Hwf Hi) as [b Hb].
  pose proof (Z.mod_pos_bound i 8). unfold set_bit. rewrite Hb. eexists. split; [done|].
  do 3 (split; [first [done | apply length_insert]|]). intros j Hj.
  rewrite (bit_insert a i b) by (done || lia). case_decide as Hd.
  - rewrite testbit_set by lia. pose proof (same_bit i j Hd) as Hs. case_decide as Hji.
    + subst. rewrite Z.eqb_refl. apply orb_true_r.
    + rewrite (proj2 (Z.eqb_neq _ _)), orb_false_r by (intros ?; naive_solver).
      unfold bit. by rewrite Hd, Hb.
  - rewrite decide_False; [done|]. by intros ->.
Qed.

Lemma clear_bit_spec a i :
  alloc_wf a → 0 ≤ i < total_frames a → ∃ a', clear_bit a i = Ret a' ∧ updates_bit a a' i false.
Proof.
  intros Hwf Hi. destruct (byte_index_lt a i Hwf Hi) as [b Hb].
  pose proof (Z.mod_pos_bound i 8). unfold clear_bit. rewrite Hb. eexists. split; [done|].
  do 3 (split; [first [done | apply length_insert]|]). intros j Hj.
  rewrite (bit_insert a i b) by (done || lia). pose proof (Z.mod_pos_bound j 8). case_decide as Hd.
  - rewrite testbit_clear by lia. pose proof (same_bit i j Hd) as Hs. case_decide as Hji.
    + subst. rewrite Z.eqb_refl. apply andb_false_r.
    + rewrite (proj2 (Z.eqb_neq _ _)), andb_true_r by (intros ?; naive_solver).
      unfold bit. by rewrite Hd, Hb.
  - rewrite decide_False; [done|]. by intros ->.
Qed.

Lemma updates_bit_wf a a' i v :
  alloc_wf a → updates_bit a a' i v → 0 ≤ i < total_frames a → alloc_wf a'.
Proof.
  intros [H1 H2 H3 H4 H5] (Ht & Hn & Hl & Hb) Hi. split; rewrite ?Ht, ?Hn, ?Hl; try done.
  intros j Hj. rewrite Hb by lia. rewrite decide_False by lia. auto.
Qed.

Lemma with_next_free_wf a n :
  alloc_wf a → 0 ≤ n ≤ total_frames a → alloc_wf (with_next_free a n).
Proof. intros [H1 H2 H3 H4 H5] Hn. split; done. Qed.

Lemma free_set_updates a a' i v :
  updates_bit a a' i v → 0 ≤ i < total_frames a →
  free_set a' = if v then free_set a ∖ {[i]} else {[i]} ∪ free_set a.
Proof.
  intros (Ht & _ & _ & Hb) Hi. apply set_eq. intros j.
  rewrite elem_of_free_set, Ht. destruct v.
  - rewrite elem_of_difference, elem_of_singleton, elem_of_free_set. split.
    + intros [Hj Hbit]. rewrite Hb in Hbit by lia. case_decide; done.
    + intros [[Hj Hbit] Hne]. rewrite Hb, decide_False by (done || lia). done.
  - rewrite elem_of_union, elem_of_singleton, elem_of_free_set. split.
    + intros [Hj Hbit]. rewrite Hb in Hbit by lia. case_decide; auto.
    + intros [->|[Hj Hbit]]; (split; [done|]); rewrite Hb by lia; case_decide; done.
Qed.

Lemma alloc_new_wf total : 0 ≤ total → total * PAGE_SIZE ≤ PHYS_LIMIT → alloc_wf (new total).
Proof.
  intros H1 H2. split; try done; simpl.
  - rewrite length_replicate, Z2Nat.id; [done|]. apply Z.div_pos; lia.
  - intros i _. unfold bit. simpl. destruct (replicate _ _ !! _) as [b|] eqn:E; [|done].
    apply lookup_replicate in E as [-> _]. change 0xFF with (Z.ones 8).
    apply Z.ones_spec_low. apply Z.mod_pos_bound. lia.
Qed.

(** *** The scan loops *)

(** [scan] returns the first clear bit of its range, if there is one. *)
Lemma scan_spec a n i :
  alloc_wf a → 0 ≤ i → i + Z.of_nat n ≤ total_frames a →
  (scan n i a = Ret None ∧ ∀ j, i ≤ j < i + Z.of_nat n → bit a j = true) ∨
  (∃ k a', scan n i a = Ret (Some (k * PAGE_SIZE, a')) ∧
     i ≤ k < i + Z.of_nat n ∧ bit a k = false ∧ (∀ j, i ≤ j < k → bit a j = true) ∧
     alloc_wf a' ∧ next_free a' = k + 1 ∧ total_frames a' = total_frames a ∧
     free_set a' = free_set a ∖ {[k]}).
Proof.
  intros Hwf. revert i. induction n as [|n IH]; intros i Hi Hle.
  { left. split; [done|]. lia. }
  cbn [scan]. rewrite is_set_spec by (done || lia). simpl. destruct (bit a i) eqn:Eb.
  - destruct (IH (i + 1)) as [[-> Hall]|(k & a' & -> & Hk & Hb & Hall & Hrest)]; [lia..| |].
    + left. split; [done|]. intros j Hj. destruct (decide (j = i)) as [->|]; [done|]. apply Hall. lia.
    + right. exists k, a'. split; [done|]. split; [lia|]. split; [done|]. split; [|done].
      intros j Hj. destruct (decide (j = i)) as [->|]; [done|]. apply Hall. lia.
  - right. destruct (set_bit_spec a i Hwf) as (a' & -> & Hup); [lia|]. simpl.
    unfold checked_mul64, phys_addr. pose proof (wf_bytes _ Hwf).
    rewrite decide_True by (unfold PAGE_SIZE, PHYS_LIMIT, U64_MAX in *; lia). cbn [outcome_bind].
    rewrite decide_True by (unfold PAGE_SIZE in *; lia).
    exists i, (with_next_free a' (i + 1)). pose proof Hup as (Ht & _).
    split; [done|]. split; [lia|]. split; [done|]. split; [lia|]. split.
    + apply with_next_free_wf; [eapply updates_bit_wf; [done..|lia]|rewrite Ht; lia].
    + do 2 (split; [done|]). change (free_set (with_next_free a' (i + 1))) with (free_set a').
      rewrite (free_set_updates a a' i true) by (done || lia). done.
Qed.

Lemma mark_range_spec (op : BitmapFrameAllocator → Z → outcome BitmapFrameAllocator) v a n i :
  (∀ a i, alloc_wf a → 0 ≤ i < total_frames a → ∃ a', op a i = Ret a' ∧ updates_bit a a' i v) →
  alloc_wf a → 0 ≤ i →
  ∃ a', mark_range op n i a = Ret a' ∧ alloc_wf a' ∧ total_frames a' = total_frames a ∧
        next_free a' = next_free a ∧
        ∀ j, 0 ≤ j < total_frames a →
             bit a' j = if decide (i ≤ j < i + Z.of_nat n) then v else bit a j.
Proof.
  intros Hop. revert a i. induction n as [|n IH]; intros a i Hwf Hi.
  { exists a. do 4 (split; [done|]). intros j Hj. rewrite decide_False by lia. done. }
  cbn [mark_range].
  assert (∃ a', (if i <? total_frames a then op a i else Ret a) = Ret a' ∧ alloc_wf a' ∧
            total_frames a' = total_frames a ∧ next_free a' = next_free a ∧
            ∀ j, 0 ≤ j < total_frames a → bit a' j = if decide (j = i) then v else bit a j)
    as (a1 & -> & Hwf1 & Ht1 & Hn1 & Hb1).
  { destruct (Z.ltb_spec i (total_frames a)).
    - destruct (Hop a i Hwf) as (a' & -> & Hup); [lia|]. exists a'. split; [done|].
      split; [by eapply updates_bit_wf|]. destruct Hup as (? & ? & _ & Hb).
      do 2 (split; [done|]). intros j Hj. apply Hb. lia.
    - exists a. do 4 (split; [done|]). intros j Hj. rewrite decide_False by lia. done. }
  destruct (IH a1 (i + 1) Hwf1) as (a' & E & Hwf' & Ht & Hn & Hb); [lia|].
  exists a'. simpl. rewrite E. split; [done|]. split; [done|]. split; [congruence|].
  split; [congruence|]. intros j Hj. rewrite Hb, Hb1 by (rewrite ?Ht1; lia).
  repeat case_decide; (done || lia).
Qed.

(** *** Counting set bits *)
Definition bits_of (l : list Z) : list bool := l ≫= λ b, Z.testbit b <$> seqZ 0 8.

(** The set bits after [total_frames]. *)
Definition pad (a : BitmapFrameAllocator) : Z :=
  8 * Z.of_nat (length (bitmap a)) - total_frames a.

Lemma bits_of_cons b l : bits_of (b :: l) = (Z.testbit b <$> seqZ 0 8) ++ bits_of l.
Proof. done. Qed.

Lemma length_bits_of l : length (bits_of l) = (8 * length l)%nat.
Proof.
  induction l as [|b l IH]; [done|]. rewrite bits_of_cons, length_app, IH, length_fmap, length_seqZ.
  simpl. lia.
Qed.

Lemma lookup_bits_of l i :
  0 ≤ i → bits_of l !! Z.to_nat i = (λ b, Z.testbit b (i mod 8)) <$> l !! Z.to_nat (i / 8).
Proof.
  revert i. induction l as [|b l IH]; intros i Hi; [done|]. rewrite bits_of_cons.
  destruct (decide (i < 8)) as [Hlt|Hge].
  - rewrite lookup_app_l by (rewrite length_fmap, length_seqZ; lia).
    rewrite Z.div_small, Z.mod_small by lia. rewrite list_lookup_fmap, lookup_seqZ_lt by lia.
    simpl. do 2 f_equal. lia.
  - rewrite lookup_app_r by (rewrite length_fmap, length_seqZ; lia).
    rewrite length_fmap, length_seqZ.
    replace (Z.to_nat i - Z.to_nat 8)%nat with (Z.to_nat (i - 8)) by lia. rewrite IH by lia.
    assert (i mod 8 = (i - 8) mod 8) as ->.
    { replace i with (i - 8 + 1 * 8) at 1 by lia. apply Z.mod_add. lia. }
    assert (i / 8 = (i - 8) / 8 + 1) as ->.
    { replace i with (i - 8 + 1 * 8) at 1 by lia. apply Z.div_add. lia. }
    pose proof (Z.div_pos (i - 8) 8). rewrite Z2Nat.inj_add by lia. rewrite Nat.add_comm. done.
Qed.

Lemma count_bits_of l :
  Z.of_nat (length (filter (λ b, b = true) (bits_of l))) = sum_list (count_ones <$> l).
Proof.
  induction l as [|b l IH]; [done|]. rewrite bits_of_cons, filter_app, length_app, Nat2Z.inj_add, IH.
  cbn [fmap list_fmap sum_list foldr]. f_equal. unfold count_ones. f_equal.
  apply length_filter_fmap. intros n. by rewrite Is_true_true.
Qed.

Lemma bits_of_bit a : bit a <$> seqZ 0 (8 * Z.of_nat (length (bitmap a))) = bits_of (bitmap a).
Proof.
  apply list_eq. intros k. destruct (decide (k < 8 * length (bitmap a))%nat) as [Hk|Hk].
  - rewrite list_lookup_fmap, lookup_seqZ_lt by lia. simpl.
    rewrite <- (Nat2Z.id k) at 2. rewrite lookup_bits_of by lia. unfold bit.
    destruct (lookup_lt_is_Some_2 (bitmap a) (Z.to_nat (Z.of_nat k / 8))) as [b Hb].
    { rewrite <- (Nat2Z.id (length _)). apply Z2Nat.inj_lt; [apply Z.div_pos; lia|lia|].
      apply Z.div_lt_upper_bound; lia. }
    by rewrite Z.add_0_l, Hb.
  - rewrite !lookup_ge_None_2; [done|rewrite length_bits_of; lia|].
    rewrite length_fmap, length_seqZ. lia.
Qed.

Lemma size_free_set a : size (free_set a) = length (free_list a).
Proof.
  unfold free_set. apply size_list_to_set. apply NoDup_filter, NoDup_seqZ.
Qed.

Lemma used_count a :
  alloc_wf a →
  sum_list (count_ones <$> bitmap a) =
    total_frames a - Z.of_nat (size (free_set a)) + pad a ∧ 0 ≤ pad a < 8.
Proof.
  intros Hwf. pose proof (wf_length _ Hwf) as Hlen. pose proof (wf_total _ Hwf) as Ht.
  assert (0 ≤ pad a < 8) as Hpad.
  { unfold pad. rewrite Hlen. Z.div_mod_to_equations. lia. }
  split; [|done]. rewrite <- count_bits_of, <- bits_of_bit.
  rewrite (length_filter_fmap _ _ (λ i, bit a i = true)), size_free_set by done. unfold free_list.
  replace (8 * Z.of_nat (length (bitmap a))) with (total_frames a + pad a) by (unfold pad; lia).
  rewrite seqZ_app by lia. rewrite filter_app, length_app.
  pose proof (length_filter_split (bit a) (seqZ 0 (total_frames a))) as Hsplit.
  rewrite length_seqZ in Hsplit.
  assert (filter (λ i, bit a i = true) (seqZ (0 + total_frames a) (pad a)) =
          seqZ (0 + total_frames a) (pad a)) as Hall.
  { apply filter_all. intros i Hi%elem_of_seqZ. apply Hwf. lia. }
  rewrite Hall, length_seqZ. lia.
Qed.

(** *** Region marking and initialisation *)
Lemma mark_region_free_spec a start count :
  alloc_wf a → 0 ≤ start → 0 ≤ count → start + count ≤ U64_MAX →
  ∃ a', mark_region_free a start count = Ret a' ∧ alloc_wf a' ∧
        total_frames a' = total_frames a ∧ next_free a' = next_free a ∧
        ∀ j, 0 ≤ j < total_frames a →
             bit a' j = if decide (start ≤ j < start + count) then false else bit a j.
Proof.
  intros Hwf Hs Hc Hle. unfold mark_region_free, checked_add64. rewrite decide_True by done. simpl.
  destruct (mark_range_spec clear_bit false a (Z.to_nat (start + count - start)) start)
    as (a' & E & Hwf' & Ht & Hn & Hb); [by apply clear_bit_spec|done..|].
  exists a'. do 4 (split; [done|]). intros j Hj. rewrite Hb by done.
  repeat case_decide; (done || lia).
Qed.

Lemma mark_region_used_spec a start count :
  alloc_wf a → 0 ≤ start → 0 ≤ count → start + count ≤ U64_MAX →
  ∃ a', mark_region_used a start count = Ret a' ∧ alloc_wf a' ∧
        total_frames a' = total_frames a ∧ next_free a' = next_free a ∧
        ∀ j, 0 ≤ j < total_frames a →
             bit a' j = if decide (start ≤ j < start + count) then true else bit a j.
Proof.
  intros Hwf Hs Hc Hle. unfold mark_region_used, checked_add64. rewrite decide_True by done. simpl.
  destruct (mark_range_spec set_bit true a (Z.to_nat (start + count - start)) start)
    as (a' & E & Hwf' & Ht & Hn & Hb); [by apply set_bit_spec|done..|].
  exists a'. do 4 (split; [done|]). intros j Hj. rewrite Hb by done.
  repeat case_decide; (done || lia).
Qed.

(** The frames an entry spans, as the loops of [init] compute them. *)
Definition spans (e : Entry) (f : Z) : Prop :=
  e_base e / PAGE_SIZE ≤ f < e_base e / PAGE_SIZE + e_length e / PAGE_SIZE.

(** An entry of the memory map is a range of physical addresses. *)
Definition entry_ok (e : Entry) : Prop :=
  0 ≤ e_base e ∧ 0 ≤ e_length e ∧ e_base e + e_length e ≤ PHYS_LIMIT.

Lemma entry_ok_region e :
  entry_ok e → 0 ≤ e_base e / PAGE_SIZE ∧ 0 ≤ e_length e / PAGE_SIZE ∧
               e_base e / PAGE_SIZE + e_length e / PAGE_SIZE ≤ U64_MAX.
Proof. unfold entry_ok, PAGE_SIZE, PHYS_LIMIT, U64_MAX. intros (? & ? & ?). Z.div_mod_to_equations. lia. Qed.

Section init_spec.
Variables USABLE RECLAIMABLE EXECUTABLE : Z.

Lemma mark_usable_spec entries a :
  Forall entry_ok entries → alloc_wf a →
  ∃ a', mark_usable USABLE entries a = Ret a' ∧ alloc_wf a' ∧ total_frames a' = total_frames a ∧ next_free a' = next_free a ∧
        ∀ j, 0 ≤ j < total_frames a →
          (bit a' j = false ↔
             bit a j = false ∨ Exists (λ e, is_usable USABLE e = true ∧ spans e j) entries).
Proof.
  intros Hok. revert a. induction Hok as [|e entries He Hok IH]; intros a Hwf.
  { exists a. do 4 (split; [done|]). intros j Hj. rewrite Exists_nil. naive_solver. }
  cbn [mark_usable]. destruct (entry_ok_region e He) as (? & ? & ?). destruct (is_usable USABLE e) eqn:Eu.
  - destruct (mark_region_free_spec a (e_base e / PAGE_SIZE) (e_length e / PAGE_SIZE))
      as (a1 & -> & Hwf1 & Ht1 & Hn1 & Hb1); [done..|].
    destruct (IH a1 Hwf1) as (a' & E & Hwf' & Ht & Hn & Hb). exists a'. simpl. rewrite E.
    split; [done|]. split; [done|]. split; [congruence|]. split; [congruence|]. intros j Hj.
    rewrite Hb, Hb1, Exists_cons, Eu by (rewrite ?Ht1; done).
    unfold spans at 2. case_decide; intuition (done || congruence).
  - destruct (IH a Hwf) as (a' & E & Hwf' & Ht & Hn & Hb). exists a'. simpl. rewrite E.
    do 4 (split; [done|]). intros j Hj. rewrite Hb, Exists_cons, Eu by done. naive_solver.
Qed.

Lemma mark_protected_spec entries total a :
  Forall entry_ok entries → alloc_wf a → total = total_frames a →
  ∃ a', mark_protected RECLAIMABLE EXECUTABLE entries total a = Ret a' ∧ alloc_wf a' ∧
        total_frames a' = total_frames a ∧ next_free a' = next_free a ∧
        ∀ j, 0 ≤ j < total_frames a →
          (bit a' j = false ↔
             bit a j = false ∧
             ¬ Exists (λ e, is_protected RECLAIMABLE EXECUTABLE e = true ∧ spans e j) entries).
Proof.
  intros Hok. revert a. induction Hok as [|e entries He Hok IH]; intros a Hwf ->.
  { exists a. do 4 (split; [done|]). intros j Hj. rewrite Exists_nil. naive_solver. }
  cbn [mark_protected]. destruct (entry_ok_region e He) as (? & ? & ?).
  destruct (is_protected RECLAIMABLE EXECUTABLE e) eqn:Eu; cbn [andb];
    [destruct (Z.ltb_spec (e_base e / PAGE_SIZE) (total_frames a)) as [Hlt|Hge]|].
  - destruct (mark_region_used_spec a (e_base e / PAGE_SIZE) (e_length e / PAGE_SIZE))
      as (a1 & -> & Hwf1 & Ht1 & Hn1 & Hb1); [done..|].
    destruct (IH a1 Hwf1) as (a' & E & Hwf' & Ht & Hn & Hb); [done|]. exists a'. simpl.
    rewrite E. split; [done|]. split; [done|]. split; [congruence|]. split; [congruence|]. intros j Hj.
    rewrite Hb, Hb1, Exists_cons, Eu by (rewrite ?Ht1; done).
    unfold spans at 2. case_decide; intuition (done || congruence).
  - destruct (IH a Hwf eq_refl) as (a' & E & Hwf' & Ht & Hn & Hb). exists a'. simpl. rewrite E.
    do 4 (split; [done|]). intros j Hj. rewrite Hb, Exists_cons, Eu by done.
    unfold spans at 2. naive_solver lia.
  - destruct (IH a Hwf eq_refl) as (a' & E & Hwf' & Ht & Hn & Hb). exists a'. simpl. rewrite E.
    do 4 (split; [done|]). intros j Hj. rewrite Hb, Exists_cons, Eu by done. naive_solver.
Qed.

Lemma max_usable_spec entries :
  Forall entry_ok entries →
  ∃ m, max_usable USABLE entries = Ret m ∧ 0 ≤ m ≤ PHYS_LIMIT ∧
       ∀ e, e ∈ entries → is_usable USABLE e = true → e_base e + e_length e ≤ m.
Proof.
  induction 1 as [|e entries He Hok IH].
  { exists 0. split; [done|]. split; [unfold PHYS_LIMIT; lia|]. set_solver. }
  destruct IH as (m & E & Hm & Hle). cbn [max_usable]. destruct He as (? & ? & ?).
  destruct (is_usable USABLE e) eqn:Eu.
  - unfold checked_add64. rewrite decide_True by (unfold PHYS_LIMIT, U64_MAX in *; lia). simpl. rewrite E. simpl. eexists.
    split; [done|]. split; [lia|]. intros e' [->|He']%elem_of_cons Hu; [lia|].
    specialize (Hle e' He' Hu). lia.
  - exists m. split; [done|]. split; [done|]. intros e' [->|He']%elem_of_cons Hu; [congruence|auto].
Qed.
End init_spec.

Lemma allocate_frame_refines (a : BitmapFrameAllocator) :
  alloc_wf a →
  match allocate_frame a with
  | Panic => False
  | Ret (None, a') => a' = a ∧ free_set a = ∅
  | Ret (Some f, a') =>
      alloc_wf a' ∧ ∃ k, f = k * PAGE_SIZE ∧ k ∈ free_set a ∧ free_set a' = free_set a ∖ {[k]} ∧
        ∀ j, j ∈ free_set a → (k ≤ j ∨ j < next_free a ≤ k)
  end.
Proof.
  intros Hwf. destruct (wf_hint _ Hwf) as [Hh1 Hh2].
  unfold allocate_frame.
  destruct (scan_spec a (Z.to_nat (total_frames a - next_free a)) (next_free a) Hwf)
    as [[-> Hnone]|(k & a' & -> & Hk & Hb & Hfirst & Hwf' & _ & _ & Hfs)]; [lia..| |]; simpl.
  - destruct (scan_spec a (Z.to_nat (next_free a)) 0 Hwf)
      as [[-> Hnone']|(k & a' & -> & Hk & Hb & Hfirst & Hwf' & _ & _ & Hfs)]; [lia..| |]; simpl.
    + split; [done|]. apply elem_of_equiv_empty_L. intros j [Hj Hbit]%elem_of_free_set.
      destruct (decide (j < next_free a));
        [rewrite Hnone' in Hbit by lia|rewrite Hnone in Hbit by lia]; done.
    + split; [done|]. exists k. split; [done|]. split; [apply elem_of_free_set; lia || (split; [lia|done])|].
      split; [done|]. intros j [Hj Hbit]%elem_of_free_set. left.
      destruct (decide (k ≤ j)); [done|]. rewrite Hfirst in Hbit by lia. done.
  - split; [done|]. exists k. split; [done|]. split; [apply elem_of_free_set; split; [lia|done]|].
    split; [done|]. intros j [Hj Hbit]%elem_of_free_set.
    destruct (decide (k ≤ j)); [by left|]. right. split; [|lia].
    destruct (decide (j < next_free a)); [done|]. rewrite Hfirst in Hbit by lia. done.
Qed.

Lemma free_frame_refines (a : BitmapFrameAllocator) (k : Z) :
  alloc_wf a → 0 ≤ k < total_frames a →
  ∃ a', free_frame a (k * PAGE_SIZE) = Ret a' ∧ alloc_wf a' ∧ free_set a' = {[k]} ∪ free_set a.
Proof.
  intros Hwf Hk. unfold free_frame. rewrite Z.div_mul by (unfold PAGE_SIZE; lia).
  destruct (clear_bit_spec a k Hwf Hk) as (a1 & -> & Hup). simpl.
  pose proof (free_set_updates _ _ _ _ Hup Hk) as Hfs. pose proof (updates_bit_wf _ _ _ _ Hwf Hup Hk) as Hwf1.
  pose proof Hup as (Ht & _). eexists. split; [done|].
  destruct (Z.ltb_spec k (next_free a1)); (split; [|exact Hfs]); [|done].
  apply with_next_free_wf; [done|]. lia.
Qed.

(** The number of frames never changes. *)
Lemma allocate_frame_total a r a' : alloc_wf a → allocate_frame a = Ret (r, a') → total_frames a' = total_frames a.
Proof.
  intros Hwf H. unfold allocate_frame in H. pose proof (wf_hint _ Hwf).
  destruct (scan_spec a (Z.to_nat (total_frames a - next_free a)) (next_free a) Hwf)
    as [[E _]|(k & a1 & E & _ & _ & _ & _ & _ & Ht & _)]; [lia..| |]; rewrite E in H; simplify_eq/=; [|done].
  destruct (scan_spec a (Z.to_nat (next_free a)) 0 Hwf)
    as [[E' _]|(k & a1 & E' & _ & _ & _ & _ & _ & Ht & _)]; [lia..| |]; rewrite E' in H; by simplify_eq/=.
Qed.

(** The search starts at the hint, which then points behind the frame. *)
Lemma allocate_next a k a' :
  alloc_wf a → allocate_frame a = Ret (Some (k * PAGE_SIZE), a') →
  next_free a' = k + 1 ∧ (next_free a ∈ free_set a → k = next_free a).
Proof.
  intros Hwf H. unfold allocate_frame in H. pose proof (wf_hint _ Hwf).
  destruct (scan_spec a (Z.to_nat (total_frames a - next_free a)) (next_free a) Hwf)
    as [[E Hnone]|(j & a1 & E & Hj & Hb & Hfirst & _ & Hn & _)]; [lia..| |]; rewrite E in H; cbn [outcome_bind] in H.
  - destruct (scan_spec a (Z.to_nat (next_free a)) 0 Hwf)
      as [[E' _]|(j & a1 & E' & _ & _ & _ & _ & Hn & _)]; [lia..| |]; rewrite E' in H; cbn [outcome_bind] in H; [done|].
    injection H as Hk <-. unfold PAGE_SIZE in Hk. assert (j = k) as -> by lia. split; [done|].
    intros [Hin Hf]%elem_of_free_set. rewrite Hnone in Hf by lia. done.
  - injection H as Hk <-. unfold PAGE_SIZE in Hk. assert (j = k) as -> by lia. split; [done|].
    intros [Hin Hf]%elem_of_free_set. destruct (decide (k = next_free a)); [done|]. rewrite Hfirst in Hf by lia. done.
Qed.

Lemma free_frame_total a k a' :
  alloc_wf a → 0 ≤ k < total_frames a → free_frame a (k * PAGE_SIZE) = Ret a' → total_frames a' = total_frames a.
Proof.
  intros Hwf Hk. unfold free_frame. rewrite Z.div_mul by (unfold PAGE_SIZE; lia).
  destruct (clear_bit_spec a k Hwf Hk) as (a1 & -> & Ht & _). simpl. intros [= <-]. by destruct (_ <? _).
Qed.

(** ** Histories

    A sequence of allocations and releases, with what the allocations return. *)
Inductive frame_op : Type := Alloc | Free (k : Z).

Fixpoint run_frames (ops : list frame_op) (a : BitmapFrameAllocator) : outcome (list (option Z) * BitmapFrameAllocator) :=
  match ops with
  | [] => Ret ([], a)
  | Alloc :: ops' =>
      let? '(f, a') := allocate_frame a in
      let? '(outs, a'') := run_frames ops' a' in
      Ret (f :: outs, a'')
  | Free k :: ops' => let? a' := free_frame a (k * PAGE_SIZE) in run_frames ops' a'
  end.

(** The reference: an ordered list of the free frame numbers. *)
Fixpoint insert_frame (k : Z) (l : list Z) : list Z :=
  match l with
  | [] => [k]
  | x :: l' => if k <? x then k :: l else if k =? x then l else x :: insert_frame k l'
  end.

Fixpoint run_lowest (ops : list frame_op) (l : list Z) : list (option Z) * list Z :=
  match ops with
  | [] => ([], l)
  | Alloc :: ops' =>
      match l with
      | [] => let '(outs, l') := run_lowest ops' [] in (None :: outs, l')
      | k :: l' => let '(outs, l'') := run_lowest ops' l' in (Some (k * PAGE_SIZE) :: outs, l'')
      end
  | Free k :: ops' => run_lowest ops' (insert_frame k l)
  end.

(** The hint is below every free frame. *)
Definition hint_low (a : BitmapFrameAllocator) : Prop := ∀ j, j ∈ free_set a → next_free a ≤ j.

Definition op_ok (total : Z) (op : frame_op) : Prop := match op with Alloc => True | Free k => 0 ≤ k < total end.

(** Ascending lists of the same numbers are equal. *)
Definition ascending (l : list Z) : Prop := StronglySorted Z.lt l.

Lemma ascending_unique l1 l2 : ascending l1 → ascending l2 → (∀ x, x ∈ l1 ↔ x ∈ l2) → l1 = l2.
Proof.
  assert (Hnd : ∀ l, ascending l → NoDup l ∧ StronglySorted Z.le l).
  { induction 1 as [|x l _ [Hnd Hs] Hx]; [split; constructor|]. rewrite Forall_forall in Hx.
    split; constructor; [intros Hin; specialize (Hx x Hin); lia|done|done|]. apply Forall_forall. intros y Hy.
    specialize (Hx y Hy). lia. }
  intros [H1 S1]%Hnd [H2 S2]%Hnd Hin. apply (StronglySorted_unique Z.le); [done|done|]. by apply NoDup_Permutation.
Qed.

Lemma ascending_seqZ i n : ascending (seqZ i (Z.of_nat n)).
Proof.
  revert i. induction n as [|n IH]; intros i; [constructor|]. rewrite seqZ_cons by lia.
  replace (Z.pred (Z.of_nat (S n))) with (Z.of_nat n) by lia. constructor; [apply IH|].
  apply Forall_forall. intros x Hx%elem_of_seqZ. lia.
Qed.

Lemma ascending_filter (P : Z → Prop) `{!∀ x, Decision (P x)} l : ascending l → ascending (filter P l).
Proof.
  induction 1 as [|x l _ IH Hx]; [constructor|]. rewrite filter_cons. case_decide; [|done]. constructor; [done|].
  rewrite Forall_forall in Hx |- *. intros y [_ Hy]%list_elem_of_filter. by apply Hx.
Qed.

Lemma ascending_free_list a : alloc_wf a → ascending (free_list a).
Proof.
  intros Hwf. apply ascending_filter. rewrite <-(Z2Nat.id (total_frames a)) by apply Hwf. apply ascending_seqZ.
Qed.

Lemma elem_of_insert_frame k l x : x ∈ insert_frame k l ↔ x = k ∨ x ∈ l.
Proof.
  induction l as [|y l IH]; simpl; [set_solver|]. destruct (Z.ltb_spec k y); [set_solver|].
  destruct (Z.eqb_spec k y); [subst; set_solver|]. rewrite !elem_of_cons, IH. tauto.
Qed.

Lemma ascending_insert_frame k l : ascending l → ascending (insert_frame k l).
Proof.
  induction 1 as [|y l Hl IH Hy]; simpl; [repeat constructor|]. destruct (Z.ltb_spec k y) as [Hk|Hk].
  - constructor; [by constructor|]. constructor; [done|]. eapply Forall_impl; [exact Hy|]. intros z ?. lia.
  - destruct (Z.eqb_spec k y); [by constructor|]. constructor; [done|]. rewrite Forall_forall in Hy |- *.
    intros z [->|Hz]%elem_of_insert_frame; [lia|by apply Hy].
Qed.

Lemma elem_of_free_list_set a i : i ∈ free_list a ↔ i ∈ free_set a.
Proof. by rewrite elem_of_free_list, elem_of_free_set. Qed.

(** One allocation, when the hint is low: the lowest free frame. *)
Lemma allocate_lowest a :
  alloc_wf a → hint_low a →
  ∃ a', alloc_wf a' ∧ hint_low a' ∧ total_frames a' = total_frames a ∧
    match free_list a with
    | [] => allocate_frame a = Ret (None, a') ∧ free_list a' = []
    | k :: l => allocate_frame a = Ret (Some (k * PAGE_SIZE), a') ∧ free_list a' = l
    end.
Proof.
  intros Hwf Hlow. destruct (wf_hint _ Hwf) as [Hh1 Hh2]. unfold allocate_frame.
  destruct (scan_spec a (Z.to_nat (total_frames a - next_free a)) (next_free a) Hwf)
    as [[-> Hnone]|(k & a' & -> & Hk & Hb & Hfirst & Hwf' & Hn' & Ht' & Hfs)]; [lia..| |]; simpl.
  - assert (Hempty : free_list a = []).
    { apply elem_of_nil_inv. intros j Hj. pose proof (Hlow j (proj1 (elem_of_free_list_set a j) Hj)).
      apply elem_of_free_list in Hj as [Hj Hb]. rewrite Hnone in Hb by lia. done. }
    destruct (scan_spec a (Z.to_nat (next_free a)) 0 Hwf)
      as [[-> _]|(k & a' & _ & Hk & Hb & _)]; [lia..| |]; simpl.
    + exists a. rewrite Hempty. done.
    + assert (k ∈ free_list a) as Hin by (apply elem_of_free_list; split; [lia|done]). rewrite Hempty in Hin. by apply elem_of_nil in Hin.
  - assert (Hin : k ∈ free_set a) by (apply elem_of_free_set; split; [lia|done]).
    assert (Hmin : ∀ j, j ∈ free_set a → k ≤ j).
    { intros j Hj. pose proof (Hlow j Hj). apply elem_of_free_set in Hj as [Hj Hbj].
      destruct (decide (k ≤ j)); [done|]. rewrite Hfirst in Hbj by lia. done. }
    assert (free_list a = k :: free_list a') as ->.
    { apply ascending_unique; [by apply ascending_free_list| |].
      - constructor; [by apply ascending_free_list|]. apply Forall_forall. intros j Hj%elem_of_free_list_set.
        rewrite Hfs in Hj. apply elem_of_difference in Hj as [Hj Hne%not_elem_of_singleton]. pose proof (Hmin j Hj). lia.
      - intros x. rewrite elem_of_cons, !elem_of_free_list_set, Hfs. destruct (decide (x = k)) as [->|]; set_solver. }
    exists a'. split; [done|]. split; [|done]. intros j Hj. rewrite Hfs in Hj.
    apply elem_of_difference in Hj as [Hj Hne%not_elem_of_singleton]. pose proof (Hmin j Hj). lia.
Qed.

Lemma free_lowest a k :
  alloc_wf a → hint_low a → 0 ≤ k < total_frames a →
  ∃ a', free_frame a (k * PAGE_SIZE) = Ret a' ∧ alloc_wf a' ∧ hint_low a' ∧ total_frames a' = total_frames a ∧
        free_list a' = insert_frame k (free_list a).
Proof.
  intros Hwf Hlow Hk. destruct (free_frame_refines a k Hwf Hk) as (a' & E & Hwf' & Hfs).
  assert (Hfields : total_frames a' = total_frames a ∧ next_free a' = Z.min k (next_free a)).
  { unfold free_frame in E. rewrite Z.div_mul in E by done. destruct (clear_bit_spec a k Hwf Hk) as (a1 & E1 & Ht & Hn & _).
    rewrite E1 in E. simpl in E. destruct (Z.ltb_spec k (next_free a1)); injection E as <-; simpl; (split; [done|lia]). }
  exists a'. split; [done|]. split; [done|]. destruct Hfields as [Ht Hn]. split; [|split; [done|]].
  - intros j Hj. rewrite Hn. rewrite Hfs in Hj. apply elem_of_union in Hj as [->%elem_of_singleton|Hj]; [lia|].
    specialize (Hlow j Hj). lia.
  - apply ascending_unique; [by apply ascending_free_list|by apply ascending_insert_frame, ascending_free_list|].
    intros x. rewrite elem_of_insert_frame, !elem_of_free_list_set, Hfs. set_solver.
Qed.

Lemma run_frames_lowest ops a :
  alloc_wf a → hint_low a → Forall (op_ok (total_frames a)) ops →
  ∃ a', run_frames ops a = Ret ((run_lowest ops (free_list a)).1, a') ∧ alloc_wf a' ∧ hint_low a' ∧
        free_list a' = (run_lowest ops (free_list a)).2 ∧ total_frames a' = total_frames a.
Proof.
  revert a. induction ops as [|[|k] ops IH]; intros a Hwf Hlow Hops; [by exists a| |];
    apply Forall_cons in Hops as [Hop Hops]; cbn [run_frames run_lowest].
  - destruct (allocate_lowest a Hwf Hlow) as (a1 & Hwf1 & Hlow1 & Ht1 & Hstep).
    destruct (IH a1 Hwf1 Hlow1) as (a2 & E2 & Hwf2 & Hlow2 & Hf2 & Ht2); [by rewrite Ht1|]. exists a2.
    destruct (free_list a) as [|k l]; destruct Hstep as [E1 Hl]; rewrite Hl in E2, Hf2; rewrite E1; cbn [outcome_bind];
      rewrite E2; cbn [outcome_bind]; destruct (run_lowest _ _); (split; [done|]; split; [done|]; split; [done|];
        split; [done|congruence]).
  - destruct (free_lowest a k Hwf Hlow Hop) as (a1 & -> & Hwf1 & Hlow1 & Ht1 & Hl). cbn [outcome_bind].
    destruct (IH a1 Hwf1 Hlow1) as (a2 & E2 & Hwf2 & Hlow2 & Hf2 & Ht2); [by rewrite Ht1|]. exists a2.
    rewrite Hl in E2, Hf2. split; [done|]. split; [done|]. split; [done|]. split; [done|congruence].
Qed.

(** The frames held after a history: those returned and not given back.  A release has to be of a frame
    held. *)
Fixpoint held_after (ops : list frame_op) (outs : list (option Z)) (held : list Z) : option (list Z) :=
  match ops, outs with
  | [], _ => Some held
  | Alloc :: ops', Some f :: outs' => held_after ops' outs' (held ++ [f / PAGE_SIZE])
  | Alloc :: ops', None :: outs' => held_after ops' outs' held
  | Alloc :: _, [] => None
  | Free k :: ops', _ => if decide (k ∈ held) then held_after ops' outs (filter (λ x, x ≠ k) held) else None
  end.

Lemma held_lowest ops l held held' :
  ascending l → NoDup (l ++ held) →
  held_after ops (run_lowest ops l).1 held = Some held' →
  NoDup ((run_lowest ops l).2 ++ held') ∧ ∀ x, x ∈ (run_lowest ops l).2 ++ held' ↔ x ∈ l ++ held.
Proof.
  revert l held. induction ops as [|[|k] ops IH]; intros l held Hasc Hnd H; [simpl in *; by simplify_eq| |].
  - destruct l as [|k l]; cbn [run_lowest] in H |- *.
    + destruct (run_lowest ops []) as [outs l'] eqn:E. specialize (IH [] held Hasc Hnd). rewrite E in IH. by apply IH.
    + destruct (run_lowest ops l) as [outs l'] eqn:E. simpl in H. rewrite Z.div_mul in H by done.
      specialize (IH l (held ++ [k])). rewrite E in IH. destruct (IH ltac:(by inversion Hasc)) as [Hn Hx]; [|done|].
      { rewrite app_assoc. simpl in Hnd. apply NoDup_cons in Hnd as [Hk Hnd]. apply NoDup_app. split; [done|].
        split; [|apply NoDup_singleton]. intros y Hy ->%list_elem_of_singleton. done. }
      split; [done|]. intros x. cbn [app]. rewrite Hx, elem_of_cons, !elem_of_app, list_elem_of_singleton. tauto.
  - cbn [run_lowest held_after] in H |- *. case_decide as Hk; [|done].
    assert (Hkl : k ∉ l) by (intros Hin; apply NoDup_app in Hnd as (_ & Hd & _); by eapply Hd).
    destruct (IH (insert_frame k l) (filter (λ x, x ≠ k) held)) as [Hn Hx]; [by apply ascending_insert_frame| |done|].
    { apply NoDup_app in Hnd as (H1 & H2 & H3). apply NoDup_app. split; [|split; [|by apply NoDup_filter]].
      - clear -Hkl H1. induction l as [|y l IHl]; simpl; [apply NoDup_singleton|]. apply NoDup_cons in H1 as [Hy H1].
        apply not_elem_of_cons in Hkl as [Hne Hkl]. destruct (Z.ltb_spec k y); [apply NoDup_cons; split; [set_solver|by apply NoDup_cons]|].
        destruct (Z.eqb_spec k y); [done|]. apply NoDup_cons. split; [|by apply IHl]. rewrite elem_of_insert_frame. naive_solver.
      - intros x [->|Hxl]%elem_of_insert_frame [Hne Hin]%list_elem_of_filter; [done|]. by eapply H2. }
    split; [done|]. intros x. rewrite Hx, !elem_of_app, elem_of_insert_frame, list_elem_of_filter.
    destruct (decide (x = k)) as [->|]; tauto.
Qed.

(** *** Properties *)

(** C9: the bitmap allocator is equivalent to an ordered list of free frames.  When the hint is below every
    free frame, as init leaves it, any sequence of allocations and releases of managed frames runs without a
    panic and gives the same answers as taking from the front of the ordered list and inserting into it; the free
    frames afterwards are that list, and the hint is low again, so the second scan of allocate_frame never finds
    a frame. *)
Theorem frames_first_fit (a : BitmapFrameAllocator) (ops : list frame_op) :
  alloc_wf a → hint_low a → Forall (op_ok (total_frames a)) ops →
  ∃ a', run_frames ops a = Ret ((run_lowest ops (free_list a)).1, a') ∧ alloc_wf a' ∧ hint_low a' ∧
        free_list a' = (run_lowest ops (free_list a)).2.
Proof.
  intros Hwf Hlow Hops. destruct (run_frames_lowest ops a Hwf Hlow Hops) as (a' & ? & ? & ? & ? & _). by exists a'.
Qed.

(** C26: frames are neither lost nor handed out twice.  In a history in which only frames held are given back,
    the frames held are distinct, none of them is free, and together with the free ones they are the
    frames that were free at the start. *)
Theorem frames_conserved (a a' : BitmapFrameAllocator) (ops : list frame_op) (outs : list (option Z)) (held : list Z) :
  alloc_wf a → hint_low a → Forall (op_ok (total_frames a)) ops →
  run_frames ops a = Ret (outs, a') → held_after ops outs [] = Some held →
  NoDup held ∧ (∀ k, k ∈ held → (k ∉ free_set a')) ∧ list_to_set held ∪ free_set a' = free_set a.
Proof.
  intros Hwf Hlow Hops E Hheld. destruct (run_frames_lowest ops a Hwf Hlow Hops) as (a1 & E1 & _ & _ & Hf & _).
  rewrite E in E1. injection E1 as -> ->. destruct (held_lowest ops (free_list a) [] held) as [Hnd Hx]; [by apply ascending_free_list| |done|].
  { rewrite app_nil_r. apply NoDup_filter, NoDup_seqZ. }
  rewrite <-Hf in Hnd, Hx. apply NoDup_app in Hnd as (_ & Hd & Hnd). split; [done|]. split.
  - intros k Hk Hfree%elem_of_free_list_set. by eapply Hd.
  - apply set_eq. intros x. rewrite elem_of_union, elem_of_list_to_set, <-!elem_of_free_list_set.
    specialize (Hx x). rewrite app_nil_r, elem_of_app in Hx. tauto.
Qed.

(** *** Witnesses *)
Definition demo_alloc : BitmapFrameAllocator := {| bitmap := [0xFF; 0xF3]; total_frames := 12; next_free := 3 |}.

Lemma demo_alloc_wf : alloc_wf demo_alloc ∧ hint_low demo_alloc.
Proof.
  assert (Hwf : alloc_wf demo_alloc).
  { split; simpl; [lia|unfold PAGE_SIZE, PHYS_LIMIT; lia|reflexivity|lia|].
    intros i Hi. destruct (decide (i < 16)).
    - assert (i = 12 ∨ i = 13 ∨ i = 14 ∨ i = 15) as Hcases by lia.
      destruct Hcases as [->|[->|[->| ->]]]; reflexivity.
    - unfold bit. cbn [bitmap demo_alloc]. rewrite lookup_ge_None_2; [reflexivity|].
      assert (2 ≤ i / 8) by (apply Z.div_le_lower_bound; lia). simpl. lia. }
  split; [exact Hwf|]. intros j Hj%elem_of_free_list_set. change (free_list demo_alloc) with [10; 11] in Hj. set_solver by lia.
Qed.

Lemma frames_first_fit_witness :
  ∃ a', run_frames [Alloc; Alloc; Alloc; Free 4; Alloc] demo_alloc = Ret ([Some 0xA000; Some 0xB000; None; Some 0x4000], a') ∧
        free_list a' = [].
Proof.
  destruct (frames_first_fit demo_alloc [Alloc; Alloc; Alloc; Free 4; Alloc]) as (a' & E & _ & _ & Hf).
  - apply demo_alloc_wf.
  - apply demo_alloc_wf.
  - repeat constructor; simpl; lia.
  - exists a'. split; [exact E|exact Hf].
Defined.

Lemma frames_conserved_witness :
  match run_frames [Alloc; Alloc; Free 10; Alloc] demo_alloc with
  | Ret (outs, a') => held_after [Alloc; Alloc; Free 10; Alloc] outs [] = Some [11; 10] ∧
                      list_to_set [11; 10] ∪ free_set a' = free_set demo_alloc
  | Panic => False
  end.
Proof.
  destruct (run_frames [Alloc; Alloc; Free 10; Alloc] demo_alloc) as [[outs a']|] eqn:E; [|discriminate E].
  assert (Hh : held_after [Alloc; Alloc; Free 10; Alloc] outs [] = Some [11; 10]).
  { vm_compute in E. injection E as <- _. reflexivity. }
  split; [exact Hh|].
  destruct (frames_conserved demo_alloc a' [Alloc; Alloc; Free 10; Alloc] outs [11; 10]) as (_ & _ & H).
  - apply demo_alloc_wf.
  - apply demo_alloc_wf.
  - repeat constructor; simpl; lia.
  - exact E.
  - exact Hh.
  - exact H.
Defined.

(** Stats counts the padding bits of the last bitmap byte as used frames, so on a
    well-formed allocator the reported free count is the real one minus the padding
    (at most 7), and the subtraction panics when fewer frames than padding bits are free. *)
Lemma stats_undercounts (a : BitmapFrameAllocator) :
  alloc_wf a →
  stats a = (if decide (pad a ≤ Z.of_nat (size (free_set a)))
             then Ret (Z.of_nat (size (free_set a)) - pad a, total_frames a) else Panic) ∧
  0 ≤ pad a < 8 ∧ (pad a = 0 ↔ total_frames a mod 8 = 0).
Proof.
  intros Hwf. destruct (used_count a Hwf) as [Hu Hp]. split; [|split; [done|]].
  - unfold stats. rewrite Hu. unfold checked_sub64. repeat case_decide; simpl; try done; try lia.
    do 2 f_equal. lia.
  - unfold pad. rewrite (wf_length _ Hwf). Z.div_mod_to_equations. lia.
Qed.

Lemma stats_new_panics : stats (new 1) = Panic.
Proof.
  rewrite (proj1 (stats_undercounts (new 1) ltac:(apply alloc_new_wf; unfold PAGE_SIZE, PHYS_LIMIT; lia))).
  vm_compute. reflexivity.
Defined.

Lemma init_frees (USABLE RECLAIMABLE EXECUTABLE : Z) (entries : list Entry) (hhdm m : Z)
    (idx : nat) (region : Entry) :
  Forall entry_ok entries →
  max_usable USABLE entries = Ret m →
  list_find (λ e, is_usable USABLE e && (((m / PAGE_SIZE + 7) / 8) <=? e_length e)) entries =
    Some (idx, region) →
  e_base region + hhdm ≤ U64_MAX →
  ∃ a, alloc_wf a ∧ hint_low a ∧
       init USABLE RECLAIMABLE EXECUTABLE entries hhdm =
         (if decide (pad a ≤ Z.of_nat (size (free_set a))) then Ret a else Panic) ∧
       ∀ f, f ∈ free_set a ↔
         0 ≤ f < m / PAGE_SIZE ∧
         Exists (λ e, is_usable USABLE e = true ∧ spans e f) entries ∧
         ¬ (e_base region / PAGE_SIZE ≤ f < e_base region / PAGE_SIZE +
              ((m / PAGE_SIZE + 7) / 8 + PAGE_SIZE - 1) / PAGE_SIZE) ∧
         ¬ Exists (λ e, is_protected RECLAIMABLE EXECUTABLE e = true ∧ spans e f) entries.
Proof.
  intros Hok Hmax Hfind Hhhdm.
  destruct (max_usable_spec USABLE entries Hok) as (m' & Em & Hm & _).
  rewrite Hmax in Em. injection Em as <-.
  destruct (proj1 (list_find_Some _ _ _ _) Hfind) as (Hreg & Hpred & _).
  assert (entry_ok region) as (? & ? & ?) by (rewrite Forall_lookup in Hok; eauto).
  apply Is_true_true, andb_true_iff in Hpred as [_ Hsz%Z.leb_le].
  set (total := m / PAGE_SIZE) in *.
  assert (0 ≤ total ∧ total * PAGE_SIZE ≤ PHYS_LIMIT) as [Ht1 Ht2].
  { unfold total, PAGE_SIZE. split; [apply Z.div_pos; lia|]. Z.div_mod_to_equations. lia. }
  destruct (mark_usable_spec USABLE entries (new total) Hok (alloc_new_wf _ Ht1 Ht2))
    as (a1 & E1 & Hwf1 & Hta1 & Hn1 & Hb1).
  destruct (mark_region_used_spec a1 (e_base region / PAGE_SIZE)
              (((total + 7) / 8 + PAGE_SIZE - 1) / PAGE_SIZE))
    as (a2 & E2 & Hwf2 & Hta2 & Hn2 & Hb2); [done|..].
  1-3: unfold PAGE_SIZE, PHYS_LIMIT, U64_MAX in *; Z.div_mod_to_equations; lia.
  destruct (mark_protected_spec RECLAIMABLE EXECUTABLE entries total a2 Hok Hwf2)
    as (a3 & E3 & Hwf3 & Hta3 & Hn3 & Hb3); [by rewrite Hta2, Hta1|].
  exists a3. split; [done|]. split.
  { intros f Hf%elem_of_free_set. rewrite Hn3, Hn2, Hn1. simpl. lia. }
  split.
  - unfold init. rewrite Hmax. cbn [outcome_bind]. fold total. rewrite Hfind. unfold checked_add64.
    rewrite decide_True by done. cbn [outcome_bind]. rewrite E1. cbn [outcome_bind].
    rewrite E2. cbn [outcome_bind]. rewrite E3. cbn [outcome_bind].
    destruct (used_count a3 Hwf3) as [Hu _]. unfold stats. rewrite Hu. unfold checked_sub64.
    repeat case_decide; simpl; try done; lia.
  - intros f. rewrite elem_of_free_set, Hta3, Hta2, Hta1. simpl. split.
    + intros [Hf Hbit]. rewrite Hb3 in Hbit by (rewrite Hta2, Hta1; done).
      destruct Hbit as [Hbit Hnp]. rewrite Hb2 in Hbit by (rewrite Hta1; done).
      case_decide; [done|]. rewrite Hb1 in Hbit by done. destruct Hbit as [Hnew|Hex]; [|done].
      exfalso. revert Hnew. unfold bit. simpl. destruct (replicate _ _ !! _) as [b|] eqn:E; [|done].
      apply lookup_replicate in E as [-> _]. change 0xFF with (Z.ones 8).
      rewrite Z.ones_spec_low; [done|]. apply Z.mod_pos_bound. lia.
    + intros (Hf & Hex & Hbm & Hnp). split; [done|].
      rewrite Hb3 by (rewrite Hta2, Hta1; done). split; [|done].
      rewrite Hb2 by (rewrite Hta1; done). rewrite decide_False by done. rewrite Hb1 by done. by right.
Qed.

Lemma init_returns_wf (USABLE RECLAIMABLE EXECUTABLE : Z) (entries : list Entry) (hhdm : Z) (a : BitmapFrameAllocator) :
  Forall entry_ok entries → init USABLE RECLAIMABLE EXECUTABLE entries hhdm = Ret a → alloc_wf a ∧ hint_low a.
Proof.
  intros Hok E. destruct (max_usable_spec USABLE entries Hok) as (m & Em & _).
  destruct (list_find (λ e, is_usable USABLE e && (((m / PAGE_SIZE + 7) / 8) <=? e_length e)) entries) as [[idx region]|] eqn:Ef;
    [|unfold init in E; rewrite Em in E; cbn [outcome_bind] in E; by rewrite Ef in E].
  destruct (decide (e_base region + hhdm ≤ U64_MAX)) as [Hh|Hh].
  - destruct (init_frees USABLE RECLAIMABLE EXECUTABLE entries hhdm m idx region Hok Em Ef Hh) as (a' & Hwf & Hlow & E' & _).
    rewrite E in E'. destruct (decide _); [|done]. injection E' as ->. done.
  - unfold init in E. rewrite Em in E. cbn [outcome_bind] in E. rewrite Ef in E. unfold checked_add64 in E.
    by rewrite decide_False in E.
Qed.

(** C27: after boot the free set is exact.  For memory-map entries within the 52 bits of physical addresses and a
    usable region large enough for the bitmap, init returns a well-formed allocator with its hint below every free frame (or panics in
    the final statistics when fewer frames than padding bits are free) in which a frame is free
    exactly when it is managed, lies in a usable entry, is not one of the frames that hold the
    bitmap and lies in no bootloader-reclaimable or executable entry. *)
Theorem init_free_set (USABLE RECLAIMABLE EXECUTABLE : Z) (entries : list Entry) (hhdm m : Z)
    (idx : nat) (region : Entry) :
  Forall entry_ok entries →
  max_usable USABLE entries = Ret m →
  list_find (λ e, is_usable USABLE e && (((m / PAGE_SIZE + 7) / 8) <=? e_length e)) entries =
    Some (idx, region) →
  e_base region + hhdm ≤ U64_MAX →
  ∃ a, alloc_wf a ∧ hint_low a ∧
       init USABLE RECLAIMABLE EXECUTABLE entries hhdm =
         (if decide (pad a ≤ Z.of_nat (size (free_set a))) then Ret a else Panic) ∧
       ∀ f, f ∈ free_set a ↔
         0 ≤ f < m / PAGE_SIZE ∧
         Exists (λ e, is_usable USABLE e = true ∧ spans e f) entries ∧
         ¬ (e_base region / PAGE_SIZE ≤ f < e_base region / PAGE_SIZE +
              ((m / PAGE_SIZE + 7) / 8 + PAGE_SIZE - 1) / PAGE_SIZE) ∧
         ¬ Exists (λ e, is_protected RECLAIMABLE EXECUTABLE e = true ∧ spans e f) entries.
Proof. apply init_frees. Qed.

(** A map with 32 KiB of usable memory at 1 MiB and a reclaimable region inside it. *)
Definition demo_map : list Entry :=
  [{| e_base := 0x100000; e_length := 0x8000; e_type := 0 |};
   {| e_base := 0x102000; e_length := 0x1000; e_type := 5 |}].

Lemma init_free_set_witness :
  ∃ a, alloc_wf a ∧ (0x101 ∈ free_set a) ∧ (0x100 ∉ free_set a) ∧ (0x102 ∉ free_set a).
Proof.
  destruct (init_free_set 0 5 6 demo_map 0xFFFF800000000000 0x108000 0
              {| e_base := 0x100000; e_length := 0x8000; e_type := 0 |})
    as (a & Hwf & _ & _ & Hfree).
  - repeat constructor; simpl; unfold PHYS_LIMIT; lia.
  - reflexivity.
  - reflexivity.
  - simpl. unfold U64_MAX. lia.
  - exists a. split; [exact Hwf|]. rewrite !Hfree. split_and!.
    + vm_compute; intuition congruence.
    + vm_compute; intuition congruence.
    + left. split; [reflexivity|]. vm_compute; intuition congruence.
    + vm_compute; intuition congruence.
    + unfold demo_map. rewrite !Exists_cons, Exists_nil. vm_compute; intuition congruence.
    + intros (_ & _ & Hb & _). apply Hb. vm_compute; intuition congruence.
    + intros (_ & _ & _ & Hp). apply Hp. right. left. split; [reflexivity|]. vm_compute; intuition congruence.
Defined.
End Frames.
