(* ===== verification/Task.v ===== *)
(** * Tasks: task/mod.rs, task/context.rs, memory/paging.rs

    Task data, the recycling id allocator, stack placement, the capability list a task
    carries, and task creation over the frame allocator and the page-table mapper.  The
    mapper is the x86_64 crate's: the class [Mapper] states what the kernel relies on. *)

From S2P Require Import Prelude Capability FrameAlloc.

(** ** Data *)
Module Tasks.
Import Frames.

Record CpuContext : Type := mkCtx {
  rsp : Z; rbp : Z; rbx : Z; r12 : Z; r13 : Z; r14 : Z; r15 : Z; rip : Z;
}.

Definition empty_context : CpuContext :=
  {| rsp := 0; rbp := 0; rbx := 0; r12 := 0; r13 := 0; r14 := 0; r15 := 0; rip := 0 |}.

Inductive TaskState : Type := Ready | Running | Blocked | Dead.
Inductive Priority : Type := Realtime | Normal | Background.

(** [priority as usize]. *)
Definition priority_index (p : Priority) : nat :=
  match p with Realtime => 0 | Normal => 1 | Background => 2 end.

Definition STACK_PAGES : Z := 4.
Definition STACK_SIZE : Z := STACK_PAGES * PAGE_SIZE.
Definition STACK_REGION_BASE : Z := 0xFFFFB00000000000.
Definition STACK_SLOT_SIZE : Z := (STACK_PAGES + 1) * PAGE_SIZE.

Record Task : Type := mkTask {
  t_id : Z;
  t_name : string;
  t_state : TaskState;
  t_priority : Priority;
  t_context : CpuContext;
  t_stack_top : Z;
  t_stack_frames : list Z;
  t_capabilities : list Z;
}.

#[export] Instance TaskState_eq_dec : EqDecision TaskState.
Proof. solve_decision. Defined.
#[export] Instance Priority_eq_dec : EqDecision Priority.
Proof. solve_decision. Defined.
#[export] Instance CpuContext_eq_dec : EqDecision CpuContext.
Proof. solve_decision. Defined.
#[export] Instance Task_eq_dec : EqDecision Task.
Proof. solve_decision. Defined.

Definition set_state (t : Task) (s : TaskState) : Task :=
  {| t_id := t_id t; t_name := t_name t; t_state := s; t_priority := t_priority t;
     t_context := t_context t; t_stack_top := t_stack_top t;
     t_stack_frames := t_stack_frames t; t_capabilities := t_capabilities t |}.

Definition set_capabilities (t : Task) (cs : list Z) : Task :=
  {| t_id := t_id t; t_name := t_name t; t_state := t_state t; t_priority := t_priority t;
     t_context := t_context t; t_stack_top := t_stack_top t;
     t_stack_frames := t_stack_frames t; t_capabilities := cs |}.

(** ** Task ids *)
Record IdAllocator : Type := mkIds { ids_next : Z; ids_free_list : list Z }.

Definition ids_new : IdAllocator := {| ids_next := 1; ids_free_list := [] |}.

(** [Vec::pop] takes the last element, [push] appends. *)
Definition ids_alloc (self : IdAllocator) : outcome (Z * IdAllocator) :=
  match last (ids_free_list self) with
  | Some id => Ret (id, {| ids_next := ids_next self;
                           ids_free_list := removelast (ids_free_list self) |})
  | None =>
      let id := ids_next self in
      let? next := checked_add64 (ids_next self) 1 in
      Ret (id, {| ids_next := next; ids_free_list := ids_free_list self |})
  end.

Definition ids_free (self : IdAllocator) (id : Z) : IdAllocator :=
  {| ids_next := ids_next self; ids_free_list := ids_free_list self ++ [id] |}.

(** ** The capability list of a task *)
Definition has_capability (self : Task) (cap_id : Z) : bool :=
  bool_decide (cap_id ∈ t_capabilities self).

Definition grant_capability (self : Task) (cap_id : Z) : Task :=
  if has_capability self cap_id then self
  else set_capabilities self (t_capabilities self ++ [cap_id]).

Definition revoke_capability (self : Task) (cap_id : Z) : Task :=
  set_capabilities self (filter (λ id, id ≠ cap_id) (t_capabilities self)).

Definition cap_is_ok (table : CapTable.CapabilityTable) (id : Z) : bool :=
  match CapTable.get table id with Ok _ => true | Err _ => false end.

Definition gc_capabilities (self : Task) (table : CapTable.CapabilityTable) : Task :=
  set_capabilities self (filter (λ id, cap_is_ok table id = true) (t_capabilities self)).

(** ** Stack placement *)
Definition slot_base (id : Z) : outcome Z :=
  let? off := checked_mul64 id STACK_SLOT_SIZE in
  checked_add64 STACK_REGION_BASE off.

Definition stack_bottom (id : Z) : outcome Z :=
  let? base := slot_base id in checked_add64 base PAGE_SIZE.

Definition stack_top (id : Z) : outcome Z :=
  let? bottom := stack_bottom id in checked_add64 bottom STACK_SIZE.

(** ** Page tables

    [map_to pt page frame flags alloc] is [Mapper::map_to] of the x86_64 crate: it installs the
    mapping of [page] to [frame] with the flags, taking frames for new page-table levels from the frame
    allocator, or fails (PageAlreadyMapped among the errors).  [translate] is the lookup
    [Translate::translate_page], [page_flags] the flags of the page's entry. *)
Class Mapper (PT : Type) : Type := {
  map_to : PT → Z → Z → Z → BitmapFrameAllocator → option (PT * BitmapFrameAllocator);
  translate : PT → Z → option Z;
  page_flags : PT → Z → option Z;
}.

(** PageTableFlags of the crate. *)
Definition PRESENT : Z := 1.
Definition WRITABLE : Z := Z.shiftl 1 1.
Definition NO_CACHE : Z := Z.shiftl 1 4.
Definition NO_EXECUTE : Z := Z.shiftl 1 63.

(** What the kernel gives its data pages. *)
Definition DATA_FLAGS : Z := Z.lor (Z.lor PRESENT WRITABLE) NO_EXECUTE.

(** [n] frames taken in a row. *)
Fixpoint take_frames (n : nat) (a : BitmapFrameAllocator)
    : outcome (option (list Z) * BitmapFrameAllocator) :=
  match n with
  | O => Ret (Some [], a)
  | S n' =>
      let? r := allocate_frame a in
      match r with
      | (Some f, a') =>
          let? r' := take_frames n' a' in
          match r' with
          | (Some fs, a'') => Ret (Some (f :: fs), a'')
          | (None, a'') => Ret (None, a'')
          end
      | (None, a') => Ret (None, a')
      end
  end.

(** The documented behaviour: mapping a mapped page fails; a success binds that page and
    no other, and costs some frames of the allocator. *)
Class MapperLaws (PT : Type) `{!Mapper PT} : Prop := {
  map_to_mapped : ∀ pt page frame flags a, is_Some (translate pt page) → map_to pt page frame flags a = None;
  map_to_Some : ∀ pt page frame flags a pt' a',
    map_to pt page frame flags a = Some (pt', a') →
    (∀ p, translate pt' p = if decide (p = page) then Some frame else translate pt p) ∧
    ∃ n fs, take_frames n a = Ret (Some fs, a');
  map_to_flags : ∀ pt page frame flags a pt' a',
    map_to pt page frame flags a = Some (pt', a') →
    ∀ p, page_flags pt' p = if decide (p = page) then Some flags else page_flags pt p;
}.

Section tasks.
Context {PT : Type} `{!Mapper PT}.

(** What task creation touches: ID_ALLOCATOR, FRAME_ALLOCATOR and the page tables. *)
Record TaskEnv : Type := mkEnv {
  e_ids : IdAllocator;
  e_frames : option BitmapFrameAllocator;
  e_pt : PT;
}.

(** memory/paging.rs [alloc_and_map]; the three [expect]s panic. *)
Definition alloc_and_map (page flags : Z) (env : TaskEnv) : outcome (Z * TaskEnv) :=
  match e_frames env with
  | None => Panic
  | Some a =>
      let? r := allocate_frame a in
      match r with
      | (None, _) => Panic
      | (Some frame, a') =>
          match map_to (e_pt env) page frame flags a' with
          | None => Panic
          | Some (pt', a'') =>
              Ret (frame, {| e_ids := e_ids env; e_frames := Some a''; e_pt := pt' |})
          end
      end
  end.

(** [for i in 0..STACK_PAGES]: map the pages bottom up, collecting their frames. *)
Fixpoint map_stack (n : nat) (i bottom : Z) (env : TaskEnv) : outcome (list Z * TaskEnv) :=
  match n with
  | O => Ret ([], env)
  | S n' =>
      let? page_addr := checked_add64 bottom (i * PAGE_SIZE) in
      let? r := alloc_and_map page_addr DATA_FLAGS env in
      let? r' := map_stack n' (i + 1) bottom (r.2) in
      Ret (r.1 :: r'.1, r'.2)
  end.

(** [Task::new].  [entry] and [trampoline] are the addresses of the entry function and of
    task_entry_trampoline. *)
Definition task_new (name : string) (priority : Priority) (entry trampoline : Z) (env : TaskEnv)
    : outcome (Task * TaskEnv) :=
  let? r := ids_alloc (e_ids env) in
  let id := r.1 in
  let env1 := {| e_ids := r.2; e_frames := e_frames env; e_pt := e_pt env |} in
  let? bottom := stack_bottom id in
  let? top := checked_add64 bottom STACK_SIZE in
  let? s := map_stack (Z.to_nat STACK_PAGES) 0 bottom env1 in
  let context := {| rsp := top; rbp := 0; rbx := 0; r12 := entry; r13 := 0; r14 := 0; r15 := 0;
                    rip := trampoline |} in
  Ret ({| t_id := id; t_name := name; t_state := Ready; t_priority := priority;
          t_context := context; t_stack_top := top; t_stack_frames := s.1; t_capabilities := [] |},
       s.2).

(** The frame part of cleanup_dead_task: every stack frame goes back to the allocator. *)
Fixpoint free_frames (fs : list Z) (a : BitmapFrameAllocator) : outcome BitmapFrameAllocator :=
  match fs with
  | [] => Ret a
  | f :: fs' => let? a' := free_frame a f in free_frames fs' a'
  end.
End tasks.
Arguments TaskEnv : clear implicits.

(** *** Id allocator *)

(** The ids below [next] that are not on the free list are in use. *)
Record ids_wf (s : IdAllocator) : Prop := {
  ids_next_pos : 1 ≤ ids_next s ≤ U64_MAX;
  ids_nodup : NoDup (ids_free_list s);
  ids_range : Forall (λ id, 1 ≤ id < ids_next s) (ids_free_list s);
}.

Definition in_use (s : IdAllocator) (id : Z) : Prop :=
  1 ≤ id < ids_next s ∧ id ∉ ids_free_list s.

Lemma ids_alloc_spec s id s' :
  ids_wf s → ids_alloc s = Ret (id, s') →
  ids_wf s' ∧ ¬ in_use s id ∧ (∀ k, in_use s' k ↔ in_use s k ∨ k = id).
Proof.
  destruct s as [n fl]. intros [Hn Hnd Hr] H. unfold ids_alloc, in_use in *. simpl in *.
  destruct (last fl) as [x|] eqn:E.
  - apply last_Some in E as [l ->]. rewrite removelast_last in H. simplify_eq/=.
    apply NoDup_app in Hnd as (Hnd & Hdisj & _). apply Forall_app in Hr as [Hr Hx].
    pose proof (Forall_inv Hx) as Hid. simpl in Hid. split; [by split|].
    assert (id ∉ l) as Hnotin by (intros Hin; eapply Hdisj; set_solver).
    split; [set_solver|]. intros k. rewrite not_elem_of_app, list_elem_of_singleton.
    destruct (decide (k = id)) as [->|]; intuition.
  - apply last_None in E. destruct (checked_add64 n 1) as [n'|] eqn:En; simplify_eq/=.
    apply checked_add64_Ret in En as [-> ?]. split; [split; simpl; [lia|constructor..]|].
    split; [lia|]. intros k. set_solver by lia.
Qed.

Lemma ids_free_spec s id :
  ids_wf s → in_use s id → ids_wf (ids_free s id) ∧ (∀ k, in_use (ids_free s id) k ↔ in_use s k ∧ k ≠ id).
Proof.
  intros [Hn Hnd Hr] [Hrange Hnot]. split.
  - split; simpl; [done| |].
    + apply NoDup_app. split; [done|]. split; [set_solver|apply NoDup_singleton].
    + apply Forall_app. split; [done|]. by constructor.
  - intros k. unfold in_use, ids_free. simpl. set_solver.
Qed.

(** *** Stack slots *)
Lemma stack_addresses id :
  0 ≤ id < 256 →
  slot_base id = Ret (STACK_REGION_BASE + id * STACK_SLOT_SIZE) ∧
  stack_bottom id = Ret (STACK_REGION_BASE + id * STACK_SLOT_SIZE + PAGE_SIZE) ∧
  stack_top id = Ret (STACK_REGION_BASE + (id + 1) * STACK_SLOT_SIZE).
Proof.
  intros Hid. unfold stack_top, stack_bottom, slot_base, checked_mul64, checked_add64.
  unfold STACK_REGION_BASE, STACK_SLOT_SIZE, STACK_SIZE, STACK_PAGES, PAGE_SIZE, U64_MAX.
  repeat (rewrite decide_True by lia; simpl). split_and!; f_equal; lia.
Qed.

(** *** Task creation against the mapper interface *)
Section task_new_spec.
Context {PT : Type} `{!Mapper PT, !MapperLaws PT}.
Implicit Types env : TaskEnv PT.

Lemma alloc_and_map_spec page flags env f env' :
  alloc_and_map page flags env = Ret (f, env') →
  translate (e_pt env) page = None ∧ e_ids env' = e_ids env ∧
  ∀ p, translate (e_pt env') p = if decide (p = page) then Some f else translate (e_pt env) p.
Proof.
  unfold alloc_and_map. intros H. destruct (e_frames env) as [a|]; [|done].
  destruct (allocate_frame a) as [[[g|] a1]|]; simplify_eq/=.
  destruct (map_to (e_pt env) page g flags a1) as [[pt' a2]|] eqn:E; simplify_eq/=.
  split; [|split; [done|by apply (map_to_Some _ _ _ _ _ _ _ E)]].
  destruct (translate (e_pt env) page) eqn:Et; [|done].
  rewrite map_to_mapped in E; [done|by eexists].
Qed.

Lemma alloc_and_map_flags page flags env f env' :
  alloc_and_map page flags env = Ret (f, env') →
  ∀ p, page_flags (e_pt env') p = if decide (p = page) then Some flags else page_flags (e_pt env) p.
Proof.
  unfold alloc_and_map. intros H. destruct (e_frames env) as [a|]; [|done].
  destruct (allocate_frame a) as [[[g|] a1]|]; simplify_eq/=.
  destruct (map_to (e_pt env) page g flags a1) as [[pt' a2]|] eqn:E; simplify_eq/=. by apply (map_to_flags _ _ _ _ _ _ _ E).
Qed.

(** Pages that a command mapped as data; the others are as they were. *)
Definition maps_data env env' : Prop :=
  ∀ p, page_flags (e_pt env') p = Some DATA_FLAGS ∨
       (page_flags (e_pt env') p = page_flags (e_pt env) p ∧ translate (e_pt env') p = translate (e_pt env) p).

Lemma maps_data_refl env : maps_data env env.
Proof. intros p. by right. Qed.

Lemma maps_data_then page env f env1 env2 :
  alloc_and_map page DATA_FLAGS env = Ret (f, env1) → maps_data env1 env2 → maps_data env env2.
Proof.
  intros E H p. destruct (H p) as [?|[-> ->]]; [by left|]. rewrite (alloc_and_map_flags _ _ _ _ _ E).
  destruct (alloc_and_map_spec _ _ _ _ _ E) as (_ & _ & ->). case_decide; [by left|by right].
Qed.

Lemma map_stack_data n i bottom env fs env' : map_stack n i bottom env = Ret (fs, env') → maps_data env env'.
Proof.
  revert i env fs. induction n as [|n IH]; intros i env fs H; cbn [map_stack] in H; [simplify_eq; apply maps_data_refl|].
  destruct (checked_add64 bottom (i * PAGE_SIZE)) as [page|]; cbn [outcome_bind] in H; [|done].
  destruct (alloc_and_map page _ env) as [[f env1]|] eqn:Ea; [|done]. cbn [outcome_bind fst snd] in H.
  destruct (map_stack n (i + 1) bottom env1) as [[fs' env2]|] eqn:Em; [|done]. cbn [outcome_bind fst snd] in H. simplify_eq.
  eapply maps_data_then; [exact Ea|by eapply IH].
Qed.

Lemma map_stack_spec n i bottom env fs env' :
  map_stack n i bottom env = Ret (fs, env') →
  length fs = n ∧ e_ids env' = e_ids env ∧
  (∀ k, (k < n)%nat → translate (e_pt env') (bottom + (i + Z.of_nat k) * PAGE_SIZE) = fs !! k ∧
                      translate (e_pt env) (bottom + (i + Z.of_nat k) * PAGE_SIZE) = None) ∧
  (∀ p, (∀ k, (k < n)%nat → p ≠ bottom + (i + Z.of_nat k) * PAGE_SIZE) →
        translate (e_pt env') p = translate (e_pt env) p).
Proof.
  revert i env fs. induction n as [|n IH]; intros i env fs H; cbn [map_stack] in H.
  { simplify_eq. split_and!; try done; lia. }
  destruct (checked_add64 bottom (i * PAGE_SIZE)) as [page|] eqn:Ep; [|done].
  apply checked_add64_Ret in Ep as [-> _]. cbn [outcome_bind] in H.
  destruct (alloc_and_map _ _ env) as [[f env1]|] eqn:Ea; [|done]. cbn [outcome_bind fst snd] in H.
  destruct (map_stack n (i + 1) bottom env1) as [[fs' env2]|] eqn:Em; simplify_eq/=.
  apply alloc_and_map_spec in Ea as (Hun & Hids & Htr). apply IH in Em as (Hlen & Hids' & Hin & Hout).
  assert (Hdiff : ∀ k, (k < n)%nat → bottom + (i + 1 + Z.of_nat k) * PAGE_SIZE ≠ bottom + i * PAGE_SIZE)
    by (unfold PAGE_SIZE; lia).
  split; [simpl; lia|]. split; [congruence|]. split.
  - intros [|k] Hk; simpl.
    + rewrite Z.add_0_r. split; [|done]. rewrite Hout.
      * by rewrite Htr, decide_True.
      * intros k Hk'. specialize (Hdiff k Hk'). lia.
    + replace (i + Z.of_nat (S k)) with (i + 1 + Z.of_nat k) by lia.
      destruct (Hin k) as [H1 H2]; [lia|]. split; [done|]. rewrite Htr, decide_False in H2; [done|].
      apply Hdiff. lia.
  - intros p Hp. rewrite Hout.
    + rewrite Htr, decide_False; [done|]. specialize (Hp O). rewrite Z.add_0_r in Hp. apply Hp. lia.
    + intros k Hk. specialize (Hp (S k)).
      replace (i + Z.of_nat (S k)) with (i + 1 + Z.of_nat k) in Hp by lia. apply Hp. lia.
Qed.

Lemma task_new_inv name prio entry tramp env t env' :
  task_new name prio entry tramp env = Ret (t, env') →
  ∃ ids' bottom,
    ids_alloc (e_ids env) = Ret (t_id t, ids') ∧ stack_bottom (t_id t) = Ret bottom ∧
    bottom + STACK_SIZE ≤ U64_MAX ∧
    map_stack 4 0 bottom {| e_ids := ids'; e_frames := e_frames env; e_pt := e_pt env |} =
      Ret (t_stack_frames t, env') ∧
    t_name t = name ∧ t_state t = Ready ∧ t_priority t = prio ∧ t_capabilities t = [] ∧
    t_stack_top t = bottom + STACK_SIZE ∧
    t_context t = {| rsp := bottom + STACK_SIZE; rbp := 0; rbx := 0; r12 := entry;
                     r13 := 0; r14 := 0; r15 := 0; rip := tramp |}.
Proof.
  unfold task_new. intros H.
  destruct (ids_alloc (e_ids env)) as [[id ids']|] eqn:Ei; [|done]. cbn [outcome_bind fst snd] in H.
  destruct (stack_bottom id) as [bottom|] eqn:Eb; [|done]. cbn [outcome_bind] in H.
  destruct (checked_add64 bottom STACK_SIZE) as [top|] eqn:Et; [|done]. cbn [outcome_bind] in H.
  apply checked_add64_Ret in Et as [-> Hle].
  change (Z.to_nat STACK_PAGES) with 4%nat in H.
  destruct (map_stack 4 0 bottom _) as [[fs env1]|] eqn:Em; simplify_eq/=.
  exists ids', bottom. by split_and!.
Qed.
End task_new_spec.

(** *** Properties *)

(** C29: the stack slots of distinct tasks never overlap.  For task ids the scheduler accepts
    (below MAX_TASKS) the address arithmetic does not overflow, the four stack pages end exactly
    at stack_top, the slots of two different tasks are disjoint, and the guard page of a slot
    lies in no task's stack. *)
Theorem stack_slots_disjoint (id1 id2 : Z) :
  0 ≤ id1 < 256 → 0 ≤ id2 < 256 →
  ∃ base1 bottom1 top1 base2 bottom2 top2,
    slot_base id1 = Ret base1 ∧ stack_bottom id1 = Ret bottom1 ∧ stack_top id1 = Ret top1 ∧
    slot_base id2 = Ret base2 ∧ stack_bottom id2 = Ret bottom2 ∧ stack_top id2 = Ret top2 ∧
    bottom1 = base1 + PAGE_SIZE ∧ top1 = bottom1 + STACK_SIZE ∧ top1 ≤ U64_MAX ∧
    (id1 ≠ id2 → ∀ a, base1 ≤ a < top1 → ¬ base2 ≤ a < top2) ∧
    (∀ a, base1 ≤ a < bottom1 → ¬ bottom2 ≤ a < top2).
Proof.
  intros H1 H2. destruct (stack_addresses id1 H1) as (-> & -> & ->).
  destruct (stack_addresses id2 H2) as (-> & -> & ->). do 6 eexists. do 6 (split; [reflexivity|]).
  unfold STACK_REGION_BASE, STACK_SLOT_SIZE, STACK_SIZE, STACK_PAGES, PAGE_SIZE, U64_MAX.
  split_and!; intros; lia.
Qed.

Lemma stack_slots_disjoint_witness :
  ∃ base1 bottom1 top1 base2 bottom2 top2,
    slot_base 1 = Ret base1 ∧ stack_bottom 1 = Ret bottom1 ∧ stack_top 1 = Ret top1 ∧
    slot_base 2 = Ret base2 ∧ stack_bottom 2 = Ret bottom2 ∧ stack_top 2 = Ret top2 ∧
    bottom1 = base1 + PAGE_SIZE ∧ top1 = bottom1 + STACK_SIZE ∧ top1 ≤ U64_MAX ∧
    (1 ≠ 2 → ∀ a, base1 ≤ a < top1 → ¬ base2 ≤ a < top2) ∧
    (∀ a, base1 ≤ a < bottom1 → ¬ bottom2 ≤ a < top2).
Proof. apply (stack_slots_disjoint 1 2); lia. Defined.

(** A mapper that keeps one flat table and needs no frames of its own. *)
Abbreviation flat := (gmap Z (Z * Z)).

#[export] Instance flat_mapper : Mapper flat := {|
  map_to := λ pt page frame flags a,
    match pt !! page with Some _ => None | None => Some (<[page := (frame, flags)]> pt, a) end;
  translate := λ pt page, fst <$> pt !! page;
  page_flags := λ pt page, snd <$> pt !! page;
|}.

Definition no_pages : flat := ∅.

Lemma no_pages_unmapped p : translate no_pages p = None.
Proof. reflexivity. Qed.

#[export] Instance flat_mapper_laws : MapperLaws flat.
Proof.
  split; simpl.
  - intros pt page frame flags a [f Hf]. by destruct (pt !! page).
  - intros pt page frame flags a pt' a' H. destruct (pt !! page); simplify_eq. split; [|by exists O, []].
    intros p. rewrite lookup_insert. repeat case_decide; (done || congruence).
  - intros pt page frame flags a pt' a' H p. destruct (pt !! page); simplify_eq.
    rewrite lookup_insert. repeat case_decide; (done || congruence).
Qed.

(** Task::new, against any mapper with the documented behaviour.  A new task gets an id
    that was not in use, is Ready with no capabilities, starts at the trampoline with the entry
    address in r12 and rsp at the top of its slot; its four stack pages are mapped to exactly
    its recorded frames; no other page changes, so its guard page stays as it was. *)
Theorem task_new_fresh {PT : Type} `{!Mapper PT, !MapperLaws PT} (name : string) (prio : Priority)
    (entry tramp : Z) (env env' : TaskEnv PT) (t : Task) :
  ids_wf (e_ids env) → task_new name prio entry tramp env = Ret (t, env') → t_id t < 256 →
  ¬ in_use (e_ids env) (t_id t) ∧ in_use (e_ids env') (t_id t) ∧
  t_state t = Ready ∧ t_capabilities t = [] ∧
  rip (t_context t) = tramp ∧ r12 (t_context t) = entry ∧ rsp (t_context t) = t_stack_top t ∧
  stack_top (t_id t) = Ret (t_stack_top t) ∧ length (t_stack_frames t) = 4%nat ∧
  ∃ bottom, stack_bottom (t_id t) = Ret bottom ∧
    (∀ k, (k < 4)%nat → translate (e_pt env') (bottom + Z.of_nat k * PAGE_SIZE) = t_stack_frames t !! k) ∧
    (∀ p, p < bottom ∨ t_stack_top t ≤ p → translate (e_pt env') p = translate (e_pt env) p).
Proof.
  intros Hwf H Hid. apply task_new_inv in H
    as (ids' & bottom & Hal & Hbot & Hle & Hmap & _ & Hst & _ & Hcaps & Htop & Hctx).
  destruct (ids_alloc_spec _ _ _ Hwf Hal) as (_ & Hfresh & Huse).
  apply map_stack_spec in Hmap as (Hlen & Hids & Hin & Hout). simpl in Hids, Hin, Hout.
  rewrite Hctx, Htop. simpl.
  split; [done|]. split; [rewrite Hids; apply Huse; by right|]. do 5 (split; [done|]).
  split. { unfold stack_top. rewrite Hbot. simpl. unfold checked_add64. by rewrite decide_True. }
  split; [done|]. exists bottom. split; [done|]. split.
  - intros k Hk. by apply Hin.
  - intros p Hp. apply Hout. intros k Hk. unfold STACK_SIZE, STACK_PAGES, PAGE_SIZE in *. lia.
Qed.

Definition demo_env : TaskEnv flat :=
  {| e_ids := ids_new; e_frames := Some {| bitmap := [0x00]; total_frames := 8; next_free := 0 |};
     e_pt := no_pages |}.

Lemma demo_ids_wf : ids_wf ids_new.
Proof. split; simpl; [unfold U64_MAX; lia|constructor..]. Qed.

(** The first task of the example takes the id 1 and the four lowest frames. *)
Lemma demo_task :
  match task_new "init" Normal 0x1000 0x2000 demo_env with
  | Ret (t, _) => bool_decide (t_id t = 1 ∧ t_stack_frames t = [0; 4096; 8192; 12288])
  | Panic => false
  end = true.
Proof. vm_compute. reflexivity. Qed.

Lemma task_new_fresh_witness :
  match task_new "init" Normal 0x1000 0x2000 demo_env with
  | Ret (t, env') => in_use (e_ids env') (t_id t) ∧ t_stack_frames t = [0; 4096; 8192; 12288]
  | Panic => False
  end.
Proof.
  pose proof demo_task as H. destruct (task_new "init" Normal 0x1000 0x2000 demo_env) as [[t env']|] eqn:E; [|discriminate H].
  apply bool_decide_eq_true in H as [Hid Hfs]. split; [|exact Hfs].
  apply (task_new_fresh "init" Normal 0x1000 0x2000 demo_env env' t demo_ids_wf E). rewrite Hid. lia.
Defined.

(** C30: a recycled task id cannot be used again.  cleanup_dead_task frees the stack frames and
    recycles the id but never unmaps the stack pages, so the next Task::new, which draws that
    same id, finds its first stack page mapped and panics in alloc_and_map, whatever happened to
    the frame allocator in between. *)
Theorem task_new_after_exit_panics {PT : Type} `{!Mapper PT, !MapperLaws PT} (name name' : string)
    (prio prio' : Priority) (entry entry' tramp : Z) (env env' : TaskEnv PT) (t : Task)
    (frames : option BitmapFrameAllocator) :
  task_new name prio entry tramp env = Ret (t, env') →
  task_new name' prio' entry' tramp
    {| e_ids := ids_free (e_ids env') (t_id t); e_frames := frames; e_pt := e_pt env' |} = Panic.
Proof.
  intros H. apply task_new_inv in H as (ids' & bottom & _ & Hbot & Hle & Hmap & _).
  apply map_stack_spec in Hmap as (Hlen & _ & Hin & _). destruct (Hin O) as [Hmapped _]; [lia|].
  destruct (task_new name' prio' entry' tramp _) as [[t2 env2]|] eqn:E2; [|done]. exfalso.
  apply task_new_inv in E2 as (ids2 & bottom2 & Hal2 & Hbot2 & _ & Hmap2 & _). simpl in Hal2.
  assert (t_id t2 = t_id t) as Hid.
  { unfold ids_alloc, ids_free in Hal2. simpl in Hal2. rewrite last_snoc in Hal2. by simplify_eq. }
  rewrite Hid, Hbot in Hbot2. simplify_eq.
  apply map_stack_spec in Hmap2 as (_ & _ & Hin2 & _). destruct (Hin2 O) as [_ Hun]; [lia|]. simpl in Hun.
  rewrite Hun in Hmapped. destruct (t_stack_frames t); simplify_eq/=.
Qed.

Lemma task_new_after_exit_panics_witness :
  match task_new "init" Normal 0x1000 0x2000 demo_env with
  | Ret (t, env') =>
      task_new "b" Normal 0x3000 0x2000
        {| e_ids := ids_free (e_ids env') (t_id t); e_frames := e_frames env'; e_pt := e_pt env' |}
      = Panic
  | Panic => False
  end.
Proof.
  pose proof demo_task as H. destruct (task_new "init" Normal 0x1000 0x2000 demo_env) as [[t env']|] eqn:E; [|discriminate H].
  apply (task_new_after_exit_panics "init" "b" Normal Normal 0x1000 0x3000 0x2000 demo_env env' t (e_frames env') E).
Defined.
End Tasks.
