(* ===== verification/Paging.v ===== *)
(** * Paging: memory/paging.rs and allocator.rs, the kernel heap

    alloc_and_map itself is in Task.v, where task creation uses it.  Here is the page table the
    kernel starts from, when mapping succeeds, and [heap_init], which maps the kernel heap before
    the allocator (the linked_list_allocator crate) gets it. *)

From S2P Require Import Prelude Capability FrameAlloc Task.

(** Four-level paging: mapping a page that is not mapped succeeds when three frames are left for new
    tables, and takes no more than those. *)
Class MapperProgress (PT : Type) `{!Tasks.Mapper PT} : Prop := {
  map_to_progress : ∀ pt page frame flags a,
    Tasks.translate pt page = None → Frames.alloc_wf a → (3 ≤ size (Frames.free_set a))%nat →
    ∃ pt' a' n fs, Tasks.map_to pt page frame flags a = Some (pt', a') ∧ (n ≤ 3)%nat ∧ Tasks.take_frames n a = Ret (Some fs, a');
}.

Module Paging.
Import Frames Tasks.

(** ** memory/paging.rs *)

(** [VirtAddr::new] of the x86_64 crate panics on an address that is not canonical. *)
Definition canonical (a : Z) : Prop := 0 ≤ a < 2 ^ 47 ∨ 2 ^ 64 - 2 ^ 47 ≤ a < 2 ^ 64.

#[global] Instance canonical_dec a : Decision (canonical a).
Proof. unfold canonical. apply _. Defined.

Definition virt_addr (a : Z) : outcome Z := if decide (canonical a) then Ret a else Panic.

(** [active_level_4_table]: where the frame in CR3 is visible. *)
Definition active_level_4_table (cr3 hhdm_offset : Z) : outcome Z :=
  let phys := Z.land cr3 0xFFFFFFFFFF000 in
  let? virt := checked_add64 phys hhdm_offset in
  virt_addr virt.

(** [init]: the table and the offset of the OffsetPageTable. *)
Definition paging_init (cr3 hhdm_offset : Z) : outcome (Z * Z) :=
  let? level_4_table := active_level_4_table cr3 hhdm_offset in
  let? offset := virt_addr hhdm_offset in
  Ret (level_4_table, offset).

(** With the direct map in the upper half, the table is found behind it. *)
Lemma paging_init_ok cr3 hhdm_offset :
  0 ≤ cr3 → 2 ^ 64 - 2 ^ 47 ≤ hhdm_offset → hhdm_offset + Z.land cr3 0xFFFFFFFFFF000 < 2 ^ 64 →
  paging_init cr3 hhdm_offset = Ret (Z.land cr3 0xFFFFFFFFFF000 + hhdm_offset, hhdm_offset).
Proof.
  intros H0 Hh Hlt. assert (0 ≤ Z.land cr3 0xFFFFFFFFFF000) by (apply Z.land_nonneg; lia).
  unfold paging_init, active_level_4_table, checked_add64. rewrite decide_True by (unfold U64_MAX; lia). cbn [outcome_bind].
  unfold virt_addr. rewrite decide_True by (right; lia). cbn [outcome_bind]. rewrite decide_True by (right; lia). done.
Qed.

Section paging.
Context {PT : Type} `{!Mapper PT}.

(** [OxideFrameAllocator::allocate_frame]. *)
Definition oxide_allocate_frame (frames : option BitmapFrameAllocator) : outcome (option Z * option BitmapFrameAllocator) :=
  match frames with
  | None => Ret (None, None)
  | Some a => let? r := allocate_frame a in Ret (fst r, Some (snd r))
  end.

(** ** allocator.rs *)
Definition HEAP_START : Z := 0xFFFFA00000000000.
Definition HEAP_SIZE : Z := 1024 * 1024.

(** [Page::containing_address]. *)
Definition containing_page (addr : Z) : Z := addr / PAGE_SIZE * PAGE_SIZE.

(** The loop; the outer [None] is exhausted fuel. *)
Fixpoint heap_loop (fuel : nat) (current end_page page_count : Z) (env : TaskEnv PT) : outcome (option (Z * TaskEnv PT)) :=
  if current <=? end_page then
    match fuel with
    | O => Ret None
    | S fuel' =>
        let? r := alloc_and_map current DATA_FLAGS env in
        let? next := checked_add64 current 4096 in
        let? count := checked_add64 page_count 1 in
        heap_loop fuel' (containing_page next) end_page count (snd r)
    end
  else Ret (Some (page_count, env)).

(** The range [ALLOCATOR.lock().init] receives, the pages counted and the state. *)
Definition heap_init (fuel : nat) (env : TaskEnv PT) : outcome (option (Z * Z * Z * TaskEnv PT)) :=
  let? heap_end := checked_add64 HEAP_START HEAP_SIZE in
  let start_page := containing_page HEAP_START in
  let end_page := containing_page (heap_end - 1) in
  let? r := heap_loop fuel start_page end_page 0 env in
  Ret ((λ x, (HEAP_START, HEAP_SIZE, x.1, x.2)) <$> r).
End paging.

(** ** Taking frames *)
Lemma take_frames_spec n a fs a' :
  alloc_wf a → take_frames n a = Ret (Some fs, a') →
  alloc_wf a' ∧ length fs = n ∧ free_set a' ⊆ free_set a ∧ (size (free_set a) ≤ size (free_set a') + n)%nat.
Proof.
  revert a fs. induction n as [|n IH]; intros a fs Hwf H; cbn [take_frames] in H; [simplify_eq; split_and!; auto; lia|].
  pose proof (allocate_frame_refines a Hwf) as Ha. destruct (allocate_frame a) as [[[f|] a1]|]; [|done..].
  cbn [outcome_bind] in H. destruct Ha as (Hwf1 & k & _ & Hk & Hfs & _).
  destruct (take_frames n a1) as [[[fs1|] a2]|] eqn:E; simplify_eq/=.
  destruct (IH a1 fs1 Hwf1 E) as (Hwf' & Hlen & Hsub & Hsize). split; [done|]. split; [lia|].
  assert (size (free_set a1) = size (free_set a) - 1)%nat as Hs1.
  { rewrite Hfs, size_difference by set_solver. by rewrite size_singleton. }
  split; [set_solver|]. assert (size (free_set a) ≠ 0)%nat by (intros E0%size_empty_inv; set_solver). lia.
Qed.

Section map_total.
Context {PT : Type} `{!Mapper PT, !MapperLaws PT, !MapperProgress PT}.

(** alloc_and_map with four frames to spare. *)
Lemma alloc_and_map_total page flags (env : TaskEnv PT) a :
  e_frames env = Some a → alloc_wf a → (4 ≤ size (free_set a))%nat → translate (e_pt env) page = None →
  ∃ k a' env', alloc_and_map page flags env = Ret (k * PAGE_SIZE, env') ∧ e_frames env' = Some a' ∧ alloc_wf a' ∧
    k ∈ free_set a ∧ free_set a' ⊆ free_set a ∖ {[k]} ∧ (size (free_set a) ≤ size (free_set a') + 4)%nat ∧
    e_ids env' = e_ids env ∧
    (∀ p, translate (e_pt env') p = if decide (p = page) then Some (k * PAGE_SIZE) else translate (e_pt env) p).
Proof.
  intros Ha Hwf Hsize Hun. unfold alloc_and_map. rewrite Ha. pose proof (allocate_frame_refines a Hwf) as Hal.
  destruct (allocate_frame a) as [[[f|] a1]|]; [|destruct Hal as [_ E]; rewrite E, size_empty in Hsize; lia|done].
  destruct Hal as (Hwf1 & k & -> & Hk & Hfs & _). cbn [outcome_bind].
  assert (size (free_set a1) = size (free_set a) - 1)%nat as Hs1.
  { rewrite Hfs, size_difference by set_solver. by rewrite size_singleton. }
  destruct (map_to_progress (e_pt env) page (k * PAGE_SIZE) flags a1 Hun Hwf1) as (pt' & a' & n & fs & E & Hn & Ht); [lia|].
  rewrite E. destruct (take_frames_spec n a1 fs a' Hwf1 Ht) as (Hwf' & _ & Hsub & Hsz).
  eexists k, a', _. split; [reflexivity|]. split; [done|]. split; [done|]. split; [done|].
  split; [set_solver|]. split; [lia|]. split; [done|]. by apply (map_to_Some _ _ _ _ _ _ _ E).
Qed.

(** Stacks: the loop of Task::new with four frames to spare for each page. *)
Lemma map_stack_total n i bottom (env : TaskEnv PT) a :
  e_frames env = Some a → alloc_wf a → (4 * n ≤ size (free_set a))%nat → 0 ≤ i →
  bottom + (i + Z.of_nat n) * PAGE_SIZE ≤ U64_MAX →
  (∀ j, i ≤ j < i + Z.of_nat n → translate (e_pt env) (bottom + j * PAGE_SIZE) = None) →
  ∃ fs env' a', map_stack n i bottom env = Ret (fs, env') ∧ e_frames env' = Some a' ∧ alloc_wf a' ∧
    (size (free_set a) ≤ size (free_set a') + 4 * n)%nat.
Proof.
  revert i env a. induction n as [|n IH]; intros i env a Ha Hwf Hsize Hi Hmax Hun; cbn [map_stack].
  { exists [], env, a. split; [done|]. split; [done|]. split; [done|lia]. }
  unfold checked_add64. rewrite decide_True by (unfold PAGE_SIZE in *; lia). cbn [outcome_bind].
  destruct (alloc_and_map_total (bottom + i * PAGE_SIZE) DATA_FLAGS env a) as (k & a1 & env1 & -> & Ha1 & Hwf1 & _ & _ & Hsz & _ & Htr);
    [done|done|lia|apply Hun; lia|]. cbn [outcome_bind fst snd].
  destruct (IH (i + 1) env1 a1) as (fs & env' & a' & -> & Ha' & Hwf' & Hsz'); [done|done|lia|lia|unfold PAGE_SIZE in *; lia| |].
  { intros j Hj. rewrite Htr, decide_False by (unfold PAGE_SIZE; lia). apply Hun. lia. }
  cbn [outcome_bind fst snd]. eexists _, env', a'. split; [done|]. split; [done|]. split; [done|lia].
Qed.

Lemma task_new_total name prio entry tramp (env : TaskEnv PT) a id ids' :
  ids_alloc (e_ids env) = Ret (id, ids') → 0 ≤ id < 256 → e_frames env = Some a → alloc_wf a →
  (16 ≤ size (free_set a))%nat →
  (∀ base p, slot_base id = Ret base → base ≤ p < base + STACK_SLOT_SIZE → translate (e_pt env) p = None) →
  ∃ t env' a', task_new name prio entry tramp env = Ret (t, env') ∧ t_id t = id ∧ e_ids env' = ids' ∧
    e_frames env' = Some a' ∧ alloc_wf a' ∧ (size (free_set a) ≤ size (free_set a') + 16)%nat ∧
    (∀ base p, slot_base id = Ret base → ¬ (base ≤ p < base + STACK_SLOT_SIZE) →
       translate (e_pt env') p = translate (e_pt env) p).
Proof.
  intros Hal Hid Ha Hwf Hsize Hun. destruct (stack_addresses id Hid) as (Hbase & Hbot & _).
  unfold task_new. rewrite Hal. cbn [outcome_bind fst snd]. rewrite Hbot. cbn [outcome_bind].
  set (bottom := STACK_REGION_BASE + id * STACK_SLOT_SIZE + PAGE_SIZE).
  assert (Hmax : bottom + STACK_SIZE ≤ U64_MAX)
    by (unfold bottom, STACK_REGION_BASE, STACK_SLOT_SIZE, STACK_SIZE, STACK_PAGES, PAGE_SIZE, U64_MAX; lia).
  unfold checked_add64. rewrite decide_True by done. cbn [outcome_bind]. change (Z.to_nat STACK_PAGES) with 4%nat.
  destruct (map_stack_total 4 0 bottom {| e_ids := ids'; e_frames := e_frames env; e_pt := e_pt env |} a)
    as (fs & env' & a' & E & Ha' & Hwf' & Hsz); [exact Ha|done|lia|done|done| |].
  { intros j Hj. apply (Hun _ _ Hbase). unfold bottom, STACK_SLOT_SIZE, STACK_PAGES, PAGE_SIZE. lia. }
  rewrite E. cbn [outcome_bind fst snd]. apply map_stack_spec in E as (_ & Hids & _ & Hout).
  eexists _, env', a'. do 5 (split; [done|]). split; [lia|]. intros base p Hb Hp. rewrite Hbase in Hb. injection Hb as <-.
  apply Hout. intros k Hk ->. apply Hp. unfold bottom, STACK_SLOT_SIZE, STACK_PAGES, PAGE_SIZE. lia.
Qed.

(** The page of the heap with number [i]. *)
Definition heap_page (i : Z) : Z := HEAP_START + i * PAGE_SIZE.

Lemma heap_page_next i : 0 ≤ i < 256 → checked_add64 (heap_page i) 4096 = Ret (heap_page (i + 1)).
Proof.
  intros Hi. unfold checked_add64, heap_page, HEAP_START, PAGE_SIZE, U64_MAX. rewrite decide_True by lia. f_equal. lia.
Qed.

Lemma containing_heap_page i : containing_page (heap_page i) = heap_page i.
Proof.
  unfold containing_page, heap_page. change HEAP_START with (0xFFFFA00000000 * PAGE_SIZE).
  rewrite <- Z.mul_add_distr_r, Z.div_mul; [done|]. done.
Qed.

(** What mapping the pages [i], [i + 1], ... to the frames [ks] has done. *)
Record mapped_from (env env' : TaskEnv PT) (i : Z) (ks : list Z) : Prop := {
  mf_ids : e_ids env' = e_ids env;
  mf_in : ∀ j k, ks !! j = Some k → translate (e_pt env') (heap_page (i + Z.of_nat j)) = Some (k * PAGE_SIZE);
  mf_out : ∀ p, (∀ j, (j < length ks)%nat → p ≠ heap_page (i + Z.of_nat j)) → translate (e_pt env') p = translate (e_pt env) p;
}.

Lemma heap_loop_spec m i count (env : TaskEnv PT) a :
  0 ≤ i → i + Z.of_nat m ≤ 256 → 0 ≤ count ≤ i → e_frames env = Some a → alloc_wf a → (4 * m ≤ size (free_set a))%nat →
  (∀ j, i ≤ j < i + Z.of_nat m → translate (e_pt env) (heap_page j) = None) →
  ∃ ks env' a', heap_loop m (heap_page i) (heap_page (i + Z.of_nat m - 1)) count env = Ret (Some (count + Z.of_nat m, env')) ∧
    length ks = m ∧ NoDup ks ∧ mapped_from env env' i ks ∧ e_frames env' = Some a' ∧ alloc_wf a' ∧
    list_to_set ks ⊆ free_set a ∧ free_set a' ⊆ free_set a ∖ list_to_set ks ∧ (size (free_set a) ≤ size (free_set a') + 4 * m)%nat.
Proof.
  revert i count env a. induction m as [|m IH]; intros i count env a Hi Hm Hc Ha Hwf Hsize Hun.
  { exists [], env, a. cbn [heap_loop]. rewrite (proj2 (Z.leb_gt _ _)) by (unfold heap_page, PAGE_SIZE; lia).
    split; [do 3 f_equal; lia|]. split; [done|]. split; [constructor|]. split; [split; try done; set_solver|].
    do 2 (split; [done|]). split; [set_solver|]. split; [set_solver|lia]. }
  cbn [heap_loop]. rewrite (proj2 (Z.leb_le _ _)) by (unfold heap_page, PAGE_SIZE; lia).
  destruct (alloc_and_map_total (heap_page i) DATA_FLAGS env a) as (k & a1 & env1 & -> & Ha1 & Hwf1 & Hk & Hsub & Hsz & Hids & Htr);
    [done|done|lia|apply Hun; lia|].
  cbn [outcome_bind]. rewrite heap_page_next by lia. cbn [outcome_bind snd].
  unfold checked_add64. rewrite decide_True by (unfold U64_MAX; lia). cbn [outcome_bind]. rewrite containing_heap_page.
  assert (Hpage : ∀ x y, heap_page x = heap_page y → x = y) by (unfold heap_page, PAGE_SIZE; lia).
  destruct (IH (i + 1) (count + 1) env1 a1) as (ks & env' & a' & E & Hlen & Hnd & Hmf & Ha' & Hwf' & Hks & Hfree & Hsz');
    [lia|lia|lia|done|done|lia|intros j Hj; rewrite Htr, decide_False; [apply Hun; lia|intros ->%Hpage; lia]|].
  replace (i + 1 + Z.of_nat m - 1) with (i + Z.of_nat (S m) - 1) in E by lia. rewrite E.
  exists (k :: ks), env', a'. split; [do 3 f_equal; lia|]. split; [simpl; lia|].
  assert (k ∉ ks) as Hnew by (intros Hin; assert (k ∈ free_set a1) by set_solver; set_solver).
  split; [by constructor|].
  split; [|do 2 (split; [done|]); split; [set_solver|]; split; [set_solver|lia]]. destruct Hmf as [Hi' Hin Hout]. split; [congruence| |].
  - intros [|j] k' Hk'; simpl in Hk'.
    + injection Hk' as <-. rewrite Z.add_0_r, Hout; [by rewrite Htr, decide_True|]. intros j Hj E0%Hpage. lia.
    + replace (i + Z.of_nat (S j)) with (i + 1 + Z.of_nat j) by lia. by apply Hin.
  - intros p Hp. rewrite Hout.
    + rewrite Htr, decide_False; [done|]. specialize (Hp O). rewrite Z.add_0_r in Hp. apply Hp. simpl. lia.
    + intros j Hj. specialize (Hp (S j)). replace (i + 1 + Z.of_nat j) with (i + Z.of_nat (S j)) by lia.
      apply Hp. simpl. lia.
Qed.

Lemma heap_loop_data fuel current end_page count (env env' : TaskEnv PT) n :
  heap_loop fuel current end_page count env = Ret (Some (n, env')) → maps_data env env'.
Proof.
  revert current count env. induction fuel as [|fuel IH]; intros current count env H; cbn [heap_loop] in H;
    (destruct (current <=? end_page); [|simplify_eq; apply maps_data_refl]); [done|].
  destruct (alloc_and_map current _ env) as [[f env1]|] eqn:Ea; [|done]. cbn [outcome_bind snd] in H.
  destruct (checked_add64 current 4096) as [next|]; cbn [outcome_bind] in H; [|done].
  destruct (checked_add64 count 1) as [c|]; cbn [outcome_bind] in H; [|done].
  eapply maps_data_then; [exact Ea|by eapply IH].
Qed.

Lemma heap_init_data fuel (env env' : TaskEnv PT) x y z :
  heap_init fuel env = Ret (Some (x, y, z, env')) → maps_data env env'.
Proof.
  unfold heap_init. destruct (checked_add64 _ _) as [e|]; [|done]. cbn [outcome_bind].
  destruct (heap_loop _ _ _ _ env) as [[[n env1]|]|] eqn:E; [|done..]. cbn. intros [= _ _ _ <-]. by eapply heap_loop_data.
Qed.
End map_total.

Lemma heap_init_ok {PT : Type} `{!Mapper PT, !MapperLaws PT, !MapperProgress PT} (env : TaskEnv PT)
    (a : BitmapFrameAllocator) :
  e_frames env = Some a → alloc_wf a → (1024 ≤ size (free_set a))%nat →
  (∀ p, HEAP_START ≤ p < HEAP_START + HEAP_SIZE → translate (e_pt env) p = None) →
  ∃ ks env' a', heap_init 256 env = Ret (Some (HEAP_START, HEAP_SIZE, 256, env')) ∧
    length ks = 256%nat ∧ NoDup ks ∧
    (∀ j k, ks !! j = Some k → translate (e_pt env') (heap_page (Z.of_nat j)) = Some (k * PAGE_SIZE)) ∧
    (∀ p, ¬ (HEAP_START ≤ p < HEAP_START + HEAP_SIZE) → translate (e_pt env') p = translate (e_pt env) p) ∧
    e_frames env' = Some a' ∧ alloc_wf a' ∧ list_to_set ks ⊆ free_set a ∖ free_set a' ∧
    (size (free_set a) ≤ size (free_set a') + 1024)%nat ∧
    (∀ id base, 0 ≤ id < 256 → slot_base id = Ret base → HEAP_START + HEAP_SIZE ≤ base).
Proof.
  intros Ha Hwf Hsize Hun.
  destruct (heap_loop_spec 256 0 0 env a) as (ks & env' & a' & E & Hlen & Hnd & [Hids Hin Hout] & Ha' & Hwf' & Hks & Hfree & Hsz);
    [lia|lia|lia|done|done|lia| |].
  { intros j Hj. apply Hun. unfold heap_page, HEAP_SIZE, PAGE_SIZE. lia. }
  exists ks, env', a'. split.
  { unfold heap_init. change (checked_add64 HEAP_START HEAP_SIZE) with (Ret (HEAP_START + HEAP_SIZE)).
    cbn [outcome_bind]. change (containing_page HEAP_START) with (heap_page 0).
    change (containing_page (HEAP_START + HEAP_SIZE - 1)) with (heap_page (0 + Z.of_nat 256 - 1)). by rewrite E. }
  split; [done|]. split; [done|]. split; [exact Hin|]. split.
  { intros p Hp. apply Hout. intros j Hj ->. apply Hp. unfold heap_page, HEAP_SIZE, PAGE_SIZE. lia. }
  split; [done|]. split; [done|]. split.
  { intros k Hk. apply elem_of_difference. split; [by apply Hks|]. intros Hf. apply Hfree in Hf.
    apply elem_of_difference in Hf as [_ Hf]. by apply Hf. }
  split; [lia|]. intros id base Hid Hb. destruct (stack_addresses id Hid) as [E' _]. rewrite E' in Hb. injection Hb as <-.
  unfold HEAP_START, HEAP_SIZE, STACK_REGION_BASE, STACK_SLOT_SIZE, STACK_PAGES, PAGE_SIZE. lia.
Qed.

(** *** Properties *)

(** The kernel heap is mapped.  From page tables that map no page of the heap range, with four
    frames free for each of its 256 pages, and with any mapper that needs at most three tables for
    a page: init returns after mapping 256 pages and hands the allocator exactly the range
    [HEAP_START, HEAP_START + HEAP_SIZE); each page of the range has a frame of its own that was
    free before and is not free any more; no other page changes, and no page of a task stack
    lies in the range. *)
Theorem heap_init_maps {PT : Type} `{!Mapper PT, !MapperLaws PT, !MapperProgress PT} (env : TaskEnv PT)
    (a : BitmapFrameAllocator) :
  e_frames env = Some a → alloc_wf a → (1024 ≤ size (free_set a))%nat →
  (∀ p, HEAP_START ≤ p < HEAP_START + HEAP_SIZE → translate (e_pt env) p = None) →
  ∃ ks env' a', heap_init 256 env = Ret (Some (HEAP_START, HEAP_SIZE, 256, env')) ∧
    length ks = 256%nat ∧ NoDup ks ∧
    (∀ j k, ks !! j = Some k → translate (e_pt env') (heap_page (Z.of_nat j)) = Some (k * PAGE_SIZE)) ∧
    (∀ p, ¬ (HEAP_START ≤ p < HEAP_START + HEAP_SIZE) → translate (e_pt env') p = translate (e_pt env) p) ∧
    e_frames env' = Some a' ∧ alloc_wf a' ∧ list_to_set ks ⊆ free_set a ∖ free_set a' ∧
    (∀ id base, 0 ≤ id < 256 → slot_base id = Ret base → HEAP_START + HEAP_SIZE ≤ base).
Proof.
  intros Ha Hwf Hsize Hun.
  destruct (heap_init_ok env a Ha Hwf Hsize Hun) as (ks & env' & a' & ? & ? & ? & ? & ? & ? & ? & ? & _ & ?). by exists ks, env', a'.
Qed.

(** *** Witnesses *)
#[global] Instance flat_mapper_progress : MapperProgress flat.
Proof.
  split. intros pt page frame flags a Hun _ _. simpl in *. apply fmap_None in Hun. rewrite Hun.
  exists (<[page := (frame, flags)]> pt), a, O, []. split; [done|]. split; [lia|done].
Qed.

Definition heap_frames : BitmapFrameAllocator := {| bitmap := replicate 128 0; total_frames := 1024; next_free := 0 |}.

Lemma heap_frames_wf : alloc_wf heap_frames ∧ size (free_set heap_frames) = 1024%nat.
Proof.
  assert (Hbit : ∀ i, 1024 ≤ i → bit heap_frames i = true).
  { intros i Hi. unfold bit. cbn [bitmap heap_frames]. rewrite lookup_ge_None_2; [reflexivity|].
    assert (128 ≤ i / 8) by (apply Z.div_le_lower_bound; lia). rewrite length_replicate. lia. }
  split; [split; [done|done|done|done|exact Hbit]|].
  rewrite size_free_set. unfold free_list. vm_compute. reflexivity.
Qed.

Lemma heap_init_maps_witness :
  ∃ ks env' a', heap_init 256 (mkEnv ids_new (Some heap_frames) no_pages) = Ret (Some (HEAP_START, HEAP_SIZE, 256, env')) ∧
    length ks = 256%nat ∧ NoDup ks ∧ e_frames env' = Some a' ∧ list_to_set ks ⊆ free_set heap_frames ∖ free_set a'.
Proof.
  destruct (heap_init_maps (mkEnv ids_new (Some heap_frames) no_pages) heap_frames)
    as (ks & env' & a' & E & Hlen & Hnd & _ & _ & Ha & _ & Hks & _).
  - reflexivity.
  - apply heap_frames_wf.
  - rewrite (proj2 heap_frames_wf). reflexivity.
  - intros p _. apply no_pages_unmapped.
  - exists ks, env', a'. split; [exact E|]. split; [exact Hlen|]. split; [exact Hnd|]. split; [exact Ha|exact Hks].
Defined.
End Paging.
