(* ===== verification/Scheduler.v ===== *)
(** * Scheduler: task/scheduler.rs

    The three ready queues, the current task and the blocked list.  [reschedule] takes the
    cleanup of a dead task as an argument over an arbitrary world [W]; Kernel.v passes
    cleanup_dead_task. *)

From S2P Require Import Prelude Capability FrameAlloc Task.

Module Sched.
Import Tasks.

Definition MAX_TASKS : Z := 256.

Record Scheduler : Type := mkSched {
  queues : list (list Task);
  current : option Task;
  blocked : list Task;
}.

Definition sched_new : Scheduler := {| queues := [[]; []; []]; current := None; blocked := [] |}.

#[export] Instance Scheduler_eq_dec : EqDecision Scheduler.
Proof. solve_decision. Defined.

(** [self.queues[pri].push_back(task)]; the array has an entry for every priority. *)
Definition push_queue (qs : list (list Task)) (t : Task) : list (list Task) :=
  alter (λ q, q ++ [t]) (priority_index (t_priority t)) qs.

(** Spawn a task; CONTEXTS[id] receives its initial context.  The assert panics. *)
Definition spawn (self : Scheduler) (contexts : list CpuContext) (task : Task)
    : outcome (Scheduler * list CpuContext) :=
  if t_id task <? MAX_TASKS then
    Ret ({| queues := push_queue (queues self) task; current := current self;
            blocked := blocked self |},
         <[Z.to_nat (t_id task) := t_context task]> contexts)
  else Panic.

(** [pick_next]: the front of the first non-empty queue. *)
Fixpoint pick_next (qs : list (list Task)) : option (Task * list (list Task)) :=
  match qs with
  | [] => None
  | [] :: qs' => match pick_next qs' with
                 | Some (t, r) => Some (t, [] :: r)
                 | None => None
                 end
  | (t :: q) :: qs' => Some (set_state t Running, q :: qs')
  end.

(** First pass of [pick_next_fair]: the first task of the first queue that has one with an
    id other than [last_id]. *)
Fixpoint pick_other (last_id : Z) (qs : list (list Task)) : option (Task * list (list Task)) :=
  match qs with
  | [] => None
  | q :: qs' =>
      match position (λ t, negb (t_id t =? last_id)) q ≫= λ pos, remove_at pos q with
      | Some (t, q') => Some (set_state t Running, q' :: qs')
      | None => match pick_other last_id qs' with
                | Some (t, r) => Some (t, q :: r)
                | None => None
                end
      end
  end.

Definition pick_next_fair (last_id : Z) (qs : list (list Task)) : option (Task * list (list Task)) :=
  match pick_other last_id qs with
  | Some r => Some r
  | None => pick_next qs
  end.

(** [t.id as usize], 0 when there is no current task. *)
Definition current_id (self : Scheduler) : Z :=
  match current self with Some t => t_id t | None => 0 end.

(** [self.current = self.pick_next_fair(old_id)]. *)
Definition dispatch (old_id : Z) (qs : list (list Task)) (bl : list Task) : Scheduler :=
  match pick_next_fair old_id qs with
  | Some (t, qs') => {| queues := qs'; current := Some t; blocked := bl |}
  | None => {| queues := qs; current := None; blocked := bl |}
  end.

(** Put the current task back where its state says, then pick the next one. *)
Definition reschedule {W : Type} (cleanup : Task → W → outcome W) (self : Scheduler) (w : W)
    : outcome ((Z * Z) * Scheduler * W) :=
  let old_id := current_id self in
  let? r :=
    (match current self with
     | None => Ret (queues self, blocked self, w)
     | Some cur =>
         match t_state cur with
         | Running => Ret (push_queue (queues self) (set_state cur Ready), blocked self, w)
         | Blocked => Ret (queues self, blocked self ++ [cur], w)
         | Dead => let? w' := cleanup cur w in Ret (queues self, blocked self, w')
         | Ready => Ret (push_queue (queues self) cur, blocked self, w)
         end
     end) in
  let '(qs, bl, w') := r in
  let self' := dispatch old_id qs bl in
  Ret ((old_id, current_id self'), self', w').

Definition block_current (self : Scheduler) : Scheduler :=
  {| queues := queues self;
     current := (λ t, set_state t Blocked) <$> current self;
     blocked := blocked self |}.

Definition kill_current (self : Scheduler) : Scheduler :=
  {| queues := queues self;
     current := (λ t, set_state t Dead) <$> current self;
     blocked := blocked self |}.

Definition unblock (self : Scheduler) (task_id : Z) : bool * Scheduler :=
  match position (λ t, t_id t =? task_id) (blocked self) ≫= λ pos, remove_at pos (blocked self) with
  | Some (task, bl) =>
      (true, {| queues := push_queue (queues self) (set_state task Ready);
                current := current self; blocked := bl |})
  | None => (false, self)
  end.

Definition task_count (self : Scheduler) : nat :=
  (sum_list_with length (queues self) + length (blocked self) +
   match current self with Some _ => 1 | None => 0 end)%nat.

Definition current_task (self : Scheduler) : option Task := current self.

(** The six numbers that print_stats prints; indexing the queues panics beyond them. *)
Definition print_stats (self : Scheduler) : outcome (list Z) :=
  match queues self with
  | rt :: normal :: bg :: _ =>
      Ret [Z.of_nat (task_count self); Z.of_nat (length rt); Z.of_nat (length normal); Z.of_nat (length bg);
           Z.of_nat (length (blocked self)); default 0 (t_id <$> current self)]
  | _ => Panic
  end.

(** *** Invariant *)

(** Every task the scheduler holds. *)
Definition all_tasks (s : Scheduler) : list Task :=
  concat (queues s) ++ blocked s ++ option_list (current s).

Definition all_ids (s : Scheduler) : list Z := t_id <$> all_tasks s.

(** Tasks sit in the queue of their priority and are Ready there, Blocked in the blocked
    list; ids are distinct and nonzero (0 stands for the idle loop). *)
Record sched_wf (s : Scheduler) : Prop := {
  wf_queues : length (queues s) = 3%nat;
  wf_ready : ∀ p q, queues s !! p = Some q →
             Forall (λ t, t_state t = Ready ∧ priority_index (t_priority t) = p) q;
  wf_blocked : Forall (λ t, t_state t = Blocked) (blocked s);
  wf_current : ∀ t, current s = Some t → t_state t ≠ Ready;
  wf_nodup : NoDup (all_ids s);
  wf_ids : Forall (λ id, 1 ≤ id < MAX_TASKS) (all_ids s);
}.

(** The numbers printed add up. *)
Lemma print_stats_sums s :
  sched_wf s →
  ∃ rt normal bg, print_stats s = Ret [rt + normal + bg + Z.of_nat (length (blocked s)) + match current s with Some _ => 1 | None => 0 end;
                                       rt; normal; bg; Z.of_nat (length (blocked s)); current_id s].
Proof.
  intros Hwf. pose proof (wf_queues s Hwf) as Hq. unfold print_stats, task_count, current_id.
  destruct (queues s) as [|rt [|normal [|bg [|]]]]; simplify_eq/=.
  exists (Z.of_nat (length rt)), (Z.of_nat (length normal)), (Z.of_nat (length bg)). do 2 f_equal.
  - destruct (current s); lia.
  - by destruct (current s).
Qed.

(** The shape of the queues, the part of the invariant that concerns them alone. *)
Definition queues_ok (qs : list (list Task)) : Prop :=
  length qs = 3%nat ∧
  ∀ p q, qs !! p = Some q → Forall (λ t, t_state t = Ready ∧ priority_index (t_priority t) = p) q.

(** *** Abstract scheduler: one ready list ordered by priority, FIFO within a priority *)
Definition ready (s : Scheduler) : list Task := concat (queues s).

Definition prio (t : Task) : nat := priority_index (t_priority t).

(** Insert behind every task of the same or a higher priority. *)
Definition enqueue (t : Task) (l : list Task) : list Task :=
  filter (λ u, (prio u ≤ prio t)%nat) l ++ t :: filter (λ u, ¬ (prio u ≤ prio t)%nat) l.

Lemma enqueue_Permutation t l : enqueue t l ≡ₚ t :: l.
Proof.
  unfold enqueue. rewrite <- Permutation_middle. f_equiv. induction l as [|u l IH]; [done|].
  rewrite !filter_cons. repeat case_decide; try done; simpl.
  - by rewrite IH.
  - by rewrite <- Permutation_middle, IH.
Qed.

Lemma queues_ok_shape qs :
  queues_ok qs → ∃ q0 q1 q2, qs = [q0; q1; q2] ∧
    Forall (λ t, t_state t = Ready ∧ prio t = 0%nat) q0 ∧
    Forall (λ t, t_state t = Ready ∧ prio t = 1%nat) q1 ∧
    Forall (λ t, t_state t = Ready ∧ prio t = 2%nat) q2.
Proof.
  intros [Hlen Hok]. destruct qs as [|q0 [|q1 [|q2 [|]]]]; simplify_eq/=.
  exists q0, q1, q2. split; [done|].
  split; [by apply (Hok 0%nat)|split; [by apply (Hok 1%nat)|by apply (Hok 2%nat)]].
Qed.

Lemma filter_prio_level (k n : nat) (l : list Task) :
  Forall (λ t, t_state t = Ready ∧ prio t = k) l →
  filter (λ u, (prio u ≤ n)%nat) l = (if decide (k ≤ n)%nat then l else []) ∧
  filter (λ u, ¬ (prio u ≤ n)%nat) l = (if decide (k ≤ n)%nat then [] else l).
Proof.
  induction 1 as [|t l [_ Ht] _ IH]; [by repeat case_decide|].
  rewrite !filter_cons. destruct IH as [-> ->]. repeat case_decide; try done; lia.
Qed.

Lemma push_queue_enqueue qs t :
  queues_ok qs → concat (push_queue qs t) = enqueue t (concat qs).
Proof.
  intros Hok. destruct (queues_ok_shape qs Hok) as (q0 & q1 & q2 & -> & H0 & H1 & H2).
  unfold enqueue. cbn [concat]. rewrite !filter_app, !app_nil_r.
  destruct (filter_prio_level 0 (prio t) q0 H0) as [-> ->].
  destruct (filter_prio_level 1 (prio t) q1 H1) as [-> ->].
  destruct (filter_prio_level 2 (prio t) q2 H2) as [-> ->].
  unfold push_queue, prio. destruct (t_priority t); simpl; by rewrite ?app_nil_r, <- ?(assoc_L (++)).
Qed.

Lemma push_queue_ok qs t :
  queues_ok qs → t_state t = Ready → queues_ok (push_queue qs t).
Proof.
  intros [Hlen Hok] Hst. split; [unfold push_queue; by rewrite length_alter|].
  intros p q. unfold push_queue.
  destruct (decide (p = priority_index (t_priority t))) as [->|Hne].
  - rewrite list_lookup_alter_eq, fmap_Some. intros (q0 & Hq0 & ->). apply Forall_app.
    split; [by apply Hok|]. by constructor.
  - rewrite list_lookup_alter_ne by done. apply Hok.
Qed.

(** What a pick does to the queues: one task leaves queue [p], the rest stays in order. *)
Definition picked (qs : list (list Task)) (l1 : list Task) (t : Task) (qs' : list (list Task)) : Prop :=
  ∃ p q1 q2 l2, qs !! p = Some (q1 ++ t :: q2) ∧ qs' = <[p := q1 ++ q2]> qs ∧
    concat qs = l1 ++ t :: l2 ∧ concat qs' = l1 ++ l2.

Lemma picked_cons q qs l1 t qs' : picked qs l1 t qs' → picked (q :: qs) (q ++ l1) t (q :: qs').
Proof.
  intros (p & q1 & q2 & l2 & Hp & -> & Hc & Hc'). exists (S p), q1, q2, l2. simpl.
  rewrite Hc, Hc'. by rewrite <- !(assoc_L (++)).
Qed.

Lemma picked_ok qs l1 t qs' :
  queues_ok qs → picked qs l1 t qs' → queues_ok qs'.
Proof.
  intros [Hlen Hok] (p & q1 & q2 & l2 & Hp & -> & _). split; [by rewrite length_insert|].
  intros p' q. rewrite list_lookup_insert. case_decide; [|apply Hok]. destruct_and!. intros [= <-]. subst.
  specialize (Hok _ _ Hp). rewrite Forall_app, Forall_cons in Hok. rewrite Forall_app. tauto.
Qed.

Lemma pick_next_spec qs :
  match pick_next qs with
  | Some (t', qs') => ∃ t, t' = set_state t Running ∧ picked qs [] t qs'
  | None => concat qs = []
  end.
Proof.
  induction qs as [|[|t q] qs IH]; simpl; [done| |].
  - destruct (pick_next qs) as [[t' qs']|]; [|done]. destruct IH as (t & -> & Hp).
    exists t. split; [done|]. by apply (picked_cons []).
  - exists t. split; [done|]. by exists O, [], q, (q ++ concat qs).
Qed.

Lemma pick_other_spec last_id qs :
  match pick_other last_id qs with
  | Some (t', qs') => ∃ t l1, t' = set_state t Running ∧ t_id t ≠ last_id ∧
      Forall (λ u, t_id u = last_id) l1 ∧ picked qs l1 t qs'
  | None => Forall (λ u, t_id u = last_id) (concat qs)
  end.
Proof.
  induction qs as [|q qs IH]; simpl; [constructor|].
  destruct (position (λ t, negb (t_id t =? last_id)) q) as [pos|] eqn:E; simpl.
  - apply position_Some in E as (l1 & t & l2 & -> & <- & Ht & Hl1). rewrite remove_at_middle.
    exists t, l1. split; [done|]. split; [lia|]. split; [eapply Forall_impl; [done|]; simpl; lia|].
    exists O, l1, l2, (l2 ++ concat qs). simpl. by rewrite <- !(assoc_L (++)).
  - apply position_None in E. assert (Hq : Forall (λ u, t_id u = last_id) q)
      by (eapply Forall_impl; [done|]; simpl; lia).
    destruct (pick_other last_id qs) as [[t' qs']|]; [|by apply Forall_app].
    destruct IH as (t & l1 & -> & Hne & Hl1 & Hp). exists t, (q ++ l1).
    split; [done|]. split; [done|]. split; [by apply Forall_app|by apply picked_cons].
Qed.

Lemma pick_next_fair_spec last_id qs :
  match pick_next_fair last_id qs with
  | Some (t', qs') => ∃ t l1, t' = set_state t Running ∧ picked qs l1 t qs' ∧
      Forall (λ u, t_id u = last_id) l1 ∧
      (t_id t = last_id → l1 = [] ∧ Forall (λ u, t_id u = last_id) (concat qs))
  | None => concat qs = []
  end.
Proof.
  unfold pick_next_fair. pose proof (pick_other_spec last_id qs) as Ho.
  destruct (pick_other last_id qs) as [[t' qs']|].
  - destruct Ho as (t & l1 & -> & Hne & Hl1 & Hp). by exists t, l1.
  - pose proof (pick_next_spec qs) as Hn. destruct (pick_next qs) as [[t' qs']|]; [|done].
    destruct Hn as (t & -> & Hp). exists t, []. done.
Qed.

(** Nobody queued has the id [last_id]: the pick is the head of the ready list. *)
Lemma pick_next_fair_others last_id qs :
  Forall (λ u, t_id u ≠ last_id) (concat qs) →
  match pick_next_fair last_id qs with
  | Some (t', qs') => ∃ t, t' = set_state t Running ∧ concat qs = t :: concat qs' ∧ picked qs [] t qs'
  | None => concat qs = []
  end.
Proof.
  intros Hne. pose proof (pick_next_fair_spec last_id qs) as H.
  destruct (pick_next_fair last_id qs) as [[t' qs']|]; [|done].
  destruct H as (t & l1 & -> & Hp & Hl1 & _). exists t. split; [done|].
  assert (l1 = []) as ->.
  { destruct Hp as (p & q1 & q2 & l2 & _ & _ & Hc & _). rewrite Hc in Hne.
    destruct l1 as [|u l1]; [done|]. apply Forall_inv in Hl1. by apply Forall_inv in Hne. }
  split; [|done]. destruct Hp as (p & q1 & q2 & l2 & _ & _ & Hc & Hc'). by rewrite Hc, Hc'.
Qed.

Lemma ready_sorted qs :
  queues_ok qs → StronglySorted (λ t u, (prio t ≤ prio u)%nat) (concat qs).
Proof.
  intros Hok. destruct (queues_ok_shape qs Hok) as (q0 & q1 & q2 & -> & H0 & H1 & H2). simpl.
  rewrite app_nil_r.
  assert (Hl : ∀ k (l : list Task), Forall (λ t, t_state t = Ready ∧ prio t = k) l →
               StronglySorted (λ t u, (prio t ≤ prio u)%nat) l).
  { intros k l. induction 1 as [|t l [_ Ht] Hl IH]; constructor; [done|].
    eapply Forall_impl; [exact Hl|]. simpl. intros u [_ ->]. lia. }
  rewrite Forall_forall in H0, H1, H2.
  repeat (apply StronglySorted_app_2; [|eapply Hl; by apply Forall_forall|]);
    [..|eapply Hl; by apply Forall_forall].
  - intros t u Ht [Hu|Hu]%elem_of_app; destruct (H0 _ Ht) as [_ ->];
      [destruct (H1 _ Hu) as [_ ->]|destruct (H2 _ Hu) as [_ ->]]; lia.
  - intros t u Ht Hu. destruct (H1 _ Ht) as [_ ->], (H2 _ Hu) as [_ ->]. lia.
Qed.

(** Enqueueing and then taking the first task that is not the enqueued one is the same as
    taking the head first. *)
Lemma enqueue_cons c t l :
  StronglySorted (λ t u, (prio t ≤ prio u)%nat) (t :: l) →
  enqueue c (t :: l) = t :: enqueue c l ∨
  (enqueue c (t :: l) = c :: t :: l ∧ enqueue c l = c :: l).
Proof.
  intros [Hall _]%StronglySorted_cons. unfold enqueue. rewrite !filter_cons.
  destruct (decide (prio t ≤ prio c)%nat) as [Hle|Hgt].
  - left. rewrite decide_False by tauto. done.
  - right. rewrite decide_True by done. rewrite Forall_forall in Hall.
    assert (filter (λ u, (prio u ≤ prio c)%nat) l = []) as ->.
    { apply filter_none. intros u Hu. specialize (Hall _ Hu). lia. }
    rewrite filter_all; [done|]. intros u Hu. specialize (Hall _ Hu). lia.
Qed.

(** *** Refinement *)
Definition abs : Type := list Task * option Task * list Task.

Definition abstract (s : Scheduler) : abs := (ready s, current s, blocked s).

Definition run_head (l bl : list Task) : abs :=
  match l with
  | [] => ([], None, bl)
  | t :: l' => (l', Some (set_state t Running), bl)
  end.

(** A running task goes behind its equals once the head has been taken, and keeps the CPU
    when nobody else is ready; a blocked one joins the blocked list, a dead one vanishes. *)
Definition abs_reschedule (a : abs) : abs :=
  let '(l, cur, bl) := a in
  match cur with
  | None => run_head l bl
  | Some c =>
      match t_state c with
      | Running => match l with
                   | [] => ([], Some c, bl)
                   | t :: l' => (enqueue (set_state c Ready) l', Some (set_state t Running), bl)
                   end
      | Blocked => run_head l (bl ++ [c])
      | Dead | Ready => run_head l bl
      end
  end.

(** The cleanup a reschedule runs: that of a dead current task. *)
Definition reap {W} (cleanup : Task → W → outcome W) (s : Scheduler) (w : W) : outcome W :=
  match current s with
  | Some c => match t_state c with Dead => cleanup c w | _ => Ret w end
  | None => Ret w
  end.

Lemma sched_wf_queues s : sched_wf s → queues_ok (queues s).
Proof. intros []. by split. Qed.

Lemma sched_wf_others s :
  sched_wf s → Forall (λ u, t_id u ≠ current_id s) (ready s).
Proof.
  intros Hwf. apply Forall_forall. intros u Hu. unfold current_id.
  pose proof (wf_nodup s Hwf) as Hnd. pose proof (wf_ids s Hwf) as Hr.
  unfold all_ids, all_tasks in *. destruct (current s) as [c|].
  - rewrite fmap_app, NoDup_app in Hnd. destruct Hnd as (_ & Hd & _). intros E.
    apply (Hd (t_id u)); [by apply list_elem_of_fmap_2|]. rewrite E, fmap_app. set_solver.
  - rewrite Forall_fmap, Forall_app in Hr. destruct Hr as [Hr _].
    rewrite Forall_forall in Hr. specialize (Hr u Hu). simpl in Hr. lia.
Qed.

(** Preservation in one shape: the queues are in order and no id is new. *)
Lemma sched_wf_sub s s' :
  sched_wf s → queues_ok (queues s') → Forall (λ t, t_state t = Blocked) (blocked s') →
  (∀ t, current s' = Some t → t_state t ≠ Ready) → all_ids s' ⊆+ all_ids s → sched_wf s'.
Proof.
  intros Hwf [Hl Hq] Hb Hc Hsub. split; try done.
  - eapply sub_NoDup; [done|apply Hwf].
  - eapply sub_Forall; [done|apply Hwf].
Qed.

Lemma set_state_id t st : t_id (set_state t st) = t_id t.
Proof. done. Qed.

Lemma dispatch_ok old_id qs bl :
  queues_ok qs →
  queues_ok (queues (dispatch old_id qs bl)) ∧ blocked (dispatch old_id qs bl) = bl ∧
  (∀ t, current (dispatch old_id qs bl) = Some t → t_state t = Running).
Proof.
  intros Hok. unfold dispatch. pose proof (pick_next_fair_spec old_id qs) as H.
  destruct (pick_next_fair old_id qs) as [[t' qs']|]; simpl; [|done].
  destruct H as (t & l1 & -> & Hp & _). split; [by eapply picked_ok|]. split; [done|].
  by intros ? [= <-].
Qed.

Lemma dispatch_others old_id qs bl :
  Forall (λ u, t_id u ≠ old_id) (concat qs) → abstract (dispatch old_id qs bl) = run_head (concat qs) bl.
Proof.
  intros Hne. unfold dispatch, abstract, ready. pose proof (pick_next_fair_others old_id qs Hne) as H.
  destruct (pick_next_fair old_id qs) as [[t' qs']|]; simpl.
  - destruct H as (t & -> & -> & _). done.
  - by rewrite H.
Qed.

Lemma dispatch_running c qs bl :
  queues_ok qs → t_state c = Running → Forall (λ u, t_id u ≠ t_id c) (concat qs) →
  abstract (dispatch (t_id c) (push_queue qs (set_state c Ready)) bl) =
  abs_reschedule (concat qs, Some c, bl).
Proof.
  intros Hok Hst Hne. pose proof (ready_sorted qs Hok) as Hs. simpl. rewrite Hst.
  unfold dispatch, abstract, ready.
  pose proof (pick_next_fair_spec (t_id c) (push_queue qs (set_state c Ready))) as H.
  destruct (pick_next_fair _ _) as [[t' qs']|].
  2: { exfalso. rewrite push_queue_enqueue in H by done. eapply (f_equal length) in H.
       rewrite (enqueue_Permutation _ (concat qs)) in H. done. }
  destruct H as (t & l1 & -> & (p & q1 & q2 & l2 & _ & _ & Hc & Hc') & Hl1 & Hlast). simpl. rewrite Hc'.
  rewrite push_queue_enqueue in Hc, Hlast by done. destruct (concat qs) as [|u l].
  - change (enqueue (set_state c Ready) []) with [set_state c Ready] in Hc.
    destruct l1 as [|? [|]]; try discriminate Hc. injection Hc as <- <-. by destruct c; simplify_eq/=.
  - apply Forall_cons in Hne as [Hu Hne].
    destruct (enqueue_cons (set_state c Ready) u l Hs) as [E|[E E']]; rewrite E in Hc.
    + destruct l1 as [|x l1]; simplify_eq/=; [congruence|]. by apply Forall_inv in Hl1.
    + destruct l1 as [|x [|y l1]]; simplify_eq/=.
      * destruct (Hlast eq_refl) as [_ Hall]. rewrite E in Hall.
        apply Forall_inv_tail, Forall_inv in Hall. done.
      * by rewrite E'.
      * by apply Forall_inv_tail, Forall_inv in Hl1.
Qed.

Lemma run_head_ids l bl l' cur' bl' :
  run_head l bl = (l', cur', bl') → t_id <$> (l' ++ bl' ++ option_list cur') ≡ₚ t_id <$> (l ++ bl).
Proof.
  destruct l as [|t l]; simpl; intros [= <- <- <-]; simpl; rewrite ?app_nil_r, ?fmap_app; simpl; [done|].
  solve_Permutation.
Qed.

Lemma abs_reschedule_ids s :
  sched_wf s → ∀ l' cur' bl', abs_reschedule (abstract s) = (l', cur', bl') →
  t_id <$> (l' ++ bl' ++ option_list cur') ⊆+ all_ids s.
Proof.
  intros Hwf l' cur' bl'. unfold abstract, all_ids, all_tasks. fold (ready s). cbn [abs_reschedule].
  destruct (current s) as [c|] eqn:Ec.
  2: { intros H. apply run_head_ids in H. by rewrite H, app_nil_r. }
  simpl option_list. destruct (t_state c) eqn:Est.
  - by destruct (wf_current s Hwf c Ec).
  - destruct (ready s) as [|t l]; intros [= <- <- <-]; simpl; [done|].
    rewrite !fmap_app, (enqueue_Permutation _ l), !fmap_cons. apply Permutation_submseteq.
    rewrite !fmap_nil. solve_Permutation.
  - intros H. apply run_head_ids in H. rewrite H. by rewrite (assoc_L (++)).
  - intros H. apply run_head_ids in H. rewrite H, (assoc_L (++)), (fmap_app _ _ [c]). solve_submseteq.
Qed.

Lemma reschedule_spec {W} (cleanup : Task → W → outcome W) s w :
  sched_wf s →
  ∃ s', sched_wf s' ∧ abstract s' = abs_reschedule (abstract s) ∧
        (∀ t, current s' = Some t → t_state t = Running) ∧
        reschedule cleanup s w =
        (let? w' := reap cleanup s w in Ret ((current_id s, current_id s'), s', w')).
Proof.
  intros Hwf. pose proof (sched_wf_queues s Hwf) as Hq. pose proof (sched_wf_others s Hwf) as Hne.
  assert (Hmain : ∃ qs bl, abstract (dispatch (current_id s) qs bl) = abs_reschedule (abstract s) ∧
    queues_ok qs ∧ Forall (λ t, t_state t = Blocked) bl ∧
    reschedule cleanup s w = (let? w' := reap cleanup s w in
      Ret ((current_id s, current_id (dispatch (current_id s) qs bl)), dispatch (current_id s) qs bl, w'))).
  { unfold reschedule, reap, abstract at 2. destruct (current s) as [c|] eqn:Ec; cbn [abs_reschedule].
    2: { exists (queues s), (blocked s). rewrite dispatch_others by done. split_and!; try done; apply Hwf. }
    assert (current_id s = t_id c) as Hid by (unfold current_id; by rewrite Ec).
    destruct (t_state c) eqn:Est.
    - by destruct (wf_current s Hwf c Ec).
    - exists (push_queue (queues s) (set_state c Ready)), (blocked s). rewrite Hid in *.
      rewrite dispatch_running by done. unfold ready. cbn [abs_reschedule]. rewrite Est.
      split_and!; try done; [by apply push_queue_ok|apply Hwf].
    - exists (queues s), (blocked s ++ [c]). rewrite dispatch_others by done. split_and!; try done.
      apply Forall_app. split; [apply Hwf|by constructor].
    - exists (queues s), (blocked s). rewrite dispatch_others by done. split_and!; try done; [apply Hwf|].
      by destruct (cleanup c w). }
  destruct Hmain as (qs & bl & Habs & Hok & Hbl & Hr).
  destruct (dispatch_ok (current_id s) qs bl Hok) as (Hok' & Hbl' & Hrun).
  exists (dispatch (current_id s) qs bl). split_and!; try done.
  apply (sched_wf_sub s); try done; [by rewrite Hbl'|intros t Ht; by rewrite (Hrun t Ht)|].
  apply (abs_reschedule_ids s Hwf _ _ _ (eq_sym Habs)).
Qed.

Lemma spawn_spec s contexts t s' contexts' :
  sched_wf s → spawn s contexts t = Ret (s', contexts') → t_state t = Ready → 1 ≤ t_id t →
  t_id t ∉ all_ids s →
  sched_wf s' ∧ abstract s' = (enqueue t (ready s), current s, blocked s) ∧
  all_ids s' ≡ₚ t_id t :: all_ids s ∧
  contexts' = <[Z.to_nat (t_id t) := t_context t]> contexts.
Proof.
  intros Hwf H Hst Hpos Hnew. pose proof (sched_wf_queues s Hwf) as Hq. unfold spawn in H.
  destruct (t_id t <? MAX_TASKS) eqn:Elt; simplify_eq.
  assert (Hids : all_ids {| queues := push_queue (queues s) t; current := current s; blocked := blocked s |}
                 ≡ₚ t_id t :: all_ids s).
  { unfold all_ids, all_tasks. simpl. by rewrite push_queue_enqueue, enqueue_Permutation by done. }
  destruct (push_queue_ok (queues s) t Hq Hst) as [Hl' Hq'].
  split; [split; simpl; try done; [apply Hwf..| |]|].
  - rewrite Hids. apply NoDup_cons. split; [done|apply Hwf].
  - rewrite Hids. constructor; [unfold MAX_TASKS in *; lia|apply Hwf].
  - unfold abstract, ready. simpl. by rewrite push_queue_enqueue.
Qed.

Lemma unblock_spec s id :
  sched_wf s →
  (∃ t bl1 bl2 s', blocked s = bl1 ++ t :: bl2 ∧ t_id t = id ∧ unblock s id = (true, s') ∧
     sched_wf s' ∧ all_ids s' ≡ₚ all_ids s ∧
     abstract s' = (enqueue (set_state t Ready) (ready s), current s, bl1 ++ bl2)) ∨
  ((id ∉ t_id <$> blocked s) ∧ unblock s id = (false, s)).
Proof.
  intros Hwf. pose proof (sched_wf_queues s Hwf) as Hq. unfold unblock.
  destruct (position (λ t, t_id t =? id) (blocked s)) as [pos|] eqn:E; simpl.
  2: { right. split; [|done]. apply position_None in E. rewrite list_elem_of_fmap. intros (t & -> & Ht).
       rewrite Forall_forall in E. specialize (E t Ht). simpl in E. lia. }
  left. apply position_Some in E as (bl1 & t & bl2 & Ebl & <- & Ht & _). rewrite Ebl, remove_at_middle.
  exists t, bl1, bl2. eexists. split; [done|]. split; [lia|]. split; [reflexivity|].
  assert (Hids : all_ids {| queues := push_queue (queues s) (set_state t Ready); current := current s;
                            blocked := bl1 ++ bl2 |} ≡ₚ all_ids s).
  { unfold all_ids, all_tasks. simpl. rewrite push_queue_enqueue, enqueue_Permutation, Ebl by done.
    rewrite !fmap_app, !fmap_cons, set_state_id. solve_Permutation. }
  split; [|split; [done|]].
  - apply (sched_wf_sub s); simpl; try done; [by apply push_queue_ok| |apply Hwf|by rewrite Hids].
    pose proof (wf_blocked s Hwf) as Hb. rewrite Ebl in Hb.
    rewrite Forall_app, Forall_cons in Hb. rewrite Forall_app. tauto.
  - unfold abstract, ready. simpl. by rewrite push_queue_enqueue.
Qed.

(** Marking the current task keeps every id. *)
Lemma mark_current_wf s st :
  sched_wf s → st ≠ Ready →
  sched_wf {| queues := queues s; current := (λ t, set_state t st) <$> current s; blocked := blocked s |} ∧
  all_ids {| queues := queues s; current := (λ t, set_state t st) <$> current s; blocked := blocked s |}
  = all_ids s.
Proof.
  intros Hwf Hst.
  assert (E : all_ids {| queues := queues s; current := (λ t, set_state t st) <$> current s;
                         blocked := blocked s |} = all_ids s).
  { unfold all_ids, all_tasks. simpl. rewrite !fmap_app. by destruct (current s). }
  split; [|done]. apply (sched_wf_sub s); simpl; try done; try apply Hwf; [by apply sched_wf_queues| |by rewrite E].
  intros t (c & _ & ->)%fmap_Some. done.
Qed.

(** *** The scheduler with its id allocator *)
Definition sys : Type := Scheduler * list CpuContext * IdAllocator.

Definition free_id (t : Task) (ids : IdAllocator) : outcome IdAllocator := Ret (ids_free ids (t_id t)).

Inductive sys_step : sys → sys → Prop :=
| step_spawn s ctxs ids t s' ctxs' ids' :
    ids_alloc ids = Ret (t_id t, ids') → t_state t = Ready →
    spawn s ctxs t = Ret (s', ctxs') → sys_step (s, ctxs, ids) (s', ctxs', ids')
| step_reschedule s ctxs ids r s' ids' :
    reschedule free_id s ids = Ret (r, s', ids') → sys_step (s, ctxs, ids) (s', ctxs, ids')
| step_block s ctxs ids : sys_step (s, ctxs, ids) (block_current s, ctxs, ids)
| step_kill s ctxs ids : sys_step (s, ctxs, ids) (kill_current s, ctxs, ids)
| step_unblock s ctxs ids id : sys_step (s, ctxs, ids) ((unblock s id).2, ctxs, ids).

Definition sys_init : sys := (sched_new, replicate 256 empty_context, ids_new).

Definition sys_wf (x : sys) : Prop :=
  let '(s, ctxs, ids) := x in
  sched_wf s ∧ ids_wf ids ∧ Forall (in_use ids) (all_ids s) ∧ length ctxs = 256%nat.

Lemma reap_reschedule_wf s ids s' :
  sched_wf s → ids_wf ids → Forall (in_use ids) (all_ids s) →
  sched_wf s' → abstract s' = abs_reschedule (abstract s) →
  ∃ ids', reap free_id s ids = Ret ids' ∧ ids_wf ids' ∧ Forall (in_use ids') (all_ids s').
Proof.
  intros Hwf Hids Huse Hwf' Habs.
  pose proof (abs_reschedule_ids s Hwf _ _ _ (eq_sym Habs)) as Hsub.
  assert (Hkeep : Forall (in_use ids) (all_ids s')) by (eapply sub_Forall; [apply Hsub|done]).
  unfold reap, free_id. destruct (current s) as [c|] eqn:Ec; [|by eexists].
  destruct (t_state c) eqn:Est; [by eexists..|]. eexists. split; [reflexivity|].
  assert (Hall : all_ids s = (t_id <$> ready s ++ blocked s) ++ [t_id c]).
  { unfold all_ids, all_tasks. fold (ready s). rewrite Ec, (assoc_L (++)), fmap_app. done. }
  assert (Hc : in_use ids (t_id c)).
  { rewrite Hall, Forall_app in Huse. by destruct Huse as [_ ?%Forall_inv]. }
  destruct (ids_free_spec ids (t_id c) Hids Hc) as [Hwf2 Hin]. split; [done|].
  assert (t_id c ∉ all_ids s') as Hgone.
  { pose proof (wf_nodup s Hwf) as Hnd. rewrite Hall, NoDup_app in Hnd. destruct Hnd as (_ & Hd & _).
    unfold abstract in Habs. rewrite Ec in Habs. cbn [abs_reschedule] in Habs. rewrite Est in Habs.
    symmetry in Habs. apply run_head_ids in Habs. change (all_ids s' ≡ₚ t_id <$> ready s ++ blocked s) in Habs.
    rewrite Habs. intros Hx. apply (Hd _ Hx). set_solver. }
  rewrite Forall_forall in Hkeep |- *. intros k Hk. apply Hin. split; [by apply Hkeep|]. by intros ->.
Qed.

Lemma sys_step_wf x y : sys_wf x → sys_step x y → sys_wf y.
Proof.
  intros Hx Hstep. destruct Hstep as [s ctxs ids t s' ctxs' ids' Hal Hst Hsp|s ctxs ids r s' ids' Hr| | |];
    destruct Hx as (Hwf & Hids & Huse & Hlen).
  - destruct (ids_alloc_spec _ _ _ Hids Hal) as (Hids' & Hfresh & Hin).
    assert (t_id t ∉ all_ids s) as Hnew.
    { intros Hx. rewrite Forall_forall in Huse. by apply Hfresh, Huse. }
    assert (in_use ids' (t_id t)) as Ht by (apply Hin; by right).
    destruct (spawn_spec s ctxs t s' ctxs' Hwf Hsp Hst (proj1 (proj1 Ht)) Hnew) as (Hwf' & _ & Hp & ->).
    split; [done|]. split; [done|]. split; [|by rewrite length_insert].
    rewrite Hp. constructor; [done|]. eapply Forall_impl; [exact Huse|]. intros k Hk. apply Hin. by left.
  - destruct (reschedule_spec free_id s ids Hwf) as (s1 & Hwf1 & Habs & _ & Heq).
    destruct (reap_reschedule_wf s ids s1) as (ids1 & Hreap & Hids1 & Huse1); [done..|].
    rewrite Heq, Hreap in Hr. simplify_eq/=. done.
  - destruct (mark_current_wf s Blocked Hwf) as [? E]; [done|]. split; [done|]. unfold block_current. by rewrite E.
  - destruct (mark_current_wf s Dead Hwf) as [? E]; [done|]. split; [done|]. unfold kill_current. by rewrite E.
  - destruct (unblock_spec s id Hwf) as [(t & bl1 & bl2 & s' & _ & _ & -> & Hwf' & Hp & _)|[_ ->]]; [|done].
    simpl. split; [done|]. by rewrite Hp.
Qed.

Lemma sys_init_wf : sys_wf sys_init.
Proof.
  split; [|split; [apply demo_ids_wf|split; [constructor|done]]].
  split; simpl; try done; try constructor. intros [|[|[|p]]] q; simpl; intros [= <-]; constructor.
Qed.

(** [n] voluntary yields in a row. *)
Fixpoint yields {W} (cleanup : Task → W → outcome W) (n : nat) (s : Scheduler) (w : W)
    : outcome (Scheduler * W) :=
  match n with
  | O => Ret (s, w)
  | S n' => let? r := reschedule cleanup s w in yields cleanup n' (r.1.2) (r.2)
  end.

Lemma yields_S {W} (cleanup : Task → W → outcome W) n s w c t l :
  sched_wf s → current s = Some c → t_state c = Running → ready s = t :: l →
  ∃ s', yields cleanup (S n) s w = yields cleanup n s' w ∧ sched_wf s' ∧
        current s' = Some (set_state t Running) ∧ ready s' = enqueue (set_state c Ready) l.
Proof.
  intros Hwf Hc Hst Hr. destruct (reschedule_spec cleanup s w Hwf) as (s' & Hwf' & Habs & _ & Heq).
  unfold abstract in Habs. rewrite Hc, Hr in Habs. cbn [abs_reschedule] in Habs. rewrite Hst in Habs.
  simplify_eq. exists s'. cbn [yields]. rewrite Heq. unfold reap. rewrite Hc, Hst. done.
Qed.

Lemma enqueue_level c (l : list Task) :
  Forall (λ u, prio u = prio c) l → enqueue c l = l ++ [c].
Proof.
  intros H. rewrite Forall_forall in H. unfold enqueue.
  rewrite filter_all by (intros u Hu; rewrite (H u Hu); lia).
  by rewrite filter_none by (intros u Hu; rewrite (H u Hu); lia).
Qed.

Lemma round_robin_aux {W} (cleanup : Task → W → outcome W) k s w c :
  sched_wf s → current s = Some c → t_state c = Running →
  Forall (λ u, prio u = prio c) (ready s) → (k ≤ length (ready s))%nat →
  ∃ s', yields cleanup k s w = Ret (s', w) ∧ Some (current_id s') = (t_id <$> c :: ready s) !! k.
Proof.
  revert s c. induction k as [|k IH]; intros s c Hwf Hc Hst Hall Hk.
  - exists s. split; [done|]. unfold current_id. by rewrite Hc.
  - destruct (ready s) as [|t l] eqn:Hr; [simpl in Hk; lia|].
    destruct (yields_S cleanup k s w c t l) as (s1 & -> & Hwf1 & Hc1 & Hr1); [done..|].
    apply Forall_cons in Hall as [Ht Hall].
    rewrite enqueue_level in Hr1 by done.
    destruct (IH s1 (set_state t Running)) as (s' & Hy & Hcur); try done.
    + rewrite Hr1. apply Forall_app. split; [|by constructor].
      eapply Forall_impl; [exact Hall|]. unfold prio in *. simpl. congruence.
    + rewrite Hr1, length_app. simpl in *. lia.
    + exists s'. split; [done|]. rewrite Hcur, Hr1, !fmap_cons. simpl in Hk |- *.
      destruct k as [|k]; simpl; [done|]. rewrite fmap_app, lookup_app_l; [done|].
      rewrite length_fmap. lia.
Qed.

Lemma realtime_aux {W} (cleanup : Task → W → outcome W) n s w c t l u :
  sched_wf s → current s = Some c → t_state c = Running → prio c = 0%nat →
  ready s = t :: l → prio t = 0%nat → u ∈ l → prio u ≠ 0%nat →
  ∃ s' c', yields cleanup n s w = Ret (s', w) ∧ current s' = Some c' ∧ prio c' = 0%nat ∧ u ∈ ready s'.
Proof.
  revert s c t l. induction n as [|n IH]; intros s c t l Hwf Hc Hst Hpc Hr Hpt Hu Hpu.
  - exists s, c. rewrite Hr. set_solver.
  - destruct (yields_S cleanup n s w c t l) as (s1 & -> & Hwf1 & Hc1 & Hr1); [done..|].
    pose proof (enqueue_Permutation (set_state c Ready) l) as Hp. rewrite <- Hr1 in Hp.
    assert (u ∈ ready s1) as Hu1 by (rewrite Hp; set_solver).
    assert (set_state c Ready ∈ ready s1) as Hcin by (rewrite Hp; set_solver).
    pose proof (ready_sorted _ (sched_wf_queues s1 Hwf1)) as Hs. fold (ready s1) in Hs.
    destruct (ready s1) as [|t1 l1] eqn:Er; [set_solver|]. clear Hr1 Hp.
    apply StronglySorted_cons in Hs as [Hs _]. rewrite Forall_forall in Hs.
    assert (prio t1 = 0%nat) as Ht1.
    { apply elem_of_cons in Hcin as [<-|Hin]; [done|]. specialize (Hs _ Hin).
      unfold prio in *. simpl in *. lia. }
    apply elem_of_cons in Hu1 as [->|Hu1]; [done|].
    by apply (IH s1 (set_state t Running) t1 l1).
Qed.

(** *** Properties *)

(** Scheduler invariant.  In every state reachable from boot by spawning tasks with ids from
    the id allocator, rescheduling, blocking, killing and unblocking, in any order, each task sits
    in exactly one place with the state and priority of that place, task ids are pairwise
    distinct, nonzero, below MAX_TASKS and in use, and CONTEXTS has its 256 entries: no task is
    duplicated and no id is handed out twice. *)
Theorem sched_reachable_wf (x : sys) : rtc sys_step sys_init x → sys_wf x.
Proof.
  intros H. refine (rtc_ind_r sys_wf sys_init _ _ x H); [apply sys_init_wf|].
  intros y z _ Hstep Hy. by eapply sys_step_wf.
Qed.

Definition boot_task (id : Z) (name : string) (p : Priority) : Task :=
  {| t_id := id; t_name := name; t_state := Ready; t_priority := p; t_context := empty_context;
     t_stack_top := 0; t_stack_frames := []; t_capabilities := [] |}.

Lemma sched_reachable_wf_witness :
  sys_wf (mkSched [[boot_task 1 "rt" Realtime]; []; []] None [],
          <[1%nat := empty_context]> (replicate 256 empty_context), mkIds 2 []).
Proof.
  apply sched_reachable_wf. eapply rtc_l; [|reflexivity].
  by apply (step_spawn sched_new (replicate 256 empty_context) ids_new (boot_task 1 "rt" Realtime)).
Defined.

(** C8: the three-queue scheduler refines a single ready list ordered by priority and FIFO
    within a priority.  In every well-formed state, reschedule runs the head of that list (the
    scan for a task other than the current one changes nothing), puts a running current task
    behind its equals, keeps the current task only when nothing else is ready, moves a blocked
    one to the blocked list and reaps a dead one; unblock moves the task to its place in the
    list, or changes nothing when it is not blocked. *)
Theorem scheduler_refines {W : Type} (cleanup : Task → W → outcome W) (s : Scheduler) (w : W) :
  sched_wf s →
  (∃ s', sched_wf s' ∧ abstract s' = abs_reschedule (abstract s) ∧
         reschedule cleanup s w =
         (let? w' := reap cleanup s w in Ret ((current_id s, current_id s'), s', w'))) ∧
  (∀ id, (∃ t bl1 bl2 s', blocked s = bl1 ++ t :: bl2 ∧ t_id t = id ∧ unblock s id = (true, s') ∧
            sched_wf s' ∧ abstract s' = (enqueue (set_state t Ready) (ready s), current s, bl1 ++ bl2)) ∨
         ((id ∉ t_id <$> blocked s) ∧ unblock s id = (false, s))).
Proof.
  intros Hwf. split.
  - destruct (reschedule_spec cleanup s w Hwf) as (s' & ? & ? & _ & ?). by exists s'.
  - intros id. destruct (unblock_spec s id Hwf) as [(t & bl1 & bl2 & s' & ? & ? & ? & ? & _ & ?)|?];
      [left; by exists t, bl1, bl2, s'|by right].
Qed.

(** A running realtime task, one realtime and one normal task ready, a blocked one. *)
Definition demo_sched : Scheduler :=
  {| queues := [[boot_task 2 "rt2" Realtime]; [boot_task 3 "agent" Normal]; []];
     current := Some (set_state (boot_task 1 "rt1" Realtime) Running);
     blocked := [set_state (boot_task 4 "waiter" Normal) Blocked] |}.

Lemma demo_sched_wf : sched_wf demo_sched.
Proof.
  split; simpl; try done.
  - intros [|[|[|p]]] q; simpl; intros [= <-]; repeat constructor.
  - by repeat constructor.
  - by intros t [= <-].
  - unfold all_ids. simpl. by apply (bool_decide_unpack _).
  - unfold all_ids. simpl. unfold MAX_TASKS. repeat constructor; lia.
Qed.

Lemma scheduler_refines_witness :
  ∃ s', reschedule (λ _ w, Ret w) demo_sched () = Ret ((1, 2), s', ()) ∧
        ready s' = [boot_task 1 "rt1" Realtime; boot_task 3 "agent" Normal].
Proof.
  destruct (scheduler_refines (λ _ w, Ret w) demo_sched () demo_sched_wf) as [(s' & _ & Habs & ->) _].
  exists s'. unfold abstract in Habs. injection Habs as Hr Hc _. unfold current_id at 2. rewrite Hc.
  split; [reflexivity|]. rewrite Hr. reflexivity.
Defined.

(** C25: round robin.  When the running task and all ready tasks have one priority, the k-th of
    a series of voluntary yields runs the k-th ready task, for every k up to the number of
    ready tasks: everybody runs once before anybody runs twice. *)
Theorem round_robin {W : Type} (cleanup : Task → W → outcome W) (k : nat) (s : Scheduler) (w : W)
    (c : Task) :
  sched_wf s → current s = Some c → t_state c = Running →
  Forall (λ u, t_priority u = t_priority c) (ready s) → (k ≤ length (ready s))%nat →
  ∃ s', yields cleanup k s w = Ret (s', w) ∧ Some (current_id s') = (t_id <$> c :: ready s) !! k.
Proof.
  intros Hwf Hc Hst Hall. apply round_robin_aux; try done.
  eapply Forall_impl; [exact Hall|]. unfold prio. simpl. congruence.
Qed.

Definition demo_ring : Scheduler :=
  {| queues := [[]; [boot_task 2 "b" Normal; boot_task 3 "c" Normal]; []];
     current := Some (set_state (boot_task 1 "a" Normal) Running); blocked := [] |}.

Lemma demo_ring_wf : sched_wf demo_ring.
Proof.
  split; simpl; try done; try by constructor.
  - intros [|[|[|p]]] q; simpl; intros [= <-]; repeat constructor.
  - by intros t [= <-].
  - unfold all_ids. simpl. by apply (bool_decide_unpack _).
  - unfold all_ids. simpl. unfold MAX_TASKS. repeat constructor; lia.
Qed.

Lemma round_robin_witness :
  ∃ s', yields (λ _ w, Ret w) 2 demo_ring () = Ret (s', ()) ∧ Some (current_id s') = Some 3.
Proof.
  apply (round_robin (λ _ w, Ret w) 2 demo_ring () (set_state (boot_task 1 "a" Normal) Running) demo_ring_wf);
    [reflexivity|reflexivity|repeat constructor|simpl; lia].
Defined.

(** Two realtime tasks starve everybody else.  With a running realtime task and another one
    ready, no number of yields ever runs a ready task of a lower priority: it is still in the
    ready list and a realtime task is current.  reschedule's comment promises rotation to the
    next ready task regardless of priority. *)
Theorem realtime_starves {W : Type} (cleanup : Task → W → outcome W) (n : nat) (s : Scheduler) (w : W)
    (c t u : Task) (l : list Task) :
  sched_wf s → current s = Some c → t_state c = Running → t_priority c = Realtime →
  ready s = t :: l → t_priority t = Realtime → u ∈ l → t_priority u ≠ Realtime →
  ∃ s' c', yields cleanup n s w = Ret (s', w) ∧ current s' = Some c' ∧ t_priority c' = Realtime ∧
           u ∈ ready s'.
Proof.
  intros Hwf Hc Hst Hpc Hr Hpt Hu Hpu.
  destruct (realtime_aux cleanup n s w c t l u) as (s' & c' & ? & ? & Hp & ?); try done.
  - unfold prio. by rewrite Hpc.
  - unfold prio. by rewrite Hpt.
  - unfold prio. by destruct (t_priority u).
  - exists s', c'. unfold prio in Hp. by destruct (t_priority c').
Qed.

Lemma realtime_starves_witness :
  ∃ s' c', yields (λ _ w, Ret w) 100 demo_sched () = Ret (s', ()) ∧ current s' = Some c' ∧
           t_priority c' = Realtime ∧ boot_task 3 "agent" Normal ∈ ready s'.
Proof.
  apply (realtime_starves (λ _ w, Ret w) 100 demo_sched () (set_state (boot_task 1 "rt1" Realtime) Running)
           (boot_task 2 "rt2" Realtime) (boot_task 3 "agent" Normal) [boot_task 3 "agent" Normal]
           demo_sched_wf); try reflexivity; [by left|done].
Defined.
End Sched.
