(* ===== verification/Kernel.v ===== *)
(** * Kernel: the statics of the kernel core and the context switch

    The record [Kernel] holds the statics that the task, capability, memory and ipc modules
    share, each under the name of its static.  Every operation runs to completion on it: the
    spin locks serialise the accesses, and a [try_lock] that may fail takes its outcome as a
    boolean argument.  [Switch] models context_switch, yield_now, block_and_yield and
    exit_current on a machine that adds the registers of the running task. *)

From S2P Require Import Prelude Capability FrameAlloc Task Scheduler.

Module Kern.
Import Frames CapTable Tasks Sched.

(** ** ipc/mod.rs, ipc/message.rs, ipc/channel.rs, ipc/request_reply.rs, ipc/shared_memory.rs: data *)
Inductive MessageType : Type := Data | Request | Reply | CapTransfer | Signal.

Inductive IpcError : Type :=
| RecipientNotFound
| MailboxFull
| NoMessage
| Timeout
| CapabilityDenied
| InvalidCapTransfer.

Record Message : Type := mkMsg {
  m_id : Z;
  m_sender : Z;
  m_recipient : Z;
  m_type : MessageType;
  m_payload : list Z;
  m_cap_transfer : option Z;
  m_reply_to : option Z;
}.

Record Channel : Type := mkChan {
  ch_id : Z;
  ch_name : string;
  ch_subscribers : list (Z * Z);
}.

Record PendingRequest : Type := mkPending { requester : Z; deadline_tick : Z }.

Record SharedRegion : Type := mkRegion {
  r_id : Z;
  r_phys_base : Z;
  r_size : Z;
  r_owner : Z;
  r_grants : list Z;
}.

#[export] Instance MessageType_eq_dec : EqDecision MessageType.
Proof. solve_decision. Defined.
#[export] Instance IpcError_eq_dec : EqDecision IpcError.
Proof. solve_decision. Defined.
#[export] Instance Message_eq_dec : EqDecision Message.
Proof. solve_decision. Defined.

(** ** The statics *)
Record Kernel : Type := mkKernel {
  k_caps : CapabilityTable;  (** CAP_TABLE *)
  k_sched : Scheduler;  (** SCHEDULER *)
  k_contexts : list CpuContext;  (** CONTEXTS *)
  k_ids : IdAllocator;  (** ID_ALLOCATOR *)
  k_frames : option BitmapFrameAllocator;  (** FRAME_ALLOCATOR *)
  k_mailboxes : gmap Z (list Message);  (** MAILBOXES *)
  k_next_msg : Z;  (** NEXT_MSG_ID *)
  k_channels : gmap string Channel;  (** CHANNELS *)
  k_next_channel : Z;  (** NEXT_CHANNEL_ID *)
  k_pending : gmap Z PendingRequest;  (** PENDING *)
  k_replies : gmap Z Message;  (** REPLIES *)
  k_regions : gmap Z SharedRegion;  (** SHARED_REGIONS *)
  k_next_region : Z;  (** NEXT_REGION_ID *)
  k_ticks : Z;  (** TICKS *)
}.

Definition set_caps (k : Kernel) (v : CapabilityTable) : Kernel :=
  mkKernel v (k_sched k) (k_contexts k) (k_ids k) (k_frames k) (k_mailboxes k) (k_next_msg k)
    (k_channels k) (k_next_channel k) (k_pending k) (k_replies k) (k_regions k)
    (k_next_region k) (k_ticks k).
Definition set_sched (k : Kernel) (v : Scheduler) : Kernel :=
  mkKernel (k_caps k) v (k_contexts k) (k_ids k) (k_frames k) (k_mailboxes k) (k_next_msg k)
    (k_channels k) (k_next_channel k) (k_pending k) (k_replies k) (k_regions k)
    (k_next_region k) (k_ticks k).
Definition set_contexts (k : Kernel) (v : list CpuContext) : Kernel :=
  mkKernel (k_caps k) (k_sched k) v (k_ids k) (k_frames k) (k_mailboxes k) (k_next_msg k)
    (k_channels k) (k_next_channel k) (k_pending k) (k_replies k) (k_regions k)
    (k_next_region k) (k_ticks k).
Definition set_ids (k : Kernel) (v : IdAllocator) : Kernel :=
  mkKernel (k_caps k) (k_sched k) (k_contexts k) v (k_frames k) (k_mailboxes k) (k_next_msg k)
    (k_channels k) (k_next_channel k) (k_pending k) (k_replies k) (k_regions k)
    (k_next_region k) (k_ticks k).
Definition set_frames (k : Kernel) (v : option BitmapFrameAllocator) : Kernel :=
  mkKernel (k_caps k) (k_sched k) (k_contexts k) (k_ids k) v (k_mailboxes k) (k_next_msg k)
    (k_channels k) (k_next_channel k) (k_pending k) (k_replies k) (k_regions k)
    (k_next_region k) (k_ticks k).
Definition set_mailboxes (k : Kernel) (v : gmap Z (list Message)) : Kernel :=
  mkKernel (k_caps k) (k_sched k) (k_contexts k) (k_ids k) (k_frames k) v (k_next_msg k)
    (k_channels k) (k_next_channel k) (k_pending k) (k_replies k) (k_regions k)
    (k_next_region k) (k_ticks k).
Definition set_next_msg (k : Kernel) (v : Z) : Kernel :=
  mkKernel (k_caps k) (k_sched k) (k_contexts k) (k_ids k) (k_frames k) (k_mailboxes k) v
    (k_channels k) (k_next_channel k) (k_pending k) (k_replies k) (k_regions k)
    (k_next_region k) (k_ticks k).
Definition set_channels (k : Kernel) (v : gmap string Channel) : Kernel :=
  mkKernel (k_caps k) (k_sched k) (k_contexts k) (k_ids k) (k_frames k) (k_mailboxes k)
    (k_next_msg k) v (k_next_channel k) (k_pending k) (k_replies k) (k_regions k)
    (k_next_region k) (k_ticks k).
Definition set_next_channel (k : Kernel) (v : Z) : Kernel :=
  mkKernel (k_caps k) (k_sched k) (k_contexts k) (k_ids k) (k_frames k) (k_mailboxes k)
    (k_next_msg k) (k_channels k) v (k_pending k) (k_replies k) (k_regions k)
    (k_next_region k) (k_ticks k).
Definition set_pending (k : Kernel) (v : gmap Z PendingRequest) : Kernel :=
  mkKernel (k_caps k) (k_sched k) (k_contexts k) (k_ids k) (k_frames k) (k_mailboxes k)
    (k_next_msg k) (k_channels k) (k_next_channel k) v (k_replies k) (k_regions k)
    (k_next_region k) (k_ticks k).
Definition set_replies (k : Kernel) (v : gmap Z Message) : Kernel :=
  mkKernel (k_caps k) (k_sched k) (k_contexts k) (k_ids k) (k_frames k) (k_mailboxes k)
    (k_next_msg k) (k_channels k) (k_next_channel k) (k_pending k) v (k_regions k)
    (k_next_region k) (k_ticks k).
Definition set_regions (k : Kernel) (v : gmap Z SharedRegion) : Kernel :=
  mkKernel (k_caps k) (k_sched k) (k_contexts k) (k_ids k) (k_frames k) (k_mailboxes k)
    (k_next_msg k) (k_channels k) (k_next_channel k) (k_pending k) (k_replies k) v
    (k_next_region k) (k_ticks k).
Definition set_next_region (k : Kernel) (v : Z) : Kernel :=
  mkKernel (k_caps k) (k_sched k) (k_contexts k) (k_ids k) (k_frames k) (k_mailboxes k)
    (k_next_msg k) (k_channels k) (k_next_channel k) (k_pending k) (k_replies k)
    (k_regions k) v (k_ticks k).
Definition set_ticks (k : Kernel) (v : Z) : Kernel :=
  mkKernel (k_caps k) (k_sched k) (k_contexts k) (k_ids k) (k_frames k) (k_mailboxes k)
    (k_next_msg k) (k_channels k) (k_next_channel k) (k_pending k) (k_replies k)
    (k_regions k) (k_next_region k) v.

(** Boot values. *)
Definition kernel_new : Kernel :=
  mkKernel CapTable.new sched_new (replicate 256 empty_context) ids_new None ∅ 1 ∅ 1 ∅ ∅ ∅ 1 0.

(** [if let Some(mut sched) = SCHEDULER.try_lock() { sched.unblock(id); }]; [free] is whether the
    lock was free. *)
Definition try_unblock (free : bool) (id : Z) (k : Kernel) : Kernel :=
  if free then set_sched k (snd (unblock (k_sched k) id)) else k.

(** ipc/message.rs; a Mailbox is its queue. *)
Definition register_mailbox (task_id : Z) (k : Kernel) : Kernel :=
  set_mailboxes k (<[task_id := []]> (k_mailboxes k)).

Definition unregister_mailbox (task_id : Z) (k : Kernel) : Kernel :=
  set_mailboxes k (delete task_id (k_mailboxes k)).

(** task/mod.rs: stack frames, mailbox and id of a dead task. *)
Definition cleanup_dead_task (task : Task) (k : Kernel) : outcome Kernel :=
  let? k1 := (match k_frames k with
              | Some a => let? a' := free_frames (t_stack_frames task) a in Ret (set_frames k (Some a'))
              | None => Ret k
              end) in
  let k2 := unregister_mailbox (t_id task) k1 in
  Ret (set_ids k2 (ids_free (k_ids k2) (t_id task))).

(** [SCHEDULER.lock().reschedule()]. *)
Definition k_reschedule (k : Kernel) : outcome ((Z * Z) * Kernel) :=
  let? r := reschedule cleanup_dead_task (k_sched k) k in
  let '(ids, s, k') := r in Ret (ids, set_sched k' s).
End Kern.
