(* ===== verification/Ownership.v ===== *)
(** * Ownership: task stacks, physical frames and page tables together

    What task/mod.rs, task/scheduler.rs, memory/frame_allocator.rs and memory/paging.rs promise
    each other: the stack frames recorded in the tasks are pairwise distinct, none of them is free,
    and the pages of every stack are mapped to them.  Stack pages are never unmapped, so an id that
    was used once is never used again. *)

From S2P Require Import Prelude Capability FrameAlloc Task Paging Scheduler Kernel.

Module Ownership.
Import Frames Tasks Paging Sched Kern.

(** ** The part of a task that the scheduler does not change *)
Definition core (t : Task) : Z * list Z := (t_id t, t_stack_frames t).

Definition cores (s : Scheduler) : list (Z * list Z) := core <$> all_tasks s.

Lemma core_set_state t st : core (set_state t st) = core t.
Proof. done. Qed.

Lemma cores_abstract s l cur bl :
  abstract s = (l, cur, bl) → cores s = (core <$> l) ++ (core <$> bl) ++ (core <$> option_list cur).
Proof. intros [= <- <- <-]. unfold cores, all_tasks, ready. by rewrite !fmap_app. Qed.

Lemma cores_ids s : fst <$> cores s = all_ids s.
Proof. unfold cores, all_ids. by rewrite <- list_fmap_compose. Qed.

Lemma enqueue_cores t l : core <$> enqueue t l ≡ₚ core t :: (core <$> l).
Proof. by rewrite enqueue_Permutation. Qed.

Lemma unblock_cores s id : sched_wf s → cores (unblock s id).2 ≡ₚ cores s.
Proof.
  intros Hwf. destruct (unblock_spec s id Hwf) as [(t & bl1 & bl2 & s' & Hbl & _ & -> & _ & _ & Habs)|(_ & ->)]; [|done].
  cbn [snd]. rewrite (cores_abstract _ _ _ _ Habs), (cores_abstract s _ _ _ eq_refl), enqueue_cores, Hbl, !fmap_app, fmap_cons.
  rewrite core_set_state. solve_Permutation.
Qed.

Lemma spawn_cores s s' t : abstract s' = (enqueue t (ready s), current s, blocked s) → cores s' ≡ₚ core t :: cores s.
Proof. intros Habs. by rewrite (cores_abstract _ _ _ _ Habs), (cores_abstract s _ _ _ eq_refl), enqueue_cores. Qed.

Lemma run_head_cores s l bl : abstract s = run_head l bl → cores s ≡ₚ (core <$> l) ++ (core <$> bl).
Proof.
  destruct l as [|t l]; simpl; intros Habs; rewrite (cores_abstract _ _ _ _ Habs); simpl; [by rewrite app_nil_r|].
  solve_Permutation.
Qed.

(** A reschedule keeps every task but a dead current one. *)
Definition dead_current (s : Scheduler) : option Task :=
  c ← current s; if decide (t_state c = Dead) then Some c else None.

Lemma reschedule_cores s s' :
  sched_wf s → abstract s' = abs_reschedule (abstract s) →
  cores s ≡ₚ (core <$> option_list (dead_current s)) ++ cores s'.
Proof.
  intros Hwf Habs. rewrite (cores_abstract s _ _ _ eq_refl). unfold abstract, abs_reschedule, dead_current in *.
  destruct (current s) as [c|] eqn:Ec; simpl; [|by rewrite (run_head_cores _ _ _ Habs), app_nil_r].
  pose proof (wf_current _ Hwf c Ec) as Hne. case_decide as Hd.
  - rewrite Hd in Habs. simpl. rewrite (run_head_cores _ _ _ Habs). solve_Permutation.
  - destruct (t_state c) eqn:Es; [done| | |done]; simpl.
    + destruct (ready s) as [|t l]; rewrite (cores_abstract _ _ _ _ Habs); simpl; [done|].
      rewrite enqueue_cores, !core_set_state. solve_Permutation.
    + rewrite (run_head_cores _ _ _ Habs), fmap_app. solve_Permutation.
Qed.

Lemma mark_cores s st :
  cores {| queues := queues s; current := (λ t, set_state t st) <$> current s; blocked := blocked s |} = cores s.
Proof. unfold cores, all_tasks. simpl. rewrite !fmap_app. by destruct (current s). Qed.

(** ** Frames and pages of the stacks *)

(** A frame number of the machine that is not free. *)
Definition taken (a : BitmapFrameAllocator) (i : Z) : Prop := 0 ≤ i < total_frames a ∧ i ∉ free_set a.

(** [a'] is [a] after some allocations. *)
Definition fewer_free (a a' : BitmapFrameAllocator) : Prop :=
  alloc_wf a' ∧ total_frames a' = total_frames a ∧ free_set a' ⊆ free_set a.

Lemma fewer_refl a : alloc_wf a → fewer_free a a.
Proof. done. Qed.

Lemma fewer_trans a b c : fewer_free a b → fewer_free b c → fewer_free a c.
Proof. intros (? & Hb & Hs) (? & Hc & Hs'). split; [done|]. split; [by rewrite Hc|by etrans]. Qed.

Lemma taken_fewer a a' i : fewer_free a a' → taken a i → taken a' i.
Proof. intros (_ & Ht & Hs) [? ?]. split; [by rewrite Ht|set_solver]. Qed.

Lemma allocate_fewer a r a' : alloc_wf a → allocate_frame a = Ret (r, a') → fewer_free a a'.
Proof.
  intros Hwf E. pose proof (allocate_frame_total a r a' Hwf E) as Ht.
  pose proof (allocate_frame_refines a Hwf) as H. rewrite E in H. destruct r as [f|].
  - destruct H as (Hwf' & k & _ & _ & Hfs & _). split; [done|]. split; [done|]. set_solver.
  - destruct H as [-> _]. by apply fewer_refl.
Qed.

Lemma take_frames_fewer n a fs a' : alloc_wf a → take_frames n a = Ret (fs, a') → fewer_free a a'.
Proof.
  revert a fs. induction n as [|n IH]; intros a fs Hwf E; simpl in E; [simplify_eq; by apply fewer_refl|].
  destruct (allocate_frame a) as [[[f|] a1]|] eqn:Ea; simplify_eq/=; pose proof (allocate_fewer _ _ _ Hwf Ea) as Hf; [|done].
  destruct (take_frames n a1) as [[[l|] a2]|] eqn:Et; simplify_eq/=; (eapply fewer_trans; [done|]; eapply IH; [apply Hf|done]).
Qed.

(** The virtual address of page [k] of the stack of task [id]. *)
Definition stack_page (id : Z) (k : nat) : Z := STACK_REGION_BASE + id * STACK_SLOT_SIZE + PAGE_SIZE + Z.of_nat k * PAGE_SIZE.

Lemma stack_page_inj id id' (k k' : nat) : (k < 4)%nat → (k' < 4)%nat → stack_page id k = stack_page id' k' → id = id' ∧ k = k'.
Proof. unfold stack_page, STACK_SLOT_SIZE, STACK_PAGES, PAGE_SIZE. lia. Qed.

Section memory.
Context {PT : Type} `{!Mapper PT, !MapperLaws PT}.

(** [cs] are the live tasks, [next] is the next unused id. *)
Record memory_ok (cs : list (Z * list Z)) (next : Z) (frames : option BitmapFrameAllocator) (pt : PT) : Prop := {
  mo_frames : ∃ a, frames = Some a ∧ alloc_wf a ∧ ∀ f, f ∈ cs ≫= snd → ∃ i, f = i * PAGE_SIZE ∧ taken a i;
  mo_nodup : NoDup (cs ≫= snd);
  mo_mapped : ∀ id fs, (id, fs) ∈ cs →
    length fs = 4%nat ∧ ∀ k f, fs !! k = Some f → translate pt (stack_page id k) = Some f;
  mo_used : ∀ id, 1 ≤ id < next → is_Some (translate pt (stack_page id 0));
  mo_next : next ≤ 256;
}.

#[global] Instance memory_ok_proper : Proper ((≡ₚ) ==> (=) ==> (=) ==> (=) ==> iff) memory_ok.
Proof.
  assert (H : ∀ cs cs' n fr pt, cs ≡ₚ cs' → memory_ok cs n fr pt → memory_ok cs' n fr pt).
  { intros cs cs' n fr pt Hp [(a & Ha & Hwf & Ho) Hnd Hm Hu Hn]. split; [|by rewrite <- Hp| |done|done].
    - exists a. split; [done|]. split; [done|]. intros f Hf. apply Ho. by rewrite Hp.
    - intros id fs Hin. apply Hm. by rewrite Hp. }
  intros cs cs' Hp n ? <- fr ? <- pt ? <-. split; by apply H.
Qed.

(** Further allocations take nothing from the stacks. *)
Lemma memory_ok_fewer cs n a a' pt : fewer_free a a' → memory_ok cs n (Some a) pt → memory_ok cs n (Some a') pt.
Proof.
  intros Hf [(a0 & [= <-] & Hwf & Ho) Hnd Hm Hu Hn]. split; try done. exists a'. split; [done|]. split; [apply Hf|].
  intros f Hin. destruct (Ho f Hin) as (i & -> & Hi). exists i. split; [done|]. by eapply taken_fewer.
Qed.

(** Giving back the frames of one stack: no panic, and the other stacks keep theirs. *)
Lemma free_frames_ok fs a :
  alloc_wf a → (∀ f, f ∈ fs → ∃ i, f = i * PAGE_SIZE ∧ 0 ≤ i < total_frames a) →
  ∃ a', free_frames fs a = Ret a' ∧ alloc_wf a' ∧ total_frames a' = total_frames a ∧
    free_set a ⊆ free_set a' ∧ ∀ i, i ∈ free_set a' → i ∈ free_set a ∨ i * PAGE_SIZE ∈ fs.
Proof.
  revert a. induction fs as [|f fs IH]; intros a Hwf Hfs; [exists a; naive_solver|].
  destruct (Hfs f) as (i & -> & Hi); [by left|].
  destruct (free_frame_refines a i Hwf Hi) as (a1 & E & Hwf1 & Hs1). pose proof (free_frame_total _ _ _ Hwf Hi E) as Ht.
  destruct (IH a1 Hwf1) as (a' & E' & Hwf' & Ht' & Hsub & Hin).
  { intros f Hf. rewrite Ht. apply Hfs. by right. }
  exists a'. cbn [free_frames]. rewrite E. split; [done|]. split; [done|]. split; [by rewrite Ht'|].
  split; [set_solver|]. intros j Hj. destruct (Hin j Hj) as [Hj'|Hj']; [|right; by right].
  rewrite Hs1 in Hj'. apply elem_of_union in Hj' as [->%elem_of_singleton|?]; [right; by left|by left].
Qed.

Lemma memory_ok_drop c cs n a pt :
  memory_ok (c :: cs) n (Some a) pt → ∃ a', free_frames c.2 a = Ret a' ∧ memory_ok cs n (Some a') pt.
Proof.
  intros [(a0 & [= <-] & Hwf & Ho) Hnd Hm Hu Hn]. simpl in Hnd. apply NoDup_app in Hnd as (_ & Hdisj & Hnd).
  destruct (free_frames_ok c.2 a Hwf) as (a' & E & Hwf' & Ht & _ & Hin).
  { intros f Hf. destruct (Ho f) as (i & -> & [Hi _]); [simpl; set_solver|by exists i]. }
  exists a'. split; [done|]. split; [|done| |done|done].
  - exists a'. split; [done|]. split; [done|]. intros f Hf. destruct (Ho f) as (i & -> & [Hi Hni]); [simpl; set_solver|].
    exists i. split; [done|]. split; [by rewrite Ht|]. intros Hf'. destruct (Hin i Hf') as [|Hc]; [done|]. by apply (Hdisj _ Hc).
  - intros id fs Hc. apply Hm. by right.
Qed.

(** The frames of a new stack come out of the free set, each once. *)
Lemma map_stack_frames n i bottom (env env' : TaskEnv PT) fs a :
  e_frames env = Some a → alloc_wf a → map_stack n i bottom env = Ret (fs, env') →
  ∃ a' ks, e_frames env' = Some a' ∧ fewer_free a a' ∧ fs = (λ k, k * PAGE_SIZE) <$> ks ∧ NoDup ks ∧
    ∀ k, k ∈ ks → k ∈ free_set a ∧ k ∉ free_set a'.
Proof.
  revert i env fs a. induction n as [|n IH]; intros i env fs a Ha Hwf E; simpl in E.
  { simplify_eq. exists a, []. split; [done|]. split; [by apply fewer_refl|]. split; [done|]. split; [constructor|set_solver]. }
  destruct (checked_add64 bottom (i * PAGE_SIZE)) as [page|]; simplify_eq/=.
  unfold alloc_and_map in E. rewrite Ha in E. destruct (allocate_frame a) as [[[f|] a1]|] eqn:Ea; simplify_eq/=.
  pose proof (allocate_fewer _ _ _ Hwf Ea) as Hf1. pose proof (allocate_frame_refines a Hwf) as Hr. rewrite Ea in Hr.
  destruct Hr as (Hwf1 & k & -> & Hk & Hs1 & _).
  destruct (map_to (e_pt env) page (k * PAGE_SIZE) _ a1) as [[pt2 a2]|] eqn:Em; simplify_eq/=.
  destruct (map_to_Some _ _ _ _ _ _ _ Em) as [_ (j & l & Ej)]. pose proof (take_frames_fewer _ _ _ _ Hwf1 Ej) as Hf2.
  destruct (map_stack n (i + 1) bottom _) as [[fs' env2]|] eqn:E2; simplify_eq/=.
  destruct (IH (i + 1) {| e_ids := e_ids env; e_frames := Some a2; e_pt := pt2 |} fs' a2 eq_refl (proj1 Hf2) E2) as (a' & ks & Ha' & Hf3 & -> & Hnd & Hks).
  exists a', (k :: ks). split; [done|]. split; [exact (fewer_trans _ _ _ Hf1 (fewer_trans _ _ _ Hf2 Hf3))|]. split; [done|].
  destruct Hf2 as (_ & _ & Hsub2), Hf3 as (_ & _ & Hsub3). split.
  - constructor; [|done]. intros Hin. destruct (Hks k Hin) as [Hin' _]. set_solver.
  - intros j' [->|Hj']%elem_of_cons; [set_solver|]. destruct (Hks j' Hj'). set_solver.
Qed.

(** An id whose stack is not mapped was never used: a recycled one still has its pages. *)
Lemma unused_id ids id ids' (mapped : Z → Prop) :
  ids_wf ids → (∀ x, 1 ≤ x < ids_next ids → mapped x) → ids_alloc ids = Ret (id, ids') → ¬ mapped id →
  id = ids_next ids ∧ ids_next ids' = ids_next ids + 1.
Proof.
  intros [_ _ Hrange] Hu E Hnot. unfold ids_alloc in E. destruct (last (ids_free_list ids)) as [x|] eqn:El; cbv zeta in E.
  - injection E as -> _. exfalso. apply Hnot, Hu. rewrite Forall_forall in Hrange. by apply Hrange, last_Some_elem_of.
  - destruct (checked_add64 (ids_next ids) 1) as [nx|] eqn:En; [|done]. injection E as <- <-.
    by apply checked_add64_Ret in En as [-> _].
Qed.

Lemma allocated_pos ids id ids' : ids_wf ids → ids_alloc ids = Ret (id, ids') → 1 ≤ id.
Proof.
  intros Hwf E. destruct (ids_alloc_spec _ _ _ Hwf E) as (_ & _ & Hu). destruct (proj2 (Hu id)) as [? _]; [by right|lia].
Qed.

(** A task that was created has an id that was never used, since the pages of a used one are still
    mapped; its stack joins the others. *)
Lemma task_new_memory name prio entry tramp (env env' : TaskEnv PT) t cs :
  ids_wf (e_ids env) → memory_ok cs (ids_next (e_ids env)) (e_frames env) (e_pt env) →
  task_new name prio entry tramp env = Ret (t, env') → t_id t < 256 →
  t_id t = ids_next (e_ids env) ∧ ids_next (e_ids env') = ids_next (e_ids env) + 1 ∧
  memory_ok (core t :: cs) (ids_next (e_ids env')) (e_frames env') (e_pt env').
Proof.
  intros Hids [(a & Ha & Hwf & Ho) Hnd Hm Hu Hn] E Hlt.
  destruct (task_new_inv _ _ _ _ _ _ _ E) as (ids' & bottom & Eid & Eb & _ & Es & _).
  destruct (map_stack_frames 4 0 bottom (mkEnv ids' (e_frames env) (e_pt env)) env' (t_stack_frames t) a Ha Hwf Es)
    as (a' & ks & Ha' & Hf & Hfs & Hndk & Hks).
  destruct (map_stack_spec _ _ _ _ _ _ Es) as (Hlen & Eids & Hpages & Hother). simpl in Eids, Hpages, Hother.
  pose proof (allocated_pos _ _ _ Hids Eid) as Hpos.
  destruct (stack_addresses (t_id t)) as (_ & Eb' & _); [lia|]. rewrite Eb in Eb'. injection Eb' as ->.
  assert (Hpage : ∀ k, STACK_REGION_BASE + t_id t * STACK_SLOT_SIZE + PAGE_SIZE + (0 + Z.of_nat k) * PAGE_SIZE = stack_page (t_id t) k)
    by (intros k; unfold stack_page; lia). setoid_rewrite Hpage in Hpages. setoid_rewrite Hpage in Hother.
  destruct (unused_id _ _ _ (λ id, is_Some (translate (e_pt env) (stack_page id 0))) Hids Hu Eid) as [Hid Hnext].
  { destruct (Hpages 0%nat) as [_ ->]; [lia|]. by intros []. }
  rewrite Eids. split; [done|]. split; [done|].
  assert (Hkeep : ∀ id k, id ≠ t_id t → (k < 4)%nat → translate (e_pt env') (stack_page id k) = translate (e_pt env) (stack_page id k)).
  { intros id k Hne Hk. apply Hother. intros j Hj Eq.
    destruct (stack_page_inj _ _ _ _ Hk Hj Eq). done. }
  split; simpl.
  - exists a'. split; [done|]. split; [apply Hf|]. intros f [Hin|Hin]%elem_of_app.
    + rewrite Hfs in Hin. apply list_elem_of_fmap in Hin as (k & -> & Hin). destruct (Hks k Hin) as [H1 H2]. exists k.
      split; [done|]. split; [|done]. apply elem_of_free_set in H1. destruct Hf as (_ & -> & _). lia.
    + destruct (Ho f Hin) as (i & -> & Hi). exists i. split; [done|]. by eapply taken_fewer.
  - apply NoDup_app. split; [|split; [|done]].
    + rewrite Hfs. apply NoDup_fmap_2; [|done]. intros x y. unfold PAGE_SIZE. lia.
    + intros f Hin Hin'. rewrite Hfs in Hin. apply list_elem_of_fmap in Hin as (k & -> & Hin). destruct (Hks k Hin) as [H1 _].
      destruct (Ho _ Hin') as (i & Ei & _ & Hni). assert (k = i) as -> by (unfold PAGE_SIZE in Ei; lia). done.
  - intros id fs [[= -> ->]|Hin]%elem_of_cons.
    + split; [done|]. intros k f Hk. pose proof (lookup_lt_Some _ _ _ Hk) as Hlt'. rewrite Hlen in Hlt'.
      destruct (Hpages k Hlt') as [Ht _]. by rewrite Hk in Ht.
    + destruct (Hm id fs Hin) as [Hl Ht]. split; [done|]. intros k f Hk. pose proof (lookup_lt_Some _ _ _ Hk).
      destruct (decide (id = t_id t)) as [->|]; [|rewrite Hkeep by (done || lia); by apply Ht].
      exfalso. destruct (Hpages k) as [_ Hnone]; [lia|]. by rewrite (Ht k f Hk) in Hnone.
  - intros id Hid'. destruct (decide (id = t_id t)) as [->|].
    + destruct (Hpages 0%nat) as [-> _]; [lia|]. apply lookup_lt_is_Some_2. lia.
    + rewrite Hkeep by (done || lia). apply Hu. lia.
  - lia.
Qed.

(** ** The heap *)
Lemma alloc_and_map_fewer page flags (env env' : TaskEnv PT) r a :
  e_frames env = Some a → alloc_wf a → alloc_and_map page flags env = Ret (r, env') → ∃ a', e_frames env' = Some a' ∧ fewer_free a a'.
Proof.
  intros Ha Hwf E. unfold alloc_and_map in E. rewrite Ha in E. destruct (allocate_frame a) as [[[f|] a1]|] eqn:Ea; [|done..].
  cbn [outcome_bind] in E. pose proof (allocate_fewer _ _ _ Hwf Ea) as Hf1.
  destruct (map_to (e_pt env) page f flags a1) as [[pt2 a2]|] eqn:Em; [|done]. injection E as <- <-.
  destruct (map_to_Some _ _ _ _ _ _ _ Em) as [_ (j & l & Ej)]. exists a2. split; [done|].
  eapply fewer_trans; [done|]. eapply take_frames_fewer; [apply Hf1|done].
Qed.

Lemma heap_init_fewer fuel (env env' : TaskEnv PT) x y z a :
  e_frames env = Some a → alloc_wf a → heap_init fuel env = Ret (Some (x, y, z, env')) → ∃ a', e_frames env' = Some a' ∧ fewer_free a a'.
Proof.
  unfold heap_init. destruct (checked_add64 _ _) as [e|]; [|done]. cbn [outcome_bind]. generalize (containing_page HEAP_START) as p.
  generalize (containing_page (e - 1)) as q. generalize 0 as n. intros n q p Ha Hwf E.
  destruct (heap_loop fuel p q n env) as [[[m env1]|]|] eqn:El; [|done..]. injection E as _ _ _ ->.
  revert p n env a Ha Hwf El. induction fuel as [|fuel IH]; intros p n env a Ha Hwf El; cbn [heap_loop] in El;
    (destruct (p <=? q); [|injection El as _ <-; exists a; split; [done|by apply fewer_refl]]); [done|].
  destruct (alloc_and_map p _ env) as [[f env2]|] eqn:Em; [|done]. cbn [outcome_bind snd] in El.
  destruct (alloc_and_map_fewer _ _ _ _ _ _ Ha Hwf Em) as (a2 & Ha2 & Hf2).
  destruct (checked_add64 p 4096) as [nx|]; [|done]. destruct (checked_add64 n 1) as [c|]; [|done]. cbn [outcome_bind] in El.
  destruct (IH _ _ _ _ Ha2 (proj1 Hf2) El) as (a3 & Ha3 & Hf3). exists a3. split; [done|]. by eapply fewer_trans.
Qed.

(** ** Isolation *)

(** A stack page of a live task is mapped to a frame that is not free, and to no frame of another
    stack page. *)
Lemma memory_ok_page cs next frames (pt : PT) id fs k :
  memory_ok cs next frames pt → (id, fs) ∈ cs → (k < 4)%nat →
  ∃ f a i, fs !! k = Some f ∧ translate pt (stack_page id k) = Some f ∧ frames = Some a ∧ f = i * PAGE_SIZE ∧ taken a i.
Proof.
  intros [(a & Ha & _ & Ho) _ Hm _ _] Hin Hk. destruct (Hm _ _ Hin) as [Hl Ht].
  destruct (lookup_lt_is_Some_2 fs k) as [f Hf]; [lia|].
  destruct (Ho f) as (i & Hi & Htk); [|exists f, a, i; auto].
  apply list_elem_of_bind. exists (id, fs). split; [|done]. by eapply list_elem_of_lookup_2.
Qed.

Lemma memory_ok_isolated cs next frames (pt : PT) id1 fs1 id2 fs2 k1 k2 f :
  memory_ok cs next frames pt → (id1, fs1) ∈ cs → (id2, fs2) ∈ cs → (k1 < 4)%nat → (k2 < 4)%nat →
  translate pt (stack_page id1 k1) = Some f → translate pt (stack_page id2 k2) = Some f → id1 = id2 ∧ k1 = k2.
Proof.
  intros Hok H1 H2 Hk1 Hk2 E1 E2.
  destruct (memory_ok_page _ _ _ _ _ _ _ Hok H1 Hk1) as (f1 & _ & _ & Hf1 & E1' & _).
  destruct (memory_ok_page _ _ _ _ _ _ _ Hok H2 Hk2) as (f2 & _ & _ & Hf2 & E2' & _). rewrite E1 in E1'. rewrite E2 in E2'. injection E1' as <-. injection E2' as <-.
  pose proof (mo_nodup _ _ _ _ Hok) as Hnd. clear Hok E1 E2. clear - Hnd H1 H2 Hf1 Hf2. induction cs as [|[id fs] cs IH]; [by apply not_elem_of_nil in H1|].
  simpl in Hnd. apply NoDup_app in Hnd as (Hfs & Hdis & Hnd).
  assert (Hrest : ∀ i g k, (i, g) ∈ cs → g !! k = Some f → f ∈ cs ≫= snd).
  { intros i g k Hin Hg. apply list_elem_of_bind. exists (i, g). split; [by eapply list_elem_of_lookup_2|done]. }
  apply elem_of_cons in H1 as [[= -> ->]|H1], H2 as [[= -> ->]|H2]; [| | |by auto].
  - split; [done|]. exact (NoDup_lookup _ _ _ _ Hfs Hf1 Hf2).
  - exfalso. eapply Hdis; [by eapply list_elem_of_lookup_2|by eapply Hrest].
  - exfalso. eapply Hdis; [by eapply list_elem_of_lookup_2|by eapply Hrest].
Qed.
End memory.
End Ownership.
