(* ===== verification/Switch.v ===== *)
(** * Switch: context_switch (task/context.rs) and the public API of task/scheduler.rs

    The machine adds to the kernel statics the callee-saved registers and instruction pointer of
    the code that is running, the interrupt flag, IDLE_CONTEXT and NEED_RESCHEDULE. *)

From S2P Require Import Prelude Capability FrameAlloc Task Scheduler Kernel.

Module Switch.
Import Frames Tasks Sched Kern.

Record Machine : Type := mkMachine {
  m_k : Kernel;
  m_idle : CpuContext;
  m_cpu : CpuContext;
  m_if : bool;
  m_need_resched : bool;
}.

Definition with_k (m : Machine) (k : Kernel) : Machine :=
  mkMachine k (m_idle m) (m_cpu m) (m_if m) (m_need_resched m).

Section switch.
(** Addresses fixed by the linker: label 2 of context_switch and task_entry_trampoline. *)
Variables (RESUME TRAMPOLINE : Z).

(** The stores to [old], in order, from the registers; [rax] is the address of label 2. *)
Definition save_context (cpu : CpuContext) : CpuContext :=
  {| rsp := rsp cpu; rbp := rbp cpu; rbx := rbx cpu; r12 := r12 cpu; r13 := r13 cpu;
     r14 := r14 cpu; r15 := r15 cpu; rip := RESUME |}.

(** The loads from [new] and the jump to its rip. *)
Definition load_context (new : CpuContext) : CpuContext :=
  {| rsp := rsp new; rbp := rbp new; rbx := rbx new; r12 := r12 new; r13 := r13 new;
     r14 := r14 new; r15 := r15 new; rip := rip new |}.

(** Where the jump lands, interrupts are enabled: by the end of yield_now after label 2, by the
    [sti] of the trampoline for a fresh task. *)
Definition lands_enabled (cpu : CpuContext) (flag : bool) : bool :=
  if decide (rip cpu = RESUME ∨ rip cpu = TRAMPOLINE) then true else flag.

Definition timer_tick (m : Machine) : Machine :=
  mkMachine (m_k m) (m_idle m) (m_cpu m) (m_if m) true.

Definition should_reschedule (m : Machine) : bool := m_need_resched m.

(** The boolean is whether a context switch happened: then what runs next is the new task,
    and the statements after [yield_now()] in the caller wait until the old one is resumed. *)
Definition yield_now (m : Machine) : outcome (bool * Machine) :=
  let? r := k_reschedule (m_k m) in
  let '((old_id, new_id), k) := r in
  if negb (old_id =? new_id) && negb (new_id =? 0) then
    let saved := save_context (m_cpu m) in
    let? p :=
      (if old_id =? 0 then Ret (saved, k)
       else if decide (old_id < 256) then
         Ret (m_idle m, set_contexts k (<[Z.to_nat old_id := saved]> (k_contexts k)))
       else Panic) in
    match k_contexts (p.2) !! Z.to_nat new_id with
    | Some new_ctx =>
        let cpu := load_context new_ctx in
        Ret (true, mkMachine (p.2) (p.1) cpu (lands_enabled cpu false) false)
    | None => Panic
    end
  else Ret (false, mkMachine k (m_idle m) (m_cpu m) true false).

Definition block_and_yield (m : Machine) : outcome (bool * Machine) :=
  yield_now (with_k m (set_sched (m_k m) (block_current (k_sched (m_k m))))).

(** [unreachable!] panics when yield_now comes back without a switch. *)
Definition exit_current (m : Machine) : outcome Machine :=
  let? r := yield_now (with_k m (set_sched (m_k m) (kill_current (k_sched (m_k m))))) in
  if fst r then Ret (snd r) else Panic.

(** ** What one scheduling step does *)

Definition k_sys (k : Kernel) : sys := (k_sched k, k_contexts k, k_ids k).

Lemma cleanup_dead_task_sys t k k' :
  cleanup_dead_task t k = Ret k' →
  k_sched k' = k_sched k ∧ k_contexts k' = k_contexts k ∧ k_ids k' = ids_free (k_ids k) (t_id t).
Proof.
  unfold cleanup_dead_task. destruct (k_frames k) as [a|]; cbn [outcome_bind].
  - destruct (free_frames (t_stack_frames t) a) as [a'|]; intros H; simplify_eq/=. done.
  - intros H. by simplify_eq/=.
Qed.

Lemma k_reschedule_sys k ids k' :
  sys_wf (k_sys k) → k_reschedule k = Ret (ids, k') →
  sys_wf (k_sys k') ∧ k_contexts k' = k_contexts k ∧
  ids = (current_id (k_sched k), current_id (k_sched k')) ∧
  abstract (k_sched k') = abs_reschedule (abstract (k_sched k)).
Proof.
  intros Hwf H. unfold k_reschedule in H. pose proof Hwf as (Hs & Hids & Huse & Hlen).
  destruct (reschedule_spec cleanup_dead_task (k_sched k) k Hs) as (s1 & Hs1 & Habs & _ & Heq).
  rewrite Heq in H. destruct (reap cleanup_dead_task (k_sched k) k) as [k1|] eqn:Er; simplify_eq/=.
  destruct (reap_reschedule_wf (k_sched k) (k_ids k) s1) as (ids1 & Hreap & Hids1 & Huse1); [done..|].
  assert (k_contexts k1 = k_contexts k ∧ k_ids k1 = ids1) as [Hc Hi].
  { unfold reap in *. destruct (current (k_sched k)) as [c|]; [|by simplify_eq].
    destruct (t_state c); [by simplify_eq..|].
    apply cleanup_dead_task_sys in Er as (_ & -> & ->). by unfold free_id in *; simplify_eq. }
  unfold k_sys, sys_wf. simpl. rewrite Hc, Hi. done.
Qed.

(** Every task but a dead current one is still known after a reschedule. *)
Lemma reschedule_keeps s s' id :
  sched_wf s → abstract s' = abs_reschedule (abstract s) → id ∈ all_ids s →
  (∀ c, current s = Some c → t_state c = Dead → t_id c ≠ id) → id ∈ all_ids s'.
Proof.
  intros Hwf Habs Hin Hdead.
  assert (Hall : ∀ x, all_ids x = t_id <$> ((abstract x).1.1 ++ (abstract x).2 ++ option_list (abstract x).1.2))
    by done.
  rewrite Hall, Habs. unfold all_ids, all_tasks in Hin. fold (ready s) in Hin.
  unfold abstract. cbn [abs_reschedule]. destruct (current s) as [c|] eqn:Ec.
  2: { destruct (run_head (ready s) (blocked s)) as [[l cur] bl] eqn:E. simpl.
       rewrite (run_head_ids _ _ _ _ _ E). by rewrite app_nil_r in Hin. }
  simpl option_list in Hin. destruct (t_state c) eqn:Est.
  - by destruct (wf_current s Hwf c Ec).
  - destruct (ready s) as [|t l]; simpl; [done|]. rewrite fmap_app, (enqueue_Permutation _ l).
    rewrite !fmap_app in Hin |- *. set_solver.
  - destruct (run_head (ready s) (blocked s ++ [c])) as [[l cur] bl] eqn:E. simpl.
    by rewrite (run_head_ids _ _ _ _ _ E).
  - destruct (run_head (ready s) (blocked s)) as [[l cur] bl] eqn:E. simpl.
    rewrite (run_head_ids _ _ _ _ _ E). rewrite !fmap_app in Hin |- *.
    specialize (Hdead c eq_refl Est). set_solver.
Qed.

(** ** Machine steps *)
Inductive m_step : Machine → Machine → Prop :=
| ms_run m cpu : m_step m (mkMachine (m_k m) (m_idle m) cpu (m_if m) (m_need_resched m))
| ms_tick m : m_step m (timer_tick m)
| ms_yield m b m' : yield_now m = Ret (b, m') → m_step m m'
| ms_block m b m' : block_and_yield m = Ret (b, m') → m_step m m'
| ms_exit m m' : exit_current m = Ret m' → m_step m m'
| ms_spawn m t ids' s' ctxs' :
    ids_alloc (k_ids (m_k m)) = Ret (t_id t, ids') → t_state t = Ready →
    spawn (k_sched (m_k m)) (k_contexts (m_k m)) t = Ret (s', ctxs') →
    m_step m (with_k m (set_contexts (set_sched (set_ids (m_k m) ids') s') ctxs'))
| ms_unblock m free id : m_step m (with_k m (try_unblock free id (m_k m)))
| ms_other m k' : k_sys k' = k_sys (m_k m) → m_step m (with_k m k').

Definition running (m : Machine) : Z := current_id (k_sched (m_k m)).

(** Task [A] is waiting with [ctx] stored as its context. *)
Definition parked (A : Z) (ctx : CpuContext) (m : Machine) : Prop :=
  sys_wf (k_sys (m_k m)) ∧ A ∈ all_ids (k_sched (m_k m)) ∧
  k_contexts (m_k m) !! Z.to_nat A = Some ctx.

(** A yield: the invariant, and what happens to the contexts. *)
Lemma yield_now_spec m b m' :
  sys_wf (k_sys (m_k m)) → yield_now m = Ret (b, m') →
  sys_wf (k_sys (m_k m')) ∧
  abstract (k_sched (m_k m')) = abs_reschedule (abstract (k_sched (m_k m))) ∧
  k_contexts (m_k m') =
    (if b then if running m =? 0 then k_contexts (m_k m)
               else <[Z.to_nat (running m) := save_context (m_cpu m)]> (k_contexts (m_k m))
     else k_contexts (m_k m)) ∧
  (b = true → running m ≠ running m' ∧ running m' ≠ 0 ∧
     k_contexts (m_k m') !! Z.to_nat (running m') = Some (m_cpu m') ∧
     m_if m' = lands_enabled (m_cpu m') false) ∧
  (b = false → m_cpu m' = m_cpu m ∧ m_if m' = true ∧ (running m = running m' ∨ running m' = 0)).
Proof.
  intros Hwf H. unfold yield_now in H.
  destruct (k_reschedule (m_k m)) as [[ids k]|] eqn:Er; [|done]. cbn [outcome_bind] in H.
  apply k_reschedule_sys in Er as (Hwf' & Hc & -> & Habs); [|done].
  fold (running m) in H. destruct (negb (running m =? current_id (k_sched k)) && _) eqn:Eb.
  2: { simplify_eq/=. split; [done|]. split; [done|]. split; [done|]. split; [done|].
       intros _. split; [done|]. split; [done|]. unfold running at 2 3. simpl. lia. }
  destruct (running m =? 0) eqn:E0; cbn [outcome_bind fst snd] in H.
  - destruct (k_contexts k !! _) as [ctx|] eqn:El; simplify_eq/=. unfold running. simpl.
    split; [done|]. split; [done|]. split; [done|]. split; [|done]. intros _.
    fold (running m). split; [lia|]. split; [lia|]. by destruct ctx.
  - case_decide as Hlt; [|done]. cbn [outcome_bind fst snd] in H.
    destruct (k_contexts (set_contexts k _) !! _) as [ctx|] eqn:El; simplify_eq/=.
    change (running (mkMachine _ _ _ _ _)) with (current_id (k_sched k)). rewrite Hc in *. split; [|split; [done|split; [done|split; [|done]]]].
    + destruct Hwf' as (?&?&?&Hl). do 3 (split; [done|]). simpl. rewrite length_insert. apply Hwf.
    + intros _. split; [lia|]. split; [lia|]. by destruct ctx.
Qed.

Lemma parked_yield A ctx m b m' :
  parked A ctx m → running m ≠ A → yield_now m = Ret (b, m') → parked A ctx m'.
Proof.
  intros (Hwf & Hin & Hctx) Hne H. destruct (yield_now_spec m b m' Hwf H) as (Hwf' & Habs & Hc & _).
  pose proof Hwf as (Hs & _ & _ & _). split; [done|]. split.
  - eapply reschedule_keeps; [exact Hs|done|done|]. intros c Hcur _ Heq. apply Hne.
    unfold running, current_id. by rewrite Hcur.
  - rewrite Hc. destruct b; [|done]. destruct (running m =? 0) eqn:E0; [done|].
    rewrite list_lookup_insert_ne; [done|].
    pose proof (wf_ids _ Hs) as Hr. rewrite Forall_forall in Hr. specialize (Hr A Hin).
    assert (0 ≤ running m); [|lia].
    unfold running, current_id in *. destruct (current (k_sched (m_k m))) as [c|] eqn:Ec; [|lia].
    pose proof (wf_ids _ Hs) as Hr'. rewrite Forall_forall in Hr'. specialize (Hr' (t_id c)).
    unfold all_ids, all_tasks in Hr'. rewrite Ec in Hr'. destruct Hr' as [? _]; [|lia].
    rewrite !fmap_app. set_solver.
Qed.

Lemma parked_sys A ctx m m' :
  k_sys (m_k m') = k_sys (m_k m) → parked A ctx m → parked A ctx m'.
Proof. unfold parked. intros E. unfold k_sys in *. injection E as -> -> ->. done. Qed.

Lemma parked_mark A ctx m st :
  st ≠ Ready → parked A ctx m →
  parked A ctx (with_k m (set_sched (m_k m) (mkSched (queues (k_sched (m_k m)))
    ((λ t, set_state t st) <$> current (k_sched (m_k m))) (blocked (k_sched (m_k m)))))).
Proof.
  intros Hst ((Hs & Hids & Huse & Hl) & Hin & Hctx).
  destruct (mark_current_wf _ st Hs Hst) as [Hwf' Eids]. unfold parked, k_sys, sys_wf. simpl.
  by rewrite Eids.
Qed.

Lemma running_mark m st :
  running (with_k m (set_sched (m_k m) (mkSched (queues (k_sched (m_k m)))
    ((λ t, set_state t st) <$> current (k_sched (m_k m))) (blocked (k_sched (m_k m)))))) = running m.
Proof. unfold running, current_id. simpl. by destruct (current (k_sched (m_k m))). Qed.

Lemma parked_step A ctx m m' : parked A ctx m → running m ≠ A → m_step m m' → parked A ctx m'.
Proof.
  intros Hp Hne Hstep. destruct Hstep as [m cpu|m|m b m' H|m b m' H|m m' H|m t ids' s' ctxs' Hal Hst Hsp|m free id|m k' E].
  - by eapply parked_sys.
  - by eapply parked_sys.
  - by eapply parked_yield.
  - eapply parked_yield; [by apply (parked_mark A ctx m Blocked)| |exact H]. by rewrite running_mark.
  - unfold exit_current in H. destruct (yield_now _) as [[[] m1]|] eqn:Ey; simplify_eq/=.
    eapply parked_yield; [by apply (parked_mark A ctx m Dead)| |exact Ey]. by rewrite running_mark.
  - destruct Hp as (Hwf & Hin & Hctx). pose proof Hwf as (Hs & Hids & Huse & Hl).
    pose proof (step_spawn _ _ _ t s' ctxs' ids' Hal Hst Hsp) as Hstep.
    pose proof (sys_step_wf _ _ Hwf Hstep) as Hwf'.
    destruct (ids_alloc_spec _ _ _ Hids Hal) as (_ & Hfresh & Hin').
    assert (t_id t ∉ all_ids (k_sched (m_k m))) as Hnew.
    { intros Hx. rewrite Forall_forall in Huse. by apply Hfresh, Huse. }
    assert (1 ≤ t_id t) as Hpos by (apply Hin'; by right).
    destruct (spawn_spec _ _ t s' ctxs' Hs Hsp Hst Hpos Hnew) as (_ & _ & Hp & ->).
    split; [done|]. simpl. rewrite Hp. split; [set_solver|]. rewrite list_lookup_insert_ne; [done|].
    pose proof (wf_ids _ Hs) as Hr. rewrite Forall_forall in Hr. specialize (Hr A Hin).
    intros Heq. apply Hnew. by replace (t_id t) with A by lia.
  - unfold try_unblock. destruct free; [|by eapply parked_sys]. destruct Hp as (Hwf & Hin & Hctx).
    pose proof (sys_step_wf _ _ Hwf (step_unblock _ _ _ id)) as Hwf'. split; [done|]. split; [|done].
    destruct Hwf as (Hs & _). simpl.
    destruct (unblock_spec (k_sched (m_k m)) id Hs) as [(t & bl1 & bl2 & s' & _ & _ & -> & _ & Hp & _)|[_ ->]];
      [by rewrite Hp|done].
  - by eapply parked_sys.
Qed.

(** One step taken while somebody else than [A] runs. *)
Definition away (A : Z) (m m' : Machine) : Prop := running m ≠ A ∧ m_step m m'.

Lemma parked_away A ctx m m' : parked A ctx m → rtc (away A) m m' → parked A ctx m'.
Proof. intros Hp H. induction H as [|m m1 m2 [Hne Hs] _ IH]; [done|]. apply IH. by eapply parked_step. Qed.

Lemma yield_parks m m1 c :
  sys_wf (k_sys (m_k m)) → current (k_sched (m_k m)) = Some c → t_state c ≠ Dead →
  yield_now m = Ret (true, m1) → parked (t_id c) (save_context (m_cpu m)) m1.
Proof.
  intros Hwf Hc Hst H. destruct (yield_now_spec m true m1 Hwf H) as (Hwf' & Habs & Hctx & _).
  pose proof Hwf as (Hs & _ & _ & Hl).
  assert (t_id c ∈ all_ids (k_sched (m_k m))) as Hin.
  { unfold all_ids, all_tasks. rewrite Hc, !fmap_app. set_solver. }
  split; [done|]. split.
  - eapply reschedule_keeps; [exact Hs|done|done|]. intros c' Hc' Hd. congruence.
  - assert (running m = t_id c) as Hrun by (unfold running, current_id; by rewrite Hc).
    pose proof (wf_ids _ Hs) as Hr. rewrite Forall_forall in Hr. specialize (Hr _ Hin).
    unfold MAX_TASKS in Hr. rewrite Hctx, Hrun. destruct (t_id c =? 0) eqn:E0; [lia|].
    apply list_lookup_insert_eq. simpl in Hl. lia.
Qed.

(** *** Properties *)

(** C19: a task that gives up the CPU finds its registers as it left them.  Let a live task yield
    and another one run; after any sequence of machine steps in which the task does not run
    (arbitrary register changes, yields, blocks, exits and spawns of other tasks, wakeups, ipc),
    the yield that picks it again loads exactly the callee-saved registers it had, resumes
    behind its own context_switch call, and ends with interrupts enabled. *)
Theorem context_restored (m m1 m2 m3 : Machine) (c : Task) :
  sys_wf (k_sys (m_k m)) → current (k_sched (m_k m)) = Some c → t_state c ≠ Dead →
  yield_now m = Ret (true, m1) → rtc (away (t_id c)) m1 m2 →
  yield_now m2 = Ret (true, m3) → running m3 = t_id c →
  m_cpu m3 = save_context (m_cpu m) ∧ rip (m_cpu m3) = RESUME ∧ m_if m3 = true.
Proof.
  intros Hwf Hc Hst Hy Hrun Hy2 Hback.
  pose proof (yield_parks m m1 c Hwf Hc Hst Hy) as Hp.
  pose proof (parked_away _ _ _ _ Hp Hrun) as Hp2.
  destruct (yield_now_spec m2 true m3 (proj1 Hp2) Hy2) as (_ & _ & _ & Hsw & _).
  destruct (Hsw eq_refl) as (Hne & _ & Hctx & Hif).
  assert (running m2 ≠ t_id c) as Hne2 by congruence.
  destruct (parked_yield _ _ _ _ _ Hp2 Hne2 Hy2) as (_ & _ & Hctx3).
  rewrite Hback, Hctx3 in Hctx. injection Hctx as Hcpu. rewrite Hif, <- Hcpu.
  split; [done|]. split; [done|]. unfold lands_enabled. simpl. rewrite decide_True; auto.
Qed.

(** The last runnable task cannot leave the CPU.  When no other task is ready, yield_now
    does not switch to the idle loop: exit_current always ends in a kernel panic, and
    block_and_yield comes straight back to the caller, which keeps running while the scheduler
    holds it in the blocked list and has no current task. *)
Theorem last_task_stays (m : Machine) (c : Task) :
  sys_wf (k_sys (m_k m)) → current (k_sched (m_k m)) = Some c → ready (k_sched (m_k m)) = [] →
  exit_current m = Panic ∧
  ∃ m', block_and_yield m = Ret (false, m') ∧ m_cpu m' = m_cpu m ∧
        current (k_sched (m_k m')) = None ∧
        blocked (k_sched (m_k m')) = blocked (k_sched (m_k m)) ++ [set_state c Blocked].
Proof.
  intros Hwf Hc Hr. split.
  - unfold exit_current. destruct (yield_now _) as [[b m1]|] eqn:Ey; [|done]. simpl.
    destruct Hwf as (Hs & Hids & Huse & Hl). destruct (mark_current_wf _ Dead Hs) as [Hwf' Eids]; [done|].
    apply yield_now_spec in Ey as (_ & Habs & _ & Hsw & _).
    2: { unfold k_sys, sys_wf, kill_current. simpl. by rewrite Eids. }
    unfold abstract, kill_current in Habs. simpl in Habs. rewrite Hc in Habs.
    unfold ready in Habs, Hr. simpl in Habs. rewrite Hr in Habs. injection Habs as _ Hcur _.
    destruct b; [|done]. destruct (Hsw eq_refl) as (_ & Hz & _). unfold running, current_id in Hz.
    rewrite Hcur in Hz. done.
  - unfold block_and_yield, yield_now, k_reschedule. cbn [m_k with_k k_sched set_sched].
    set (k1 := set_sched (m_k m) (block_current (k_sched (m_k m)))).
    destruct Hwf as (Hs & Hids & Huse & Hl). destruct (mark_current_wf _ Blocked Hs) as [Hwf' Eids]; [done|].
    destruct (reschedule_spec cleanup_dead_task (block_current (k_sched (m_k m))) k1 Hwf')
      as (s' & _ & Habs & _ & ->).
    unfold abstract, block_current in Habs. simpl in Habs. rewrite Hc in Habs.
    unfold ready in Habs, Hr. simpl in Habs. rewrite Hr in Habs. injection Habs as _ Hcur Hbl.
    unfold reap, block_current. simpl current. rewrite Hc. cbn [fmap option_fmap option_map t_state set_state].
    cbn [outcome_bind]. unfold current_id at 2 3. rewrite Hcur. rewrite andb_false_r.
    eexists. split; [reflexivity|]. done.
Qed.
End switch.

(** *** Witnesses *)
Definition ctx_a : CpuContext := mkCtx 0x1000 1 2 3 4 5 6 0x500.
Definition ctx_b : CpuContext := mkCtx 0x2000 0 0 7 0 0 0 0x20.

(** Task 1 runs, task 2 is ready and has not run yet. *)
Definition demo_kernel : Kernel :=
  set_contexts (set_ids (set_sched kernel_new
    {| queues := [[]; [boot_task 2 "b" Normal]; []];
       current := Some (set_state (boot_task 1 "a" Normal) Running); blocked := [] |})
    (mkIds 3 [])) (<[2%nat := ctx_b]> (replicate 256 empty_context)).

Definition demo_machine : Machine := mkMachine demo_kernel empty_context ctx_a true false.

Lemma demo_machine_wf : sys_wf (k_sys (m_k demo_machine)).
Proof.
  split; [|split; [split; simpl; [unfold U64_MAX; lia|constructor..]|split; [|done]]].
  - split; simpl; try done; try by constructor.
    + intros [|[|[|p]]] q; simpl; intros [= <-]; repeat constructor.
    + by intros t [= <-].
    + unfold all_ids. simpl. by apply (bool_decide_unpack _).
    + unfold all_ids. simpl. unfold MAX_TASKS. repeat constructor; lia.
  - unfold all_ids, in_use. simpl. repeat constructor; simpl; (lia || set_solver).
Qed.

Lemma context_restored_witness :
  match yield_now 0x10 0x20 demo_machine with
  | Ret (true, m1) =>
      match yield_now 0x10 0x20 m1 with
      | Ret (true, m3) => m_cpu m3 = save_context 0x10 ctx_a ∧ m_if m3 = true
      | _ => False
      end
  | _ => False
  end.
Proof.
  destruct (yield_now 0x10 0x20 demo_machine) as [[[|] m1]|] eqn:E1;
    [|vm_compute in E1; discriminate E1..].
  destruct (yield_now 0x10 0x20 m1) as [[[|] m3]|] eqn:E2;
    [|vm_compute in E1; injection E1 as <-; vm_compute in E2; discriminate E2..].
  destruct (context_restored 0x10 0x20 demo_machine m1 m1 m3 (set_state (boot_task 1 "a" Normal) Running)
              demo_machine_wf) as (H1 & _ & H2); try done.
  vm_compute in E1. injection E1 as <-. vm_compute in E2. injection E2 as <-. reflexivity.
Defined.

Definition demo_alone : Machine :=
  with_k demo_machine (set_sched demo_kernel
    {| queues := [[]; []; []]; current := Some (set_state (boot_task 1 "a" Normal) Running);
       blocked := [] |}).

Lemma demo_alone_wf : sys_wf (k_sys (m_k demo_alone)).
Proof.
  split; [|split; [split; simpl; [unfold U64_MAX; lia|constructor..]|split; [|done]]].
  - split; simpl; try done.
    + intros [|[|[|p]]] q; simpl; intros [= <-]; repeat constructor.
    + by intros t [= <-].
    + apply NoDup_singleton.
    + unfold all_ids. simpl. unfold MAX_TASKS. repeat constructor; lia.
  - unfold all_ids, in_use. simpl. repeat constructor; simpl; (lia || set_solver).
Qed.

Lemma last_task_stays_witness :
  exit_current 0x10 0x20 demo_alone = Panic ∧
  ∃ m', block_and_yield 0x10 0x20 demo_alone = Ret (false, m') ∧ current (k_sched (m_k m')) = None.
Proof.
  destruct (last_task_stays 0x10 0x20 demo_alone (set_state (boot_task 1 "a" Normal) Running)
              demo_alone_wf eq_refl eq_refl) as (H1 & m' & H2 & _ & H3 & _).
  split; [exact H1|]. exists m'. split; [exact H2|exact H3].
Defined.
End Switch.
