(* ===== verification/Ipc.v ===== *)
(** * Ipc: ipc/message.rs, ipc/channel.rs, ipc/request_reply.rs, ipc/shared_memory.rs

    Messages, channels, request/reply and shared memory over the kernel statics.  [free] arguments
    are the outcomes of [SCHEDULER.try_lock()]. *)

From S2P Require Import Prelude Capability FrameAlloc Task Scheduler Kernel.

Module Ipc.
Import Perm Res Frames CapTable Tasks Sched Kern.

Definition MAILBOX_CAPACITY : nat := 256.

(** A capability-table operation inside the kernel; its errors become [e]. *)
Definition on_caps {A} (f : cmd CapabilityTable CapError A) (e : IpcError) : cmd Kernel IpcError A :=
  λ k, match f (k_caps k) with
       | Ret (Ok a, t) => Ret (Ok a, set_caps k t)
       | Ret (Err _, t) => Ret (Err e, set_caps k t)
       | Panic => Panic
       end.

(** [CAP_TABLE.lock().validate(..).map_err(|_| e)?]. *)
Definition check_cap (cap_id task_id : Z) (required : PermissionBits) (e : IpcError)
    : cmd Kernel IpcError () :=
  λ k, match validate (k_caps k) cap_id task_id required with
       | Ok _ => Ret (Ok (), k)
       | Err _ => Ret (Err e, k)
       end.

(** ** Messages *)
Definition push (mb : list Message) (msg : Message) : result IpcError (list Message) :=
  if decide (MAILBOX_CAPACITY ≤ length mb)%nat then Err MailboxFull else Ok (mb ++ [msg]).

Definition pop (mb : list Message) : option Message * list Message :=
  match mb with [] => (None, []) | m :: mb' => (Some m, mb') end.

Definition next_message_id : cmd Kernel IpcError Z :=
  λ k, Ret (Ok (k_next_msg k), set_next_msg k (wrapping_add64 (k_next_msg k) 1)).

(** Delegate the attached capability, with its own permissions, to the recipient. *)
Definition transfer (sender recipient : Z) (cap_transfer : option Z) : cmd Kernel IpcError () :=
  match cap_transfer with
  | None => ret ()
  | Some c =>
      let! k := get_state in
      let! cap := lift_result (λ _, InvalidCapTransfer) (get (k_caps k) c) in
      let! _ := on_caps (delegate c sender recipient (c_permissions cap) None) InvalidCapTransfer in
      ret ()
  end.

Definition send (free : bool) (sender recipient : Z) (msg_type : MessageType) (payload : list Z)
    (cap_transfer reply_to : option Z) (sender_cap : Z) : cmd Kernel IpcError Z :=
  let! _ := check_cap sender_cap sender WRITE CapabilityDenied in
  let! _ := transfer sender recipient cap_transfer in
  let! msg_id := next_message_id in
  let msg := {| m_id := msg_id; m_sender := sender; m_recipient := recipient; m_type := msg_type;
                m_payload := payload; m_cap_transfer := cap_transfer; m_reply_to := reply_to |} in
  let! k := get_state in
  let! mailbox := ok_or (k_mailboxes k !! recipient) RecipientNotFound in
  let! mailbox' := lift_result (λ e, e) (push mailbox msg) in
  let! _ := put_state (try_unblock free recipient
                         (set_mailboxes k (<[recipient := mailbox']> (k_mailboxes k)))) in
  ret msg_id.

Definition receive (task_id : Z) (k : Kernel) : option Message * Kernel :=
  match k_mailboxes k !! task_id with
  | None => (None, k)
  | Some mb => let '(m, mb') := pop mb in (m, set_mailboxes k (<[task_id := mb']> (k_mailboxes k)))
  end.

Definition mailbox_len (task_id : Z) (k : Kernel) : nat :=
  match k_mailboxes k !! task_id with Some mb => length mb | None => O end.

(** ** Channels *)
Definition create (name : string) (k : Kernel) : Z * Kernel :=
  let id := k_next_channel k in
  let k1 := set_next_channel k (wrapping_add64 id 1) in
  (id, set_channels k1 (<[name := {| ch_id := id; ch_name := name; ch_subscribers := [] |}]>
                          (k_channels k1))).

Definition subscribe (channel_name : string) (task_id cap_id : Z) : cmd Kernel IpcError () :=
  let! _ := check_cap cap_id task_id SUBSCRIBE CapabilityDenied in
  let! k := get_state in
  let! ch := ok_or (k_channels k !! channel_name) RecipientNotFound in
  if bool_decide (task_id ∈ (ch_subscribers ch).*1) then ret ()
  else put_state (set_channels k (<[channel_name :=
         {| ch_id := ch_id ch; ch_name := ch_name ch;
            ch_subscribers := ch_subscribers ch ++ [(task_id, cap_id)] |}]> (k_channels k))).

Definition unsubscribe (channel_name : string) (task_id : Z) : cmd Kernel IpcError () :=
  let! k := get_state in
  let! ch := ok_or (k_channels k !! channel_name) RecipientNotFound in
  put_state (set_channels k (<[channel_name :=
    {| ch_id := ch_id ch; ch_name := ch_name ch;
       ch_subscribers := filter (λ s, s.1 ≠ task_id) (ch_subscribers ch) |}]> (k_channels k))).

(** The message a publish puts into one mailbox. *)
Definition pub_msg (sender : Z) (payload : list Z) (sub_task : Z) : Message :=
  {| m_id := 0; m_sender := sender; m_recipient := sub_task; m_type := Data; m_payload := payload;
     m_cap_transfer := None; m_reply_to := None |}.

(** One round of the delivery loop: a full mailbox or a missing one is skipped. *)
Definition deliver (sender : Z) (payload : list Z) (mail : gmap Z (list Message)) (sub_task : Z)
    : gmap Z (list Message) :=
  match mail !! sub_task with
  | Some mb => match push mb (pub_msg sender payload sub_task) with
               | Ok mb' => <[sub_task := mb']> mail
               | Err _ => mail
               end
  | None => mail
  end.

Definition publish (channel_name : string) (sender : Z) (payload : list Z) (publish_cap : Z)
    : cmd Kernel IpcError nat :=
  let! _ := check_cap publish_cap sender PUBLISH CapabilityDenied in
  let! k := get_state in
  let! ch := ok_or (k_channels k !! channel_name) RecipientNotFound in
  let subscribers := filter (λ t, t ≠ sender) ((ch_subscribers ch).*1) in
  let! _ := put_state (set_mailboxes k (foldl (deliver sender payload) (k_mailboxes k) subscribers)) in
  ret (length subscribers).

(** ** Request and reply *)
Definition request (free : bool) (sender recipient : Z) (payload : list Z) (sender_cap timeout_ticks : Z)
    : cmd Kernel IpcError Z :=
  let! _ := check_cap sender_cap sender WRITE CapabilityDenied in
  let! msg_id := send free sender recipient Request payload None None sender_cap in
  let! k := get_state in
  let! deadline := lift_outcome (checked_add64 (k_ticks k) timeout_ticks) in
  let! _ := put_state (set_pending k (<[msg_id := {| requester := sender; deadline_tick := deadline |}]>
                                        (k_pending k))) in
  ret msg_id.

Definition reply (free : bool) (sender original_msg_id : Z) (payload : list Z) (sender_cap : Z)
    : cmd Kernel IpcError () :=
  let! k := get_state in
  let! pending := ok_or (k_pending k !! original_msg_id) RecipientNotFound in
  let reply_msg := {| m_id := 0; m_sender := sender; m_recipient := requester pending;
                      m_type := Reply; m_payload := payload; m_cap_transfer := None;
                      m_reply_to := Some original_msg_id |} in
  let k1 := set_pending k (delete original_msg_id (k_pending k)) in
  let k2 := set_replies k1 (<[original_msg_id := reply_msg]> (k_replies k1)) in
  put_state (try_unblock free (requester pending) k2).

Definition collect_reply (msg_id : Z) (k : Kernel) : option Message * Kernel :=
  (k_replies k !! msg_id, set_replies k (delete msg_id (k_replies k))).

(** [pending_free] and [free]: the two try_locks.  Called from the timer interrupt, so the
    scheduler lock is free in every round of the loop or in none. *)
Definition check_timeouts (pending_free free : bool) (k : Kernel) : Kernel :=
  if pending_free then
    let expired := (filter (λ e, deadline_tick (snd e) ≤ k_ticks k) (btree_iter_Z (k_pending k))).*1 in
    foldl (λ k id, match k_pending k !! id with
                   | Some req => try_unblock free (requester req) (set_pending k (delete id (k_pending k)))
                   | None => k
                   end) k expired
  else k.

(** ** Shared memory *)

(** [n] further frames; the base of the region is the first one. *)
Fixpoint alloc_more (n : nat) : cmd Kernel IpcError () :=
  match n with
  | O => ret ()
  | S n' =>
      let! k := get_state in
      match k_frames k with
      | None => throw RecipientNotFound
      | Some a =>
          let! '(f, a') := lift_outcome (allocate_frame a) in
          let! _ := put_state (set_frames k (Some a')) in
          let! _ := ok_or f RecipientNotFound in
          alloc_more n'
      end
  end.

Definition create_region (owner size : Z) : cmd Kernel IpcError Z :=
  let! up := lift_outcome (checked_add64 size PAGE_SIZE) in
  let page_count := (up - 1) / PAGE_SIZE in
  let! k := get_state in
  let! a := ok_or (k_frames k) RecipientNotFound in
  let! '(first, a') := lift_outcome (allocate_frame a) in
  let! _ := put_state (set_frames k (Some a')) in
  let! phys_base := ok_or first RecipientNotFound in
  let! _ := alloc_more (Z.to_nat (page_count - 1)) in
  let! k := get_state in
  let id := k_next_region k in
  let! region_size := lift_outcome (checked_mul64 page_count PAGE_SIZE) in
  let region := {| r_id := id; r_phys_base := phys_base; r_size := region_size; r_owner := owner;
                   r_grants := [] |} in
  let! '(_, t) := lift_outcome (create_root (k_caps k) owner (Memory phys_base region_size)
                                  (Perm.union (Perm.union READ WRITE) DELEGATE)) in
  let k' := set_caps (set_next_region k (wrapping_add64 id 1)) t in
  let! _ := put_state (set_regions k' (<[id := region]> (k_regions k'))) in
  ret id.

Definition grant_access (region_id granter grantee granter_cap : Z) : cmd Kernel IpcError Z :=
  let! _ := check_cap granter_cap granter DELEGATE CapabilityDenied in
  let! k := get_state in
  let! region := ok_or (k_regions k !! region_id) RecipientNotFound in
  let region' := {| r_id := r_id region; r_phys_base := r_phys_base region; r_size := r_size region;
                    r_owner := r_owner region; r_grants := r_grants region ++ [grantee] |} in
  let! '(cap_id, t) := lift_outcome (create_root (k_caps k) grantee
                         (Memory (r_phys_base region) (r_size region)) READ) in
  let! _ := put_state (set_caps (set_regions k (<[region_id := region']> (k_regions k))) t) in
  ret cap_id.

(** ** Sending *)
Lemma set_caps_same k : set_caps k (k_caps k) = k.
Proof. by destruct k. Qed.

(** The capability table after the transfer of a send. *)
Definition transferred (sender recipient : Z) (cap_transfer : option Z) (t t' : CapabilityTable) : Prop :=
  match cap_transfer with
  | None => t' = t
  | Some c => ∃ cap, get t c = Ok cap ∧
      delegate c sender recipient (c_permissions cap) None t = Ret (Ok (next_id t), t')
  end.

Lemma transfer_spec sender recipient ct k :
  match transfer sender recipient ct k with
  | Ret (Ok _, k') => ∃ t, transferred sender recipient ct (k_caps k) t ∧ k' = set_caps k t
  | Ret (Err e, k') => k' = k ∧ e = InvalidCapTransfer ∧ is_Some ct
  | Panic => is_Some ct ∧ U64_MAX ≤ next_id (k_caps k)
  end.
Proof.
  destruct ct as [c|]; simpl; [|exists (k_caps k); by rewrite set_caps_same].
  unfold cmd_bind, get_state, lift_result, on_caps.
  destruct (get (k_caps k) c) as [cap|e] eqn:Eg; [|by eauto].
  destruct (delegate c sender recipient (c_permissions cap) None (k_caps k)) as [[[id|e] t]|] eqn:Ed.
  - pose proof (delegate_cases _ _ _ _ _ _ _ _ Ed) as [(e & ? & _)|(? & ? & _ & _ & _ & _ & _ & _ & Hid & _)];
      simplify_eq. exists t. split; [by exists cap|done].
  - pose proof (delegate_cases _ _ _ _ _ _ _ _ Ed) as [(e' & _ & ->)|(? & ? & _ & _ & _ & _ & _ & _ & Hid & _)];
      simplify_eq. rewrite set_caps_same. eauto.
  - unfold delegate, cmd_bind, get_state, lift_result in Ed. rewrite Eg in Ed.
    case_decide; [done|]. destruct (negb _); [done|]. unfold ret, lift_outcome, checked_add64 in Ed.
    case_decide; [done|]. split; [by eexists|lia].
Qed.

Lemma check_cap_spec cap_id task_id required e k :
  (∃ c, validate (k_caps k) cap_id task_id required = Ok c ∧
        check_cap cap_id task_id required e k = Ret (Ok (), k)) ∨
  (∃ err, validate (k_caps k) cap_id task_id required = Err err ∧
        check_cap cap_id task_id required e k = Ret (Err e, k)).
Proof. unfold check_cap. destruct (validate _ _ _ _); eauto. Qed.

(** What [send] does once the capability checks are behind it. *)
Lemma send_eq free sender recipient ty payload ct rt cap k :
  send free sender recipient ty payload ct rt cap k =
  match validate (k_caps k) cap sender WRITE with
  | Err _ => Ret (Err CapabilityDenied, k)
  | Ok _ =>
      match transfer sender recipient ct k with
      | Panic => Panic
      | Ret (Err e, k1) => Ret (Err e, k1)
      | Ret (Ok _, k1) =>
          let k2 := set_next_msg k1 (wrapping_add64 (k_next_msg k1) 1) in
          match k_mailboxes k1 !! recipient with
          | None => Ret (Err RecipientNotFound, k2)
          | Some mb =>
              if decide (MAILBOX_CAPACITY ≤ length mb)%nat then Ret (Err MailboxFull, k2)
              else Ret (Ok (k_next_msg k1), try_unblock free recipient (set_mailboxes k2
                     (<[recipient := mb ++ [mkMsg (k_next_msg k1) sender recipient ty payload ct rt]]>
                        (k_mailboxes k1))))
          end
      end
  end.
Proof.
  unfold send, cmd_bind at 1, check_cap. destruct (validate _ _ _ _); [|done].
  unfold cmd_bind at 1. destruct (transfer sender recipient ct k) as [[[?|?] k1]|]; [|done..].
  unfold cmd_bind, next_message_id, get_state, ok_or, lift_result, put_state, ret, push. simpl.
  destruct (k_mailboxes k1 !! recipient) as [mb|]; [|done]. by case_decide.
Qed.

Lemma try_unblock_fields free id k :
  k_mailboxes (try_unblock free id k) = k_mailboxes k ∧ k_caps (try_unblock free id k) = k_caps k ∧
  k_pending (try_unblock free id k) = k_pending k ∧ k_replies (try_unblock free id k) = k_replies k ∧
  k_channels (try_unblock free id k) = k_channels k ∧ k_ticks (try_unblock free id k) = k_ticks k ∧
  k_next_msg (try_unblock free id k) = k_next_msg k.
Proof. by destruct free. Qed.

Lemma delegate_wf_kernel sender recipient ct t t' :
  table_wf t → transferred sender recipient ct t t' → table_wf t'.
Proof.
  intros Hwf H. destruct ct as [c|]; simpl in H; [|by subst].
  destruct H as (cap & _ & H). by eapply delegate_wf.
Qed.

(** ** Channels and delivery *)

(** Nobody is subscribed twice to one channel. *)
Definition channels_wf (k : Kernel) : Prop :=
  ∀ name ch, k_channels k !! name = Some ch → NoDup ((ch_subscribers ch).*1).

(** Does a mailbox take another message? *)
Definition has_room (mail : gmap Z (list Message)) (t : Z) : Prop :=
  ∃ mb, mail !! t = Some mb ∧ (length mb < MAILBOX_CAPACITY)%nat.

#[export] Instance has_room_dec mail t : Decision (has_room mail t).
Proof.
  destruct (mail !! t) as [mb|] eqn:E.
  - destruct (decide (length mb < MAILBOX_CAPACITY)%nat).
    + left. by exists mb.
    + right. intros (mb' & ? & ?). simplify_eq. done.
  - right. intros (mb' & ? & _). congruence.
Defined.

Lemma deliver_lookup sender payload mail sub t :
  deliver sender payload mail sub !! t =
  if decide (t = sub ∧ has_room mail t)
  then (λ mb, mb ++ [pub_msg sender payload t]) <$> mail !! t else mail !! t.
Proof.
  unfold deliver, push. destruct (mail !! sub) as [mb|] eqn:E.
  - destruct (decide (MAILBOX_CAPACITY ≤ length mb)%nat) as [Hfull|Hfull].
    + rewrite decide_False; [done|]. intros [-> (mb' & ? & ?)]. simplify_eq. lia.
    + destruct (decide (t = sub)) as [->|Hne].
      * rewrite lookup_insert_eq, E, decide_True; [done|]. split; [done|]. exists mb. split; [done|lia].
      * rewrite lookup_insert_ne, decide_False by naive_solver. done.
  - rewrite decide_False; [done|]. intros [-> (mb' & ? & ?)]. congruence.
Qed.

Lemma deliver_room_other sender payload mail sub t :
  t ≠ sub → has_room (deliver sender payload mail sub) t ↔ has_room mail t.
Proof. intros Hne. unfold has_room. rewrite deliver_lookup, decide_False by naive_solver. done. Qed.

(** The delivery loop over distinct subscribers. *)
Lemma deliver_all sender payload subs mail t :
  NoDup subs →
  foldl (deliver sender payload) mail subs !! t =
  if decide (t ∈ subs ∧ has_room mail t)
  then (λ mb, mb ++ [pub_msg sender payload t]) <$> mail !! t else mail !! t.
Proof.
  intros Hnd. revert mail. induction Hnd as [|sub subs Hnot Hnd IH]; intros mail; simpl.
  - done.
  - rewrite IH, deliver_lookup. destruct (decide (t = sub)) as [->|Hne].
    + rewrite (decide_False (P := sub ∈ subs ∧ _)) by tauto.
      destruct (decide (has_room mail sub)); repeat case_decide; set_solver.
    + assert (has_room (deliver sender payload mail sub) t ↔ has_room mail t) as Hr
        by by apply deliver_room_other.
      rewrite (decide_False (P := t = sub ∧ _)) by tauto.
      repeat case_decide; set_solver.
Qed.

Lemma publish_eq name sender payload cap k :
  publish name sender payload cap k =
  match validate (k_caps k) cap sender PUBLISH with
  | Err _ => Ret (Err CapabilityDenied, k)
  | Ok _ =>
      match k_channels k !! name with
      | None => Ret (Err RecipientNotFound, k)
      | Some ch =>
          let subs := filter (λ t, t ≠ sender) ((ch_subscribers ch).*1) in
          Ret (Ok (length subs), set_mailboxes k (foldl (deliver sender payload) (k_mailboxes k) subs))
      end
  end.
Proof.
  unfold publish, cmd_bind, check_cap. destruct (validate _ _ _ _); [|done].
  unfold get_state, ok_or, put_state, ret. by destruct (k_channels k !! name).
Qed.

(** ** Observing one mailbox: what [t] is sent and what it takes

    Every operation of the ipc modules by any task; the mailbox of [t] itself stays registered. *)
Inductive ipc_step (t : Z) (k : Kernel) : list Message → list Message → Kernel → Prop :=
| is_send free sender recipient ty payload ct rt cap id k' :
    send free sender recipient ty payload ct rt cap k = Ret (Ok id, k') →
    ipc_step t k (if decide (recipient = t) then [mkMsg id sender recipient ty payload ct rt] else [])
      [] k'
| is_send_err free sender recipient ty payload ct rt cap e k' :
    send free sender recipient ty payload ct rt cap k = Ret (Err e, k') → ipc_step t k [] [] k'
| is_receive t' m k' :
    receive t' k = (m, k') → ipc_step t k [] (if decide (t' = t) then option_list m else []) k'
| is_publish name sender payload cap n k' ch :
    publish name sender payload cap k = Ret (Ok n, k') → k_channels k !! name = Some ch →
    ipc_step t k (if decide (t ∈ filter (λ u, u ≠ sender) ((ch_subscribers ch).*1) ∧
                             has_room (k_mailboxes k) t)
                  then [pub_msg sender payload t] else []) [] k'
| is_publish_err name sender payload cap e k' :
    publish name sender payload cap k = Ret (Err e, k') → ipc_step t k [] [] k'
| is_create name id k' : create name k = (id, k') → ipc_step t k [] [] k'
| is_subscribe name task cap r k' :
    subscribe name task cap k = Ret (r, k') → ipc_step t k [] [] k'
| is_unsubscribe name task r k' : unsubscribe name task k = Ret (r, k') → ipc_step t k [] [] k'
| is_reply free sender id payload cap r k' :
    reply free sender id payload cap k = Ret (r, k') → ipc_step t k [] [] k'
| is_request free sender recipient payload cap timeout id k' :
    request free sender recipient payload cap timeout k = Ret (Ok id, k') →
    ipc_step t k (if decide (recipient = t) then [mkMsg id sender recipient Request payload None None] else []) [] k'
| is_request_err free sender recipient payload cap timeout e k' :
    request free sender recipient payload cap timeout k = Ret (Err e, k') → ipc_step t k [] [] k'
| is_collect id m k' : collect_reply id k = (m, k') → ipc_step t k [] [] k'
| is_timeouts pf free : ipc_step t k [] [] (check_timeouts pf free k)
| is_region owner size r k' : create_region owner size k = Ret (r, k') → ipc_step t k [] [] k'
| is_grant region granter grantee cap r k' : grant_access region granter grantee cap k = Ret (r, k') → ipc_step t k [] [] k'
| is_register t' : t' ≠ t → ipc_step t k [] [] (register_mailbox t' k)
| is_unregister t' : t' ≠ t → ipc_step t k [] [] (unregister_mailbox t' k).

Inductive ipc_run (t : Z) : Kernel → list Message → list Message → Kernel → Prop :=
| run_nil k : ipc_run t k [] [] k
| run_cons k ins outs k1 ins' outs' k2 :
    ipc_step t k ins outs k1 → ipc_run t k1 ins' outs' k2 →
    ipc_run t k (ins ++ ins') (outs ++ outs') k2.

Lemma check_timeouts_mail pf free k :
  k_mailboxes (check_timeouts pf free k) = k_mailboxes k ∧
  k_channels (check_timeouts pf free k) = k_channels k.
Proof.
  unfold check_timeouts. destruct pf; [|done].
  generalize ((filter (λ e, deadline_tick (snd e) ≤ k_ticks k) (btree_iter_Z (k_pending k))).*1).
  intros ids. revert k. induction ids as [|id ids IH]; intros k; simpl; [done|].
  destruct (IH (match k_pending k !! id with
                | Some req => try_unblock free (requester req) (set_pending k (delete id (k_pending k)))
                | None => k
                end)) as [-> ->].
  destruct (k_pending k !! id); [|done]. by destruct free.
Qed.

(** The mailbox [t] went from [q] by appending [ins] and removing [outs] at the front. *)
Definition fifo_move (t : Z) (q ins outs : list Message) (k' : Kernel) : Prop :=
  ∃ q', k_mailboxes k' !! t = Some q' ∧ q ++ ins = outs ++ q' ∧
        ((length q ≤ MAILBOX_CAPACITY)%nat → (length q' ≤ MAILBOX_CAPACITY)%nat).

Lemma fifo_same t q k k' :
  k_mailboxes k !! t = Some q → k_mailboxes k' !! t = k_mailboxes k !! t → fifo_move t q [] [] k'.
Proof. intros Hq E. exists q. rewrite E. split; [done|]. by rewrite app_nil_r. Qed.

Lemma transfer_fields sender recipient ct k r k' :
  transfer sender recipient ct k = Ret (r, k') →
  k_mailboxes k' = k_mailboxes k ∧ k_channels k' = k_channels k ∧ k_next_msg k' = k_next_msg k ∧
  k_sched k' = k_sched k ∧ k_pending k' = k_pending k ∧ k_replies k' = k_replies k ∧ k_ticks k' = k_ticks k.
Proof.
  intros H. pose proof (transfer_spec sender recipient ct k) as Hs. rewrite H in Hs.
  destruct r; [|by destruct Hs as (-> & _)]. by destruct Hs as (t & _ & ->).
Qed.

Lemma send_fifo t free sender recipient ty payload ct rt cap k r k' q :
  send free sender recipient ty payload ct rt cap k = Ret (r, k') → k_mailboxes k !! t = Some q →
  k_channels k' = k_channels k ∧
  fifo_move t q (match r with
                 | Ok id => if decide (recipient = t) then [mkMsg id sender recipient ty payload ct rt] else []
                 | Err _ => []
                 end) [] k'.
Proof.
  rewrite send_eq. intros H Hq.
  destruct (validate _ _ _ _); [|simplify_eq; split; [done|by apply (fifo_same t q k')]].
  destruct (transfer sender recipient ct k) as [[r1 k1]|] eqn:Et; [|done].
  apply transfer_fields in Et as (Em & Ec & _).
  destruct r1; [|simplify_eq; split; [done|by apply (fifo_same t q k); rewrite ?Em]].
  destruct (k_mailboxes k1 !! recipient) as [mb|] eqn:El; simplify_eq/=.
  2: { split; [done|]. apply (fifo_same t q k); simpl; by rewrite ?Em. }
  case_decide as Hfull; simplify_eq/=; [split; [done|]; apply (fifo_same t q k); simpl; by rewrite ?Em|].
  split; [by destruct free|]. unfold fifo_move.
  destruct (try_unblock_fields free recipient (set_mailboxes
    (set_next_msg k1 (wrapping_add64 (k_next_msg k1) 1))
    (<[recipient := mb ++ [mkMsg (k_next_msg k1) sender recipient ty payload ct rt]]> (k_mailboxes k1)))) as [-> _].
  simpl. rewrite Em in *. case_decide as Hr; subst.
  - rewrite lookup_insert_eq. eexists. split; [done|]. simplify_eq. split; [done|].
    intros _. rewrite length_app. simpl. lia.
  - rewrite lookup_insert_ne by done. exists q. split; [done|]. by rewrite app_nil_r.
Qed.

Lemma insert_channel_wf k name ch :
  channels_wf k → NoDup ((ch_subscribers ch).*1) →
  channels_wf (set_channels k (<[name := ch]> (k_channels k))).
Proof.
  intros Hch Hnd nm ch'. simpl. rewrite lookup_insert. case_decide; [by intros [= <-]|apply Hch].
Qed.

Lemma subscribe_wf name task cap k r k' :
  channels_wf k → subscribe name task cap k = Ret (r, k') →
  channels_wf k' ∧ k_mailboxes k' = k_mailboxes k.
Proof.
  intros Hch H. unfold subscribe, cmd_bind, check_cap in H. destruct (validate _ _ _ _); [|by simplify_eq].
  unfold get_state, ok_or in H. destruct (k_channels k !! name) as [ch|] eqn:E; [|by simplify_eq].
  case_bool_decide as Hsub; unfold ret, put_state in H; simplify_eq; [done|]. split; [|done].
  apply insert_channel_wf; [done|]. simpl. rewrite fmap_app. apply NoDup_app.
  split; [by apply (Hch name)|]. simpl. split; [set_solver|apply NoDup_singleton].
Qed.

Lemma unsubscribe_wf name task k r k' :
  channels_wf k → unsubscribe name task k = Ret (r, k') →
  channels_wf k' ∧ k_mailboxes k' = k_mailboxes k.
Proof.
  intros Hch H. unfold unsubscribe, cmd_bind, get_state, ok_or in H.
  destruct (k_channels k !! name) as [ch|] eqn:E; [|by simplify_eq].
  unfold put_state in H. simplify_eq. split; [|done]. apply insert_channel_wf; [done|]. simpl.
  eapply sub_NoDup; [|by apply (Hch name)]. apply fmap_submseteq, sublist_submseteq, sublist_filter.
Qed.

Lemma receive_fifo t t' k m k' q :
  receive t' k = (m, k') → k_mailboxes k !! t = Some q →
  k_channels k' = k_channels k ∧ fifo_move t q [] (if decide (t' = t) then option_list m else []) k'.
Proof.
  intros H Hq. unfold receive in H. destruct (k_mailboxes k !! t') as [mb|] eqn:E.
  2: { simplify_eq. split; [done|]. destruct (decide _); simplify_eq. by apply (fifo_same t q k'). }
  split; [by destruct mb; simplify_eq/=|]. unfold fifo_move. destruct (decide (t' = t)) as [->|Hne].
  - destruct mb as [|m0 mb]; simplify_eq/=; rewrite lookup_insert_eq; eexists; split; [done|done|done|].
    rewrite app_nil_r. split; [done|lia].
  - destruct mb as [|m0 mb]; simplify_eq/=; rewrite lookup_insert_ne by done; exists q;
      rewrite app_nil_r; done.
Qed.

Lemma publish_fifo t name sender payload cap k n k' ch q :
  channels_wf k → publish name sender payload cap k = Ret (Ok n, k') → k_channels k !! name = Some ch →
  k_mailboxes k !! t = Some q →
  k_channels k' = k_channels k ∧
  fifo_move t q (if decide (t ∈ filter (λ u, u ≠ sender) ((ch_subscribers ch).*1) ∧
                            has_room (k_mailboxes k) t)
                 then [pub_msg sender payload t] else []) [] k'.
Proof.
  intros Hch H Hname Hq. rewrite publish_eq in H. destruct (validate _ _ _ _); [|done].
  rewrite Hname in H. simplify_eq/=. split; [done|]. unfold fifo_move. simpl.
  rewrite deliver_all by (by apply NoDup_filter, (Hch name)). rewrite Hq. case_decide as Hin; simpl.
  - eexists. split; [done|]. split; [done|]. destruct Hin as [_ (mb & ? & ?)]. simplify_eq.
    rewrite length_app. simpl. lia.
  - exists q. by rewrite app_nil_r.
Qed.

Lemma request_fifo t free sender recipient payload cap timeout k r k' q :
  request free sender recipient payload cap timeout k = Ret (r, k') → k_mailboxes k !! t = Some q →
  k_channels k' = k_channels k ∧
  fifo_move t q (match r with
                 | Ok id => if decide (recipient = t) then [mkMsg id sender recipient Request payload None None] else []
                 | Err _ => []
                 end) [] k'.
Proof.
  intros H Hq. unfold request, cmd_bind at 1, check_cap in H. destruct (validate _ _ _ _);
    [|simplify_eq; split; [done|by apply (fifo_same t q k')]].
  unfold cmd_bind at 1 in H. destruct (send _ _ _ _ _ _ _ _ k) as [[r1 k1]|] eqn:Es; [|done].
  destruct (send_fifo t _ _ _ _ _ _ _ _ _ _ _ q Es Hq) as [Ec Hf]. destruct r1 as [id|e]; [|simplify_eq; done].
  unfold cmd_bind, get_state, lift_outcome, put_state, ret in H. destruct (checked_add64 _ _); [|done]. by simplify_eq.
Qed.

(** Commands that touch neither mailboxes nor channels. *)
Definition keeps_mail {A} (m : cmd Kernel IpcError A) : Prop :=
  ∀ k r k', m k = Ret (r, k') → k_mailboxes k' = k_mailboxes k ∧ k_channels k' = k_channels k.

Lemma keeps_mail_bind {A B} (m : cmd Kernel IpcError A) (f : A → cmd Kernel IpcError B) :
  keeps_mail m → (∀ x, keeps_mail (f x)) → keeps_mail (cmd_bind m f).
Proof.
  intros Hm Hf k r k' E. unfold cmd_bind in E. destruct (m k) as [[[x|e] k1]|] eqn:Em; [|simplify_eq; by eapply Hm|done].
  destruct (Hm _ _ _ Em) as [<- <-]. by eapply Hf.
Qed.

Lemma keeps_mail_pure {A} (m : cmd Kernel IpcError A) : (∀ k r k', m k = Ret (r, k') → k' = k) → keeps_mail m.
Proof. intros H k r k' ->%H. done. Qed.

(** [let! k := get_state in f k] where [f k] starts from [k]. *)
Lemma keeps_mail_get {A} (f : Kernel → cmd Kernel IpcError A) :
  (∀ k r k', f k k = Ret (r, k') → k_mailboxes k' = k_mailboxes k ∧ k_channels k' = k_channels k) →
  keeps_mail (cmd_bind get_state f).
Proof. intros H k r k' E. by eapply H. Qed.

Lemma alloc_more_mail n : keeps_mail (alloc_more n).
Proof.
  induction n as [|n IH]; [by apply keeps_mail_pure; intros k r k' [= _ <-]|]. apply keeps_mail_get. intros k r k' E.
  destruct (k_frames k) as [a|]; [|by injection E as _ <-]. unfold cmd_bind, lift_outcome, put_state, ok_or in E.
  destruct (allocate_frame a) as [[[f|] a']|]; [|by simplify_eq|done]. by apply IH in E.
Qed.

Lemma create_region_mail owner size : keeps_mail (create_region owner size).
Proof.
  apply keeps_mail_bind. { apply keeps_mail_pure. intros k r k'. unfold lift_outcome. by destruct (checked_add64 _ _); intros; simplify_eq. }
  intros up. apply keeps_mail_get. intros k r k' E. unfold cmd_bind, ok_or, lift_outcome, put_state in E.
  destruct (k_frames k) as [a|]; [|by simplify_eq]. destruct (allocate_frame a) as [[[f|] a']|]; [|by simplify_eq|done].
  destruct (alloc_more _ _) as [[[u|e] k1]|] eqn:Em; [|apply alloc_more_mail in Em; by simplify_eq|done].
  apply alloc_more_mail in Em as [Hm Hc]. unfold get_state, ret in E. destruct (checked_mul64 _ _); [|done].
  destruct (create_root _ _ _ _) as [[c t]|]; [|done]. by simplify_eq.
Qed.

Lemma grant_access_mail region granter grantee cap : keeps_mail (grant_access region granter grantee cap).
Proof.
  intros k r k' E. unfold grant_access, cmd_bind, check_cap, get_state, ok_or, lift_outcome, put_state, ret in E.
  destruct (validate _ _ _ _); [|by simplify_eq]. destruct (k_regions k !! region); [|by simplify_eq].
  destruct (create_root _ _ _ _) as [[c t]|]; by simplify_eq.
Qed.

Lemma ipc_step_fifo t k ins outs k' q :
  channels_wf k → k_mailboxes k !! t = Some q → ipc_step t k ins outs k' →
  channels_wf k' ∧ fifo_move t q ins outs k'.
Proof.
  intros Hch Hq Hstep.
  assert (Hkeep : ∀ k1, k_channels k1 = k_channels k → channels_wf k1)
    by (intros k1 E; unfold channels_wf; by rewrite E).
  destruct Hstep as
    [free sender recipient ty payload ct rt cap id k' H|free sender recipient ty payload ct rt cap e k' H
    |t' m k' H|name sender payload cap n k' ch H Hname|name sender payload cap e k' H|name id k' H
    |name task cap r k' H|name task r k' H|free sender id payload cap r k' H
    |free sender recipient payload cap timeout id k' H|free sender recipient payload cap timeout e k' H
    |id m k' H|pf free|owner size r k' H|region granter grantee cap r k' H|t' Hne|t' Hne].
  - destruct (send_fifo t _ _ _ _ _ _ _ _ _ _ _ q H Hq). auto.
  - destruct (send_fifo t _ _ _ _ _ _ _ _ _ _ _ q H Hq). auto.
  - destruct (receive_fifo t _ _ _ _ q H Hq). auto.
  - destruct (publish_fifo t _ _ _ _ _ _ _ _ q Hch H Hname Hq). auto.
  - rewrite publish_eq in H. destruct (validate _ _ _ _); [destruct (k_channels k !! name)|]; simplify_eq;
      (split; [done|by apply (fifo_same t q k')]).
  - unfold create in H. simplify_eq. split; [|by apply (fifo_same t q k)].
    by apply (insert_channel_wf (set_next_channel k _)); [|constructor].
  - destruct (subscribe_wf _ _ _ _ _ _ Hch H) as [? E]. split; [done|].
    apply (fifo_same t q k); [done|by rewrite E].
  - destruct (unsubscribe_wf _ _ _ _ _ Hch H) as [? E]. split; [done|].
    apply (fifo_same t q k); [done|by rewrite E].
  - unfold reply, cmd_bind, get_state, ok_or, put_state in H. destruct (k_pending k !! id);
      simplify_eq; [|split; [done|by apply (fifo_same t q k')]].
    split; [|apply (fifo_same t q k); by destruct free]. by destruct free.
  - destruct (request_fifo t _ _ _ _ _ _ _ _ _ q H Hq). auto.
  - destruct (request_fifo t _ _ _ _ _ _ _ _ _ q H Hq). auto.
  - unfold collect_reply in H. simplify_eq. split; [done|by apply (fifo_same t q k)].
  - destruct (check_timeouts_mail pf free k) as [Em Ec]. split; [by apply Hkeep|].
    apply (fifo_same t q k); [done|by rewrite Em].
  - destruct (create_region_mail _ _ _ _ _ H) as [Em Ec]. split; [by apply Hkeep|]. apply (fifo_same t q k); [done|by rewrite Em].
  - destruct (grant_access_mail _ _ _ _ _ _ _ H) as [Em Ec]. split; [by apply Hkeep|]. apply (fifo_same t q k); [done|by rewrite Em].
  - split; [done|]. apply (fifo_same t q k); [done|]. simpl. by rewrite lookup_insert_ne.
  - split; [done|]. apply (fifo_same t q k); [done|]. simpl. by rewrite lookup_delete_ne.
Qed.

(** ** Timeouts *)
Definition drop_request (free : bool) (k : Kernel) (id : Z) : Kernel :=
  match k_pending k !! id with
  | Some req => try_unblock free (requester req) (set_pending k (delete id (k_pending k)))
  | None => k
  end.

Lemma drop_requests_pending free ids k :
  k_pending (foldl (drop_request free) k ids) = filter (λ e, e.1 ∉ ids) (k_pending k).
Proof.
  revert k. induction ids as [|id ids IH]; intros k; simpl.
  - symmetry. apply map_filter_id. set_solver.
  - rewrite IH. unfold drop_request. apply map_eq. intros i. apply option_eq. intros r.
    rewrite !map_lookup_filter_Some. destruct (k_pending k !! id) as [req|] eqn:E.
    + destruct (try_unblock_fields free (requester req) (set_pending k (delete id (k_pending k))))
        as (_ & _ & -> & _). simpl. rewrite lookup_delete_Some. set_solver.
    + set_solver.
Qed.

Lemma check_timeouts_pending free k :
  k_pending (check_timeouts true free k) = filter (λ e, k_ticks k < deadline_tick e.2) (k_pending k).
Proof.
  unfold check_timeouts. fold (drop_request free).
  change (foldl _ k ?ids) with (foldl (drop_request free) k ids). rewrite drop_requests_pending.
  apply map_filter_ext. intros i r Hr. simpl. rewrite list_elem_of_fmap. split.
  - intros Hn. destruct (decide (deadline_tick r ≤ k_ticks k)) as [Hle|]; [|lia]. exfalso. apply Hn.
    exists (i, r). split; [done|]. apply list_elem_of_filter. split; [done|]. by apply elem_of_btree_iter.
  - intros Hlt ([i' r'] & Hi & Hf). simpl in Hi. subst i'. apply list_elem_of_filter in Hf as [Hle Hin].
    apply elem_of_btree_iter in Hin. simplify_eq/=. lia.
Qed.

(** ** Frames of a shared region *)
Lemma alloc_more_spec n k a :
  k_frames k = Some a → alloc_wf a →
  match alloc_more n k with
  | Panic => False
  | Ret (Ok _, k') => ∃ a' fs, k' = set_frames k (Some a') ∧ alloc_wf a' ∧ NoDup fs ∧ length fs = n ∧
      list_to_set fs ⊆ free_set a ∧ free_set a' = free_set a ∖ list_to_set fs
  | Ret (Err e, k') => ∃ a', k' = set_frames k (Some a') ∧ alloc_wf a' ∧ e = RecipientNotFound ∧
      free_set a' = ∅ ∧ (size (free_set a) < n)%nat
  end.
Proof.
  revert k a. induction n as [|n IH]; intros k a Hk Hwf; simpl.
  - exists a, []. split; [by destruct k; simplify_eq/=|]. split; [done|]. split; [constructor|].
    split; [done|]. set_solver.
  - unfold cmd_bind, get_state, lift_outcome, put_state, ok_or. rewrite Hk.
    pose proof (allocate_frame_refines a Hwf) as Ha.
    destruct (allocate_frame a) as [[[f|] a1]|]; [|destruct Ha as [-> Hempty]|done].
    2: { exists a. do 3 (split; [done|]). split; [done|]. rewrite Hempty, size_empty. lia. }
    destruct Ha as (Hwf1 & p & -> & Hp & Hfs & _).
    specialize (IH (set_frames k (Some a1)) a1 eq_refl Hwf1).
    destruct (alloc_more n (set_frames k (Some a1))) as [[[u|e] k']|]; [| |done].
    + destruct IH as (a' & fs & -> & Hwf' & Hnd & Hlen & Hsub & Hfree). exists a', (p :: fs).
      split; [done|]. split; [done|]. rewrite Hfs in Hsub.
      split; [apply NoDup_cons; split; [set_solver|done]|]. split; [simpl; lia|].
      split; [set_solver|]. rewrite Hfree, Hfs. set_solver.
    + destruct IH as (a' & -> & Hwf' & -> & Hempty & Hsize). exists a'.
      do 4 (split; [done|]). rewrite Hfs in Hsize. rewrite size_difference in Hsize by set_solver.
      rewrite size_singleton in Hsize. lia.
Qed.

Lemma pages_bounds size :
  0 ≤ size → size + PAGE_SIZE ≤ U64_MAX →
  0 ≤ (size + PAGE_SIZE - 1) / PAGE_SIZE ∧ (size + PAGE_SIZE - 1) / PAGE_SIZE * PAGE_SIZE ≤ U64_MAX.
Proof. intros H1 H2. unfold PAGE_SIZE in *. Z.div_mod_to_equations. lia. Qed.

(** *** Properties *)

(** C31: send, on every branch.  Without a valid WRITE capability, or when the attached capability
    cannot be delegated, nothing changes.  A missing or full mailbox is an error that leaves every
    mailbox as it was, but an attached capability has by then been delegated.  Success appends
    exactly the message, with the next id, to the recipient's mailbox, delegates the attached
    capability, and wakes the recipient exactly when the scheduler lock was free. *)
Theorem send_effect (free : bool) (sender recipient : Z) (ty : MessageType) (payload : list Z)
    (ct rt : option Z) (cap : Z) (k : Kernel) :
  match send free sender recipient ty payload ct rt cap k with
  | Panic => is_Some ct ∧ U64_MAX ≤ next_id (k_caps k)
  | Ret (Err CapabilityDenied, k') => k' = k ∧ ∀ c, validate (k_caps k) cap sender WRITE ≠ Ok c
  | Ret (Err InvalidCapTransfer, k') => k' = k ∧ is_Some ct
  | Ret (Err RecipientNotFound, k') =>
      k_mailboxes k !! recipient = None ∧ k_mailboxes k' = k_mailboxes k ∧ k_sched k' = k_sched k ∧
      transferred sender recipient ct (k_caps k) (k_caps k')
  | Ret (Err MailboxFull, k') =>
      (∃ mb, k_mailboxes k !! recipient = Some mb ∧ (MAILBOX_CAPACITY ≤ length mb)%nat) ∧
      k_mailboxes k' = k_mailboxes k ∧ k_sched k' = k_sched k ∧
      transferred sender recipient ct (k_caps k) (k_caps k')
  | Ret (Err _, _) => False
  | Ret (Ok id, k') =>
      id = k_next_msg k ∧ (∃ c, validate (k_caps k) cap sender WRITE = Ok c) ∧
      transferred sender recipient ct (k_caps k) (k_caps k') ∧
      (∃ mb, k_mailboxes k !! recipient = Some mb ∧ (length mb < MAILBOX_CAPACITY)%nat ∧
             k_mailboxes k' = <[recipient := mb ++ [mkMsg id sender recipient ty payload ct rt]]>
                                (k_mailboxes k)) ∧
      k_sched k' = (if free then snd (unblock (k_sched k) recipient) else k_sched k)
  end.
Proof.
  rewrite send_eq. destruct (validate (k_caps k) cap sender WRITE) as [c|err] eqn:Ev; [|done].
  pose proof (transfer_spec sender recipient ct k) as Ht.
  destruct (transfer sender recipient ct k) as [[[u|e] k1]|]; [|by destruct Ht as (-> & -> & ?)|done].
  destruct Ht as (t & Htr & ->). simpl.
  destruct (k_mailboxes k !! recipient) as [mb|] eqn:El; [|done].
  case_decide as Hfull; [by eauto 10|]. split; [done|]. split; [by exists c|].
  split; [by destruct free|]. split; [|by destruct free]. exists mb. split; [done|]. split; [lia|].
  by destruct free.
Qed.

(** C7: a mailbox is a bounded FIFO queue while it is registered.  Over any sequence of the operations
    of the ipc modules by any tasks (sends, requests, replies, publications, receptions, timeouts,
    subscriptions, shared memory, registration of other mailboxes), refused ones included, the
    old contents of a mailbox followed by the messages accepted for it equal the messages its
    owner received followed by the new contents: nothing is lost, duplicated or reordered, and
    the mailbox never exceeds its capacity. *)
Theorem mailbox_fifo (t : Z) (k k' : Kernel) (ins outs q : list Message) :
  channels_wf k → k_mailboxes k !! t = Some q → (length q ≤ MAILBOX_CAPACITY)%nat →
  ipc_run t k ins outs k' →
  ∃ q', k_mailboxes k' !! t = Some q' ∧ q ++ ins = outs ++ q' ∧ (length q' ≤ MAILBOX_CAPACITY)%nat.
Proof.
  intros Hch Hq Hlen Hrun. revert q Hch Hq Hlen.
  induction Hrun as [k|k ins outs k1 ins' outs' k2 Hs _ IH]; intros q Hch Hq Hlen.
  - exists q. by rewrite app_nil_r.
  - destruct (ipc_step_fifo t k ins outs k1 q Hch Hq Hs) as (Hch1 & q1 & Hq1 & E1 & Hl1).
    destruct (IH q1 Hch1 Hq1 (Hl1 Hlen)) as (q2 & Hq2 & E2 & Hl2). exists q2. split; [done|]. split; [|done].
    by rewrite (assoc_L (++)), E1, <- !(assoc_L (++)), E2.
Qed.

(** Publish delivers one copy to every other subscriber whose mailbox has room, changes no
    other mailbox, wakes nobody, and returns the number of other subscribers, those whose
    mailbox was full or missing included; a refusal changes nothing. *)
Theorem publish_effect (name : string) (sender : Z) (payload : list Z) (cap : Z) (k : Kernel) :
  channels_wf k →
  match publish name sender payload cap k with
  | Panic => False
  | Ret (Err e, k') => k' = k ∧
      (e = CapabilityDenied ∧ (∀ c, validate (k_caps k) cap sender PUBLISH ≠ Ok c) ∨
       e = RecipientNotFound ∧ k_channels k !! name = None)
  | Ret (Ok n, k') => ∃ ch, k_channels k !! name = Some ch ∧ k_sched k' = k_sched k ∧
      n = length (filter (λ t, t ≠ sender) ((ch_subscribers ch).*1)) ∧
      ∀ t, k_mailboxes k' !! t =
           if decide (t ∈ (ch_subscribers ch).*1 ∧ t ≠ sender ∧ has_room (k_mailboxes k) t)
           then (λ mb, mb ++ [pub_msg sender payload t]) <$> k_mailboxes k !! t
           else k_mailboxes k !! t
  end.
Proof.
  intros Hch. rewrite publish_eq. destruct (validate _ _ _ _) eqn:Ev; [|by auto].
  destruct (k_channels k !! name) as [ch|] eqn:E; [|by auto]. simpl. exists ch.
  do 3 (split; [done|]). intros t. rewrite deliver_all by (by apply NoDup_filter, (Hch name)).
  apply decide_ext. rewrite list_elem_of_filter. tauto.
Qed.

(** C32: request and reply.  A reply to a pending request consumes it, stores for the requester
    the message with that payload, and is returned by exactly one collect_reply; a second reply
    is refused without effect.  check_timeouts drops exactly the requests whose deadline has
    come, and a reply to a dropped request is refused.  No capability is checked. *)
Theorem reply_once (free : bool) (sender id cap : Z) (payload : list Z) (k : Kernel) (req : PendingRequest) :
  k_pending k !! id = Some req →
  (∃ k', reply free sender id payload cap k = Ret (Ok (), k') ∧
     k_pending k' = delete id (k_pending k) ∧
     fst (collect_reply id k') = Some (mkMsg 0 sender (requester req) Reply payload None (Some id)) ∧
     fst (collect_reply id (snd (collect_reply id k'))) = None ∧
     ∀ free' sender' payload' cap',
       reply free' sender' id payload' cap' k' = Ret (Err RecipientNotFound, k')) ∧
  (let k' := check_timeouts true free k in
   k_pending k' = filter (λ e, k_ticks k < deadline_tick e.2) (k_pending k) ∧
   (deadline_tick req ≤ k_ticks k →
      reply free sender id payload cap k' = Ret (Err RecipientNotFound, k'))).
Proof.
  intros Hreq. split.
  - unfold reply at 1, cmd_bind, get_state, ok_or, put_state. rewrite Hreq. eexists. split; [reflexivity|].
    set (k2 := set_replies _ _). destruct (try_unblock_fields free (requester req) k2) as (_ & _ & Ep & Er & _).
    split; [by rewrite Ep|]. unfold collect_reply. simpl. rewrite Er. simpl.
    split; [apply lookup_insert_eq|]. split; [apply lookup_delete_eq|].
    intros. unfold reply, cmd_bind, get_state, ok_or. rewrite Ep. simpl. by rewrite lookup_delete_eq.
  - cbv zeta. rewrite check_timeouts_pending. split; [done|]. intros Hle.
    unfold reply, cmd_bind, get_state, ok_or. rewrite check_timeouts_pending.
    rewrite (map_lookup_filter_None_2 _ _ id); [done|]. right. intros r Hr. simplify_eq/=. lia.
Qed.

(** Any capability with DELEGATE, for whatever resource, lets its owner give any task a READ
    capability for every shared region, owned by whomever.  The new capability is a root: it
    does not fall when the granter's capability is revoked.  The comment of grant_access asks
    for DELEGATE on the region. *)
Theorem grant_access_unchecked (region_id granter grantee cap : Z) (k : Kernel) (c : Capability)
    (r : SharedRegion) :
  validate (k_caps k) cap granter DELEGATE = Ok c → k_regions k !! region_id = Some r →
  next_id (k_caps k) < U64_MAX →
  ∃ k' new_cap, grant_access region_id granter grantee cap k = Ret (Ok (next_id (k_caps k)), k') ∧
    get (k_caps k') (next_id (k_caps k)) = Ok new_cap ∧
    c_owner new_cap = grantee ∧ c_permissions new_cap = READ ∧ c_parent_cap new_cap = None ∧
    c_resource new_cap = Memory (r_phys_base r) (r_size r).
Proof.
  intros Hv Hr Hn. unfold grant_access, cmd_bind, check_cap. rewrite Hv. unfold get_state, ok_or.
  rewrite Hr. unfold lift_outcome, create_root, checked_add64. rewrite decide_True by lia. simpl.
  eexists _, _. split; [reflexivity|]. split.
  - apply get_Ok. simpl. rewrite lookup_put_cap, decide_True by done. done.
  - done.
Qed.

(** Create_region and physical memory.  Success takes exactly one frame per page (one for
    size zero) out of the free set and records a region and an owner capability starting at one
    of them.  Failure means there were too few free frames: then every free frame of the machine
    has been taken and none is given back. *)
Theorem create_region_frames (owner size : Z) (k : Kernel) (a : BitmapFrameAllocator) :
  k_frames k = Some a → alloc_wf a → 0 ≤ size → size + PAGE_SIZE ≤ U64_MAX →
  next_id (k_caps k) < U64_MAX →
  let n := Nat.max 1 (Z.to_nat ((size + PAGE_SIZE - 1) / PAGE_SIZE)) in
  match create_region owner size k with
  | Panic => False
  | Ret (Ok id, k') => ∃ a' base fs, k_frames k' = Some a' ∧ alloc_wf a' ∧
      NoDup (base :: fs) ∧ length (base :: fs) = n ∧
      list_to_set (base :: fs) ⊆ free_set a ∧ free_set a' = free_set a ∖ list_to_set (base :: fs) ∧
      k_regions k' !! id = Some (mkRegion id (base * PAGE_SIZE)
                                   ((size + PAGE_SIZE - 1) / PAGE_SIZE * PAGE_SIZE) owner [])
  | Ret (Err e, k') => ∃ a', k_frames k' = Some a' ∧ free_set a' = ∅ ∧ (Frames.free_set a ≠ ∅ → a' ≠ a) ∧
      (base.size (free_set a) < n)%nat ∧ k_caps k' = k_caps k ∧ k_regions k' = k_regions k
  end.
Proof.
  intros Hk Hwf H0 Hmax Hn n. destruct (pages_bounds size H0 Hmax) as [Hp1 Hp2].
  unfold create_region, cmd_bind, lift_outcome, checked_add64. rewrite decide_True by done.
  unfold get_state, ok_or, put_state. rewrite Hk.
  pose proof (allocate_frame_refines a Hwf) as Ha.
  destruct (allocate_frame a) as [[[f|] a1]|]; [|destruct Ha as [-> Hempty]|done].
  2: { exists a. rewrite Hempty, size_empty. do 3 (split; [done|]). split; [lia|done]. }
  destruct Ha as (Hwf1 & p & -> & Hp & Hfs & _).
  pose proof (alloc_more_spec (Z.to_nat ((size + PAGE_SIZE - 1) / PAGE_SIZE - 1))
                (set_frames k (Some a1)) a1 eq_refl Hwf1) as Hm.
  destruct (alloc_more _ _) as [[[u|e] k1]|]; [| |done].
  - destruct Hm as (a' & fs & -> & Hwf' & Hnd & Hlen & Hsub & Hfree). rewrite Hfs in Hsub.
    unfold checked_mul64, create_root, checked_add64. rewrite decide_True by lia. simpl.
    rewrite decide_True by lia. simpl. exists a', p, fs. split; [done|]. split; [done|].
    split; [apply NoDup_cons; split; [set_solver|done]|]. split; [simpl; lia|].
    split; [set_solver|]. split; [rewrite Hfree, Hfs; set_solver|]. by rewrite lookup_insert_eq.
  - destruct Hm as (a' & -> & Hwf' & -> & Hempty & Hsize). exists a'. split; [done|]. split; [done|].
    split; [by intros Hne ->|]. split; [|done]. rewrite Hfs, size_difference, size_singleton in Hsize by set_solver.
    lia.
Qed.

(** *** Witnesses *)

(** Task 7 holds capability 1 (all permissions on storage /a); tasks 7 and 9 have mailboxes; 9
    subscribes to channel "c"; request 4 of task 9 is pending; region 1 belongs to task 9. *)
Definition demo_ipc : Kernel :=
  set_regions (set_pending (set_channels (set_mailboxes (set_caps (set_frames kernel_new
    (Some {| bitmap := [0xF8]; total_frames := 3; next_free := 0 |})) demo_root)
    {[7 := []; 9 := []]}) {["c" := mkChan 1 "c" [(9, 1)]]}) {[4 := mkPending 9 100]})
    {[1 := mkRegion 1 8192 4096 9 []]}.

Definition hello (id : Z) : Message := mkMsg id 7 9 Data [104; 105] None None.
Definition ask (id : Z) : Message := mkMsg id 7 9 Request [63] None None.

Lemma demo_channels_wf : channels_wf demo_ipc.
Proof.
  intros name ch. unfold demo_ipc. cbn [k_channels set_regions set_pending set_channels].
  intros [<- <-]%lookup_singleton_Some. apply NoDup_singleton.
Qed.

Lemma mailbox_fifo_witness :
  ∃ k' q', ipc_run 9 demo_ipc [hello 1; ask 2] [hello 1] k' ∧ k_mailboxes k' !! 9 = Some q' ∧
           [] ++ [hello 1; ask 2] = [hello 1] ++ q'.
Proof.
  destruct (send true 7 9 Data [104; 105] None None 1 demo_ipc) as [[[i1|] k1]|] eqn:E1;
    [|vm_compute in E1; discriminate E1..].
  destruct (request true 7 9 [63] 1 50 k1) as [[[i2|] k2]|] eqn:E2;
    [|vm_compute in E1; injection E1 as _ <-; vm_compute in E2; discriminate E2..].
  destruct (receive 9 k2) as [m k3] eqn:E3.
  assert (i1 = 1 ∧ i2 = 2 ∧ m = Some (hello 1)) as (-> & -> & ->).
  { vm_compute in E1. injection E1 as <- <-. vm_compute in E2. injection E2 as <- <-.
    vm_compute in E3. injection E3 as <- _. split_and!; reflexivity. }
  assert (ipc_run 9 demo_ipc [hello 1; ask 2] [hello 1] k3) as Hrun.
  { eapply (run_cons 9 demo_ipc [hello 1] [] k1 [ask 2] [hello 1] k3); [exact (is_send 9 _ _ _ _ _ _ _ _ _ _ _ E1)|].
    eapply (run_cons 9 k1 [ask 2] [] k2 [] [hello 1] k3); [exact (is_request 9 _ _ _ _ _ _ _ _ _ E2)|].
    eapply (run_cons 9 k2 [] [hello 1] k3 [] [] k3); [exact (is_receive 9 k2 9 _ _ E3)|constructor]. }
  destruct (mailbox_fifo 9 demo_ipc k3 [hello 1; ask 2] [hello 1] [] demo_channels_wf eq_refl
              ltac:(unfold MAILBOX_CAPACITY; simpl; lia) Hrun) as (q' & Hq & Heq & _).
  exists k3, q'. split; [exact Hrun|]. split; [exact Hq|exact Heq].
Defined.

Lemma publish_effect_witness :
  match publish "c" 7 [1] 1 demo_ipc with
  | Ret (Ok n, k') => n = 1%nat ∧ k_sched k' = k_sched demo_ipc
  | _ => False
  end.
Proof.
  pose proof (publish_effect "c" 7 [1] 1 demo_ipc demo_channels_wf) as H.
  destruct (publish "c" 7 [1] 1 demo_ipc) as [[[n|e] k']|] eqn:E; [|vm_compute in E; discriminate E..].
  destruct H as (ch & _ & Hs & _). split; [|exact Hs]. vm_compute in E. injection E as <- _. reflexivity.
Defined.

Lemma reply_once_witness :
  ∃ k', reply true 7 4 [42] 0 demo_ipc = Ret (Ok (), k') ∧
        fst (collect_reply 4 k') = Some (mkMsg 0 7 9 Reply [42] None (Some 4)).
Proof.
  destruct (reply_once true 7 4 0 [42] demo_ipc (mkPending 9 100) eq_refl) as [(k' & H1 & _ & H2 & _) _].
  exists k'. split; [exact H1|exact H2].
Defined.

(** The storage capability of task 7 opens the region of task 9 to task 8. *)
Lemma grant_access_unchecked_witness :
  ∃ k' new_cap, grant_access 1 7 8 1 demo_ipc = Ret (Ok 2, k') ∧ get (k_caps k') 2 = Ok new_cap ∧
    c_owner new_cap = 8 ∧ c_permissions new_cap = READ ∧ c_parent_cap new_cap = None ∧
    c_resource new_cap = Memory 8192 4096.
Proof. apply (grant_access_unchecked 1 7 8 1 demo_ipc demo_cap1 (mkRegion 1 8192 4096 9 [])); reflexivity. Defined.

Lemma demo_frames_wf : alloc_wf {| bitmap := [0xF8]; total_frames := 3; next_free := 0 |}.
Proof.
  split; simpl; [lia|unfold PAGE_SIZE, PHYS_LIMIT; lia|reflexivity|lia|].
  intros i Hi. destruct (decide (i < 8)).
  - assert (i = 3 ∨ i = 4 ∨ i = 5 ∨ i = 6 ∨ i = 7) as Hcases by lia.
    destruct Hcases as [->|[->|[->|[->| ->]]]]; reflexivity.
  - unfold bit. cbn [bitmap]. rewrite lookup_ge_None_2; [reflexivity|].
    assert (1 ≤ i / 8) by (apply Z.div_le_lower_bound; lia). simpl. lia.
Qed.

(** Four pages out of three free frames: the request fails and nothing is left. *)
Lemma create_region_frames_witness :
  match create_region 9 16384 demo_ipc with
  | Ret (Err e, k') => ∃ a', k_frames k' = Some a' ∧ free_set a' = ∅
  | _ => False
  end.
Proof.
  pose proof (create_region_frames 9 16384 demo_ipc _ eq_refl demo_frames_wf) as H.
  destruct (create_region 9 16384 demo_ipc) as [[[id|e] k']|] eqn:E;
    [vm_compute in E; discriminate E| |vm_compute in E; discriminate E].
  destruct H as (a' & Hf & He & _); [lia|unfold PAGE_SIZE, U64_MAX; lia|reflexivity|].
  exists a'. split; [exact Hf|exact He].
Defined.

(** *** Further observations *)

(** The capability presented to send need not concern the recipient. *)
Lemma send_with_storage_capability :
  match send true 7 9 Data [1] None None 1 demo_ipc with
  | Ret (Ok id, k') => id = 1 ∧ mailbox_len 9 k' = 1%nat
  | _ => False
  end.
Proof. vm_compute. split; reflexivity. Qed.

(** A send that fails for want of a recipient has already delegated the attached capability. *)
Lemma failed_send_delegates :
  match send true 7 5 Data [] (Some 1) None 1 demo_ipc with
  | Ret (Err RecipientNotFound, k') =>
      match get (k_caps k') 2 with Ok c => c_owner c = 5 | Err _ => False end
  | _ => False
  end.
Proof. vm_compute. reflexivity. Qed.
End Ipc.
