(* ===== verification/Agent.v ===== *)
(** * Agent: agent/mod.rs, agent/registry.rs, agent/lifecycle.rs, agent/supervisor.rs

    The registry of agents, spawning an agent (task, mailbox, registry entry, scheduler entry), and
    the mutual recursion of kill, notify_child_death and escalate, with the bound on its depth. *)

From S2P Require Import Prelude Capability FrameAlloc Task Scheduler Kernel.

Module Agents.
Import Frames Tasks Sched Kern.

Inductive AgentState : Type := Initializing | ARunning | Waiting | Suspended | ADead.
Inductive RestartPolicy : Type := RestartOne | RestartAll | Escalate | Permanent.

Inductive ModelBinding : Type :=
| Local (model_id : string)
| Remote (endpoint : string) (api_key_cap : Z)
| Auto (preference : list string).

Record ResourceLimits : Type := mkLimits { max_memory_bytes : Z; max_children : nat }.

Definition default_limits : ResourceLimits :=
  {| max_memory_bytes := 16 * 1024 * 1024; max_children := 32 |}.

Record AgentConfig : Type := mkConfig {
  cfg_name : string;
  system_prompt : option string;
  model : ModelBinding;
  tools : list string;
  cfg_capabilities : list Z;
  restart_policy : RestartPolicy;
  resource_limits : ResourceLimits;
}.

Record Agent : Type := mkAgent {
  a_id : Z;
  a_config : AgentConfig;
  a_state : AgentState;
  a_parent : option Z;
  a_children : list Z;
  a_restart_count : Z;
  a_max_restarts : Z;
}.

(** ** Registry *)
Record AgentRegistry : Type := mkRegistry {
  agents : gmap Z Agent;
  name_index : gmap string Z;
}.

Definition registry_new : AgentRegistry := {| agents := ∅; name_index := ∅ |}.

Definition register (self : AgentRegistry) (agent : Agent) : AgentRegistry :=
  {| agents := <[a_id agent := agent]> (agents self);
     name_index := <[cfg_name (a_config agent) := a_id agent]> (name_index self) |}.

Definition unregister (self : AgentRegistry) (id : Z) : option Agent * AgentRegistry :=
  match agents self !! id with
  | Some agent => (Some agent, {| agents := delete id (agents self);
                                  name_index := delete (cfg_name (a_config agent)) (name_index self) |})
  | None => (None, self)
  end.

Definition get (self : AgentRegistry) (id : Z) : option Agent := agents self !! id.

(** An update through [get_mut]; nothing happens when the agent is not registered. *)
Definition update (self : AgentRegistry) (id : Z) (f : Agent → Agent) : AgentRegistry :=
  {| agents := alter f id (agents self); name_index := name_index self |}.

Definition find_by_name (self : AgentRegistry) (name : string) : option Z := name_index self !! name.

Definition count (self : AgentRegistry) : nat := size (agents self).

Definition all_ids (self : AgentRegistry) : list Z := (btree_iter_Z (agents self)).*1.

Definition set_agent_state (st : AgentState) (a : Agent) : Agent :=
  mkAgent (a_id a) (a_config a) st (a_parent a) (a_children a) (a_restart_count a) (a_max_restarts a).

Definition set_children (cs : list Z) (a : Agent) : Agent :=
  mkAgent (a_id a) (a_config a) (a_state a) (a_parent a) cs (a_restart_count a) (a_max_restarts a).

Definition bump_restarts (a : Agent) : Agent :=
  mkAgent (a_id a) (a_config a) (a_state a) (a_parent a) (a_children a) (a_restart_count a + 1)
    (a_max_restarts a).

(** ** Lifecycle: suspend and resume *)
Definition suspend (agent_id : Z) : cmd AgentRegistry string () :=
  let! reg := get_state in
  let! _ := ok_or (get reg agent_id) "agent not found" in
  put_state (update reg agent_id (set_agent_state Suspended)).

Definition resume (agent_id : Z) : cmd AgentRegistry string () :=
  let! reg := get_state in
  let! _ := ok_or (get reg agent_id) "agent not found" in
  put_state (update reg agent_id (set_agent_state ARunning)).

(** [restart_count += 1]; the caller has checked that it is below [max_restarts], a u32. *)
Definition increment_restart_count (reg : AgentRegistry) (agent_id : Z) : AgentRegistry :=
  update reg agent_id bump_restarts.

(** "Remove from parent's children list" of kill. *)
Definition leave_parent (reg : AgentRegistry) (parent : option Z) (agent_id : Z) : AgentRegistry :=
  match parent with
  | Some p => update reg p (λ a, set_children (filter (λ id, id ≠ agent_id) (a_children a)) a)
  | None => reg
  end.

(** ** kill, notify_child_death and escalate call each other

    The bodies take the functions they call as arguments; [kill], [notify_child_death] and
    [escalate] tie the knot.  Each call takes one unit of fuel, and [None] is exhausted fuel. *)
Definition notify_child_death_with (escalate : Z → AgentRegistry → option AgentRegistry)
    (parent_id dead_child_id : Z) (reg : AgentRegistry) : option AgentRegistry :=
  match get reg parent_id with
  | None => Some reg
  | Some p =>
      if a_max_restarts p <=? a_restart_count p then escalate parent_id reg
      else match restart_policy (a_config p) with
           | RestartOne => Some (increment_restart_count reg parent_id)
           | RestartAll => Some (increment_restart_count reg parent_id)
           | Escalate => escalate parent_id reg
           | Permanent => Some reg
           end
  end.

Definition escalate_with (kill : Z → AgentRegistry → option (result string () * AgentRegistry))
    (notify_child_death : Z → Z → AgentRegistry → option AgentRegistry)
    (agent_id : Z) (reg : AgentRegistry) : option AgentRegistry :=
  let parent := get reg agent_id ≫= a_parent in
  match kill agent_id reg with
  | None => None
  | Some (_, reg1) =>
      match parent with
      | Some grandparent => notify_child_death grandparent agent_id reg1
      | None => Some reg1
      end
  end.

Fixpoint kill (fuel : nat) (agent_id : Z) (reg : AgentRegistry) {struct fuel}
    : option (result string () * AgentRegistry) :=
  match fuel with
  | O => None
  | S fuel' =>
      match get reg agent_id with
      | None => Some (Err "agent not found", reg)
      | Some agent =>
          let reg1 := update reg agent_id (set_agent_state ADead) in
          let parent_id := a_parent agent in
          let children := a_children agent in
          match foldl (λ acc child_id, acc ≫= λ r, snd <$> kill fuel' child_id r) (Some reg1) children with
          | None => None
          | Some reg2 =>
              let reg3 := leave_parent reg2 parent_id agent_id in
              let reg4 := snd (unregister reg3 agent_id) in
              match parent_id with
              | Some parent => pair (Ok ()) <$> notify_child_death fuel' parent agent_id reg4
              | None => Some (Ok (), reg4)
              end
          end
      end
  end
with notify_child_death (fuel : nat) (parent_id dead_child_id : Z) (reg : AgentRegistry) {struct fuel}
    : option AgentRegistry :=
  match fuel with
  | O => None
  | S fuel' => notify_child_death_with (escalate fuel') parent_id dead_child_id reg
  end
with escalate (fuel : nat) (agent_id : Z) (reg : AgentRegistry) {struct fuel} : option AgentRegistry :=
  match fuel with
  | O => None
  | S fuel' => escalate_with (kill fuel') (notify_child_death fuel') agent_id reg
  end.

(** The loop of kill over the children. *)
Definition kill_all (fuel : nat) (children : list Z) (reg : AgentRegistry) : option AgentRegistry :=
  foldl (λ acc child_id, acc ≫= λ r, snd <$> kill fuel child_id r) (Some reg) children.

Lemma kill_all_cons fuel c cs reg :
  kill_all fuel (c :: cs) reg = match kill fuel c reg with
                                | Some (_, reg') => kill_all fuel cs reg'
                                | None => None
                                end.
Proof.
  unfold kill_all. simpl. destruct (kill fuel c reg) as [[r reg']|]; simpl; [done|].
  induction cs; simpl; done.
Qed.

(** ** How a registry evolves under kill *)

(** Every registered agent whose parent is registered is on the parent's list. *)
Definition linked (reg : AgentRegistry) : Prop :=
  ∀ x a p ap, agents reg !! x = Some a → a_parent a = Some p → agents reg !! p = Some ap →
              x ∈ a_children ap.

Definition shrinks (reg reg' : AgentRegistry) : Prop :=
  ∀ x a', agents reg' !! x = Some a' →
    ∃ a, agents reg !! x = Some a ∧ a_parent a' = a_parent a ∧
         (a_config a' = a_config a ∧ a_id a' = a_id a) ∧ a_children a' ⊆ a_children a.

(** Nobody who stays loses a registered parent. *)
Definition no_orphans (reg reg' : AgentRegistry) : Prop :=
  ∀ x a' p, agents reg' !! x = Some a' → a_parent a' = Some p →
            is_Some (agents reg !! p) → is_Some (agents reg' !! p).

(** The list of an agent has exactly registered agents with this parent, each once. *)
Definition exact_children (reg : AgentRegistry) : Prop :=
  ∀ x a, agents reg !! x = Some a →
    NoDup (a_children a) ∧ ∀ c, c ∈ a_children a → ∃ ac, agents reg !! c = Some ac ∧ a_parent ac = Some x.

Definition good (reg reg' : AgentRegistry) : Prop :=
  linked reg' ∧ shrinks reg reg' ∧ no_orphans reg reg' ∧ (exact_children reg → exact_children reg').

Lemma good_refl reg : linked reg → good reg reg.
Proof. intros H. split; [done|]. split; [intros x a Ha; by exists a|]. split; [by intros x a p|done]. Qed.

Lemma good_trans r1 r2 r3 : good r1 r2 → good r2 r3 → good r1 r3.
Proof.
  intros (_ & S1 & O1 & E1) (L3 & S2 & O2 & E2). split; [done|]. split; [|split; [|by auto]].
  - intros x a3 Ha3. destruct (S2 x a3 Ha3) as (a2 & Ha2 & Ep & Ec & Hsub).
    destruct (S1 x a2 Ha2) as (a1 & Ha1 & Ep1 & Ec1 & Hsub1). exists a1.
    split; [done|]. split; [congruence|]. split; [|set_solver]. destruct Ec, Ec1. split; congruence.
  - intros x a3 p Ha3 Hp Hr. destruct (S2 x a3 Ha3) as (a2 & Ha2 & Ep & _).
    eapply O2; [done|done|]. eapply (O1 x a2); congruence.
Qed.

Lemma shrinks_None reg reg' x : shrinks reg reg' → agents reg !! x = None → agents reg' !! x = None.
Proof.
  intros Hs Hx. destruct (agents reg' !! x) as [a'|] eqn:E; [|done].
  destruct (Hs x a' E) as (a & Ha & _). congruence.
Qed.

Lemma update_good reg id f :
  linked reg →
  (∀ a, a_parent (f a) = a_parent a ∧ (a_config (f a) = a_config a ∧ a_id (f a) = a_id a) ∧
        a_children (f a) = a_children a) →
  good reg (update reg id f).
Proof.
  intros HL Hf.
  assert (Hlook : ∀ x a', agents (update reg id f) !! x = Some a' →
            ∃ a, agents reg !! x = Some a ∧ a_parent a' = a_parent a ∧
                 (a_config a' = a_config a ∧ a_id a' = a_id a) ∧ a_children a' = a_children a).
  { intros x a'. simpl. rewrite lookup_alter_Some. intros [(<- & a & Ha & ->)|[_ Ha]].
    - exists a. by destruct (Hf a) as (-> & [-> ->] & ->).
    - by exists a'. }
  split; [|split; [|split]].
  - intros x a p ap Hx Hp Hap. destruct (Hlook _ _ Hx) as (a0 & Ha0 & Ep & _).
    destruct (Hlook _ _ Hap) as (ap0 & Hap0 & _ & _ & ->). eapply HL; [done| |done]. congruence.
  - intros x a' Hx. destruct (Hlook _ _ Hx) as (a0 & Ha0 & Ep & Ec & E). exists a0. rewrite E. done.
  - intros x a' p _ _. simpl. rewrite lookup_alter_is_Some. done.
  - intros Hex x a' Hx. destruct (Hlook _ _ Hx) as (a0 & Ha0 & _ & _ & ->). destruct (Hex x a0 Ha0) as [Hnd Hc].
    split; [done|]. intros c Hin. destruct (Hc c Hin) as (ac & Hac & Hp). simpl. rewrite lookup_alter.
    case_decide; [subst c; rewrite Hac|by exists ac]. exists (f ac). by rewrite (proj1 (Hf ac)).
Qed.

(** Leaving the lists of the parent keeps them exact, also once the agent is unregistered. *)
Lemma detach_exact reg parent id :
  (∀ a, agents reg !! id = Some a → a_parent a = parent) → exact_children reg →
  exact_children (snd (unregister (leave_parent reg parent id) id)).
Proof.
  intros Hpar Hex. set (reg3 := leave_parent reg parent id).
  assert (H3 : ∀ x a3, agents reg3 !! x = Some a3 → ∃ a, agents reg !! x = Some a ∧ a_parent a3 = a_parent a ∧
            a_children a3 = if decide (parent = Some x) then filter (λ c, c ≠ id) (a_children a) else a_children a).
  { intros x a3. subst reg3. destruct parent as [p|]; simpl; [|intros Hx; by exists a3].
    rewrite lookup_alter_Some. intros [(<- & a & Ha & ->)|[Hne Ha]].
    - exists a. by rewrite decide_True.
    - exists a3. rewrite decide_False by congruence. done. }
  assert (H3' : ∀ x a, agents reg !! x = Some a → ∃ a3, agents reg3 !! x = Some a3 ∧ a_parent a3 = a_parent a).
  { intros x a Ha. subst reg3. destruct parent as [p|]; simpl; [|by exists a].
    rewrite lookup_alter. case_decide; subst; rewrite Ha; simpl; eexists; done. }
  assert (H4 : ∀ x, agents (snd (unregister reg3 id)) !! x = if decide (x = id) then None else agents reg3 !! x).
  { intros x. unfold unregister. destruct (agents reg3 !! id) eqn:E; simpl.
    - rewrite lookup_delete. repeat case_decide; congruence.
    - case_decide; congruence. }
  intros x a4 Hx. rewrite H4 in Hx. case_decide as Hxi; [done|]. destruct (H3 x a4 Hx) as (a & Ha & _ & Hch).
  destruct (Hex x a Ha) as [Hnd Hc]. split; [rewrite Hch; case_decide; [by apply NoDup_filter|done]|].
  intros c Hin. rewrite Hch in Hin.
  assert (c ∈ a_children a ∧ (parent = Some x → c ≠ id)) as [Hin0 Hne].
  { case_decide; [|done]. apply list_elem_of_filter in Hin as [??]. done. }
  destruct (Hc c Hin0) as (ac & Hac & Hp). destruct (H3' c ac Hac) as (ac3 & Hac3 & Hp3).
  exists ac3. rewrite H4, decide_False; [split; [done|congruence]|].
  intros ->. apply Hne; [|done]. by rewrite <-(Hpar ac Hac).
Qed.

(** Leaving the parent's list and the registry, once all children are gone. *)
Lemma detach_good reg parent id :
  linked reg →
  (∀ a c, agents reg !! id = Some a → c ∈ a_children a → agents reg !! c = None) →
  (∀ a, agents reg !! id = Some a → a_parent a = parent) →
  good reg (snd (unregister (leave_parent reg parent id) id)) ∧
  agents (snd (unregister (leave_parent reg parent id) id)) !! id = None.
Proof.
  intros HL Hgone Hpar. set (reg3 := leave_parent reg parent id). set (reg4 := snd (unregister reg3 id)).
  assert (H3 : ∀ x, (∃ a a3, agents reg !! x = Some a ∧ agents reg3 !! x = Some a3 ∧
                 a_parent a3 = a_parent a ∧ (a_config a3 = a_config a ∧ a_id a3 = a_id a) ∧
                 ∀ c, c ∈ a_children a3 → c ∈ a_children a) ∨
               (agents reg !! x = None ∧ agents reg3 !! x = None)).
  { intros x. subst reg3. destruct parent as [p|]; simpl; [|destruct (agents reg !! x); naive_solver].
    rewrite lookup_alter. case_decide; [subst p|]; destruct (agents reg !! x) as [a|]; simpl; [|by auto| |by auto].
    - left. eexists _, _. split; [done|]. split; [done|]. simpl. split; [done|]. split; [done|].
      intros c. rewrite list_elem_of_filter. tauto.
    - left. by exists a, a. }
  assert (H3c : ∀ x a3 c, agents reg3 !! x = Some a3 → c ≠ id →
            ∀ a, agents reg !! x = Some a → c ∈ a_children a → c ∈ a_children a3).
  { intros x a3 c Hx Hc a Ha Hin. subst reg3. destruct parent as [p|]; simpl in Hx; [|congruence].
    rewrite lookup_alter in Hx. case_decide; [subst p|congruence]. rewrite Ha in Hx. simplify_eq/=.
    by apply list_elem_of_filter. }
  assert (H4 : ∀ x, agents reg4 !! x = if decide (x = id) then None else agents reg3 !! x).
  { intros x. subst reg4. unfold unregister. destruct (agents reg3 !! id) eqn:E; simpl.
    - rewrite lookup_delete. repeat case_decide; congruence.
    - case_decide; congruence. }
  split; [|by rewrite H4, decide_True].
  split; [|split; [|split; [|by apply detach_exact]]].
  - intros x a p ap Hx Hp Hap. rewrite H4 in Hx, Hap. case_decide as Hxi; [done|]. case_decide as Hpi; [done|].
    destruct (H3 x) as [(a0 & a3 & Ha0 & Ha3 & Ep & _)|[_ ?]]; [|congruence].
    destruct (H3 p) as [(ap0 & ap3 & Hap0 & Hap3 & _)|[_ ?]]; [|congruence].
    eapply H3c; [done|done|done|]. eapply (HL x a0 p); congruence.
  - intros x a' Hx. rewrite H4 in Hx. case_decide; [done|].
    destruct (H3 x) as [(a0 & a3 & Ha0 & Ha3 & Ep & Ec & Hsub)|[_ ?]]; [|congruence].
    simplify_eq. by exists a0.
  - intros x a' p Hx Hp [ap Hap]. rewrite H4 in Hx. case_decide; [done|]. rewrite H4.
    destruct (H3 x) as [(a0 & a3 & Ha0 & Ha3 & Ep & _)|[_ ?]]; [|congruence]. simplify_eq.
    case_decide as Hpi; subst.
    + exfalso. rewrite (Hgone ap x) in Ha0; [done|done|]. eapply (HL x a0 id); congruence.
    + destruct (H3 p) as [(ap0 & ap3 & _ & -> & _)|[? _]]; [done|congruence].
Qed.

(** kill by its parts. *)
Lemma kill_S fuel id reg :
  kill (S fuel) id reg =
  match get reg id with
  | None => Some (Err "agent not found", reg)
  | Some agent =>
      match kill_all fuel (a_children agent) (update reg id (set_agent_state ADead)) with
      | None => None
      | Some reg2 =>
          let reg4 := snd (unregister (leave_parent reg2 (a_parent agent) id) id) in
          match a_parent agent with
          | Some parent => pair (Ok ()) <$> notify_child_death fuel parent id reg4
          | None => Some (Ok (), reg4)
          end
      end
  end.
Proof. done. Qed.

Lemma kill_all_good fuel :
  (∀ id reg r reg', linked reg → kill fuel id reg = Some (r, reg') →
     good reg reg' ∧ agents reg' !! id = None) →
  ∀ cs reg reg', linked reg → kill_all fuel cs reg = Some reg' →
    good reg reg' ∧ ∀ c, c ∈ cs → agents reg' !! c = None.
Proof.
  intros IH cs. induction cs as [|c cs IHcs]; intros reg reg' HL H.
  - unfold kill_all in H. simplify_eq/=. split; [by apply good_refl|set_solver].
  - rewrite kill_all_cons in H. destruct (kill fuel c reg) as [[r reg1]|] eqn:E; [|done].
    destruct (IH c reg r reg1 HL E) as [Hg Hc].
    destruct (IHcs reg1 reg' (proj1 Hg) H) as [Hg' Hcs]. split; [by eapply good_trans|].
    intros c' [->|Hin]%elem_of_cons; [|by apply Hcs]. eapply shrinks_None; [|exact Hc]. apply Hg'.
Qed.

Lemma supervision_good fuel :
  (∀ id reg r reg', linked reg → kill fuel id reg = Some (r, reg') →
     good reg reg' ∧ agents reg' !! id = None) ∧
  (∀ p d reg reg', linked reg → notify_child_death fuel p d reg = Some reg' → good reg reg') ∧
  (∀ id reg reg', linked reg → escalate fuel id reg = Some reg' → good reg reg').
Proof.
  induction fuel as [|fuel (IHk & IHn & IHe)]; [done|]. split; [|split].
  - intros id reg r reg' HL H. rewrite kill_S in H. unfold get in H.
    destruct (agents reg !! id) as [ag|] eqn:Eg; [|simplify_eq; split; [by apply good_refl|done]].
    destruct (kill_all fuel _ _) as [reg2|] eqn:Ek; [|done].
    assert (good reg (update reg id (set_agent_state ADead))) as Hg1 by by apply update_good.
    destruct (kill_all_good fuel IHk _ _ _ (proj1 Hg1) Ek) as [Hg2 Hdead].
    pose proof (good_trans _ _ _ Hg1 Hg2) as Hg12.
    destruct (detach_good reg2 (a_parent ag) id (proj1 Hg12)) as [Hg4 Hnone].
    { intros a c Ha Hc. apply Hdead. destruct (proj1 (proj2 Hg12) id a Ha) as (a0 & Ha0 & _ & _ & Hsub).
      simplify_eq. set_solver. }
    { intros a Ha. destruct (proj1 (proj2 Hg12) id a Ha) as (a0 & Ha0 & -> & _). congruence. }
    cbv zeta in H. set (reg4 := snd (unregister (leave_parent reg2 (a_parent ag) id) id)) in *.
    pose proof (good_trans _ _ _ Hg12 Hg4) as Hg.
    destruct (a_parent ag) as [p|]; [|by simplify_eq].
    destruct (notify_child_death fuel p id reg4) as [reg5|] eqn:En; simplify_eq/=.
    pose proof (IHn _ _ _ _ (proj1 Hg4) En) as Hg5. split; [by eapply good_trans|].
    eapply shrinks_None; [|exact Hnone]. apply Hg5.
  - intros p d reg reg' HL H. simpl in H. unfold notify_child_death_with, get in H.
    destruct (agents reg !! p) as [ap|]; [|simplify_eq; by apply good_refl].
    destruct (a_max_restarts ap <=? a_restart_count ap); [by eauto|].
    destruct (restart_policy (a_config ap)); simplify_eq; eauto using good_refl, update_good.
  - intros id reg reg' HL H. simpl in H. unfold escalate_with in H.
    destruct (kill fuel id reg) as [[r reg1]|] eqn:Ek; [|done].
    destruct (IHk _ _ _ _ HL Ek) as [Hg _].
    destruct (get reg id ≫= a_parent) as [gp|]; [|by simplify_eq].
    eapply good_trans; [exact Hg|]. eapply IHn; [apply Hg|done].
Qed.

(** More fuel does not change a result. *)
Lemma kill_all_mono f f' :
  (∀ id reg v, kill f id reg = Some v → kill f' id reg = Some v) →
  ∀ cs reg v, kill_all f cs reg = Some v → kill_all f' cs reg = Some v.
Proof.
  intros IH cs. induction cs as [|c cs IHcs]; intros reg v H; [done|].
  rewrite kill_all_cons in H |- *. destruct (kill f c reg) as [[r reg1]|] eqn:E; [|done].
  rewrite (IH _ _ _ E). by apply IHcs.
Qed.

Lemma supervision_mono fuel :
  (∀ id reg v, kill fuel id reg = Some v → kill (S fuel) id reg = Some v) ∧
  (∀ p d reg v, notify_child_death fuel p d reg = Some v → notify_child_death (S fuel) p d reg = Some v) ∧
  (∀ id reg v, escalate fuel id reg = Some v → escalate (S fuel) id reg = Some v).
Proof.
  induction fuel as [|fuel (IHk & IHn & IHe)]; [done|]. split; [|split].
  - intros id reg v H. rewrite kill_S in H |- *. destruct (get reg id) as [ag|]; [|done].
    destruct (kill_all fuel _ _) as [reg2|] eqn:E; [|done].
    rewrite (kill_all_mono fuel (S fuel) IHk _ _ _ E). cbv zeta in *.
    destruct (a_parent ag) as [p|]; [|done].
    destruct (notify_child_death fuel p id _) as [reg5|] eqn:En; [|done]. by rewrite (IHn _ _ _ _ En).
  - intros p d reg v H. cbn [notify_child_death] in H |- *; unfold notify_child_death_with in H |- *.
    destruct (get reg p) as [ap|]; [|done].
    destruct (a_max_restarts ap <=? a_restart_count ap); [by apply IHe|].
    destruct (restart_policy (a_config ap)); [done|done|by apply IHe|done].
  - intros id reg v H. cbn [escalate] in H |- *; unfold escalate_with in H |- *.
    destruct (kill fuel id reg) as [[r reg1]|] eqn:E; [|done]. rewrite (IHk _ _ _ E).
    destruct (get reg id ≫= a_parent); [by apply IHn|done].
Qed.

Lemma kill_mono f f' id reg v : (f ≤ f')%nat → kill f id reg = Some v → kill f' id reg = Some v.
Proof. induction 1; [done|]. intros H'. by apply supervision_mono, IHle. Qed.

(** ** Termination

    [rank] orders the agents by registration: a registered child ranks above its parent.  The
    depth of the recursion is at most [fuel_bound]: a call of kill on a child climbs in rank, and
    a notification comes after an agent has left the registry. *)
Definition ranked (rank : Z → nat) (R : nat) (reg : AgentRegistry) : Prop :=
  ∀ x a, agents reg !! x = Some a →
    (rank x ≤ R)%nat ∧ ∀ c, c ∈ a_children a → is_Some (agents reg !! c) → (rank x < rank c)%nat.

Definition fuel_bound (R : nat) (reg : AgentRegistry) : nat := (count reg * (R + 4) + R + 4)%nat.

Lemma ranked_shrinks rank R reg reg' : shrinks reg reg' → ranked rank R reg → ranked rank R reg'.
Proof.
  intros Hs Hr x a Hx. destruct (Hs x a Hx) as (a0 & Ha0 & _ & _ & Hsub).
  destruct (Hr x a0 Ha0) as [H1 H2]. split; [done|]. intros c Hc [ac Hac].
  destruct (Hs c ac Hac) as (ac0 & Hac0 & _). apply H2; [set_solver|by exists ac0].
Qed.

Lemma shrinks_count reg reg' : shrinks reg reg' → (count reg' ≤ count reg)%nat.
Proof.
  intros Hs. unfold count. rewrite <- !size_dom. apply subseteq_size. intros x.
  rewrite !elem_of_dom. intros [a Ha]. destruct (Hs x a Ha) as (a0 & ? & _). by exists a0.
Qed.

Lemma shrinks_count_lt reg reg' id :
  shrinks reg reg' → is_Some (agents reg !! id) → agents reg' !! id = None → (count reg' < count reg)%nat.
Proof.
  intros Hs Hin Hout. unfold count. rewrite <- !size_dom. apply subset_size. split.
  - intros x. rewrite !elem_of_dom. intros [a Ha]. destruct (Hs x a Ha) as (a0 & ? & _). by exists a0.
  - intros Hsub. specialize (Hsub id). rewrite !elem_of_dom, Hout in Hsub. by destruct (Hsub Hin).
Qed.

Section termination.
Context (rank : Z → nat) (R : nat).

Definition kill_fuel (fuel : nat) (id : Z) (reg : AgentRegistry) : Prop :=
  (1 ≤ fuel)%nat ∧
  (is_Some (agents reg !! id) → (count reg * (R + 4) + (R + 2 - rank id) ≤ fuel)%nat).

Lemma kill_all_total fuel (r n : nat) :
  (∀ id reg, linked reg → ranked rank R reg → kill_fuel fuel id reg → is_Some (kill fuel id reg)) →
  (1 ≤ fuel)%nat → (n * (R + 4) + (R + 1 - r) ≤ fuel)%nat →
  ∀ cs reg, linked reg → ranked rank R reg → (count reg ≤ n)%nat →
    (∀ c, c ∈ cs → is_Some (agents reg !! c) → (r < rank c)%nat) → is_Some (kill_all fuel cs reg).
Proof.
  intros IH H1 Hfuel cs. induction cs as [|c cs IHcs]; intros reg HL Hr Hn Hcs; [by eexists|].
  rewrite kill_all_cons. destruct (IH c reg) as [[res reg1] Hk]; [done|done| |].
  - split; [done|]. intros Hc. assert (r < rank c)%nat by (apply Hcs; [set_solver|done]).
    assert (count reg * (R + 4) ≤ n * (R + 4))%nat by (apply Nat.mul_le_mono_r; done). lia.
  - rewrite Hk. destruct (proj1 (supervision_good fuel) _ _ _ _ HL Hk) as [(HL1 & Hs & _) _].
    apply IHcs; [done|by eapply ranked_shrinks|pose proof (shrinks_count _ _ Hs); lia|].
    intros c' Hc' [ac Hac]. destruct (Hs c' ac Hac) as (ac0 & Hac0 & _). apply Hcs; [set_solver|by exists ac0].
Qed.

Lemma supervision_total fuel :
  (∀ id reg, linked reg → ranked rank R reg → kill_fuel fuel id reg → is_Some (kill fuel id reg)) ∧
  (∀ p d reg, linked reg → ranked rank R reg → (fuel_bound R reg ≤ fuel)%nat →
     is_Some (notify_child_death fuel p d reg)) ∧
  (∀ id reg, linked reg → ranked rank R reg → is_Some (agents reg !! id) →
     (fuel_bound R reg ≤ S fuel)%nat → is_Some (escalate fuel id reg)).
Proof.
  unfold fuel_bound. induction fuel as [|fuel (IHk & IHn & IHe)].
  { split; [|split]; intros; [unfold kill_fuel in *|..]; lia. }
  split; [|split].
  - intros id reg HL Hr [_ Hfuel]. rewrite kill_S. unfold get.
    destruct (agents reg !! id) as [ag|] eqn:Eg; [|by eexists].
    specialize (Hfuel ltac:(by eexists)). destruct (Hr id ag Eg) as [Hrk Hch].
    assert (good reg (update reg id (set_agent_state ADead))) as Hg1 by by apply update_good.
    destruct (kill_all_total fuel (rank id) (count reg) IHk ltac:(lia) ltac:(lia)
      (a_children ag) (update reg id (set_agent_state ADead))) as [reg2 Hk].
    + apply Hg1.
    + eapply ranked_shrinks; [apply Hg1|done].
    + apply shrinks_count, Hg1.
    + intros c Hc [ac Hac]. destruct (proj1 (proj2 Hg1) c ac Hac) as (ac0 & ? & _).
      apply Hch; [done|by exists ac0].
    + rewrite Hk. cbv zeta. destruct (a_parent ag) as [p|] eqn:Ep; [|by eexists].
      destruct (kill_all_good fuel (proj1 (supervision_good fuel)) _ _ _ (proj1 Hg1) Hk) as [Hg2 Hdead].
      pose proof (good_trans _ _ _ Hg1 Hg2) as Hg12.
      destruct (detach_good reg2 (Some p) id (proj1 Hg12)) as [Hg4 Hnone].
      { intros a c Ha Hc. apply Hdead. destruct (proj1 (proj2 Hg12) id a Ha) as (a0 & Ha0 & _ & _ & Hsub).
        simplify_eq. set_solver. }
      { intros a Ha. destruct (proj1 (proj2 Hg12) id a Ha) as (a0 & Ha0 & -> & _). congruence. }
      pose proof (good_trans _ _ _ Hg12 Hg4) as Hg.
      set (reg4 := snd (unregister (leave_parent reg2 (Some p) id) id)) in *.
      assert (count reg4 < count reg)%nat by (eapply (shrinks_count_lt _ _ id); [apply Hg|by eexists|done]).
      destruct (IHn p id reg4) as [reg5 ->]; [apply Hg4|eapply ranked_shrinks; [apply Hg|done]| |by eexists].
      assert (S (count reg4) * (R + 4) ≤ count reg * (R + 4))%nat by (apply Nat.mul_le_mono_r; lia). lia.
  - intros p d reg HL Hr Hfuel. cbn [notify_child_death]; unfold notify_child_death_with. unfold get.
    destruct (agents reg !! p) as [ap|] eqn:Ep; [|by eexists].
    assert (is_Some (escalate fuel p reg)) as He by (apply IHe; [done|done|by eexists|lia]).
    destruct (a_max_restarts ap <=? a_restart_count ap); [done|].
    by destruct (restart_policy (a_config ap)).
  - intros id reg HL Hr [ag Hag] Hfuel. cbn [escalate]; unfold escalate_with.
    destruct (IHk id reg HL Hr) as [[r reg1] Hk]; [split; [|intros _]; lia|]. rewrite Hk.
    destruct (proj1 (supervision_good fuel) _ _ _ _ HL Hk) as [Hg Hnone].
    destruct (get reg id ≫= a_parent) as [gp|]; [|by eexists].
    apply IHn; [apply Hg|eapply ranked_shrinks; [apply Hg|done]|].
    assert (count reg1 < count reg)%nat by (eapply (shrinks_count_lt _ _ id); [apply Hg|by eexists|done]).
    assert (S (count reg1) * (R + 4) ≤ count reg * (R + 4))%nat by (apply Nat.mul_le_mono_r; lia). lia.
Qed.
End termination.

(** ** Spawning *)

(** The registry part of spawn: a fresh entry, and its id on the parent's list. *)
Definition new_agent (id : Z) (config : AgentConfig) (parent_id : option Z) : Agent :=
  {| a_id := id; a_config := config; a_state := ARunning; a_parent := parent_id; a_children := [];
     a_restart_count := 0; a_max_restarts := 5 |}.

Definition enroll (reg : AgentRegistry) (id : Z) (config : AgentConfig) (parent_id : option Z)
    : AgentRegistry :=
  let reg1 := register reg (new_agent id config parent_id) in
  match parent_id with
  | Some parent => update reg1 parent (λ a, set_children (a_children a ++ [id]) a)
  | None => reg1
  end.

(** "Check parent's child limit"; an unknown parent passes. *)
Definition at_limit (reg : AgentRegistry) (parent_id : option Z) : bool :=
  match parent_id ≫= get reg with
  | Some parent_agent =>
      bool_decide (max_children (resource_limits (a_config parent_agent)) ≤ length (a_children parent_agent))%nat
  | None => false
  end.

Section spawn.
Context {PT : Type} `{!Mapper PT}.

Record World : Type := mkWorld { w_k : Kernel; w_reg : AgentRegistry; w_pt : PT }.

(** lifecycle::spawn; [entry] and [trampoline] are code addresses. *)
Definition spawn (parent_id : option Z) (config : AgentConfig) (entry trampoline : Z)
    : cmd World string Z :=
  let! w := get_state in
  if at_limit (w_reg w) parent_id then throw "parent has reached max children" else
  let k := w_k w in
  let! '(task, env) := lift_outcome (task_new (cfg_name config) Normal entry trampoline
                         {| e_ids := k_ids k; e_frames := k_frames k; e_pt := w_pt w |}) in
  let agent_id := t_id task in
  let k1 := register_mailbox agent_id (set_frames (set_ids k (e_ids env)) (e_frames env)) in
  let reg := enroll (w_reg w) agent_id config parent_id in
  let! '(s, ctxs) := lift_outcome (Sched.spawn (k_sched k1) (k_contexts k1) task) in
  let! _ := put_state {| w_k := set_contexts (set_sched k1 s) ctxs; w_reg := reg; w_pt := e_pt env |} in
  ret agent_id.
End spawn.
Arguments World : clear implicits.

(** ** The agent tree *)
Record tree_wf (reg : AgentRegistry) : Prop := {
  tree_ids : ∀ x a, agents reg !! x = Some a → a_id a = x;
  tree_linked : linked reg;
  tree_exact : exact_children reg;
  tree_closed : ∀ x a p, agents reg !! x = Some a → a_parent a = Some p → is_Some (agents reg !! p);
  tree_ranked : ∃ rank R, ranked rank R reg;
}.

Inductive tree_step (reg : AgentRegistry) : AgentRegistry → Prop :=
| ts_spawn id config parent_id :
    agents reg !! id = None → (∀ p, parent_id = Some p → is_Some (agents reg !! p)) →
    tree_step reg (enroll reg id config parent_id)
| ts_kill fuel id r reg' : kill fuel id reg = Some (r, reg') → tree_step reg reg'
| ts_suspend id r reg' : suspend id reg = Ret (r, reg') → tree_step reg reg'
| ts_resume id r reg' : resume id reg = Ret (r, reg') → tree_step reg reg'.

(** [x] is [id] or has it among its ancestors. *)
Inductive descends (reg : AgentRegistry) (id : Z) : Z → Prop :=
| descends_refl : descends reg id id
| descends_step x a y :
    agents reg !! x = Some a → a_parent a = Some y → descends reg id y → descends reg id x.

(** Lookups after [enroll]: the new agent, its parent with one more child, everybody else. *)
Lemma lookup_enroll reg id config parent_id x a :
  agents reg !! id = None → parent_id ≠ Some id →
  agents (enroll reg id config parent_id) !! x = Some a →
  (x = id ∧ a = new_agent id config parent_id) ∨
  (x ≠ id ∧ ∃ a0, agents reg !! x = Some a0 ∧ a_id a = a_id a0 ∧ a_parent a = a_parent a0 ∧
     a_children a = if decide (parent_id = Some x) then a_children a0 ++ [id] else a_children a0).
Proof.
  intros Hid Hp. unfold enroll. destruct parent_id as [p|]; simpl.
  - rewrite lookup_alter. case_decide as Hx.
    + subst p. rewrite lookup_insert_ne by congruence. intros (a0 & Ha0 & ->)%fmap_Some.
      right. split; [congruence|]. exists a0. simpl. by rewrite decide_True.
    + rewrite lookup_insert. case_decide as Hi; [intros [= <-]; auto|]. intros Ha. right.
      split; [done|]. exists a. by rewrite decide_False by congruence.
  - rewrite lookup_insert. case_decide as Hi; [intros [= <-]; auto|]. intros Ha. right.
    split; [done|]. by exists a.
Qed.

Lemma lookup_enroll_self reg id config parent_id :
  parent_id ≠ Some id → agents (enroll reg id config parent_id) !! id = Some (new_agent id config parent_id).
Proof.
  intros Hne. unfold enroll. destruct parent_id as [p|]; simpl.
  - rewrite lookup_alter_ne by congruence. apply lookup_insert_eq.
  - apply lookup_insert_eq.
Qed.

Lemma is_Some_enroll reg id config parent_id x :
  is_Some (agents (enroll reg id config parent_id) !! x) ↔ x = id ∨ is_Some (agents reg !! x).
Proof.
  unfold enroll. destruct parent_id; simpl; rewrite ?lookup_alter_is_Some, lookup_insert_is_Some;
    destruct (decide (id = x)); intuition congruence.
Qed.

Lemma enroll_exact reg id config parent_id :
  exact_children reg → agents reg !! id = None → parent_id ≠ Some id → exact_children (enroll reg id config parent_id).
Proof.
  intros Hex Hnew Hself x a Hx.
  assert (Hkeep : ∀ c ac, agents reg !! c = Some ac → ∃ ac', agents (enroll reg id config parent_id) !! c = Some ac' ∧ a_parent ac' = a_parent ac).
  { intros c ac Hac. destruct (proj2 (is_Some_enroll reg id config parent_id c)) as [ac' Hac']; [right; by eexists|].
    exists ac'. split; [done|]. destruct (lookup_enroll reg id config parent_id c ac' Hnew Hself Hac') as [[-> _]|(_ & a0 & Ha0 & _ & -> & _)]; congruence. }
  destruct (lookup_enroll reg id config parent_id x a Hnew Hself Hx) as [[-> ->]|(Hne & a0 & Ha0 & _ & _ & Hch)].
  - split; [apply NoDup_nil_2|]. intros c Hc. by apply elem_of_nil in Hc.
  - destruct (Hex x a0 Ha0) as [Hnd Hc0]. assert (id ∉ a_children a0) as Hid by (intros Hin; destruct (Hc0 id Hin) as (? & ? & _); congruence).
    rewrite Hch. split; [case_decide; [|done]; apply NoDup_app; split; [done|]; split; [|apply NoDup_singleton]|].
    + intros c Hc ->%list_elem_of_singleton. done.
    + intros c Hc. assert (c ∈ a_children a0 ∨ c = id ∧ parent_id = Some x) as [Hin|[-> Hp]].
      { case_decide; [|by left]. apply elem_of_app in Hc as [?|Hc%list_elem_of_singleton]; [by left|by right]. }
      * destruct (Hc0 c Hin) as (ac & Hac & Hp). destruct (Hkeep c ac Hac) as (ac' & ? & ?). exists ac'. split; [done|congruence].
      * exists (new_agent id config parent_id). split; [|done]. apply lookup_enroll_self. congruence.
Qed.

Lemma enroll_wf reg id config parent_id :
  tree_wf reg → agents reg !! id = None → (∀ p, parent_id = Some p → is_Some (agents reg !! p)) →
  tree_wf (enroll reg id config parent_id).
Proof.
  intros [Hids HL Hex Hcl (rank & R & Hr)] Hnew Hpar.
  assert (parent_id ≠ Some id) as Hself.
  { intros ->. destruct (Hpar id eq_refl). congruence. }
  pose proof (λ x a, lookup_enroll reg id config parent_id x a Hnew Hself) as Hlook.
  split.
  - intros x a Hx. destruct (Hlook _ _ Hx) as [[-> ->]|(_ & a0 & Ha0 & -> & _)]; [done|by apply Hids].
  - intros x a p ap Hx Hp Hap.
    destruct (Hlook _ _ Hx) as [[-> ->]|(Hne & a0 & Ha0 & _ & Ep & _)];
      destruct (Hlook _ _ Hap) as [[-> ->]|(Hne' & ap0 & Hap0 & _ & _ & ->)].
    + simpl in Hp. congruence.
    + simpl in Hp. rewrite decide_True by done. set_solver.
    + destruct (Hcl x a0 id Ha0) as [? ?]; congruence.
    + assert (x ∈ a_children ap0) by (eapply (HL x a0 p); congruence).
      destruct (decide _); set_solver.
  - by apply enroll_exact.
  - intros x a p Hx Hp. apply is_Some_enroll.
    destruct (Hlook _ _ Hx) as [[-> ->]|(_ & a0 & Ha0 & _ & Ep & _)]; right; [by apply Hpar|].
    eapply Hcl; [done|congruence].
  - exists (λ x, if decide (x = id) then S R else rank x), (S R). intros x a Hx.
    destruct (Hlook _ _ Hx) as [[-> ->]|(Hne & a0 & Ha0 & _ & _ & Hch)].
    + rewrite decide_True by done. split; [lia|]. simpl. set_solver.
    + destruct (Hr x a0 Ha0) as [Hrk Hc0]. split; [rewrite decide_False by done; lia|].
      intros c Hc Hreg. cbv beta. rewrite (decide_False (P := x = id)) by done.
      destruct (decide (c = id)) as [_|Hcid]; [lia|]. apply is_Some_enroll in Hreg as [?|Hreg]; [done|].
      apply Hc0; [|done]. rewrite Hch in Hc. destruct (decide _); [|done]. set_solver.
Qed.

Lemma good_wf reg reg' :
  tree_wf reg → good reg reg' → tree_wf reg'.
Proof.
  intros [Hids HL Hex Hcl (rank & R & Hr)] (HL' & Hs & Ho & Hex'). split; [|done|by auto| |].
  - intros x a Hx. destruct (Hs x a Hx) as (a0 & Ha0 & _ & [_ ->] & _). by apply Hids.
  - intros x a p Hx Hp. eapply Ho; [done|done|]. destruct (Hs x a Hx) as (a0 & Ha0 & Ep & _).
    eapply Hcl; [done|congruence].
  - exists rank, R. by eapply ranked_shrinks.
Qed.

Lemma kill_good fuel id reg r reg' :
  linked reg → kill fuel id reg = Some (r, reg') → good reg reg' ∧ agents reg' !! id = None.
Proof. apply supervision_good. Qed.

Lemma kill_result fuel id reg r reg' :
  kill fuel id reg = Some (r, reg') →
  r = match get reg id with Some _ => Ok () | None => Err "agent not found" end.
Proof.
  destruct fuel as [|fuel]; [done|]. rewrite kill_S. destruct (get reg id) as [ag|]; [|by intros [= <-]].
  destruct (kill_all _ _ _); [|done]. cbv zeta. destruct (a_parent ag); [|by intros [= <-]].
  destruct (notify_child_death _ _ _ _); [|done]. by intros [= <-].
Qed.

Lemma mark_wf reg id st : tree_wf reg → tree_wf (update reg id (set_agent_state st)).
Proof. intros Hwf. eapply good_wf; [done|]. apply update_good; [apply Hwf|done]. Qed.

Lemma tree_step_wf reg reg' : tree_wf reg → tree_step reg reg' → tree_wf reg'.
Proof.
  intros Hwf [id config par Hnew Hpar|fuel id r r' H|id r r' H|id r r' H].
  - by apply enroll_wf.
  - eapply good_wf; [done|]. apply (kill_good _ _ _ _ _ (tree_linked _ Hwf) H).
  - unfold suspend, cmd_bind, get_state, ok_or, put_state in H.
    destruct (get reg id); simplify_eq; [by apply mark_wf|done].
  - unfold resume, cmd_bind, get_state, ok_or, put_state in H.
    destruct (get reg id); simplify_eq; [by apply mark_wf|done].
Qed.

Lemma registry_new_wf : tree_wf registry_new.
Proof. split; try done. by exists (λ _, O), O. Qed.

(** Whoever stays keeps all ancestors that were registered. *)
Lemma descends_gone reg reg' id x :
  tree_wf reg → good reg reg' → agents reg' !! id = None → descends reg id x → agents reg' !! x = None.
Proof.
  intros Hwf (_ & Hs & Ho & _) Hid Hd. induction Hd as [|x a y Hx Hp _ IH]; [done|].
  destruct (agents reg' !! x) as [a'|] eqn:E; [|done]. exfalso.
  destruct (Hs x a' E) as (a0 & Ha0 & Ep & _). simplify_eq.
  destruct (Ho x a' y E) as [ay Hay]; [congruence| |congruence]. by eapply (tree_closed _ Hwf).
Qed.

(** With enough fuel kill returns, and always the same. *)
Lemma kill_total reg id : tree_wf reg → ∃ bound v, ∀ fuel, (bound ≤ fuel)%nat → kill fuel id reg = Some v.
Proof.
  intros Hwf. destruct (tree_ranked _ Hwf) as (rank & R & Hr).
  destruct (proj1 (supervision_total rank R (S (fuel_bound R reg))) id reg (tree_linked _ Hwf) Hr)
    as [v Hk]; [split; [lia|]; unfold fuel_bound; lia|].
  exists (S (fuel_bound R reg)), v. intros fuel Hf. by eapply kill_mono.
Qed.

(** *** Properties *)

(** C18: the registry is a forest.  Every registry reached from the empty one by registering
    agents under registered parents, killing (with the supervision it triggers), suspending and
    resuming has entries under their own ids, all parents registered, every agent on its
    parent's list, every list has each child once and nobody else, and there is no cycle among the
    lists. *)
Theorem tree_reachable_wf (reg : AgentRegistry) : rtc tree_step registry_new reg → tree_wf reg.
Proof.
  intros H. refine (rtc_ind_r tree_wf registry_new _ _ reg H); [apply registry_new_wf|].
  intros r1 r2 _ Hs Hwf. by eapply tree_step_wf.
Qed.

(** C17: kill terminates and removes the whole subtree.  On a well-formed registry, whatever the
    restart policies and however notifications and escalations nest, kill returns the same
    result for every fuel from some bound on: Ok exactly for a registered agent; afterwards
    neither the agent nor any of its descendants is registered, nobody else has changed parent
    or configuration, and the registry is a forest again. *)
Theorem kill_removes_subtree (reg : AgentRegistry) (id : Z) :
  tree_wf reg →
  ∃ bound r reg', (∀ fuel, (bound ≤ fuel)%nat → kill fuel id reg = Some (r, reg')) ∧
    (r = Ok () ↔ is_Some (get reg id)) ∧ tree_wf reg' ∧
    (∀ x, descends reg id x → get reg' x = None) ∧
    (∀ x a', get reg' x = Some a' →
       ∃ a, get reg x = Some a ∧ a_parent a' = a_parent a ∧ a_config a' = a_config a).
Proof.
  intros Hwf. destruct (kill_total reg id Hwf) as (bound & [r reg'] & Hall). pose proof (Hall bound (le_n _)) as Hk.
  destruct (kill_good _ _ _ _ _ (tree_linked _ Hwf) Hk) as [Hg Hnone].
  exists bound, r, reg'. split; [done|].
  split; [|split; [by eapply good_wf|split]].
  - rewrite (kill_result _ _ _ _ _ Hk). destruct (get reg id); split; intros Hx;
      (done || by eexists || by destruct Hx).
  - intros x. by apply descends_gone.
  - intros x a' Hx. destruct Hg as (_ & Hs & _). destruct (Hs x a' Hx) as (a & Ha & Ep & [Ec _] & _).
    by exists a.
Qed.

Lemma enroll_limit reg id config p ap' :
  at_limit reg (Some p) = false → agents reg !! id = None → p ≠ id →
  agents (enroll reg id config (Some p)) !! p = Some ap' →
  (length (a_children ap') ≤ max_children (resource_limits (a_config ap')))%nat.
Proof.
  intros Hl Hid Hne. simpl. rewrite lookup_alter_eq, lookup_insert_ne by done.
  intros (ap & Hap & ->)%fmap_Some. unfold at_limit, get in Hl. simpl in Hl. rewrite Hap in Hl.
  simpl. rewrite length_app. simpl. apply bool_decide_eq_false in Hl. lia.
Qed.

Definition w_sys {PT} (w : World PT) : sys := (k_sched (w_k w), k_contexts (w_k w), k_ids (w_k w)).

Lemma spawn_effect {PT : Type} `{!Mapper PT, !MapperLaws PT} (parent_id : option Z)
    (config : AgentConfig) (entry trampoline : Z) (w w' : World PT) (res : result string Z) :
  sys_wf (w_sys w) → spawn parent_id config entry trampoline w = Ret (res, w') →
  match res with
  | Err _ => w' = w ∧ at_limit (w_reg w) parent_id = true
  | Ok id =>
      ¬ in_use (k_ids (w_k w)) id ∧ sys_wf (w_sys w') ∧
      (∃ t, t_id t = id ∧ t_state t = Ready ∧ t_priority t = Normal ∧
            abstract (k_sched (w_k w')) =
              (enqueue t (ready (k_sched (w_k w))), current (k_sched (w_k w)), blocked (k_sched (w_k w)))) ∧
      (∃ ctx, k_contexts (w_k w') !! Z.to_nat id = Some ctx ∧ rip ctx = trampoline ∧ r12 ctx = entry) ∧
      k_mailboxes (w_k w') = <[id := []]> (k_mailboxes (w_k w)) ∧
      w_reg w' = enroll (w_reg w) id config parent_id ∧
      (parent_id ≠ Some id → get (w_reg w') id = Some (new_agent id config parent_id)) ∧
      (∀ p ap, parent_id = Some p → p ≠ id → get (w_reg w) id = None → get (w_reg w') p = Some ap →
         (length (a_children ap) ≤ max_children (resource_limits (a_config ap)))%nat)
  end.
Proof.
  intros Hwf H. unfold spawn, cmd_bind, get_state in H.
  destruct (at_limit (w_reg w) parent_id) eqn:El; [unfold throw in H; by simplify_eq|].
  unfold lift_outcome, put_state, ret in H.
  destruct (task_new _ _ _ _ _) as [[task env]|] eqn:Et; [|done]. cbn [k_sched k_contexts] in H.
  simpl in H. destruct (Sched.spawn _ _ _) as [[s ctxs]|] eqn:Es; simplify_eq/=.
  apply task_new_inv in Et as (ids' & bottom & Hal & _ & _ & Hmap & _ & Hst & Hpr & _ & _ & Hctx).
  apply map_stack_spec in Hmap as (_ & Hids & _). simpl in Hal, Hids.
  pose proof Hwf as (Hs & Hidwf & Huse & Hlen).
  destruct (ids_alloc_spec _ _ _ Hidwf Hal) as (_ & Hfresh & Hin).
  assert (t_id task ∉ Sched.all_ids (k_sched (w_k w))) as Hnew.
  { intros Hx. rewrite Forall_forall in Huse. by apply Hfresh, Huse. }
  assert (in_use ids' (t_id task)) as [Hpos _] by (apply Hin; by right).
  destruct (spawn_spec _ _ _ _ _ Hs Es Hst (proj1 Hpos) Hnew) as (_ & Habs & _ & ->).
  split; [done|]. split.
  { rewrite Hids. exact (sys_step_wf (w_sys w) _ Hwf (step_spawn _ _ _ _ _ _ _ Hal Hst Es)). }
  split; [by exists task|]. split.
  { eexists. simpl in Hlen. split; [apply list_lookup_insert_eq|by rewrite Hctx].
    rewrite Hlen. unfold Sched.spawn in Es. destruct (t_id task <? MAX_TASKS) eqn:Elt; [|done].
    unfold MAX_TASKS in Elt. lia. }
  split; [done|]. split; [done|]. split; [apply lookup_enroll_self|].
  intros p ap -> Hne Hnone. by apply enroll_limit.
Qed.

(** C33: spawning an agent.  The call fails only for a parent at its child limit, and then changes
    nothing.  On success the agent has an id that was not in use; a Ready task of normal
    priority with that id is in the ready list and its stored context starts the trampoline with
    the entry point; its mailbox exists and is empty; it is registered under its parent, which
    stays within its child limit; and the scheduler invariant holds again. *)
Theorem agent_spawn_effect {PT : Type} `{!Mapper PT, !MapperLaws PT} (parent_id : option Z)
    (config : AgentConfig) (entry trampoline : Z) (w w' : World PT) (res : result string Z) :
  sys_wf (w_sys w) → spawn parent_id config entry trampoline w = Ret (res, w') →
  match res with
  | Err _ => w' = w ∧ at_limit (w_reg w) parent_id = true
  | Ok id =>
      ¬ in_use (k_ids (w_k w)) id ∧ sys_wf (w_sys w') ∧
      (∃ t, t_id t = id ∧ t_state t = Ready ∧ t_priority t = Normal ∧
            abstract (k_sched (w_k w')) =
              (enqueue t (ready (k_sched (w_k w))), current (k_sched (w_k w)), blocked (k_sched (w_k w)))) ∧
      (∃ ctx, k_contexts (w_k w') !! Z.to_nat id = Some ctx ∧ rip ctx = trampoline ∧ r12 ctx = entry) ∧
      k_mailboxes (w_k w') = <[id := []]> (k_mailboxes (w_k w)) ∧
      w_reg w' = enroll (w_reg w) id config parent_id ∧
      (parent_id ≠ Some id → get (w_reg w') id = Some (new_agent id config parent_id)) ∧
      (∀ p ap, parent_id = Some p → p ≠ id → get (w_reg w) id = None → get (w_reg w') p = Some ap →
         (length (a_children ap) ≤ max_children (resource_limits (a_config ap)))%nat)
  end.
Proof. apply spawn_effect. Qed.

(** *** Witnesses *)
Definition cfg (name : string) (policy : RestartPolicy) : AgentConfig :=
  mkConfig name None (Local "m") [] [] policy default_limits.

(** 1 supervises 2, which supervises 3. *)
Definition demo_tree (p1 p2 : RestartPolicy) : AgentRegistry :=
  enroll (enroll (enroll registry_new 1 (cfg "root" p1) None) 2 (cfg "mid" p2) (Some 1))
    3 (cfg "leaf" Permanent) (Some 2).

Lemma demo_tree_steps p1 p2 : rtc tree_step registry_new (demo_tree p1 p2).
Proof.
  eapply rtc_l; [apply (ts_spawn _ 1 (cfg "root" p1) None); [reflexivity|discriminate]|].
  eapply rtc_l; [apply (ts_spawn _ 2 (cfg "mid" p2) (Some 1)); [reflexivity|intros p [= <-]; by eexists]|].
  eapply rtc_l; [apply (ts_spawn _ 3 (cfg "leaf" Permanent) (Some 2)); [reflexivity|intros p [= <-]; by eexists]|].
  apply rtc_refl.
Qed.

Lemma demo_tree_wf p1 p2 : tree_wf (demo_tree p1 p2).
Proof.
  refine (rtc_ind_r tree_wf registry_new _ _ _ (demo_tree_steps p1 p2)); [apply registry_new_wf|].
  intros r1 r2 _ Hs Hwf. by eapply tree_step_wf.
Qed.

Lemma tree_reachable_wf_witness : tree_wf (demo_tree RestartOne Escalate).
Proof. apply tree_reachable_wf. apply demo_tree_steps. Defined.

Lemma kill_removes_subtree_witness :
  ∃ bound r reg', (∀ fuel, (bound ≤ fuel)%nat → kill fuel 2 (demo_tree RestartOne Escalate) = Some (r, reg')) ∧
    get reg' 2 = None ∧ get reg' 3 = None.
Proof.
  destruct (kill_removes_subtree (demo_tree RestartOne Escalate) 2 (demo_tree_wf _ _))
    as (bound & r & reg' & Hk & _ & _ & Hd & _).
  exists bound, r, reg'. split; [exact Hk|]. split; apply Hd; [constructor|].
  eapply (descends_step _ 2 3 _ 2); [reflexivity|reflexivity|constructor].
Defined.

Definition demo_world : World flat :=
  {| w_k := set_frames kernel_new (Some {| bitmap := [0x00]; total_frames := 8; next_free := 0 |});
     w_reg := registry_new; w_pt := ∅ |}.

(** The first agent of the example gets the id 1. *)
Lemma demo_spawn :
  match spawn None (cfg "root" Permanent) 0x1000 0x2000 demo_world with
  | Ret (Ok id, _) => Z.eqb id 1
  | _ => false
  end = true.
Proof. vm_compute. reflexivity. Qed.

Lemma agent_spawn_effect_witness :
  match spawn None (cfg "root" Permanent) 0x1000 0x2000 demo_world with
  | Ret (Ok id, w') => id = 1 ∧ k_mailboxes (w_k w') = <[id := []]> (k_mailboxes (w_k demo_world)) ∧
                       get (w_reg w') id = Some (new_agent id (cfg "root" Permanent) None)
  | _ => False
  end.
Proof.
  pose proof demo_spawn as Hid.
  destruct (spawn None (cfg "root" Permanent) 0x1000 0x2000 demo_world) as [[[id|e] w']|] eqn:E;
    [|discriminate Hid..].
  destruct (agent_spawn_effect None (cfg "root" Permanent) 0x1000 0x2000 demo_world w' (Ok id) sys_init_wf E)
    as (_ & _ & _ & _ & Hm & _ & Hr & _).
  split; [by apply Z.eqb_eq|]. split; [exact Hm|apply Hr; discriminate].
Defined.

(** *** Further observations *)

(** One death under an escalating supervisor is counted twice by the grandparent: kill of the
    supervisor notifies it, and escalate notifies it again. *)
Lemma escalation_counts_twice :
  match kill 20 3 (demo_tree RestartOne Escalate) with
  | Some (Ok _, reg') => a_restart_count <$> get reg' 1 = Some 2 ∧ get reg' 2 = None
  | _ => False
  end.
Proof. vm_compute. split; reflexivity. Qed.

(** Two agents of one name: removing the first makes the second unfindable. *)
Lemma duplicate_name_lost :
  let reg := register (register registry_new (new_agent 1 (cfg "a" Permanent) None))
               (new_agent 2 (cfg "a" Permanent) None) in
  find_by_name (snd (unregister reg 1)) "a" = None ∧
  is_Some (get (snd (unregister reg 1)) 2).
Proof. split; [reflexivity|by eexists]. Qed.
End Agents.
