(* ===== verification/Bytes.v ===== *)
(** * Bytes: little-endian integers, byte strings, UTF-8

    [to_le_bytes] and [from_le_bytes] of Rust's integer types, slices of byte arrays, the bytes of a
    string, and [core::str::from_utf8], as the storage, network and syscall code use them. *)

From S2P Require Import Prelude.

Definition byte_ok (b : Z) : Prop := 0 ≤ b < 256.

(** ** Little-endian integers *)

(** The [n] bytes of [v], least significant first. *)
Fixpoint to_le_bytes (n : nat) (v : Z) : list Z :=
  match n with
  | O => []
  | S n' => v mod 256 :: to_le_bytes n' (v / 256)
  end.

Fixpoint from_le_bytes (l : list Z) : Z :=
  match l with
  | [] => 0
  | b :: l' => b + 256 * from_le_bytes l'
  end.

Lemma length_to_le_bytes n v : length (to_le_bytes n v) = n.
Proof. revert v. induction n as [|n IH]; intros v; simpl; [done|]. by rewrite IH. Qed.

Lemma from_to_le_bytes n v : 0 ≤ v < 2 ^ (8 * Z.of_nat n) → from_le_bytes (to_le_bytes n v) = v.
Proof.
  revert v. induction n as [|n IH]; intros v Hv; simpl; [lia|].
  replace (8 * Z.of_nat (S n)) with (8 + 8 * Z.of_nat n) in Hv by lia.
  rewrite Z.pow_add_r in Hv by lia. change (2 ^ 8) with 256 in Hv.
  rewrite IH; [|split; [apply Z.div_pos; lia|apply Z.div_lt_upper_bound; lia]].
  rewrite (Z.div_mod v 256) at 3; lia.
Qed.

Lemma to_le_bytes_ok n v : Forall byte_ok (to_le_bytes n v).
Proof.
  revert v. induction n as [|n IH]; intros v; simpl; constructor; [|done].
  unfold byte_ok. apply Z.mod_pos_bound. lia.
Qed.

(** ** Slices *)

(** [&l[off..off+n]] when it is in range. *)
Definition slice (off n : nat) (l : list Z) : list Z := take n (drop off l).

Lemma slice_app_l off n l k : (off + n ≤ length l)%nat → slice off n (l ++ k) = slice off n l.
Proof.
  intros H. unfold slice. rewrite drop_app_le by lia. rewrite take_app_le; [done|].
  rewrite length_drop. lia.
Qed.

Lemma slice_app_r off n l k : (length l ≤ off)%nat → slice off n (l ++ k) = slice (off - length l) n k.
Proof. intros H. unfold slice. by rewrite drop_app_ge. Qed.

Lemma slice_all n l : length l = n → slice 0 n l = l.
Proof. intros <-. unfold slice. by rewrite drop_0, take_ge. Qed.

Lemma length_slice off n l : (off + n ≤ length l)%nat → length (slice off n l) = n.
Proof. intros H. unfold slice. rewrite length_take, length_drop. lia. Qed.

(** ** Strings as bytes *)
Definition byte_of_ascii (c : Ascii.ascii) : Z := Z.of_N (Ascii.N_of_ascii c).
Definition ascii_of_byte (b : Z) : Ascii.ascii := Ascii.ascii_of_N (Z.to_N b).

Fixpoint as_bytes (s : string) : list Z :=
  match s with
  | EmptyString => []
  | String c s' => byte_of_ascii c :: as_bytes s'
  end.

Fixpoint of_bytes (l : list Z) : string :=
  match l with
  | [] => EmptyString
  | b :: l' => String (ascii_of_byte b) (of_bytes l')
  end.

Lemma of_as_bytes s : of_bytes (as_bytes s) = s.
Proof.
  induction s as [|c s IH]; simpl; [done|]. rewrite IH. f_equal. unfold ascii_of_byte, byte_of_ascii.
  by rewrite N2Z.id, Ascii.ascii_N_embedding.
Qed.

Lemma as_of_bytes l : Forall byte_ok l → as_bytes (of_bytes l) = l.
Proof.
  induction 1 as [|b l Hb _ IH]; simpl; [done|]. rewrite IH. f_equal. unfold byte_of_ascii, ascii_of_byte, byte_ok in *.
  rewrite Ascii.N_ascii_embedding by lia. lia.
Qed.

Lemma as_bytes_ok s : Forall byte_ok (as_bytes s).
Proof.
  induction s as [|c s IH]; simpl; constructor; [|done]. unfold byte_ok, byte_of_ascii.
  pose proof (Ascii.N_ascii_bounded c). lia.
Qed.

Lemma as_bytes_app s t : as_bytes (s +:+ t) = as_bytes s ++ as_bytes t.
Proof.
  induction s as [|c s IH]; [done|]. change (byte_of_ascii c :: as_bytes (s +:+ t) = (byte_of_ascii c :: as_bytes s) ++ as_bytes t).
  by rewrite IH.
Qed.

#[global] Instance as_bytes_inj : Inj (=) (=) as_bytes.
Proof. intros s t H. by rewrite <- (of_as_bytes s), H, of_as_bytes. Qed.

(** ** core::str::from_utf8 *)
Definition between (lo hi b : Z) : bool := (lo <=? b) && (b <=? hi).

(** Well-formed UTF-8: no overlong form, no surrogate, nothing above U+10FFFF. *)
Fixpoint utf8_valid (l : list Z) : bool :=
  match l with
  | [] => true
  | b0 :: l1 =>
      if b0 <? 0x80 then utf8_valid l1
      else match l1 with
           | [] => false
           | b1 :: l2 =>
               if between 0xC2 0xDF b0 then between 0x80 0xBF b1 && utf8_valid l2
               else match l2 with
                    | [] => false
                    | b2 :: l3 =>
                        if between 0xE0 0xEF b0 then
                          between (if b0 =? 0xE0 then 0xA0 else 0x80) (if b0 =? 0xED then 0x9F else 0xBF) b1 &&
                          between 0x80 0xBF b2 && utf8_valid l3
                        else match l3 with
                             | [] => false
                             | b3 :: l4 =>
                                 between 0xF0 0xF4 b0 &&
                                 between (if b0 =? 0xF0 then 0x90 else 0x80) (if b0 =? 0xF4 then 0x8F else 0xBF) b1 &&
                                 between 0x80 0xBF b2 && between 0x80 0xBF b3 && utf8_valid l4
                             end
                    end
           end
  end.

(** The bytes a character that was cut off can lack; bytes that none of these complete are valid in
    no slice that starts with them. *)
Definition utf8_ends : list (list Z) := [[]; [0x80]; [0x80; 0x80]; [0x80; 0x80; 0x80]; [0xA0; 0x80]; [0x90; 0x80; 0x80]].
Definition utf8_broken (l : list Z) : bool := forallb (λ e, negb (utf8_valid (l ++ e))) utf8_ends.

Ltac cut_at e := exists e; split; [by apply (bool_decide_unpack _)|cbn; by repeat case_match].

Lemma utf8_completed n l t : (length l ≤ n)%nat → utf8_valid (l ++ t) = true → ∃ e, e ∈ utf8_ends ∧ utf8_valid (l ++ e) = true.
Proof.
  revert l. induction n as [|n IH]; intros [|b0 l] Hn H; simpl in Hn; try lia; try (exists []; by split; [left|]).
  cbn [app utf8_valid] in *. destruct (b0 <? 0x80); [by apply IH; [lia|]|].
  destruct l as [|b1 l]; cbn [app utf8_valid] in *.
  { destruct (between 0xC2 0xDF b0); [cut_at [0x80]|]. destruct t as [|t1 [|t2 t]]; try done.
    destruct (between 0xE0 0xEF b0); [destruct (b0 =? 0xE0) eqn:?, (b0 =? 0xED) eqn:?; try lia; first [cut_at [0x80; 0x80]|cut_at [0xA0; 0x80]]|].
    destruct t as [|t3 t]; [done|]. destruct (between 0xF0 0xF4 b0); [|done].
    destruct (b0 =? 0xF0) eqn:?, (b0 =? 0xF4) eqn:?; try lia; first [cut_at [0x80; 0x80; 0x80]|cut_at [0x90; 0x80; 0x80]]. }
  destruct (between 0xC2 0xDF b0); [destruct (between _ _ b1); [apply IH; [simpl in Hn; lia|done]|done]|].
  destruct l as [|b2 l]; cbn [app utf8_valid] in *.
  { destruct t as [|t2 t]; [done|]. destruct (between 0xE0 0xEF b0).
    { destruct (between _ _ b1); [cut_at [0x80]|done]. }
    destruct t as [|t3 t]; [done|]. destruct (between 0xF0 0xF4 b0), (between _ _ b1); try done. cut_at [0x80; 0x80]. }
  destruct (between 0xE0 0xEF b0);
    [destruct (between _ _ b1), (between _ _ b2); try done; apply IH; [simpl in Hn; lia|done]|].
  destruct l as [|b3 l]; cbn [app utf8_valid] in *.
  { destruct t as [|t3 t]; [done|]. destruct (between 0xF0 0xF4 b0), (between _ _ b1), (between _ _ b2); try done. cut_at [0x80]. }
  destruct (between 0xF0 0xF4 b0), (between _ _ b1), (between _ _ b2), (between _ _ b3); try done. apply IH; [simpl in Hn; lia|done].
Qed.

Lemma utf8_broken_spec l : utf8_broken l = true ↔ ∀ t, utf8_valid (l ++ t) = false.
Proof.
  unfold utf8_broken. rewrite forallb_forall. split; intros H.
  - intros t. destruct (utf8_valid (l ++ t)) eqn:Ht; [|done]. destruct (utf8_completed _ l t (le_n _) Ht) as (e & He & Hv).
    apply list_elem_of_In in He. apply H in He. by rewrite Hv in He.
  - intros e _. by rewrite H.
Qed.

(** [from_utf8(bytes).ok()]. *)
Definition from_utf8 (l : list Z) : option string := if utf8_valid l then Some (of_bytes l) else None.

Lemma from_utf8_as_bytes s : utf8_valid (as_bytes s) = true → from_utf8 (as_bytes s) = Some s.
Proof. intros H. unfold from_utf8. by rewrite H, of_as_bytes. Qed.

(** ** Decimal numbers contain no slash *)
Fixpoint no_char (c : Ascii.ascii) (s : string) : bool :=
  match s with
  | EmptyString => true
  | String d s' => negb (Ascii.eqb c d) && no_char c s'
  end.

Lemma no_char_split c s1 s2 t1 t2 :
  no_char c s1 = true → no_char c t1 = true →
  s1 +:+ String c s2 = t1 +:+ String c t2 → s1 = t1 ∧ s2 = t2.
Proof.
  revert t1. induction s1 as [|d s1 IH]; intros [|e t1] Hs Ht H.
  - by injection H.
  - injection H as <- _. simpl in Ht. by rewrite Ascii.eqb_refl in Ht.
  - injection H as -> _. simpl in Hs. by rewrite Ascii.eqb_refl in Hs.
  - change (String d (s1 +:+ String c s2) = String e (t1 +:+ String c t2)) in H. injection H as -> H.
    simpl in Hs, Ht. apply andb_true_iff in Hs as [_ Hs], Ht as [_ Ht].
    by destruct (IH t1 Hs Ht H) as [-> ->].
Qed.

Definition SLASH : Ascii.ascii := Ascii.ascii_of_N 47.

(** [format!("{}", n)] of a u64. *)
Definition fmt_u64 (n : Z) : string := pretty (Z.to_N n).

Lemma pretty_N_go_no_slash x s : no_char SLASH s = true → no_char SLASH (pretty_N_go x s) = true.
Proof.
  revert s. induction (N.lt_wf_0 x) as [x _ IH]; intros s Hs.
  destruct (decide (0 < x)%N) as [Hx|Hx].
  - rewrite pretty_N_go_step by done. apply IH; [by apply N.div_lt|].
    assert (∀ y, no_char SLASH (String (pretty_N_char y) s) = no_char SLASH s) as ->; [|done].
    intros y. unfold pretty_N_char. by repeat case_match.
  - assert (x = 0%N) as -> by lia. by rewrite pretty_N_go_0.
Qed.

Lemma fmt_u64_no_slash n : no_char SLASH (fmt_u64 n) = true.
Proof.
  unfold fmt_u64, pretty, pretty_N. case_decide; [done|]. by apply pretty_N_go_no_slash.
Qed.

Lemma fmt_u64_inj n m : 0 ≤ n → 0 ≤ m → fmt_u64 n = fmt_u64 m → n = m.
Proof. intros Hn Hm H. unfold fmt_u64 in H. apply (inj pretty) in H. lia. Qed.
