(* ===== verification/AgentTree.v ===== *)
(** * AgentTree: print_tree of agent/registry.rs

    The report of the registry: one line per agent, indented by its depth, children after their
    parent in the order of the parent's list. *)

From S2P Require Import Prelude Bytes Capability FrameAlloc Task Scheduler Kernel Agent.

Module AgentTree.
Import Agents.

(** [{:?}] of the derived Debug. *)
Definition debug_state (s : AgentState) : string :=
  match s with
  | Initializing => "Initializing"
  | ARunning => "Running"
  | Waiting => "Waiting"
  | Suspended => "Suspended"
  | ADead => "Dead"
  end.

(** The indentation and the line that println! ends. *)
Fixpoint indent (depth : nat) : string :=
  match depth with O => "" | S d => "  " +:+ indent d end.

Definition tree_line (depth : nat) (agent : Agent) : string :=
  indent depth +:+ "|- " +:+ cfg_name (a_config agent) +:+ " [id:" +:+ fmt_u64 (a_id agent) +:+ ", " +:+
  debug_state (a_state agent) +:+ ", restarts:" +:+ fmt_u64 (a_restart_count agent) +:+ "]".

(** [None] is exhausted fuel; each level of the recursion takes one unit. *)
Fixpoint print_subtree (fuel : nat) (self : AgentRegistry) (agent : Agent) (depth : nat) : option (list string) :=
  match fuel with
  | O => None
  | S fuel' =>
      foldl (λ acc child_id, acc ≫= λ out,
               match get self child_id with
               | Some child => (λ ls, out ++ ls) <$> print_subtree fuel' self child (depth + 1)
               | None => Some out
               end)
        (Some [tree_line depth agent]) (a_children agent)
  end.

Definition roots (self : AgentRegistry) : list Agent :=
  filter (λ a, a_parent a = None) (btree_iter_Z (agents self)).*2.

Definition print_tree (fuel : nat) (self : AgentRegistry) : option (list string) :=
  foldl (λ acc root, acc ≫= λ out, (λ ls, out ++ ls) <$> print_subtree fuel self root 0) (Some []) (roots self).

(** ** What the report has *)

(** [x] is [d] levels below [id]. *)
Inductive below (reg : AgentRegistry) (id : Z) : nat → Z → Prop :=
| below_refl : below reg id O id
| below_step d x a y : agents reg !! x = Some a → a_parent a = Some y → below reg id d y → below reg id (S d) x.

(** The entries of a part of the report: depth and agent of each line. *)
Record report (reg : AgentRegistry) (P : nat → Z → Prop) (es : list (nat * Agent)) : Prop := {
  rep_nodup : NoDup (a_id <$> es.*2);
  rep_sound : ∀ d a, (d, a) ∈ es → agents reg !! a_id a = Some a ∧ P d (a_id a);
  rep_complete : ∀ d x, P d x → is_Some (agents reg !! x) → x ∈ (a_id <$> es.*2);
}.

Lemma below_mid reg id c d x a :
  agents reg !! c = Some a → a_parent a = Some id → below reg c d x → below reg id (S d) x.
Proof.
  intros Hc Hp. induction 1 as [|d x ax y Hx Hpx _ IH]; [by econstructor; [..|constructor]|by econstructor].
Qed.

Lemma below_child reg id d x :
  below reg id (S d) x → ∃ c a, agents reg !! c = Some a ∧ a_parent a = Some id ∧ below reg c d x.
Proof.
  revert x. induction d as [|d IH]; intros x H; inversion H as [|d' x' a y Hx Hp Hy]; subst.
  - inversion Hy; subst. exists x, a. split; [done|]. split; [done|constructor].
  - destruct (IH y Hy) as (c & ac & Hc & Hpc & Hb). exists c, ac. split; [done|]. split; [done|]. by econstructor.
Qed.

Section tree.
Context (reg : AgentRegistry) (rank : Z → nat) (R : nat).
Hypothesis Hwf : tree_wf reg.
Hypothesis Hrank : ranked rank R reg.

Lemma below_rank id d x : is_Some (agents reg !! id) → below reg id d x → (rank id + d ≤ rank x)%nat.
Proof.
  intros Hid. induction 1 as [|d x a y Hx Hp Hb IH]; [lia|].
  destruct (tree_closed _ Hwf x a y Hx Hp) as [ay Hay]. destruct (Hrank y ay Hay) as [_ Hc].
  specialize (Hc x (tree_linked _ Hwf x a y ay Hx Hp Hay) ltac:(by eexists)). lia.
Qed.

(** Two agents with a common descendant are on one branch. *)
Lemma below_total c1 c2 d1 d2 x :
  below reg c1 d1 x → below reg c2 d2 x → (∃ d, below reg c1 d c2) ∨ (∃ d, below reg c2 d c1).
Proof.
  intros H1. revert d2. induction H1 as [|d1 x a y Hx Hp Hb IH]; intros d2 H2; [right; by eexists|].
  inversion H2 as [|d' x' a' y' Hx' Hp' Hb']; subst; [left; exists (S d1); by econstructor|].
  simplify_eq. by eapply IH.
Qed.

(** Different children of one agent have no descendant in common. *)
Lemma siblings_disjoint p c1 c2 a1 a2 d1 d2 x :
  agents reg !! c1 = Some a1 → agents reg !! c2 = Some a2 → a_parent a1 = p → a_parent a2 = p →
  below reg c1 d1 x → below reg c2 d2 x → c1 = c2.
Proof.
  assert (Hone : ∀ c c' a a' d, agents reg !! c = Some a → agents reg !! c' = Some a' → a_parent a = p →
            a_parent a' = p → below reg c d c' → c = c').
  { intros c c' a a' d Hc Hc' Hp Hp' Hb. inversion Hb as [|d' x' b y Hx Hpx Hby]; subst; [done|]. exfalso. simplify_eq.
    destruct (tree_closed _ Hwf c' a' y Hc' Hpx) as [ay Hay].
    pose proof (below_rank c d' y ltac:(by eexists) Hby).
    pose proof (below_rank y 1 c ltac:(by eexists) (below_step reg y 0 c a y Hc ltac:(congruence) (below_refl reg y))). lia. }
  intros H1 H2 Hp1 Hp2 Hb1 Hb2. destruct (below_total c1 c2 d1 d2 x Hb1 Hb2) as [[d Hd]|[d Hd]].
  - by eapply (Hone c1 c2).
  - symmetry. by eapply (Hone c2 c1).
Qed.

(** Depth [d] in a subtree printed from [depth]. *)
Definition printed (depth : nat) (id : Z) (d : nat) (x : Z) : Prop := (depth ≤ d)%nat ∧ below reg id (d - depth) x.

Definition print_all (fuel depth : nat) (out : option (list string)) (cs : list Agent) : option (list string) :=
  foldl (λ acc root, acc ≫= λ out, (λ ls, out ++ ls) <$> print_subtree fuel reg root depth) out cs.

Lemma forest_report fuel depth p cs out :
  (∀ a, a ∈ cs → agents reg !! a_id a = Some a ∧ a_parent a = p) → NoDup (a_id <$> cs) →
  (∀ a, a ∈ cs → ∃ es, print_subtree fuel reg a depth = Some (uncurry tree_line <$> es) ∧
                       report reg (printed depth (a_id a)) es) →
  ∃ es, print_all fuel depth (Some out) cs = Some (out ++ (uncurry tree_line <$> es)) ∧
        report reg (λ d x, ∃ a, a ∈ cs ∧ printed depth (a_id a) d x) es.
Proof.
  revert out. induction cs as [|a cs IH]; intros out Hcs Hnd Hsub.
  - exists []. rewrite app_nil_r. split; [done|]. split; [apply NoDup_nil_2|..].
    + intros d a Hin. by apply elem_of_nil in Hin.
    + intros d x (a & Hin & _). by apply elem_of_nil in Hin.
  - destruct (Hsub a) as (es1 & E1 & [Hnd1 Hs1 Hc1]); [by left|].
    change (print_all fuel depth (Some out) (a :: cs)) with (print_all fuel depth ((λ ls, out ++ ls) <$> print_subtree fuel reg a depth) cs).
    rewrite E1. cbn [fmap option_fmap option_map].
    apply NoDup_cons in Hnd as [Ha Hnd].
    destruct (IH (out ++ (uncurry tree_line <$> es1))) as (es2 & E2 & [Hnd2 Hs2 Hc2]);
      [intros b Hb; apply Hcs; by right|done|intros b Hb; apply Hsub; by right|].
    exists (es1 ++ es2). rewrite E2, fmap_app, <-app_assoc. split; [done|]. split; rewrite ?fmap_app.
    + apply NoDup_app. split; [done|]. split; [|done]. intros x H1 H2.
      apply list_elem_of_fmap in H1 as (a1 & -> & ([d1 ?] & -> & H1)%list_elem_of_fmap). simpl in H2.
      apply list_elem_of_fmap in H2 as (a2 & Heq & ([d2 ?] & -> & H2)%list_elem_of_fmap). simpl in Heq.
      destruct (Hs1 _ _ H1) as [_ [_ Hb1]]. destruct (Hs2 _ _ H2) as [_ (b & Hb & _ & Hb2)]. rewrite <-Heq in Hb2.
      apply Ha. destruct (Hcs a) as [? ?]; [by left|]. destruct (Hcs b) as [? ?]; [by right|].
      rewrite (siblings_disjoint p (a_id a) (a_id b) a b _ _ _ ltac:(done) ltac:(done) ltac:(done) ltac:(done) Hb1 Hb2).
      by apply list_elem_of_fmap_2.
    + intros d b [Hin|Hin]%elem_of_app.
      * destruct (Hs1 d b Hin) as [? ?]. split; [done|]. exists a. split; [by left|done].
      * destruct (Hs2 d b Hin) as [? (c & ? & ?)]. split; [done|]. exists c. split; [by right|done].
    + intros d x (b & [->|Hb]%elem_of_cons & Hp) Hx; apply elem_of_app; [left; by eapply Hc1|].
      right. eapply Hc2; [|done]. by exists b.
Qed.

(** The children of an agent, in order. *)
Lemma children_agents a :
  agents reg !! a_id a = Some a →
  ∃ cs, a_children a = a_id <$> cs ∧ ∀ c, c ∈ cs → agents reg !! a_id c = Some c ∧ a_parent c = Some (a_id a).
Proof.
  intros Ha. destruct (tree_exact _ Hwf _ a Ha) as [_ Hc]. induction (a_children a) as [|c cs IH].
  - exists []. split; [done|]. intros c Hin. by apply elem_of_nil in Hin.
  - destruct IH as (bs & -> & Hbs); [intros b Hb; apply Hc; by right|].
    destruct (Hc c) as (ac & Hac & Hp); [by left|]. exists (ac :: bs). pose proof (tree_ids _ Hwf c ac Hac) as Hid.
    split; [simpl; by rewrite Hid|]. intros b [->|Hb]%elem_of_cons; [by rewrite Hid|by apply Hbs].
Qed.

Lemma print_subtree_S fuel a depth cs :
  a_children a = a_id <$> cs → (∀ c, c ∈ cs → agents reg !! a_id c = Some c) →
  print_subtree (S fuel) reg a depth = print_all fuel (depth + 1) (Some [tree_line depth a]) cs.
Proof.
  intros Hch Hcs. simpl. rewrite Hch. generalize (Some [tree_line depth a]) as out. clear Hch.
  induction cs as [|c cs IH]; intros out; [done|]. simpl. unfold get at 2. rewrite Hcs by by left.
  apply IH. intros b Hb. apply Hcs. by right.
Qed.

Lemma subtree_report fuel a depth :
  agents reg !! a_id a = Some a → (R < fuel + rank (a_id a))%nat →
  ∃ es, print_subtree fuel reg a depth = Some (uncurry tree_line <$> es) ∧ report reg (printed depth (a_id a)) es.
Proof.
  revert a depth. induction fuel as [|fuel IH]; intros a depth Ha Hf; [destruct (Hrank _ a Ha); lia|].
  destruct (children_agents a Ha) as (cs & Hch & Hcs). rewrite (print_subtree_S fuel a depth cs Hch) by (intros c Hc; by apply Hcs).
  assert (Hdeep : ∀ c, c ∈ cs → (rank (a_id a) < rank (a_id c))%nat).
  { intros c Hc. destruct (Hrank _ a Ha) as [_ Hr]. apply Hr; [rewrite Hch; by apply list_elem_of_fmap_2|].
    eexists. by apply Hcs. }
  destruct (forest_report fuel (depth + 1) (Some (a_id a)) cs [tree_line depth a]) as (es & -> & [Hnd Hs Hc]); [done| | |].
  { rewrite <-Hch. by destruct (tree_exact _ Hwf _ a Ha). }
  { intros c Hc. apply IH; [by apply Hcs|]. specialize (Hdeep c Hc). lia. }
  exists ((depth, a) :: es). split; [done|]. split; simpl.
  - apply NoDup_cons. split; [|done]. intros Hin.
    apply list_elem_of_fmap in Hin as (b & Heq & ([d ?] & -> & Hin)%list_elem_of_fmap). simpl in Heq.
    destruct (Hs _ _ Hin) as [_ (c & Hcin & _ & Hb)]. rewrite <-Heq in Hb.
    pose proof (below_rank _ _ _ ltac:(eexists; by apply Hcs) Hb). specialize (Hdeep c Hcin). lia.
  - intros d b [Hin|Hin]%elem_of_cons.
    + injection Hin as -> ->. split; [done|]. split; [lia|]. rewrite Nat.sub_diag. constructor.
    + destruct (Hs d b Hin) as [? (c & Hcin & Hle & Hb)]. split; [done|]. split; [lia|].
      replace (d - depth)%nat with (S (d - (depth + 1))) by lia. destruct (Hcs c Hcin) as [? ?]. by eapply below_mid.
  - intros d x [Hle Hb] Hx. destruct (d - depth)%nat as [|k] eqn:Ed; [inversion Hb; by left|]. right.
    destruct (below_child reg _ _ _ Hb) as (c & ac & Hac & Hp & Hbc).
    pose proof (tree_linked _ Hwf _ _ _ _ Hac Hp Ha) as Hin. rewrite Hch in Hin.
    apply list_elem_of_fmap in Hin as (b & -> & Hb'). apply (Hc d); [|done]. exists b. split; [done|]. split; [lia|].
    by replace (d - (depth + 1))%nat with k by lia.
Qed.

(** Every agent is below a root. *)
Lemma below_root x a : agents reg !! x = Some a → ∃ r ar d, agents reg !! r = Some ar ∧ a_parent ar = None ∧ below reg r d x.
Proof.
  remember (rank x) as n eqn:En. revert x a En. induction (lt_wf n) as [n _ IH]. intros x a -> Hx.
  destruct (a_parent a) as [y|] eqn:Hp; [|exists x, a, O; split; [done|]; split; [done|constructor]].
  destruct (tree_closed _ Hwf x a y Hx Hp) as [ay Hay]. destruct (Hrank y ay Hay) as [_ Hc].
  specialize (Hc x (tree_linked _ Hwf x a y ay Hx Hp Hay) ltac:(by eexists)).
  destruct (IH (rank y) Hc y ay eq_refl Hay) as (r & ar & d & ? & ? & ?). exists r, ar, (S d).
  split; [done|]. split; [done|]. by econstructor.
Qed.

Lemma elem_of_roots a : a ∈ roots reg ↔ agents reg !! a_id a = Some a ∧ a_parent a = None.
Proof.
  unfold roots. rewrite list_elem_of_filter, list_elem_of_fmap. split.
  - intros [Hp ([k b] & -> & Hin)]. apply elem_of_btree_iter in Hin. simpl in *. by rewrite (tree_ids _ Hwf k b Hin).
  - intros [Ha Hp]. split; [done|]. exists (a_id a, a). by rewrite elem_of_btree_iter.
Qed.

Lemma ids_of_entries : a_id <$> (btree_iter_Z (agents reg)).*2 = (btree_iter_Z (agents reg)).*1.
Proof.
  rewrite <-list_fmap_compose. apply list_fmap_ext. intros i [k a] Hin. simpl.
  apply list_elem_of_lookup_2, elem_of_btree_iter in Hin. by apply (tree_ids _ Hwf).
Qed.

Lemma NoDup_roots : NoDup (a_id <$> roots reg).
Proof.
  eapply sublist_NoDup; [apply (NoDup_btree_iter_keys Z.le (agents reg))|]. rewrite <-ids_of_entries.
  apply fmap_sublist, sublist_filter.
Qed.

(** A report of everything below the roots has every agent. *)
Lemma report_all es :
  report reg (λ d x, ∃ a, a ∈ roots reg ∧ printed 0 (a_id a) d x) es → es.*2 ≡ₚ (map_to_list (agents reg)).*2.
Proof.
  intros [Hnd Hs Hc]. rewrite <-(btree_iter_Permutation Z.le). apply NoDup_Permutation.
  - by eapply NoDup_fmap_1.
  - eapply (NoDup_fmap_1 a_id). rewrite ids_of_entries. apply NoDup_btree_iter_keys.
  - intros a. rewrite !list_elem_of_fmap. split.
    + intros ([d b] & -> & Hin). destruct (Hs d b Hin) as [Ha _]. exists (a_id b, b). by rewrite elem_of_btree_iter.
    + intros ([k b] & -> & Hin). apply elem_of_btree_iter in Hin. simpl.
      destruct (below_root k b Hin) as (r & ar & d & Har & Hp & Hb). pose proof (tree_ids _ Hwf _ _ Har) as Hr.
      assert (k ∈ a_id <$> es.*2) as (b' & Hk & ([d' ?] & -> & Hin')%list_elem_of_fmap)%list_elem_of_fmap.
      { apply (Hc d); [|by eexists]. exists ar. split; [apply elem_of_roots; by rewrite Hr|]. split; [lia|].
        by rewrite Nat.sub_0_r, Hr. }
      simpl in Hk. exists (d', b). split; [done|]. destruct (Hs _ _ Hin') as [Hb' _]. rewrite <-Hk in Hb'. congruence.
Qed.
End tree.

(** More fuel does not change the report. *)
Lemma print_subtree_mono fuel reg a depth ls :
  print_subtree fuel reg a depth = Some ls → print_subtree (S fuel) reg a depth = Some ls.
Proof.
  revert a depth ls. induction fuel as [|fuel IH]; intros a depth ls; [done|].
  assert (Hstep : ∀ f, print_subtree (S f) reg a depth =
    foldl (λ acc child_id, acc ≫= λ out, match get reg child_id with
             | Some child => (λ ls, out ++ ls) <$> print_subtree f reg child (depth + 1) | None => Some out end)
      (Some [tree_line depth a]) (a_children a)) by done.
  rewrite (Hstep fuel), (Hstep (S fuel)). clear Hstep. generalize [tree_line depth a] as out. induction (a_children a) as [|c cs IHc]; intros out; [done|].
  cbn [foldl mbind option_bind]. destruct (get reg c) as [child|]; [|apply IHc].
  destruct (print_subtree fuel reg child (depth + 1)) as [ls'|] eqn:E.
  - rewrite (IH _ _ _ E). apply IHc.
  - intros H. exfalso. clear -H. induction cs; [done|auto].
Qed.

Lemma print_tree_mono f f' reg ls : print_tree f reg = Some ls → (f ≤ f')%nat → print_tree f' reg = Some ls.
Proof.
  intros H. induction 1 as [|f' _ IH]; [done|]. revert IH. unfold print_tree. generalize (@nil string) as out.
  induction (roots reg) as [|a cs IHc]; intros out; [done|]. cbn [foldl mbind option_bind].
  destruct (print_subtree f' reg a 0) as [ls'|] eqn:E.
  - rewrite (print_subtree_mono _ _ _ _ _ E). apply IHc.
  - intros Hn. exfalso. clear -Hn. induction cs; [done|auto].
Qed.

(** *** Properties *)

(** C34: print_tree terminates and reports every agent once.  On a well-formed registry, for every
    fuel from some bound on, the report has exactly one line for each registered agent, with its
    name, id, state and restart count, and the line is indented by the agent's distance from the
    root of its tree. *)
Theorem print_tree_complete (reg : AgentRegistry) :
  tree_wf reg →
  ∃ bound es, (∀ fuel, (bound ≤ fuel)%nat → print_tree fuel reg = Some (uncurry tree_line <$> es)) ∧
    es.*2 ≡ₚ (map_to_list (agents reg)).*2 ∧
    (∀ d a, (d, a) ∈ es → ∃ r ar, get reg r = Some ar ∧ a_parent ar = None ∧ below reg r d (a_id a)).
Proof.
  intros Hwf. destruct (tree_ranked _ Hwf) as (rank & R & Hr).
  assert (Hall : ∀ fuel, (S R ≤ fuel)%nat → ∃ es, print_tree fuel reg = Some (uncurry tree_line <$> es) ∧
            report reg (λ d x, ∃ a, a ∈ roots reg ∧ printed reg 0 (a_id a) d x) es).
  { intros fuel Hf. eapply (forest_report reg rank R Hwf Hr fuel 0 None (roots reg) []).
    - intros a Ha. by apply elem_of_roots.
    - by apply NoDup_roots.
    - intros a Ha. apply (subtree_report reg rank R Hwf Hr); [by apply elem_of_roots|lia]. }
  destruct (Hall (S R) (le_n _)) as (es & E & [Hnd Hs Hc]). exists (S R), es. split; [|split].
  - intros fuel Hf. by eapply print_tree_mono.
  - by eapply report_all.
  - intros d a Hin. destruct (Hs d a Hin) as [Ha (r & Hroot & _ & Hb)]. rewrite Nat.sub_0_r in Hb.
    apply elem_of_roots in Hroot as [? ?]; [|done]. by exists (a_id r), r.
Qed.

(** *** Witnesses *)
Lemma print_tree_complete_witness :
  ∃ bound es, (∀ fuel, (bound ≤ fuel)%nat → print_tree fuel (demo_tree RestartOne Escalate) = Some (uncurry tree_line <$> es)) ∧
    print_tree 5 (demo_tree RestartOne Escalate) =
      Some ["|- root [id:1, Running, restarts:0]"; "  |- mid [id:2, Running, restarts:0]";
            "    |- leaf [id:3, Running, restarts:0]"].
Proof.
  destruct (print_tree_complete (demo_tree RestartOne Escalate) (demo_tree_wf _ _)) as (bound & es & H & _).
  exists bound, es. split; [exact H|]. vm_compute. reflexivity.
Defined.

(** spawn does not ask whether the parent exists: an agent with an unknown parent is registered, and no line of the
    report shows it. *)
Lemma orphan_not_printed :
  get (enroll registry_new 1 (cfg "lost" Permanent) (Some 9)) 1 ≠ None ∧
  print_tree 5 (enroll registry_new 1 (cfg "lost" Permanent) (Some 9)) = Some [].
Proof. split; [discriminate|]. vm_compute. reflexivity. Qed.
End AgentTree.
