(* ===== verification/BlockCache.v ===== *)
(** * BlockCache: storage/block_cache.rs

    The write-back cache of disk blocks over a block device.  The device is the interface
    [BlockDevice]: what storage/virtio_blk.rs offers to the cache, with the laws of a disk. *)

From S2P Require Import Prelude Bytes.

Definition block : Type := list Z.

(** [read_block] and [write_block] of the locked DEVICE. *)
Class BlockDevice (D : Type) : Type := {
  read_block : Z → cmd D string block;
  write_block : Z → block → cmd D string ();
  contents : D → Z → option block;
}.

(** [contents] is what the disk holds; reading changes nothing, and a write that fails may have changed the block it
    was for, no other. *)
Class BlockDeviceLaws (D : Type) `{!BlockDevice D} : Prop := {
  read_block_spec : ∀ n d, match read_block n d with
    | Ret (Ok b, d') => contents d n = Some b ∧ contents d' = contents d
    | Ret (Err _, d') => contents d' = contents d
    | Panic => False
    end;
  write_block_spec : ∀ n b d, match write_block n b d with
    | Ret (Ok _, d') => ∀ m, contents d' m = if decide (m = n) then Some b else contents d m
    | Ret (Err _, d') => ∀ m, m ≠ n → contents d' m = contents d m
    | Panic => False
    end;
}.

Module Cache.

Definition CACHE_SIZE : nat := 256.

Record CachedBlock : Type := mkCached { data : block; dirty : bool; access_count : Z }.

Record BlockCache : Type := mkCache {
  cache : gmap Z CachedBlock;
  access_counter : Z;
}.

Definition cache_new : BlockCache := {| cache := ∅; access_counter := 0 |}.

(** [iter().min_by_key(|(_, b)| b.access_count)]: the first of the smallest entries. *)
Fixpoint min_by_access (l : list (Z * CachedBlock)) : option (Z * CachedBlock) :=
  match l with
  | [] => None
  | e :: l' => match min_by_access l' with
               | None => Some e
               | Some m => if access_count (snd e) <=? access_count (snd m) then Some e else Some m
               end
  end.

Definition contains_key (c : BlockCache) (n : Z) : bool :=
  match cache c !! n with Some _ => true | None => false end.

Section cache.
Context {D : Type} `{!BlockDevice D}.

(** The cache and the device under it. *)
Definition Disk : Type := BlockCache * D.

(** The error of a write-back is dropped ([let _ =]). *)
Definition evict_one (s : Disk) : outcome Disk :=
  let '(c, d) := s in
  match fst <$> min_by_access (btree_iter_Z (cache c)) with
  | None => Ret s
  | Some num =>
      let? d' := (match cache c !! num with
                  | Some b => if dirty b then let? r := write_block num (data b) d in Ret (snd r)
                              else Ret d
                  | None => Ret d
                  end) in
      Ret ({| cache := delete num (cache c); access_counter := access_counter c |}, d')
  end.

Definition insert_block (n : Z) (b : CachedBlock) (s : Disk) : Disk :=
  ({| cache := <[n := b]> (cache (fst s)); access_counter := access_counter (fst s) |}, snd s).

(** [self.access_counter += 1]. *)
Definition bump (s : Disk) : outcome Disk :=
  let? n := checked_add64 (access_counter (fst s)) 1 in
  Ret ({| cache := cache (fst s); access_counter := n |}, snd s).

Definition read (block_num : Z) : cmd Disk string block :=
  λ s, let? s1 := bump s in
  let '(c, d) := s1 in
  match cache c !! block_num with
  | Some cached =>
      Ret (Ok (data cached), insert_block block_num
             {| data := data cached; dirty := dirty cached; access_count := access_counter c |} s1)
  | None =>
      let? r := read_block block_num d in
      match r with
      | (Err e, d') => Ret (Err e, (c, d'))
      | (Ok b, d') =>
          let? s2 := (if decide (CACHE_SIZE ≤ size (cache c))%nat then evict_one (c, d') else Ret (c, d')) in
          Ret (Ok b, insert_block block_num
                 {| data := b; dirty := false; access_count := access_counter c |} s2)
      end
  end.

Definition write (block_num : Z) (b : block) : cmd Disk string () :=
  λ s, let? s1 := bump s in
  let c := fst s1 in
  let? s2 := (if (CACHE_SIZE <=? size (cache c))%nat && negb (contains_key c block_num)
              then evict_one s1 else Ret s1) in
  Ret (Ok (), insert_block block_num
         {| data := b; dirty := true; access_count := access_counter c |} s2).

(** The loop over the dirty blocks; the first error ends it. *)
Fixpoint write_all (l : list (Z * block)) : cmd D string () :=
  match l with
  | [] => ret ()
  | (num, b) :: l' => let! _ := write_block num b in write_all l'
  end.

Definition mark_clean (b : CachedBlock) : CachedBlock :=
  {| data := data b; dirty := false; access_count := access_count b |}.

Definition flush : cmd Disk string nat :=
  λ s, let '(c, d) := s in
  let dirties := (λ e, (fst e, data (snd e))) <$>
                 filter (λ e, dirty (snd e) = true) (btree_iter_Z (cache c)) in
  let? r := write_all dirties d in
  match r with
  | (Err e, d') => Ret (Err e, (c, d'))
  | (Ok _, d') =>
      Ret (Ok (length dirties),
           ({| cache := foldl (λ m e, alter mark_clean (fst e) m) (cache c) dirties;
               access_counter := access_counter c |}, d'))
  end.
End cache.
Arguments Disk : clear implicits.
Arguments evict_one : simpl never.

(** ** The coherent view *)
Section coherence.
Context {D : Type} `{!BlockDevice D, !BlockDeviceLaws D}.
(** The writes the device accepts. *)
Context (W : Z → block → Prop).
Hypothesis write_ok : ∀ n b d, W n b → ∃ d', write_block n b d = Ret (Ok (), d').

(** What a reader sees: the cached copy, else the disk. *)
Definition view (s : Disk D) (n : Z) : option block :=
  match cache (fst s) !! n with
  | Some b => Some (data b)
  | None => contents (snd s) n
  end.

Record disk_wf (s : Disk D) : Prop := {
  wf_size : (size (cache (fst s)) ≤ CACHE_SIZE)%nat;
  wf_clean : ∀ n b, cache (fst s) !! n = Some b → dirty b = false → contents (snd s) n = Some (data b);
  wf_dirty : ∀ n b, cache (fst s) !! n = Some b → dirty b = true → W n (data b);
}.

Lemma min_by_access_elem l e : min_by_access l = Some e → e ∈ l.
Proof.
  revert e. induction l as [|x l IH]; intros e H; [done|]. simpl in H.
  destruct (min_by_access l) as [m|]; [|by simplify_eq; left].
  destruct (_ <=? _); simplify_eq; [by left|right; by apply IH].
Qed.

Lemma min_by_access_None l : min_by_access l = None → l = [].
Proof.
  destruct l as [|x l]; [done|]. simpl. destruct (min_by_access l); [destruct (_ <=? _)|]; done.
Qed.

(** Eviction keeps the view and frees one entry. *)
Lemma evict_one_spec s :
  disk_wf s →
  ∃ s', evict_one s = Ret s' ∧ disk_wf s' ∧ (∀ n, view s' n = view s n) ∧
    access_counter (fst s') = access_counter (fst s) ∧
    (∀ n, cache (fst s) !! n = None → cache (fst s') !! n = None) ∧
    (size (cache (fst s)) ≠ 0 → S (size (cache (fst s'))) = size (cache (fst s)))%nat.
Proof.
  destruct s as [c d]. intros [Hsize Hclean Hdirty]. unfold evict_one. cbn [fst snd] in *.
  destruct (min_by_access (btree_iter_Z (cache c))) as [[num b]|] eqn:Em; simpl.
  2: { apply min_by_access_None in Em. exists (c, d). split; [done|]. split; [done|].
       do 3 (split; [done|]). intros Hne. exfalso. apply Hne. simpl. rewrite <- (length_btree_iter Z.le).
       by rewrite Em. }
  apply min_by_access_elem, elem_of_btree_iter in Em. rewrite Em.
  assert (Hd : ∃ d', (if dirty b then let? r := write_block num (data b) d in Ret (r.2) else Ret d) = Ret d' ∧
                     contents d' num = Some (data b) ∧ ∀ n, n ≠ num → contents d' n = contents d n).
  { destruct (dirty b) eqn:Ed; [|exists d; split; [done|]; split; [by eapply Hclean|done]].
    destruct (write_ok num (data b) d (Hdirty _ _ Em Ed)) as [d' Hw]. rewrite Hw. exists d'. split; [done|].
    pose proof (write_block_spec num (data b) d) as Hs. rewrite Hw in Hs.
    split; [by rewrite Hs, decide_True|]. intros n Hn. by rewrite Hs, decide_False. }
  destruct Hd as (d' & -> & Hnum & Hother). eexists. split; [reflexivity|].
  assert (Hdel : S (size (delete num (cache c))) = size (cache c)).
  { rewrite map_size_delete_Some by (by eexists).
    assert (size (cache c) ≠ 0)%nat; [|lia]. apply (map_size_ne_0_lookup_2 _ num). by eexists. }
  split; [split; simpl|split; [|split; [done|split; [|done]]]].
  - lia.
  - intros n b' Hb Hcl. apply lookup_delete_Some in Hb as [Hne Hb]. rewrite Hother by done. by eapply Hclean.
  - intros n b' Hb Hdd. apply lookup_delete_Some in Hb as [_ Hb]. by eapply Hdirty.
  - intros n. unfold view. simpl. destruct (decide (n = num)) as [->|Hne].
    + by rewrite lookup_delete_eq, Em.
    + rewrite lookup_delete_ne by done. rewrite Hother by done. done.
  - intros n Hn. simpl. apply lookup_delete_None. by right.
Qed.

Lemma insert_block_wf n b s :
  disk_wf s → (dirty b = false → contents (snd s) n = Some (data b)) → (dirty b = true → W n (data b)) →
  (size (cache (fst s)) < CACHE_SIZE ∨ is_Some (cache (fst s) !! n))%nat →
  disk_wf (insert_block n b s) ∧
  ∀ m, view (insert_block n b s) m = if decide (m = n) then Some (data b) else view s m.
Proof.
  intros [Hsize Hclean Hdirty] Hc Hd Hroom. split; [split; simpl|].
  - destruct Hroom as [Hlt|Hin].
    + destruct (cache (fst s) !! n) eqn:E; [rewrite map_size_insert_Some by (by eexists); lia|].
      rewrite map_size_insert_None by done. lia.
    + by rewrite map_size_insert_Some.
  - intros m b'. rewrite lookup_insert. case_decide; [intros [= <-]; by subst|apply Hclean].
  - intros m b'. rewrite lookup_insert. case_decide; [intros [= <-]; by subst|apply Hdirty].
  - intros m. unfold view, insert_block. simpl. rewrite lookup_insert.
    repeat case_decide; (done || congruence).
Qed.

Lemma bump_spec (s : Disk D) :
  access_counter (fst s) + 1 ≤ U64_MAX →
  bump s = Ret ({| cache := cache (fst s); access_counter := access_counter (fst s) + 1 |}, snd s).
Proof. intros H. unfold bump, checked_add64. by rewrite decide_True. Qed.

Lemma read_spec n s :
  disk_wf s → access_counter (fst s) + 1 ≤ U64_MAX →
  ∃ r s', read n s = Ret (r, s') ∧ disk_wf s' ∧ (∀ m, view s' m = view s m) ∧
    access_counter (fst s') = access_counter (fst s) + 1 ∧
    match r with
    | Ok b => view s n = Some b
    | Err e => cache (fst s) !! n = None ∧ ∃ d', read_block n (snd s) = Ret (Err e, d')
    end.
Proof.
  destruct s as [c d]. intros Hwf Hcnt. unfold read. rewrite bump_spec by done. cbn [outcome_bind fst snd] in *.
  pose proof Hwf as [Hsize Hclean Hdirty]. cbn [fst snd] in *.
  set (c1 := {| cache := cache c; access_counter := access_counter c + 1 |}).
  assert (Hwf1 : disk_wf (c1, d)) by done.
  cbn [cache access_counter c1]. destruct (cache c !! n) as [cb|] eqn:Ec.
  - eexists _, _. split; [reflexivity|].
    edestruct (insert_block_wf n {| data := data cb; dirty := dirty cb; access_count := access_counter c + 1 |}
                 (c1, d) Hwf1) as [Hw Hv]; simpl.
    { intros Hd. by eapply Hclean. }
    { intros Hd. by eapply Hdirty. }
    { right. by eexists. }
    split; [done|]. split; [|split; [done|]].
    + intros m. rewrite Hv. case_decide; [subst|done]. unfold view. simpl. by rewrite Ec.
    + unfold view. simpl. by rewrite Ec.
  - pose proof (read_block_spec n d) as Hr. destruct (read_block n d) as [[[b|e] d']|] eqn:Erb; [| |done];
      cbn [outcome_bind].
    2: { eexists _, _. split; [reflexivity|]. split; [split; simpl; try done; intros; rewrite Hr; by eapply Hclean|].
         split; [intros m; unfold view; simpl; by rewrite Hr|]. split; [done|]. split; [done|by eexists]. }
    destruct Hr as [Hb Hd'].
    assert (Hwf2 : disk_wf (c1, d')) by (split; simpl; try done; intros; rewrite Hd'; by eapply Hclean).
    assert (Hev : ∃ s2, (if decide (CACHE_SIZE ≤ size (cache c))%nat then evict_one (c1, d') else Ret (c1, d')) = Ret s2 ∧
              disk_wf s2 ∧ (∀ m, view s2 m = view (c1, d') m) ∧ access_counter (fst s2) = access_counter c + 1 ∧
              cache (fst s2) !! n = None ∧ (size (cache (fst s2)) < CACHE_SIZE)%nat).
    { case_decide as Hfull.
      - destruct (evict_one_spec (c1, d') Hwf2) as (s2 & -> & Hw2 & Hv2 & Hc2 & Hk2 & Hs2). exists s2.
        do 4 (split; [done|]). split; [by apply Hk2|]. simpl in *. unfold CACHE_SIZE in *. lia.
      - exists (c1, d'). do 5 (split; [done|]). simpl in *. lia. }
    destruct Hev as (s2 & -> & Hw2 & Hv2 & Hc2 & Hn2 & Hs2). cbn [outcome_bind].
    eexists _, _. split; [reflexivity|].
    assert (contents (snd s2) n = Some b) as Hcn.
    { specialize (Hv2 n). unfold view in Hv2. rewrite Hn2 in Hv2. simpl in Hv2. rewrite Ec in Hv2.
      rewrite Hv2, Hd'. done. }
    edestruct (insert_block_wf n {| data := b; dirty := false; access_count := access_counter c + 1 |} s2 Hw2)
      as [Hw3 Hv3]; [done|done|by left|].
    split; [done|]. split; [|split; [done|]].
    + intros m. rewrite Hv3. simpl. case_decide; [subst|rewrite Hv2; unfold view; simpl; by rewrite Hd'].
      unfold view. simpl. by rewrite Ec.
    + unfold view. simpl. by rewrite Ec.
Qed.

Lemma write_spec n b s :
  disk_wf s → W n b → access_counter (fst s) + 1 ≤ U64_MAX →
  ∃ s', write n b s = Ret (Ok (), s') ∧ disk_wf s' ∧
    (∀ m, view s' m = if decide (m = n) then Some b else view s m) ∧
    access_counter (fst s') = access_counter (fst s) + 1.
Proof.
  intros Hwf HW Hcnt. unfold write. rewrite bump_spec by done. cbn [outcome_bind fst snd cache access_counter].
  set (s1 := ({| cache := cache (fst s); access_counter := access_counter (fst s) + 1 |}, snd s) : Disk D).
  assert (Hwf1 : disk_wf s1) by (destruct Hwf; by split).
  assert (Hev : ∃ s2 : Disk D, (if (CACHE_SIZE <=? size (cache (fst s)))%nat && 
                          negb (contains_key {| cache := cache (fst s); access_counter := access_counter (fst s) + 1 |} n)
                       then evict_one s1 else Ret s1) = Ret s2 ∧
            disk_wf s2 ∧ (∀ m, view s2 m = view s m) ∧ access_counter (fst s2) = access_counter (fst s) + 1 ∧
            (size (cache (fst s2)) < CACHE_SIZE ∨ is_Some (cache (fst s2) !! n))%nat).
  { pose proof (wf_size s1 Hwf1) as Hsz. unfold contains_key. cbn [cache].
    change (cache (fst s1)) with (cache (fst s)) in *.
    destruct (CACHE_SIZE <=? size (cache (fst s)))%nat eqn:Efull; cbn [andb].
    - apply Nat.leb_le in Efull. destruct (cache (fst s) !! n) eqn:E; cbn [negb].
      + exists s1. do 4 (split; [done|]). right. simpl. rewrite E. by eexists.
      + destruct (evict_one_spec s1 Hwf1) as (s2 & -> & Hw2 & Hv2 & Hc2 & Hk2 & Hs2). exists s2.
        do 4 (split; [done|]). left. change (cache (fst s1)) with (cache (fst s)) in *.
        unfold CACHE_SIZE in *. lia.
    - apply Nat.leb_gt in Efull. exists s1. do 4 (split; [done|]). by left. }
  destruct Hev as (s2 & -> & Hw2 & Hv2 & Hc2 & Hroom). cbn [outcome_bind]. eexists. split; [reflexivity|].
  edestruct (insert_block_wf n {| data := b; dirty := true; access_count := access_counter (fst s) + 1 |} s2 Hw2)
    as [Hw3 Hv3]; [done|done|done|].
  split; [done|]. split; [|done]. intros m. rewrite Hv3. simpl. by rewrite Hv2.
Qed.

Lemma write_all_spec l d :
  Forall (uncurry W) l → NoDup (l.*1) →
  ∃ d', write_all l d = Ret (Ok (), d') ∧
    (∀ n b, (n, b) ∈ l → contents d' n = Some b) ∧ (∀ n, n ∉ l.*1 → contents d' n = contents d n).
Proof.
  revert d. induction l as [|[num b] l IH]; intros d HW Hnd; simpl.
  - exists d. split; [done|]. split; [set_solver|done].
  - simpl in Hnd. apply Forall_cons in HW as [HWn HW]. apply NoDup_cons in Hnd as [Hnot Hnd].
    destruct (write_ok num b d HWn) as [d1 Hw]. unfold cmd_bind. rewrite Hw.
    pose proof (write_block_spec num b d) as Hs. rewrite Hw in Hs.
    destruct (IH d1 HW Hnd) as (d' & -> & Hin & Hout). exists d'. split; [done|]. split.
    + intros n b' [[= -> ->]|Hin']%elem_of_cons; [|by apply Hin].
      rewrite Hout by done. by rewrite Hs, decide_True.
    + intros n Hn. rewrite Hout by set_solver. rewrite Hs, decide_False by set_solver. done.
Qed.

Lemma mark_clean_all (l : list (Z * block)) (m : gmap Z CachedBlock) n :
  foldl (λ m e, alter mark_clean (fst e) m) m l !! n =
  if decide (n ∈ l.*1) then mark_clean <$> m !! n else m !! n.
Proof.
  revert m. induction l as [|[k b] l IH]; intros m; [done|]. cbn [foldl fst]. rewrite fmap_cons. cbn [fst].
  rewrite IH, lookup_alter. destruct (decide (n = k)) as [->|Hne].
  - rewrite (decide_True (P := k = k)) by done. rewrite (decide_True (P := k ∈ k :: l.*1)) by set_solver.
    case_decide; [|done]. by destruct (m !! k).
  - rewrite (decide_False (P := k = n)) by done. apply decide_ext. set_solver.
Qed.

(** The dirty entries that flush collects. *)
Definition dirties (c : BlockCache) : list (Z * block) :=
  (λ e, (fst e, data (snd e))) <$> filter (λ e, dirty (snd e) = true) (btree_iter_Z (cache c)).

Lemma dirties_elem c n b :
  (n, b) ∈ dirties c ↔ ∃ cb, cache c !! n = Some cb ∧ dirty cb = true ∧ data cb = b.
Proof.
  unfold dirties. rewrite list_elem_of_fmap. split.
  - intros ([n' cb] & E & Hin). simplify_eq/=. apply list_elem_of_filter in Hin as [Hd Hin].
    apply elem_of_btree_iter in Hin. by exists cb.
  - intros (cb & Hc & Hd & <-). exists (n, cb). split; [done|]. apply list_elem_of_filter.
    split; [done|]. by apply elem_of_btree_iter.
Qed.

Lemma dirties_key c n : n ∈ (dirties c).*1 ↔ ∃ cb, cache c !! n = Some cb ∧ dirty cb = true.
Proof.
  rewrite list_elem_of_fmap. split.
  - intros ([n' b] & -> & Hin). apply dirties_elem in Hin as (cb & ? & ? & _). by exists cb.
  - intros (cb & Hc & Hd). exists (n, data cb). split; [done|]. apply dirties_elem. by exists cb.
Qed.

Lemma dirties_NoDup c : NoDup ((dirties c).*1).
Proof.
  unfold dirties. rewrite <- list_fmap_compose. change (fst ∘ _) with (fst : Z * CachedBlock → Z).
  eapply sub_NoDup; [|apply (NoDup_btree_iter_keys Z.le (cache c))].
  apply fmap_submseteq, sublist_submseteq, sublist_filter.
Qed.

Lemma flush_spec s :
  disk_wf s →
  ∃ s', flush s = Ret (Ok (length (dirties (fst s))), s') ∧ disk_wf s' ∧ (∀ n, view s' n = view s n) ∧
    (∀ n, contents (snd s') n = view s n) ∧ access_counter (fst s') = access_counter (fst s) ∧
    (∀ n b, cache (fst s') !! n = Some b → dirty b = false).
Proof.
  destruct s as [c d]. intros [Hsize Hclean Hdirty]. unfold flush. fold (dirties c). cbn [fst snd] in *.
  destruct (write_all_spec (dirties c) d) as (d' & Hw & Hin & Hout).
  { apply Forall_forall. intros [n b] (cb & Hc & Hd & <-)%dirties_elem. by eapply Hdirty. }
  { apply dirties_NoDup. }
  rewrite Hw. cbn [outcome_bind]. eexists. split; [reflexivity|].
  assert (Hlook : ∀ n, foldl (λ m e, alter mark_clean (fst e) m) (cache c) (dirties c) !! n =
                       mark_clean <$> cache c !! n).
  { intros n. rewrite mark_clean_all. case_decide as Hn; [done|].
    destruct (cache c !! n) as [cb|] eqn:E; [|done]. simpl. f_equal. destruct cb as [x [] y]; [|done].
    exfalso. apply Hn, dirties_key. by eexists. }
  assert (Hcont : ∀ n, contents d' n = view (c, d) n).
  { intros n. unfold view. simpl. destruct (cache c !! n) as [cb|] eqn:E.
    - destruct (dirty cb) eqn:Ed; [apply Hin, dirties_elem; by exists cb|].
      rewrite Hout; [by eapply Hclean|]. intros (cb' & ? & ?)%dirties_key. congruence.
    - apply Hout. intros (cb & ? & _)%dirties_key. congruence. }
  split; [split; simpl|split; [|split; [done|split; [done|]]]].
  - assert (∀ m : gmap Z CachedBlock, (∀ n, m !! n = mark_clean <$> cache c !! n) → size m = size (cache c)) as Hsz.
    { intros m Hm. rewrite <- (map_size_fmap mark_clean (cache c)). f_equal. apply map_eq. intros n.
      by rewrite Hm, lookup_fmap. }
    by rewrite (Hsz _ Hlook).
  - intros n b Hb _. rewrite Hlook in Hb. apply fmap_Some in Hb as (cb & Hcb & ->). rewrite Hcont.
    unfold view. simpl. by rewrite Hcb.
  - intros n b Hb Hd. rewrite Hlook in Hb. by apply fmap_Some in Hb as (cb & Hcb & ->).
  - intros n. rewrite <- Hcont. unfold view at 1. simpl. rewrite Hlook, Hcont. unfold view. simpl.
    by destruct (cache c !! n).
  - simpl. intros n b Hb. rewrite Hlook in Hb. by apply fmap_Some in Hb as (cb & _ & ->).
Qed.

(** *** Properties *)

(** C13: the cache over a disk behaves as one array of blocks.  With a coherent cache and a device
    that accepts the writes in use, reading a block returns its current contents or the
    device's read error and changes nothing a reader can see, whatever is evicted; writing changes
    exactly that block; flush changes nothing a reader can see and leaves the disk itself holding
    every block's current contents, with no dirty entry left; the cache never exceeds its size. *)
Theorem cache_refines_disk (s : Disk D) (n : Z) (b : block) :
  disk_wf s → access_counter (fst s) + 1 ≤ U64_MAX → W n b →
  (∃ r s', read n s = Ret (r, s') ∧ disk_wf s' ∧ (∀ m, view s' m = view s m) ∧
     match r with
     | Ok x => view s n = Some x
     | Err e => ∃ d', read_block n (snd s) = Ret (Err e, d')
     end) ∧
  (∃ s', write n b s = Ret (Ok (), s') ∧ disk_wf s' ∧
     ∀ m, view s' m = if decide (m = n) then Some b else view s m) ∧
  (∃ k s', flush s = Ret (Ok k, s') ∧ disk_wf s' ∧ (∀ m, view s' m = view s m) ∧
     (∀ m, contents (snd s') m = view s m) ∧
     ∀ m x, cache (fst s') !! m = Some x → dirty x = false).
Proof.
  intros Hwf Hcnt HW. split; [|split].
  - destruct (read_spec n s Hwf Hcnt) as (r & s' & ? & ? & ? & _ & Hr). exists r, s'.
    do 3 (split; [done|]). destruct r; [done|]. by destruct Hr.
  - destruct (write_spec n b s Hwf HW Hcnt) as (s' & ? & ? & ? & _). by exists s'.
  - destruct (flush_spec s Hwf) as (s' & ? & ? & ? & ? & _ & ?). by eexists _, s'.
Qed.
End coherence.

(** *** Witness: a disk held in memory *)
#[export] Instance mem_disk : BlockDevice (gmap Z block) := {|
  read_block := λ n d, Ret (Ok (default (replicate 512 0) (d !! n)), d);
  write_block := λ n b d, Ret (Ok (), <[n := b]> d);
  contents := λ d n, Some (default (replicate 512 0) (d !! n));
|}.

#[export] Instance mem_disk_laws : BlockDeviceLaws (gmap Z block).
Proof.
  split; simpl; [done|]. intros n b d m. rewrite lookup_insert. repeat case_decide; (done || congruence).
Qed.

Lemma mem_disk_writes (n : Z) (b : block) (d : gmap Z block) :
  True → ∃ d', write_block n b d = Ret (Ok (), d').
Proof. intros _. by eexists. Qed.

Lemma fresh_disk_wf (d : gmap Z block) : disk_wf (λ _ _, True) (cache_new, d).
Proof. split; simpl; [rewrite map_size_empty; unfold CACHE_SIZE; lia|done..]. Qed.

Lemma cache_refines_disk_witness :
  ∃ s', write 3 (replicate 512 1) (cache_new, ∅ : gmap Z block) = Ret (Ok (), s') ∧ view s' 3 = Some (replicate 512 1).
Proof.
  destruct (cache_refines_disk (λ _ _, True) mem_disk_writes (cache_new, ∅ : gmap Z block) 3 (replicate 512 1)
              (fresh_disk_wf ∅)) as (_ & (s' & Hw & _ & Hv) & _); [simpl; unfold U64_MAX; lia|exact I|].
  exists s'. split; [exact Hw|]. rewrite Hv. reflexivity.
Defined.

(** *** Further observation *)

(** The error of a write-back is dropped: when the device refuses the block that is evicted, the
    data written to the cache is gone and a reader sees the old disk block. *)
Lemma evict_one_loses_failed_write {D} `{!BlockDevice D} (c : BlockCache) (d d' : D) num b e x :
  min_by_access (btree_iter_Z (cache c)) = Some x → fst x = num → cache c !! num = Some b →
  dirty b = true → write_block num (data b) d = Ret (Err e, d') →
  ∃ s', evict_one (c, d) = Ret s' ∧ view s' num = contents d' num.
Proof.
  intros Hm Hx Hc Hd Hw. unfold evict_one. rewrite Hm. simpl. rewrite Hx, Hc, Hd, Hw. simpl.
  eexists. split; [reflexivity|]. unfold view. simpl. by rewrite lookup_delete_eq.
Qed.
End Cache.
