(* ===== verification/OxideFs.v ===== *)
(** * OxideFs: storage/oxide_fs.rs

    The content-addressed file store and its on-disk image.  [sync_to_disk] and [load_from_disk] run
    on the block cache and the device below it. *)

From S2P Require Import Prelude Bytes BlockCache.

Module Fs.
Import Cache.

Record FileEntry : Type := mkEntry {
  f_path : string;
  f_blob_id : Z;
  f_size : Z;
  f_created : Z;
  f_modified : Z;
  f_deleted : bool;
}.

Record OxideFs : Type := mkFs {
  fs_index : gmap string FileEntry;
  fs_blobs : gmap Z (list Z);
  fs_hashes : gmap Z Z;
  fs_next : Z;
  fs_total : Z;
}.

Definition fs_new : OxideFs :=
  {| fs_index := ∅; fs_blobs := ∅; fs_hashes := ∅; fs_next := 1; fs_total := 0 |}.

(** FNV-1a. *)
Definition content_hash (data : list Z) : Z :=
  foldl (λ hash byte, wrapping_mul64 (Z.lxor hash byte) 0x100000001b3) 0xcbf29ce484222325 data.

Definition put_index (path : string) (blob_id size tick : Z) (fs : OxideFs) : OxideFs :=
  {| fs_index := <[path := {| f_path := path; f_blob_id := blob_id; f_size := size; f_created := tick;
                              f_modified := tick; f_deleted := false |}]> (fs_index fs);
     fs_blobs := fs_blobs fs; fs_hashes := fs_hashes fs; fs_next := fs_next fs; fs_total := fs_total fs |}.

(** The blob that already holds [data], found through its hash and compared byte by byte. *)
Definition find_blob (fs : OxideFs) (data : list Z) : option Z :=
  match fs_hashes fs !! content_hash data with
  | Some existing_id =>
      match fs_blobs fs !! existing_id with
      | Some blob => if bool_decide (blob = data) then Some existing_id else None
      | None => None
      end
  | None => None
  end.

(** [tick] is [interrupts::ticks()]. *)
Definition write_file (path : string) (data : list Z) (tick : Z) (self : OxideFs) : outcome (Z * OxideFs) :=
  let size := Z.of_nat (length data) in
  match find_blob self data with
  | Some existing_id => Ret (existing_id, put_index path existing_id size tick self)
  | None =>
      let blob_id := fs_next self in
      let? next := checked_add64 blob_id 1 in
      let? total := checked_add64 (fs_total self) size in
      let fs := {| fs_index := fs_index self; fs_blobs := <[blob_id := data]> (fs_blobs self);
                   fs_hashes := <[content_hash data := blob_id]> (fs_hashes self);
                   fs_next := next; fs_total := total |} in
      Ret (blob_id, put_index path blob_id size tick fs)
  end.

Definition read_file (path : string) (self : OxideFs) : option (list Z) :=
  match fs_index self !! path with
  | None => None
  | Some entry => if f_deleted entry then None else fs_blobs self !! f_blob_id entry
  end.

Definition set_deleted (e : FileEntry) : FileEntry :=
  {| f_path := f_path e; f_blob_id := f_blob_id e; f_size := f_size e; f_created := f_created e;
     f_modified := f_modified e; f_deleted := true |}.

Definition delete_file (path : string) (self : OxideFs) : bool * OxideFs :=
  match fs_index self !! path with
  | Some entry => (true, {| fs_index := <[path := set_deleted entry]> (fs_index self);
                            fs_blobs := fs_blobs self; fs_hashes := fs_hashes self;
                            fs_next := fs_next self; fs_total := fs_total self |})
  | None => (false, self)
  end.

Definition live_entries (self : OxideFs) : list (string * FileEntry) :=
  filter (λ e, f_deleted (snd e) = false) (btree_iter_str (fs_index self)).

Definition list_files (pre : string) (self : OxideFs) : list FileEntry :=
  (filter (λ e, String.prefix pre (fst e) = true ∧ f_deleted (snd e) = false)
     (btree_iter_str (fs_index self))).*2.

Definition stats (self : OxideFs) : nat * nat * Z :=
  (length (live_entries self), size (fs_blobs self), fs_total self).

(** ** The disk image *)
Definition BLOCK : nat := 512.

(** A block starts as zeros; [copy_from_slice] fills its front. *)
Definition pad_block (l : list Z) : block := l ++ replicate (BLOCK - length l) 0.

Definition MAGIC : list Z := [79; 88; 73; 68; 69; 70; 83; 0].

Definition superblock (self : OxideFs) : block :=
  pad_block (MAGIC ++ to_le_bytes 4 1 ++ to_le_bytes 4 (Z.of_nat (size (fs_blobs self))) ++
             to_le_bytes 4 (Z.of_nat (length (live_entries self))) ++
             to_le_bytes 8 (fs_next self) ++ to_le_bytes 8 (fs_total self)).

(** The continuation blocks; each round takes up to 512 bytes, so the length is enough fuel. *)
Fixpoint cont_blocks (fuel : nat) (data : list Z) : list block :=
  match fuel, data with
  | S fuel', _ :: _ => pad_block (take BLOCK data) :: cont_blocks fuel' (drop BLOCK data)
  | _, _ => []
  end.

Definition blob_blocks (kv : Z * list Z) : list block :=
  let '(blob_id, data) := kv in
  pad_block (to_le_bytes 8 blob_id ++ to_le_bytes 4 (Z.of_nat (length data)) ++ take 500 data) ::
  cont_blocks (length data) (drop 500 data).

Definition index_block (pe : string * FileEntry) : block :=
  let '(path, entry) := pe in
  let path_bytes := as_bytes path in
  let path_len := Nat.min (length path_bytes) 255 in
  pad_block (to_le_bytes 2 (Z.of_nat path_len) ++ take path_len path_bytes ++
             to_le_bytes 8 (f_blob_id entry) ++ to_le_bytes 8 (f_size entry) ++
             to_le_bytes 8 (f_created entry) ++ to_le_bytes 8 (f_modified entry)).

(** The blocks in the order in which sync_to_disk writes them, from block 0 on. *)
Definition image (self : OxideFs) : list block :=
  superblock self :: (btree_iter_Z (fs_blobs self) ≫= blob_blocks) ++ (index_block <$> live_entries self).

Section disk.
Context {D : Type} `{!BlockDevice D}.

Fixpoint write_seq (block_num : Z) (bs : list block) (s : Disk D) : outcome (Disk D) :=
  match bs with
  | [] => Ret s
  | b :: bs' => let? r := write block_num b s in write_seq (block_num + 1) bs' (snd r)
  end.

(** Errors of the cache are dropped ([let _ =]). *)
Definition sync_to_disk (self : OxideFs) (s : Disk D) : outcome (Disk D) :=
  let? s1 := write_seq 0 (image self) s in
  let? r := flush s1 in
  Ret (snd r).

(** [cache.read(n).unwrap_or([0; 512])]. *)
Definition read_or_zero (n : Z) (s : Disk D) : outcome (block * Disk D) :=
  let? r := read n s in
  match r with
  | (Ok b, s') => Ret (b, s')
  | (Err _, s') => Ret (replicate BLOCK 0, s')
  end.

(** The while loop over continuation blocks: [remaining] shrinks in every round. *)
Fixpoint read_conts (fuel remaining : nat) (block_num : Z) (data : list Z) (s : Disk D)
    : outcome (list Z * Z * Disk D) :=
  match fuel with
  | O => Ret (data, block_num, s)
  | S fuel' =>
      if decide (remaining = O) then Ret (data, block_num, s)
      else
        let? r := read_or_zero block_num s in
        let chunk := Nat.min remaining BLOCK in
        read_conts fuel' (remaining - chunk) (block_num + 1) (data ++ take chunk (fst r)) (snd r)
  end.

Definition add_blob (fs : OxideFs) (blob_id : Z) (data : list Z) : OxideFs :=
  {| fs_index := fs_index fs; fs_blobs := <[blob_id := data]> (fs_blobs fs);
     fs_hashes := <[content_hash data := blob_id]> (fs_hashes fs);
     fs_next := fs_next fs; fs_total := fs_total fs |}.

Fixpoint load_blobs (n : nat) (block_num : Z) (fs : OxideFs) (s : Disk D) : outcome (OxideFs * Z * Disk D) :=
  match n with
  | O => Ret (fs, block_num, s)
  | S n' =>
      let? r := read_or_zero block_num s in
      let '(blk, s1) := r in
      let blob_id := from_le_bytes (slice 0 8 blk) in
      let size := Z.to_nat (from_le_bytes (slice 8 4 blk)) in
      let first_chunk := Nat.min size 500 in
      let? r := read_conts (size - first_chunk) (size - first_chunk) (block_num + 1)
                  (slice 12 first_chunk blk) s1 in
      let '(data, block_num', s2) := r in
      load_blobs n' block_num' (add_blob fs blob_id data) s2
  end.

Definition add_entry (fs : OxideFs) (path : string) (blob_id size created modified : Z) : OxideFs :=
  {| fs_index := <[path := {| f_path := path; f_blob_id := blob_id; f_size := size; f_created := created;
                              f_modified := modified; f_deleted := false |}]> (fs_index fs);
     fs_blobs := fs_blobs fs; fs_hashes := fs_hashes fs; fs_next := fs_next fs; fs_total := fs_total fs |}.

(** A slice beyond the block panics. *)
Fixpoint load_index (n : nat) (block_num : Z) (fs : OxideFs) (s : Disk D) : outcome (OxideFs * Disk D) :=
  match n with
  | O => Ret (fs, s)
  | S n' =>
      let? r := read_or_zero block_num s in
      let '(blk, s1) := r in
      let path_len := Z.to_nat (from_le_bytes (slice 0 2 blk)) in
      let off := (2 + path_len)%nat in
      if decide (off + 32 ≤ BLOCK)%nat then
        let path := default "" (from_utf8 (slice 2 path_len blk)) in
        load_index n' (block_num + 1)
          (add_entry fs path (from_le_bytes (slice off 8 blk)) (from_le_bytes (slice (off + 8) 8 blk))
             (from_le_bytes (slice (off + 16) 8 blk)) (from_le_bytes (slice (off + 24) 8 blk))) s1
      else Panic
  end.

Definition load_from_disk (self : OxideFs) (s : Disk D) : outcome (bool * OxideFs * Disk D) :=
  let? r := read 0 s in
  match r with
  | (Err _, s1) => Ret (false, self, s1)
  | (Ok sb, s1) =>
      if decide (slice 0 8 sb = MAGIC) then
        let blob_count := Z.to_nat (from_le_bytes (slice 12 4 sb)) in
        let index_count := Z.to_nat (from_le_bytes (slice 16 4 sb)) in
        let fs := {| fs_index := fs_index self; fs_blobs := fs_blobs self; fs_hashes := fs_hashes self;
                     fs_next := from_le_bytes (slice 20 8 sb); fs_total := from_le_bytes (slice 28 8 sb) |} in
        let? r := load_blobs blob_count 1 fs s1 in
        let '(fs1, block_num, s2) := r in
        let? r := load_index index_count block_num fs1 s2 in
        Ret (true, fst r, snd r)
      else Ret (false, self, s1)
  end.

(** [init]: FS afterwards, and the numbers it reports. *)
Definition fs_init (s : Disk D) : outcome (option (nat * nat * Z) * OxideFs * Disk D) :=
  let? r := load_from_disk fs_new s in
  let '(loaded, fs, s') := r in
  Ret (if loaded : bool then Some (stats fs) else None, fs, s').
End disk.

(** ** The store as a map from paths to contents *)
Record fs_wf (fs : OxideFs) : Prop := {
  fs_entries : ∀ p e, fs_index fs !! p = Some e →
    f_path e = p ∧ ∃ d, fs_blobs fs !! f_blob_id e = Some d ∧ f_size e = Z.of_nat (length d);
  fs_ids : ∀ id, is_Some (fs_blobs fs !! id) → 1 ≤ id < fs_next fs;
  fs_next_pos : 1 ≤ fs_next fs;
}.

Lemma find_blob_Some fs data id : find_blob fs data = Some id → fs_blobs fs !! id = Some data.
Proof.
  unfold find_blob. destruct (fs_hashes fs !! content_hash data) as [i|]; [|done].
  destruct (fs_blobs fs !! i) as [blob|] eqn:E; [|done]. case_bool_decide; [|done]. by intros [= <-]; subst.
Qed.

Lemma put_index_wf fs path id data tick :
  fs_wf fs → fs_blobs fs !! id = Some data →
  fs_wf (put_index path id (Z.of_nat (length data)) tick fs) ∧
  ∀ p, read_file p (put_index path id (Z.of_nat (length data)) tick fs) =
       if decide (p = path) then Some data else read_file p fs.
Proof.
  intros [He Hi Hpos] Hb. split.
  - split; [|done|done]. intros p e. simpl. rewrite lookup_insert. case_decide; [|apply He].
    intros [= <-]. simpl. split; [done|]. by exists data.
  - intros p. unfold read_file. simpl. rewrite lookup_insert. repeat case_decide; simplify_eq; done.
Qed.

Lemma write_file_spec path data tick fs id fs' :
  fs_wf fs → write_file path data tick fs = Ret (id, fs') →
  fs_wf fs' ∧ fs_blobs fs' !! id = Some data ∧
  (∀ p, read_file p fs' = if decide (p = path) then Some data else read_file p fs) ∧
  (∀ i d, fs_blobs fs !! i = Some d → fs_blobs fs' !! i = Some d).
Proof.
  intros Hwf H. unfold write_file in H. destruct (find_blob fs data) as [i|] eqn:Ef.
  - simplify_eq. apply find_blob_Some in Ef.
    destruct (put_index_wf fs path id data tick Hwf Ef) as [? ?]. done.
  - destruct (checked_add64 (fs_next fs) 1) as [n|] eqn:En; [|done].
    destruct (checked_add64 (fs_total fs) _) as [t|] eqn:Et; simplify_eq/=.
    apply checked_add64_Ret in En as [-> _]. destruct Hwf as [He Hi Hpos].
    assert (Hfresh : fs_blobs fs !! fs_next fs = None).
    { destruct (fs_blobs fs !! fs_next fs) eqn:E; [|done]. destruct (Hi (fs_next fs)); [by eexists|lia]. }
    set (fs1 := mkFs _ _ _ _ _). assert (Hwf1 : fs_wf fs1).
    { subst fs1. split; simpl.
      - intros p e Hp. destruct (He p e Hp) as (? & d & Hd & ?). split; [done|]. exists d. split; [|done].
        rewrite lookup_insert_ne; [done|]. congruence.
      - intros j Hj. destruct (decide (j = fs_next fs)) as [->|Hne].
        + lia.
        + rewrite lookup_insert_ne in Hj by done. specialize (Hi j Hj). lia.
      - lia. }
    destruct (put_index_wf fs1 path (fs_next fs) data tick Hwf1) as [Hw Hr]; [apply lookup_insert_eq|].
    split; [done|]. split; [simpl; apply lookup_insert_eq|]. split.
    + intros p. rewrite Hr. case_decide; [done|]. unfold read_file, fs1. simpl.
      destruct (fs_index fs !! p) as [e|] eqn:Ep; [|done]. destruct (f_deleted e); [done|].
      rewrite lookup_insert_ne; [done|]. intros Heq. destruct (He p e Ep) as (_ & d & Hd & _). congruence.
    + intros i d Hd. simpl. rewrite lookup_insert_ne; [done|]. congruence.
Qed.

Lemma delete_file_spec path fs :
  fs_wf fs →
  fs_wf (snd (delete_file path fs)) ∧ (fst (delete_file path fs) = true ↔ is_Some (fs_index fs !! path)) ∧
  ∀ p, read_file p (snd (delete_file path fs)) = if decide (p = path) then None else read_file p fs.
Proof.
  intros [He Hi Hpos]. unfold delete_file. destruct (fs_index fs !! path) as [e|] eqn:E; simpl.
  - split; [split; simpl; [|done..]|split; [split; [by eexists|done]|]].
    + intros p e'. rewrite lookup_insert. case_decide; [subst|apply He]. intros [= <-]. simpl. by apply He.
    + intros p. unfold read_file. simpl. rewrite lookup_insert. repeat case_decide; subst; (done || congruence).
  - split; [done|]. split; [split; [done|by intros [? ?]]|]. intros p. case_decide; [subst|done].
    unfold read_file. by rewrite E.
Qed.

Lemma elem_of_list_files pre fs e :
  fs_wf fs →
  e ∈ list_files pre fs ↔
  String.prefix pre (f_path e) = true ∧ f_deleted e = false ∧ fs_index fs !! f_path e = Some e.
Proof.
  intros [He _ _]. unfold list_files. rewrite list_elem_of_fmap. split.
  - intros ([p e'] & -> & Hin). apply list_elem_of_filter in Hin as [[Hp Hd] Hin].
    apply elem_of_btree_iter in Hin. simpl in *. by destruct (He p e' Hin) as [-> _].
  - intros (Hp & Hd & Hi). exists (f_path e, e). split; [done|]. apply list_elem_of_filter.
    split; [done|]. by apply elem_of_btree_iter.
Qed.

(** C11: the store is a map from paths to contents.  On a well-formed store, write_file (deduplicated
    or not) makes the path read as the data, leaves every other path as it was, changes no stored
    blob and returns the id of a blob that holds the data; delete_file makes the path unreadable and
    leaves the others; list returns exactly the live entries below the prefix; the store stays well
    formed. *)
Theorem fs_refines_map (fs : OxideFs) (path : string) (data : list Z) (tick : Z) :
  fs_wf fs →
  (∀ id fs', write_file path data tick fs = Ret (id, fs') →
     fs_wf fs' ∧ fs_blobs fs' !! id = Some data ∧
     (∀ p, read_file p fs' = if decide (p = path) then Some data else read_file p fs) ∧
     (∀ i d, fs_blobs fs !! i = Some d → fs_blobs fs' !! i = Some d)) ∧
  (fs_next fs + 1 ≤ U64_MAX → fs_total fs + Z.of_nat (length data) ≤ U64_MAX →
     write_file path data tick fs ≠ Panic) ∧
  (let fs' := snd (delete_file path fs) in
   fs_wf fs' ∧ ∀ p, read_file p fs' = if decide (p = path) then None else read_file p fs) ∧
  (∀ pre e, e ∈ list_files pre fs ↔
     String.prefix pre (f_path e) = true ∧ f_deleted e = false ∧ fs_index fs !! f_path e = Some e).
Proof.
  intros Hwf. split; [intros id fs'; by apply write_file_spec|]. split.
  - intros Hn Ht. unfold write_file. destruct (find_blob fs data); [done|].
    unfold checked_add64. rewrite decide_True by done. simpl. by rewrite decide_True.
  - split; [|intros pre e; by apply elem_of_list_files].
    destruct (delete_file_spec path fs Hwf) as (? & _ & ?). done.
Qed.

Lemma fs_new_wf : fs_wf fs_new.
Proof. split; simpl; [done| |lia]. intros id. rewrite lookup_empty. by intros [? ?]. Qed.

Lemma fs_refines_map_witness :
  match write_file "/a" [1; 2; 3] 7 fs_new with
  | Ret (id, fs') => fs_wf fs' ∧ read_file "/a" fs' = Some [1; 2; 3]
  | Panic => False
  end.
Proof.
  destruct (fs_refines_map fs_new "/a" [1; 2; 3] 7 fs_new_wf) as [Hw _].
  destruct (write_file "/a" [1; 2; 3] 7 fs_new) as [[id fs']|] eqn:E; [|vm_compute in E; discriminate E].
  destruct (Hw id fs' eq_refl) as (Hwf & _ & Hr & _). split; [exact Hwf|]. rewrite Hr. reflexivity.
Defined.

(** ** Reading the image back *)

(** What makes the fields of the store fit their encodings. *)
Record storable (fs : OxideFs) : Prop := {
  st_next : 0 ≤ fs_next fs ≤ U64_MAX;
  st_total : 0 ≤ fs_total fs ≤ U64_MAX;
  st_blobs : Z.of_nat (size (fs_blobs fs)) ≤ U32_MAX;
  st_entries : Z.of_nat (length (live_entries fs)) ≤ U32_MAX;
  st_blob : ∀ id d, fs_blobs fs !! id = Some d → Z.of_nat (length d) ≤ U32_MAX;
  st_entry : ∀ p e, fs_index fs !! p = Some e →
    (length (as_bytes p) ≤ 255)%nat ∧ utf8_valid (as_bytes p) = true ∧
    0 ≤ f_created e ≤ U64_MAX ∧ 0 ≤ f_modified e ≤ U64_MAX;
}.

Lemma slice_pad off n l : (off + n ≤ length l)%nat → slice off n (pad_block l) = slice off n l.
Proof. apply slice_app_l. Qed.

(** A field at the end of a prefix of known length. *)
Lemma slice_field off n (l x r : list Z) :
  length l = off → length x = n → slice off n (l ++ x ++ r) = x.
Proof.
  intros <- <-. rewrite slice_app_r by done. rewrite Nat.sub_diag, slice_app_l by done. by apply slice_all.
Qed.

Lemma from_le_u64 v : 0 ≤ v ≤ U64_MAX → from_le_bytes (to_le_bytes 8 v) = v.
Proof. intros H. apply from_to_le_bytes. unfold U64_MAX in H. simpl. lia. Qed.

Lemma from_le_u32 v : 0 ≤ v ≤ U32_MAX → from_le_bytes (to_le_bytes 4 v) = v.
Proof. intros H. apply from_to_le_bytes. unfold U32_MAX in H. simpl. lia. Qed.

Lemma superblock_fields fs :
  storable fs →
  slice 0 8 (superblock fs) = MAGIC ∧
  from_le_bytes (slice 12 4 (superblock fs)) = Z.of_nat (size (fs_blobs fs)) ∧
  from_le_bytes (slice 16 4 (superblock fs)) = Z.of_nat (length (live_entries fs)) ∧
  from_le_bytes (slice 20 8 (superblock fs)) = fs_next fs ∧
  from_le_bytes (slice 28 8 (superblock fs)) = fs_total fs.
Proof.
  intros [Hn Ht Hb He _ _]. unfold superblock.
  set (b := to_le_bytes 4 (Z.of_nat (size (fs_blobs fs)))).
  set (e := to_le_bytes 4 (Z.of_nat (length (live_entries fs)))).
  set (n := to_le_bytes 8 (fs_next fs)). set (t := to_le_bytes 8 (fs_total fs)).
  assert (length b = 4%nat ∧ length e = 4%nat ∧ length n = 8%nat ∧ length t = 8%nat) as (Lb & Le & Ln & Lt)
    by (subst b e n t; by rewrite !length_to_le_bytes).
  assert (Hlen : length (MAGIC ++ to_le_bytes 4 1 ++ b ++ e ++ n ++ t) = 36%nat)
    by (rewrite !length_app, Lb, Le, Ln, Lt; done).
  split; [rewrite slice_pad by lia; by apply (slice_field 0 8 [])|].
  split; [rewrite slice_pad by lia; rewrite (assoc_L (++) MAGIC), (slice_field 12 4 (MAGIC ++ _)) by done;
          subst b; by rewrite from_le_u32 by lia|].
  split; [rewrite slice_pad by lia; rewrite (assoc_L (++) MAGIC), (assoc_L (++) _ b);
          rewrite (slice_field 16 4 _ e) by (rewrite ?length_app, ?Lb; done); subst e; by rewrite from_le_u32 by lia|].
  split; [rewrite slice_pad by lia; rewrite (assoc_L (++) MAGIC), (assoc_L (++) _ b), (assoc_L (++) _ e);
          rewrite (slice_field 20 8 _ n) by (rewrite ?length_app, ?Lb, ?Le; done); subst n; by apply from_le_u64|].
  rewrite slice_pad by lia. rewrite (assoc_L (++) MAGIC), (assoc_L (++) _ b), (assoc_L (++) _ e), (assoc_L (++) _ n).
  rewrite <- (app_nil_r t).
  rewrite (slice_field 28 8 _ t) by (rewrite ?length_app, ?Lb, ?Le, ?Ln; done). subst t. by apply from_le_u64.
Qed.

Lemma index_block_fields p e :
  (length (as_bytes p) ≤ 255)%nat → 0 ≤ f_blob_id e ≤ U64_MAX → 0 ≤ f_size e ≤ U64_MAX →
  0 ≤ f_created e ≤ U64_MAX → 0 ≤ f_modified e ≤ U64_MAX →
  let b := index_block (p, e) in let k := length (as_bytes p) in
  from_le_bytes (slice 0 2 b) = Z.of_nat k ∧ slice 2 k b = as_bytes p ∧
  from_le_bytes (slice (2 + k) 8 b) = f_blob_id e ∧ from_le_bytes (slice (2 + k + 8) 8 b) = f_size e ∧
  from_le_bytes (slice (2 + k + 16) 8 b) = f_created e ∧ from_le_bytes (slice (2 + k + 24) 8 b) = f_modified e.
Proof.
  intros Hp Hb Hs Hc Hm. cbv zeta. unfold index_block. rewrite (Nat.min_l _ 255) by done.
  rewrite take_ge by done. set (k := length (as_bytes p)) in *.
  set (h := to_le_bytes 2 (Z.of_nat k)). set (w := as_bytes p).
  set (fb := to_le_bytes 8 (f_blob_id e)). set (fz := to_le_bytes 8 (f_size e)).
  set (fc := to_le_bytes 8 (f_created e)). set (fm := to_le_bytes 8 (f_modified e)).
  assert (length h = 2%nat ∧ length fb = 8%nat ∧ length fz = 8%nat ∧ length fc = 8%nat ∧ length fm = 8%nat)
    as (Lh & Lb & Lz & Lc & Lm) by (subst h fb fz fc fm; by rewrite !length_to_le_bytes).
  assert (length w = k) as Lw by done.
  assert (Hlen : length (h ++ w ++ fb ++ fz ++ fc ++ fm) = (2 + k + 32)%nat)
    by (rewrite !length_app, Lh, Lw, Lb, Lz, Lc, Lm; lia).
  rewrite !slice_pad by lia.
  split; [rewrite (slice_field 0 2 [] h (w ++ fb ++ fz ++ fc ++ fm) eq_refl Lh : slice 0 2 (h ++ _) = h);
          subst h; apply from_to_le_bytes; simpl; lia|].
  split; [by rewrite (slice_field 2 k h w)|].
  split; [rewrite (assoc_L (++) h), (slice_field (2 + k) 8 _ fb) by (rewrite ?length_app; lia);
          by apply from_le_u64|].
  split; [rewrite (assoc_L (++) h), (assoc_L (++) _ fb), (slice_field (2 + k + 8) 8 _ fz)
            by (rewrite ?length_app; lia); by apply from_le_u64|].
  split; [rewrite (assoc_L (++) h), (assoc_L (++) _ fb), (assoc_L (++) _ fz), (slice_field (2 + k + 16) 8 _ fc)
            by (rewrite ?length_app; lia); by apply from_le_u64|].
  rewrite (assoc_L (++) h), (assoc_L (++) _ fb), (assoc_L (++) _ fz), (assoc_L (++) _ fc), <- (app_nil_r fm).
  rewrite (slice_field (2 + k + 24) 8 _ fm) by (rewrite ?length_app; lia). by apply from_le_u64.
Qed.

Lemma blob_header_fields id data :
  0 ≤ id ≤ U64_MAX → Z.of_nat (length data) ≤ U32_MAX →
  let b := pad_block (to_le_bytes 8 id ++ to_le_bytes 4 (Z.of_nat (length data)) ++ take 500 data) in
  from_le_bytes (slice 0 8 b) = id ∧ from_le_bytes (slice 8 4 b) = Z.of_nat (length data) ∧
  slice 12 (Nat.min (length data) 500) b = take 500 data.
Proof.
  intros Hid Hlen. cbv zeta. set (h := to_le_bytes 8 id). set (z := to_le_bytes 4 (Z.of_nat (length data))).
  assert (length h = 8%nat ∧ length z = 4%nat) as [Lh Lz] by (subst h z; by rewrite !length_to_le_bytes).
  assert (Hl : length (h ++ z ++ take 500 data) = (12 + Nat.min (length data) 500)%nat).
  { rewrite !length_app, length_take, Lh, Lz. lia. }
  rewrite !slice_pad by lia.
  split; [rewrite (slice_field 0 8 [] h (z ++ take 500 data) eq_refl Lh : slice 0 8 (h ++ _) = h);
          by apply from_le_u64|].
  split; [rewrite (slice_field 8 4 h z) by done; apply from_le_u32; lia|].
  rewrite (assoc_L (++)), <- (app_nil_r (take 500 data)).
  rewrite (slice_field 12 (Nat.min (length data) 500) (h ++ z) (take 500 data)); [by rewrite app_nil_r| |].
  - rewrite length_app, Lh, Lz. done.
  - rewrite length_take. lia.
Qed.

(** ** Rebuilding the maps *)
Lemma fold_insert {K V} `{Countable K} (l : list (K * V)) (m : gmap K V) :
  NoDup (l.*1) → foldl (λ m kv, <[kv.1 := kv.2]> m) m l = list_to_map l ∪ m.
Proof.
  revert m. induction l as [|[k v] l IH]; intros m Hnd; [simpl; by rewrite (left_id_L ∅ (∪))|].
  rewrite fmap_cons in Hnd. apply NoDup_cons in Hnd as [Hk Hnd]. cbn [foldl fst snd list_to_map].
  rewrite IH by done. simpl. rewrite <- insert_union_l. symmetry. apply insert_union_r.
  by apply not_elem_of_list_to_map_1.
Qed.

Lemma fold_add_blob kvs fs :
  let fs' := foldl (λ f kv, add_blob f kv.1 kv.2) fs kvs in
  fs_blobs fs' = foldl (λ m kv, <[kv.1 := kv.2]> m) (fs_blobs fs) kvs ∧
  fs_index fs' = fs_index fs ∧ fs_next fs' = fs_next fs ∧ fs_total fs' = fs_total fs.
Proof.
  revert fs. induction kvs as [|kv kvs IH]; intros fs; [done|]. cbn [foldl].
  destruct (IH (add_blob fs kv.1 kv.2)) as (-> & -> & -> & ->). done.
Qed.

Lemma fold_add_entry pes fs :
  Forall (λ pe, f_path pe.2 = pe.1 ∧ f_deleted pe.2 = false) pes →
  let fs' := foldl (λ f pe, add_entry f pe.1 (f_blob_id pe.2) (f_size pe.2) (f_created pe.2) (f_modified pe.2))
               fs pes in
  fs_index fs' = foldl (λ m kv, <[kv.1 := kv.2]> m) (fs_index fs) pes ∧
  fs_blobs fs' = fs_blobs fs ∧ fs_next fs' = fs_next fs ∧ fs_total fs' = fs_total fs.
Proof.
  intros Hok. revert fs. induction Hok as [|[p e] pes [Hp Hd] _ IH]; intros fs; [done|]. cbn [foldl fst snd] in *.
  destruct (IH (add_entry fs p (f_blob_id e) (f_size e) (f_created e) (f_modified e))) as (-> & -> & -> & ->).
  split; [|done]. simpl. f_equal. f_equal. destruct e; simplify_eq/=. done.
Qed.

Lemma live_entries_map fs :
  list_to_map (live_entries fs) = filter (λ pe, f_deleted pe.2 = false) (fs_index fs).
Proof.
  assert (Hnd : NoDup ((live_entries fs).*1)).
  { eapply sub_NoDup; [|apply (NoDup_btree_iter_keys String.le (fs_index fs))].
    apply fmap_submseteq, sublist_submseteq, sublist_filter. }
  apply map_eq. intros p. apply option_eq. intros e.
  rewrite <- (elem_of_list_to_map _ _ _ Hnd), map_lookup_filter_Some.
  unfold live_entries. rewrite list_elem_of_filter, elem_of_btree_iter. simpl. tauto.
Qed.

(** A store without the deleted entries of [fs]: it reads as [fs], and is well formed if [fs] is. *)
Lemma loaded_reads fs fs' p :
  fs_blobs fs' = fs_blobs fs → fs_index fs' = filter (λ pe, f_deleted pe.2 = false) (fs_index fs) →
  read_file p fs' = read_file p fs.
Proof.
  intros B I. unfold read_file. rewrite I, B. destruct (fs_index fs !! p) as [e|] eqn:Ep.
  - destruct (f_deleted e) eqn:Ed.
    + rewrite (map_lookup_filter_None_2 _ _ p); [done|]. right. intros e' He'. simplify_eq/=. congruence.
    + rewrite (map_lookup_filter_Some_2 _ _ p e) by done. by rewrite Ed.
  - rewrite (map_lookup_filter_None_2 _ _ p) by (by left). done.
Qed.

Lemma loaded_wf fs fs' :
  fs_wf fs → fs_blobs fs' = fs_blobs fs → fs_index fs' = filter (λ pe, f_deleted pe.2 = false) (fs_index fs) →
  fs_next fs' = fs_next fs → fs_wf fs'.
Proof.
  intros [He Hi Hp] B I N. split; rewrite ?B, ?N; try done. intros p e. rewrite I. intros [H _]%map_lookup_filter_Some. by apply He.
Qed.

(** ** Round trip through the disk *)
Section roundtrip.
Context {D : Type} `{!BlockDevice D, !BlockDeviceLaws D}.
(** The writes the device accepts; it reads the block again. *)
Context (W : Z → block → Prop).
Hypothesis write_ok : ∀ n b d, W n b → ∃ d', write_block n b d = Ret (Ok (), d').
Hypothesis read_ok : ∀ n b d, W n b → ∃ b' d', read_block n d = Ret (Ok b', d').

(** From block [n] on, a reader finds the blocks [bs]. *)
Definition stored (s : Disk D) (n : Z) (bs : list block) : Prop :=
  disk_wf W s ∧ access_counter (fst s) + Z.of_nat (length bs) ≤ U64_MAX ∧
  ∀ i b, bs !! i = Some b → view s (n + Z.of_nat i) = Some b ∧ W (n + Z.of_nat i) b.

Lemma read_stored s n b bs :
  stored s n (b :: bs) → ∃ s', read n s = Ret (Ok b, s') ∧ stored s' (n + 1) bs.
Proof.
  intros (Hwf & Hcnt & Hbs). simpl in Hcnt.
  destruct (Hbs O b eq_refl) as [Hv HW]. rewrite Z.add_0_r in Hv, HW.
  destruct (read_spec W write_ok n s Hwf) as (r & s' & Hr & Hwf' & Hview & Hc' & Hres); [lia|].
  destruct r as [x|e].
  - rewrite Hv in Hres. simplify_eq. exists s'. split; [done|]. split; [done|]. split; [lia|].
    intros i b' Hi. rewrite Hview. destruct (Hbs (S i) b' Hi) as [H1 H2].
    replace (n + 1 + Z.of_nat i) with (n + Z.of_nat (S i)) by lia. done.
  - destruct Hres as [_ [d' Hrb]]. destruct (read_ok n b (snd s) HW) as (b' & d'' & E). congruence.
Qed.

Lemma read_or_zero_stored s n b bs :
  stored s n (b :: bs) → ∃ s', read_or_zero n s = Ret (b, s') ∧ stored s' (n + 1) bs.
Proof.
  intros H. destruct (read_stored s n b bs H) as (s' & E & ?). exists s'. unfold read_or_zero.
  rewrite E. done.
Qed.

Lemma take_pad_block l : (length l ≤ BLOCK)%nat → take (length l) (pad_block l) = l.
Proof. intros H. unfold pad_block. by rewrite take_app_length. Qed.

Lemma read_conts_stored fuel fuel' data n acc s rest :
  (length data ≤ fuel)%nat → (length data ≤ fuel')%nat → stored s n (cont_blocks fuel' data ++ rest) →
  ∃ n' s', read_conts fuel (length data) n acc s = Ret (acc ++ data, n', s') ∧ stored s' n' rest.
Proof.
  revert fuel' data n acc s. induction fuel as [|fuel IH]; intros fuel' data n acc s Hf Hf' Hs.
  - destruct data; [|simpl in Hf; lia]. exists n, s. rewrite app_nil_r. by destruct fuel'.
  - destruct data as [|x data].
    { exists n, s. rewrite app_nil_r. by destruct fuel'. }
    destruct fuel' as [|fuel']; [simpl in Hf'; lia|]. set (l := x :: data) in *.
    cbn [read_conts]. destruct (decide (length l = 0%nat)) as [Hz|_]; [done|].
    change (cont_blocks (S fuel') l) with (pad_block (take BLOCK l) :: cont_blocks fuel' (drop BLOCK l)) in Hs.
    destruct (read_or_zero_stored s n _ _ Hs) as (s1 & -> & Hs1). cbn [outcome_bind fst snd].
    assert (Hl : (1 ≤ length l)%nat) by (simpl; lia).
    assert (take (Nat.min (length l) BLOCK) (pad_block (take BLOCK l)) = take BLOCK l) as ->.
    { replace (Nat.min (length l) BLOCK) with (length (take BLOCK l)) by (rewrite length_take; lia).
      apply take_pad_block. rewrite length_take. lia. }
    assert (length (drop BLOCK l) = length l - Nat.min (length l) BLOCK)%nat as Hdl
      by (rewrite length_drop; unfold BLOCK; lia).
    assert (Hb : (1 ≤ BLOCK)%nat) by (unfold BLOCK; lia).
    rewrite <- Hdl. destruct (IH fuel' (drop BLOCK l) (n + 1) (acc ++ take BLOCK l) s1) as (n' & s' & -> & Hs');
      [rewrite length_drop; lia|rewrite length_drop; lia|exact Hs1|].
    exists n', s'. by rewrite <- (assoc_L (++)), take_drop.
Qed.

Lemma load_blobs_stored kvs n fs s rest :
  Forall (λ kv, 0 ≤ kv.1 ≤ U64_MAX ∧ Z.of_nat (length kv.2) ≤ U32_MAX) kvs →
  stored s n ((kvs ≫= blob_blocks) ++ rest) →
  ∃ n' s', load_blobs (length kvs) n fs s = Ret (foldl (λ f kv, add_blob f kv.1 kv.2) fs kvs, n', s') ∧
           stored s' n' rest.
Proof.
  intros Hok. revert n fs s. induction Hok as [|[id data] kvs [Hid Hlen] _ IH]; intros n fs s Hs.
  { exists n, s. done. }
  rewrite bind_cons, <- (assoc_L (++)) in Hs. cbn [fst snd length] in *.
  change (blob_blocks (id, data)) with
    (pad_block (to_le_bytes 8 id ++ to_le_bytes 4 (Z.of_nat (length data)) ++ take 500 data) ::
     cont_blocks (length data) (drop 500 data)) in Hs.
  destruct (blob_header_fields id data Hid Hlen) as (Hf1 & Hf2 & Hf3). cbn [load_blobs].
  destruct (read_or_zero_stored s n _ _ Hs) as (s1 & -> & Hs1). cbn [outcome_bind].
  rewrite Hf1, Hf2, Nat2Z.id, Hf3.
  replace (length data - Nat.min (length data) 500)%nat with (length (drop 500 data)) by (rewrite length_drop; lia).
  destruct (read_conts_stored (length (drop 500 data)) (length data) (drop 500 data) (n + 1) (take 500 data) s1
              ((kvs ≫= blob_blocks) ++ rest)) as (n2 & s2 & -> & Hs2); [done|rewrite length_drop; lia|exact Hs1|].
  cbn [outcome_bind]. rewrite take_drop. apply IH. exact Hs2.
Qed.

Lemma load_index_stored pes n fs s rest :
  Forall (λ pe, (length (as_bytes pe.1) ≤ 255)%nat ∧ utf8_valid (as_bytes pe.1) = true ∧
                0 ≤ f_blob_id pe.2 ≤ U64_MAX ∧ 0 ≤ f_size pe.2 ≤ U64_MAX ∧
                0 ≤ f_created pe.2 ≤ U64_MAX ∧ 0 ≤ f_modified pe.2 ≤ U64_MAX) pes →
  stored s n ((index_block <$> pes) ++ rest) →
  ∃ s', load_index (length pes) n fs s =
        Ret (foldl (λ f pe, add_entry f pe.1 (f_blob_id pe.2) (f_size pe.2) (f_created pe.2) (f_modified pe.2))
               fs pes, s').
Proof.
  intros Hok. revert n fs s. induction Hok as [|[p e] pes (Hp & Hu & Hb & Hz & Hc & Hm) _ IH]; intros n fs s Hs.
  { exists s. done. }
  rewrite fmap_cons in Hs. cbn [fst snd length app] in *.
  destruct (index_block_fields p e Hp Hb Hz Hc Hm) as (H1 & H2 & H3 & H4 & H5 & H6). cbn [load_index].
  destruct (read_or_zero_stored s n _ _ Hs) as (s1 & -> & Hs1). cbn [outcome_bind].
  rewrite H1, Nat2Z.id. rewrite decide_True by (unfold BLOCK; lia).
  rewrite H2, H3, H4, H5, H6, from_utf8_as_bytes by done. cbn [default]. by apply (IH (n + 1)).
Qed.

Lemma write_seq_stored bs n s :
  disk_wf W s → (∀ i b, bs !! i = Some b → W (n + Z.of_nat i) b) →
  access_counter (fst s) + Z.of_nat (length bs) ≤ U64_MAX →
  ∃ s', write_seq n bs s = Ret s' ∧ disk_wf W s' ∧
    (∀ i b, bs !! i = Some b → view s' (n + Z.of_nat i) = Some b) ∧ (∀ m, m < n → view s' m = view s m).
Proof.
  revert n s. induction bs as [|b bs IH]; intros n s Hwf HW Hcnt; [by exists s|]. simpl in Hcnt.
  assert (HWn : W n b) by (specialize (HW O b eq_refl); by rewrite Z.add_0_r in HW).
  destruct (write_spec W write_ok n b s Hwf HWn) as (s1 & E & Hwf1 & Hv1 & Hc1); [lia|].
  cbn [write_seq]. rewrite E. cbn [outcome_bind snd].
  destruct (IH (n + 1) s1 Hwf1) as (s' & -> & Hwf' & Hbs & Hlow).
  { intros i b' Hi. replace (n + 1 + Z.of_nat i) with (n + Z.of_nat (S i)) by lia. by apply HW. }
  { lia. }
  exists s'. split; [done|]. split; [done|]. split.
  - intros [|i] b' Hi; simpl in Hi.
    + simplify_eq. rewrite Z.add_0_r, Hlow by lia. by rewrite Hv1, decide_True.
    + replace (n + Z.of_nat (S i)) with (n + 1 + Z.of_nat i) by lia. by apply Hbs.
  - intros m Hm. rewrite Hlow by lia. by rewrite Hv1, decide_False by lia.
Qed.

Lemma load_image fs s :
  fs_wf fs → storable fs → stored s 0 (image fs) →
  ∃ fs' s', load_from_disk fs_new s = Ret (true, fs', s') ∧
    fs_blobs fs' = fs_blobs fs ∧
    fs_index fs' = filter (λ pe, f_deleted pe.2 = false) (fs_index fs) ∧
    fs_next fs' = fs_next fs ∧ fs_total fs' = fs_total fs.
Proof.
  intros Hwf Hst Hs. unfold load_from_disk. unfold image in Hs.
  destruct (read_stored s 0 _ _ Hs) as (s1 & -> & Hs1). cbn [outcome_bind].
  destruct (superblock_fields fs Hst) as (H1 & H2 & H3 & H4 & H5).
  rewrite decide_True by done. rewrite H2, H3, H4, H5, !Nat2Z.id. change (0 + 1) with 1 in Hs1.
  rewrite <- (length_btree_iter Z.le (fs_blobs fs)).
  destruct (load_blobs_stored (btree_iter_Z (fs_blobs fs)) 1
              {| fs_index := ∅; fs_blobs := ∅; fs_hashes := ∅; fs_next := fs_next fs; fs_total := fs_total fs |}
              s1 (index_block <$> live_entries fs)) as (n2 & s2 & E2 & Hs2); [|exact Hs1|].
  { apply Forall_forall. intros [id d] Hin. apply elem_of_btree_iter in Hin. simpl.
    destruct (fs_ids fs Hwf id); [by eexists|]. pose proof (st_next fs Hst).
    split; [lia|]. by eapply (st_blob fs Hst). }
  cbn [fs_new fs_index fs_blobs fs_hashes]. rewrite E2. cbn [outcome_bind].
  set (fs2 := foldl _ _ _).
  destruct (load_index_stored (live_entries fs) n2 fs2 s2 []) as (s3 & E3); [| |].
  { apply Forall_forall. intros [p e] Hin. unfold live_entries in Hin.
    apply list_elem_of_filter in Hin as [Hd Hin]. apply elem_of_btree_iter in Hin. simpl in *.
    destruct (st_entry fs Hst p e Hin) as (? & ? & ? & ?).
    destruct (fs_entries fs Hwf p e Hin) as (_ & d & Hb & Hz).
    destruct (fs_ids fs Hwf (f_blob_id e)); [by eexists|]. pose proof (st_next fs Hst).
    pose proof (st_blob fs Hst _ _ Hb) as Hl. unfold U32_MAX, U64_MAX in *. split_and!; try done; lia. }
  { by rewrite app_nil_r. }
  rewrite E3. cbn [outcome_bind fst snd]. eexists _, _. split; [reflexivity|].
  destruct (fold_add_blob (btree_iter_Z (fs_blobs fs))
    {| fs_index := ∅; fs_blobs := ∅; fs_hashes := ∅; fs_next := fs_next fs; fs_total := fs_total fs |})
    as (B1 & B2 & B3 & B4). fold fs2 in B1, B2, B3, B4.
  destruct (fold_add_entry (live_entries fs) fs2) as (-> & -> & -> & ->).
  { apply Forall_forall. intros [p e] Hin. unfold live_entries in Hin.
    apply list_elem_of_filter in Hin as [Hd Hin]. apply elem_of_btree_iter in Hin. simpl in *.
    split; [by apply (fs_entries fs Hwf)|done]. }
  rewrite B1, B2, B3, B4. simpl.
  rewrite !fold_insert, !(right_id_L ∅ (∪)), live_entries_map, list_to_map_btree_iter; [done| |].
  - eapply sub_NoDup; [|apply (NoDup_btree_iter_keys String.le (fs_index fs))].
    apply fmap_submseteq, sublist_submseteq, sublist_filter.
  - apply NoDup_btree_iter_keys.
Qed.

(** *** Properties *)

(** What sync_to_disk writes, load_from_disk reads back.  For a well-formed store whose paths are
    at most 255 bytes of UTF-8 and whose counts and blobs fit in 32 bits, and a disk that accepts
    reads and writes of the blocks involved: sync_to_disk succeeds; after a reboot, with an empty
    cache over a device with the same contents, load_from_disk rebuilds the same blobs, the same entries (deleted
    ones apart) and the same counters, so every path reads as before. *)
Theorem sync_load_roundtrip (fs : OxideFs) (s : Disk D) :
  fs_wf fs → storable fs → disk_wf W s →
  (∀ i b, image fs !! i = Some b → W (Z.of_nat i) b) →
  access_counter (fst s) + Z.of_nat (length (image fs)) ≤ U64_MAX →
  0 ≤ access_counter (fst s) →
  ∃ s1, sync_to_disk fs s = Ret s1 ∧ ∀ d, (∀ n, contents d n = contents (snd s1) n) → ∃ fs' s2,
    load_from_disk fs_new (cache_new, d) = Ret (true, fs', s2) ∧
    fs_blobs fs' = fs_blobs fs ∧ fs_index fs' = filter (λ pe, f_deleted pe.2 = false) (fs_index fs) ∧
    fs_next fs' = fs_next fs ∧ fs_total fs' = fs_total fs ∧
    ∀ p, read_file p fs' = read_file p fs.
Proof.
  intros Hwf Hst Hd HW Hcnt H0. unfold sync_to_disk.
  destruct (write_seq_stored (image fs) 0 s Hd HW Hcnt) as (s1 & -> & Hd1 & Hv1 & _). cbn [outcome_bind].
  destruct (flush_spec W write_ok s1 Hd1) as (s2 & -> & _ & _ & Hc2 & _). cbn [outcome_bind snd].
  exists s2. split; [done|]. intros d Hd2. destruct (load_image fs (cache_new, d) Hwf Hst) as (fs' & s3 & E & B & I & N & T).
  { split; [split; simpl; [rewrite map_size_empty; unfold CACHE_SIZE; lia|done..]|].
    split; [change (access_counter _) with 0; lia|]. intros i b Hi. unfold view. simpl. rewrite lookup_empty, Hd2, Hc2.
    split; [by apply Hv1|]. by apply HW. }
  exists fs', s3. do 5 (split; [done|]). intros p. by apply loaded_reads.
Qed.
End roundtrip.

(** *** Witness *)
Definition demo_fs : OxideFs :=
  match write_file "/a" [1; 2; 3] 7 fs_new with Ret (_, fs) => fs | Panic => fs_new end.

Lemma demo_fs_blobs : fs_blobs demo_fs = {[1 := [1; 2; 3]]}.
Proof. vm_compute. reflexivity. Qed.

Lemma demo_fs_index : fs_index demo_fs = {["/a" := mkEntry "/a" 1 3 7 7 false]}.
Proof. vm_compute. reflexivity. Qed.

Lemma demo_fs_wf : fs_wf demo_fs.
Proof.
  eapply (write_file_spec "/a" [1; 2; 3] 7 fs_new 1 demo_fs fs_new_wf). vm_compute. reflexivity.
Qed.

Lemma demo_fs_storable : storable demo_fs.
Proof.
  split; [vm_compute; split; discriminate..|vm_compute; discriminate|vm_compute; discriminate| |].
  - intros id d. rewrite demo_fs_blobs. intros [_ <-]%lookup_singleton_Some. vm_compute. discriminate.
  - intros p e. rewrite demo_fs_index. intros [<- <-]%lookup_singleton_Some.
    split; [vm_compute; lia|]. split; [reflexivity|]. vm_compute. split_and!; discriminate.
Qed.

Lemma mem_disk_reads (n : Z) (b : block) (d : gmap Z block) : True → ∃ b' d', read_block n d = Ret (Ok b', d').
Proof. intros _. by eexists _, _. Qed.

Lemma sync_load_roundtrip_witness :
  ∃ s1 fs' s2, sync_to_disk demo_fs (cache_new, ∅ : gmap Z block) = Ret s1 ∧
    load_from_disk fs_new (cache_new, snd s1) = Ret (true, fs', s2) ∧
    read_file "/a" fs' = Some [1; 2; 3].
Proof.
  destruct (sync_load_roundtrip (λ _ _, True) mem_disk_writes mem_disk_reads demo_fs (cache_new, ∅)
              demo_fs_wf demo_fs_storable (fresh_disk_wf ∅)) as (s1 & H1 & Hload);
    [intros; exact I|vm_compute; discriminate|vm_compute; discriminate|].
  destruct (Hload (snd s1) (λ _, eq_refl)) as (fs' & s2 & H2 & _ & _ & _ & _ & H3).
  exists s1, fs', s2. split; [exact H1|]. split; [exact H2|]. rewrite H3. reflexivity.
Defined.
End Fs.
