(* ===== verification/ContextStore.v ===== *)
(** * ContextStore: storage/context_store.rs

    The per-agent key-value store: a cache in front of files /agents/<id>/<key>. *)

From S2P Require Import Prelude Capability Bytes BlockCache OxideFs.

Module Ctx.
Import Perm CapTable Fs.

(** STORE's cache and FS; CAP_TABLE is read by the gated operations. *)
Record ContextStore : Type := mkStore {
  cs_cache : gmap Z (gmap string (list Z));
  cs_fs : OxideFs;
}.

(** [format!("/agents/{}/", agent_id)] and [format!("/agents/{}/{}", agent_id, key)]. *)
Definition agent_prefix (agent_id : Z) : string := "/agents/" +:+ fmt_u64 agent_id +:+ "/".
Definition agent_path (agent_id : Z) (key : string) : string := agent_prefix agent_id +:+ key.

Definition set (agent_id : Z) (key : string) (value : list Z) (tick : Z) (self : ContextStore)
    : outcome ContextStore :=
  let store := default ∅ (cs_cache self !! agent_id) in
  let cache := <[agent_id := <[key := value]> store]> (cs_cache self) in
  let? r := write_file (agent_path agent_id key) value tick (cs_fs self) in
  Ret {| cs_cache := cache; cs_fs := snd r |}.

Definition get (agent_id : Z) (key : string) (self : ContextStore) : option (list Z) :=
  match cs_cache self !! agent_id ≫= (λ store, store !! key) with
  | Some val => Some val
  | None => read_file (agent_path agent_id key) (cs_fs self)
  end.

Definition delete (agent_id : Z) (key : string) (self : ContextStore) : bool * ContextStore :=
  let from_cache := match cs_cache self !! agent_id with
                    | Some s => bool_decide (is_Some (s !! key))
                    | None => false
                    end in
  let cache := alter (base.delete key) agent_id (cs_cache self) in
  let '(from_fs, fs) := delete_file (agent_path agent_id key) (cs_fs self) in
  (from_cache || from_fs, {| cs_cache := cache; cs_fs := fs |}).

(** [strip_prefix(p).unwrap_or(s)]. *)
Definition strip_prefix (p s : string) : string :=
  if String.prefix p s then String.substring (String.length p) (String.length s - String.length p) s else s.

Definition keys (agent_id : Z) (self : ContextStore) : list string :=
  (λ e, strip_prefix (agent_prefix agent_id) (f_path e)) <$> list_files (agent_prefix agent_id) (cs_fs self).

Definition clear_agent (agent_id : Z) (self : ContextStore) : ContextStore :=
  let paths := f_path <$> list_files (agent_prefix agent_id) (cs_fs self) in
  {| cs_cache := base.delete agent_id (cs_cache self);
     cs_fs := foldl (λ fs path, snd (delete_file path fs)) (cs_fs self) paths |}.

(** The capability-gated functions. *)
Definition gated_set (caps : CapabilityTable) (agent_id : Z) (key : string) (value : list Z) (tick cap_id : Z)
    : cmd ContextStore string () :=
  λ self, match validate caps cap_id agent_id WRITE with
          | Err _ => Ret (Err "insufficient storage capability", self)
          | Ok _ => let? self' := set agent_id key value tick self in Ret (Ok (), self')
          end.

Definition gated_get (caps : CapabilityTable) (agent_id : Z) (key : string) (cap_id : Z)
    (self : ContextStore) : result string (option (list Z)) :=
  match validate caps cap_id agent_id READ with
  | Err _ => Err "insufficient storage capability"
  | Ok _ => Ok (get agent_id key self)
  end.

(** ** Paths of different agents and keys differ *)
Lemma prefix_of_path a a' key :
  0 ≤ a → 0 ≤ a' → String.prefix (agent_prefix a) (agent_path a' key) = true → a = a'.
Proof.
  intros Ha Ha' [t Ht]%prefix_app_iff. unfold agent_path, agent_prefix in Ht.
  rewrite <- !string_app_assoc in Ht. apply (inj (String.append "/agents/")) in Ht.
  destruct (no_char_split SLASH (fmt_u64 a') key (fmt_u64 a) t) as [E _];
    [apply fmt_u64_no_slash|apply fmt_u64_no_slash|exact Ht|]. symmetry. by apply fmt_u64_inj.
Qed.

Lemma agent_path_inj a k a' k' :
  0 ≤ a → 0 ≤ a' → agent_path a k = agent_path a' k' → a = a' ∧ k = k'.
Proof.
  intros Ha Ha' H. unfold agent_path, agent_prefix in H.
  rewrite <- !string_app_assoc in H. apply (inj (String.append "/agents/")) in H.
  destruct (no_char_split SLASH (fmt_u64 a) k (fmt_u64 a') k') as [E Ek];
    [apply fmt_u64_no_slash|apply fmt_u64_no_slash|exact H|]. split; [by apply fmt_u64_inj|done].
Qed.

(** ** The cache agrees with the files *)
Record store_wf (s : ContextStore) : Prop := {
  cs_fs_wf : fs_wf (cs_fs s);
  cs_coherent : ∀ a store key v, cs_cache s !! a = Some store → store !! key = Some v →
                0 ≤ a ∧ read_file (agent_path a key) (cs_fs s) = Some v;
}.

Lemma get_file a key s : store_wf s → get a key s = read_file (agent_path a key) (cs_fs s).
Proof.
  intros [_ Hc]. unfold get. destruct (cs_cache s !! a) as [store|] eqn:E; simpl; [|done].
  destruct (store !! key) as [v|] eqn:Ek; [|done]. by destruct (Hc a store key v E Ek) as [_ ->].
Qed.

Lemma set_spec a key v tick s s' :
  0 ≤ a → store_wf s → set a key v tick s = Ret s' →
  store_wf s' ∧ ∀ a' key', 0 ≤ a' →
    get a' key' s' = if decide (a' = a ∧ key' = key) then Some v else get a' key' s.
Proof.
  intros Ha Hwf H. unfold set in H.
  destruct (write_file (agent_path a key) v tick (cs_fs s)) as [[id fs']|] eqn:E; simplify_eq/=.
  pose proof Hwf as [Hfs Hc]. destruct (write_file_spec _ _ _ _ _ _ Hfs E) as (Hfs' & _ & Hr & _).
  assert (Hwf' : store_wf {| cs_cache := <[a := <[key := v]> (default ∅ (cs_cache s !! a))]> (cs_cache s);
                             cs_fs := fs' |}).
  { split; [done|]. simpl. intros a' store key' v'. rewrite lookup_insert. case_decide as Hd.
    - subst a'. intros [= <-]. rewrite lookup_insert. case_decide; [intros [= <-]; subst|].
      + split; [done|]. by rewrite Hr, decide_True.
      + intros Hk. destruct (cs_cache s !! a) as [st|] eqn:Ea; simpl in Hk; [|by rewrite lookup_empty in Hk].
        destruct (Hc a st key' v' Ea Hk) as [_ Hrd]. split; [done|]. rewrite Hr, decide_False; [done|].
        intros Heq. destruct (agent_path_inj a key' a key Ha Ha Heq). congruence.
    - intros Hst Hk. destruct (Hc a' store key' v' Hst Hk) as [Ha' Hrd]. split; [done|].
      rewrite Hr, decide_False; [done|]. intros Heq.
      destruct (agent_path_inj a' key' a key Ha' Ha Heq). congruence. }
  split; [done|]. intros a' key' Ha'. rewrite !get_file by done. simpl. rewrite Hr. apply decide_ext.
  split; [by apply agent_path_inj|by intros [-> ->]].
Qed.

Lemma delete_spec a key s :
  0 ≤ a → store_wf s →
  store_wf (snd (delete a key s)) ∧ ∀ a' key', 0 ≤ a' →
    get a' key' (snd (delete a key s)) = if decide (a' = a ∧ key' = key) then None else get a' key' s.
Proof.
  intros Ha Hwf. pose proof Hwf as [Hfs Hc]. unfold delete.
  destruct (delete_file_spec (agent_path a key) (cs_fs s) Hfs) as (Hfs' & _ & Hr).
  destruct (delete_file (agent_path a key) (cs_fs s)) as [b fs']. simpl in *.
  assert (Hwf' : store_wf {| cs_cache := alter (base.delete key) a (cs_cache s); cs_fs := fs' |}).
  { split; [done|]. simpl. intros a' store key' v'. rewrite lookup_alter. case_decide as Hd.
    - subst a'. intros (st & Hst & ->)%fmap_Some. rewrite lookup_delete_Some. intros [Hne Hk].
      destruct (Hc a st key' v' Hst Hk) as [_ Hrd]. split; [done|]. rewrite Hr, decide_False; [done|].
      intros Heq. destruct (agent_path_inj a key' a key Ha Ha Heq). congruence.
    - intros Hst Hk. destruct (Hc a' store key' v' Hst Hk) as [Ha' Hrd]. split; [done|].
      rewrite Hr, decide_False; [done|]. intros Heq.
      destruct (agent_path_inj a' key' a key Ha' Ha Heq). congruence. }
  split; [done|]. intros a' key' Ha'. rewrite !get_file by done. simpl. rewrite Hr. apply decide_ext.
  split; [by apply agent_path_inj|by intros [-> ->]].
Qed.

Lemma delete_files_spec paths fs :
  fs_wf fs →
  fs_wf (foldl (λ fs path, snd (delete_file path fs)) fs paths) ∧
  ∀ p, read_file p (foldl (λ fs path, snd (delete_file path fs)) fs paths) =
       if decide (p ∈ paths) then None else read_file p fs.
Proof.
  revert fs. induction paths as [|q paths IH]; intros fs Hwf; [done|]. cbn [foldl].
  destruct (delete_file_spec q fs Hwf) as (Hwf1 & _ & Hr1). destruct (IH _ Hwf1) as [Hwf2 Hr2].
  split; [done|]. intros p. rewrite Hr2, Hr1. destruct (decide (p ∈ paths)), (decide (p = q));
    destruct (decide (p ∈ q :: paths)); set_solver.
Qed.

Lemma path_has_prefix a key : String.prefix (agent_prefix a) (agent_path a key) = true.
Proof. apply prefix_app_iff. by exists key. Qed.

Lemma clear_agent_spec a s :
  0 ≤ a → store_wf s →
  store_wf (clear_agent a s) ∧
  ∀ a' key', 0 ≤ a' → get a' key' (clear_agent a s) = if decide (a' = a) then None else get a' key' s.
Proof.
  intros Ha Hwf. pose proof Hwf as [Hfs Hc].
  destruct (delete_files_spec (f_path <$> list_files (agent_prefix a) (cs_fs s)) (cs_fs s) Hfs) as [Hfs' Hr].
  assert (Hother : ∀ a' key', 0 ≤ a' → a' ≠ a →
            read_file (agent_path a' key') (cs_fs (clear_agent a s)) = read_file (agent_path a' key') (cs_fs s)).
  { intros a' key' Ha' Hne. simpl. rewrite Hr, decide_False; [done|].
    intros (e & He & Hin)%list_elem_of_fmap. apply elem_of_list_files in Hin as (Hp & _); [|done].
    rewrite <- He in Hp. apply prefix_of_path in Hp; [congruence|done|done]. }
  assert (Hwf' : store_wf (clear_agent a s)).
  { split; [done|]. intros a' store key v Hst Hk. simpl in Hst. apply lookup_delete_Some in Hst as [Hne Hst].
    destruct (Hc a' store key v Hst Hk) as [Ha' Hrd]. split; [done|]. by rewrite Hother. }
  split; [done|]. intros a' key' Ha'. rewrite !get_file by done. case_decide as Hd; [subst a'|by apply Hother].
  simpl. rewrite Hr. case_decide as Hin; [done|]. unfold read_file.
  destruct (fs_index (cs_fs s) !! agent_path a key') as [e|] eqn:E; [|done].
  destruct (f_deleted e) eqn:Ed; [done|]. exfalso. apply Hin.
  destruct (fs_entries _ Hfs _ _ E) as [Hpe _]. apply list_elem_of_fmap. exists e. split; [done|].
  apply elem_of_list_files; [done|]. rewrite Hpe. split; [apply path_has_prefix|done].
Qed.

(** *** Properties *)

(** C37: an agent's context is its own.  Whatever the keys look like (slashes included), a value set
    under one agent and key is what get returns for that agent and key and changes nothing else;
    delete removes exactly that one; clear_agent removes exactly that agent's keys; the gated set
    and get act only with a valid WRITE or READ capability of the agent, and otherwise change and
    reveal nothing. *)
Theorem context_isolated (s : ContextStore) (a : Z) (key : string) (v : list Z) (tick : Z)
    (caps : CapabilityTable) (cap_id : Z) :
  0 ≤ a → store_wf s →
  (∀ s', gated_set caps a key v tick cap_id s = Ret (Ok (), s') →
     (∃ c, validate caps cap_id a WRITE = Ok c) ∧ store_wf s' ∧
     ∀ a' key', 0 ≤ a' → get a' key' s' = if decide (a' = a ∧ key' = key) then Some v else get a' key' s) ∧
  (∀ e s', gated_set caps a key v tick cap_id s = Ret (Err e, s') → s' = s) ∧
  (gated_get caps a key cap_id s =
     match validate caps cap_id a READ with
     | Ok _ => Ok (get a key s)
     | Err _ => Err "insufficient storage capability"
     end) ∧
  (∀ a' key', 0 ≤ a' →
     get a' key' (snd (delete a key s)) = if decide (a' = a ∧ key' = key) then None else get a' key' s) ∧
  (∀ a' key', 0 ≤ a' → get a' key' (clear_agent a s) = if decide (a' = a) then None else get a' key' s).
Proof.
  intros Ha Hwf. split; [|split; [|split; [done|split]]].
  - intros s' H. unfold gated_set in H. destruct (validate caps cap_id a WRITE) as [c|]; [|done].
    destruct (set a key v tick s) as [s1|] eqn:E; simplify_eq/=. split; [by exists c|]. by eapply set_spec.
  - intros e s' H. unfold gated_set in H. destruct (validate caps cap_id a WRITE); [|by simplify_eq].
    by destruct (set a key v tick s).
  - by apply delete_spec.
  - by apply clear_agent_spec.
Qed.

Lemma empty_store_wf : store_wf {| cs_cache := ∅; cs_fs := fs_new |}.
Proof. split; [apply fs_new_wf|]. simpl. intros a store key v. by rewrite lookup_empty. Qed.

Lemma context_isolated_witness :
  match gated_set demo_root 7 "k/1" [5] 0 1 {| cs_cache := ∅; cs_fs := fs_new |} with
  | Ret (Ok _, s') => get 7 "k/1" s' = Some [5] ∧ get 7 "k" s' = None
  | _ => False
  end.
Proof.
  destruct (gated_set demo_root 7 "k/1" [5] 0 1 {| cs_cache := ∅; cs_fs := fs_new |}) as [[[[]|e] s']|] eqn:E;
    [|vm_compute in E; discriminate E..].
  destruct (context_isolated {| cs_cache := ∅; cs_fs := fs_new |} 7 "k/1" [5] 0 demo_root 1) as [H _];
    [lia|apply empty_store_wf|].
  destruct (H s' E) as (_ & _ & Hg). rewrite !Hg by lia. split; reflexivity.
Defined.
End Ctx.
