(* ===== verification/Heap.v ===== *)
(** * Heap: alloc::collections::BinaryHeap

    The array heap of the Rust standard library, as timer/deadline.rs and gpu/scheduler.rs use it:
    push with sift_up, pop with sift_down_to_bottom, peek and drain.  A hole that moves through the
    array is written as a series of swaps.  [le] is the order of the elements ([Ord::cmp]); a max-heap. *)

From S2P Require Import Prelude.

(** The order of a heap: total and transitive, not necessarily antisymmetric. *)
Class HeapOrder {A : Type} (le : A → A → bool) : Prop := {
  le_total : ∀ x y, le x y = true ∨ le y x = true;
  le_trans : ∀ x y z, le x y = true → le y z = true → le x z = true;
}.

Definition parent (i : nat) : nat := Nat.div2 (i - 1).

Definition swap {A} (i j : nat) (l : list A) : list A :=
  match l !! i, l !! j with
  | Some x, Some y => <[i := y]> (<[j := x]> l)
  | _, _ => l
  end.

Section heap.
Context {A : Type} (le : A → A → bool).

Definition le_at (l : list A) (i j : nat) : bool :=
  match l !! i, l !! j with Some x, Some y => le x y | _, _ => false end.

(** [sift_up(0, pos)]: the position at least halves, so it is enough fuel itself. *)
Fixpoint sift_up (fuel pos : nat) (l : list A) : list A :=
  match fuel with
  | O => l
  | S fuel' =>
      if decide (pos = O) then l
      else if le_at l pos (parent pos) then l
      else sift_up fuel' (parent pos) (swap pos (parent pos) l)
  end.

(** The loop of sift_down_to_bottom: always to the greater child, the right one on a tie; a last
    single child ends it.  Returns the final position. *)
Fixpoint sink (fuel pos : nat) (l : list A) : nat * list A :=
  match fuel with
  | O => (pos, l)
  | S fuel' =>
      let child := (2 * pos + 1)%nat in
      if decide (child + 1 < length l)%nat then
        let child' := if le_at l child (child + 1) then (child + 1)%nat else child in
        sink fuel' child' (swap pos child' l)
      else if decide (child + 1 = length l)%nat then (child, swap pos child l)
      else (pos, l)
  end.

Definition push (x : A) (l : list A) : list A := sift_up (length l) (length l) (l ++ [x]).

Definition pop (l : list A) : option A * list A :=
  match last l with
  | None => (None, [])
  | Some item =>
      let rest := removelast l in
      match rest with
      | [] => (Some item, [])
      | top :: tl =>
          let '(pos, l') := sink (length rest) 0 (item :: tl) in
          (Some top, sift_up pos pos l')
      end
  end.

Definition peek (l : list A) : option A := head l.

(** Pushing one by one, as after a drain. *)
Definition rebuild (xs : list A) : list A := foldl (λ h x, push x h) [] xs.

(** ** Order *)
Definition heap (l : list A) : Prop :=
  ∀ i x y, (0 < i)%nat → l !! i = Some x → l !! parent i = Some y → le x y = true.

(** A heap except at [pos], whose children are below its parent. *)
Definition heap_up (pos : nat) (l : list A) : Prop :=
  (∀ i x y, (0 < i)%nat → i ≠ pos → l !! i = Some x → l !! parent i = Some y → le x y = true) ∧
  (∀ i x y, (0 < i)%nat → (0 < pos)%nat → parent i = pos → l !! i = Some x → l !! parent pos = Some y →
     le x y = true).

(** A heap except around [pos]: neither it nor its children are compared with it. *)
Definition heap_down (pos : nat) (l : list A) : Prop :=
  (∀ i x y, (0 < i)%nat → i ≠ pos → parent i ≠ pos → l !! i = Some x → l !! parent i = Some y → le x y = true) ∧
  (∀ i x y, (0 < i)%nat → (0 < pos)%nat → parent i = pos → l !! i = Some x → l !! parent pos = Some y →
     le x y = true).

Lemma parent_lt i : (0 < i)%nat → (parent i < i)%nat.
Proof. intros H. unfold parent. destruct i; [lia|]. apply Nat.lt_succ_r, Nat.div2_decr. lia. Qed.

Lemma parent_child i p : (0 < i)%nat → parent i = p ↔ i = (2 * p + 1)%nat ∨ i = (2 * p + 2)%nat.
Proof.
  intros H. unfold parent. rewrite Nat.div2_div. pose proof (Nat.div_mod (i - 1) 2 ltac:(lia)).
  pose proof (Nat.mod_upper_bound (i - 1) 2 ltac:(lia)). split; intros; lia.
Qed.

Lemma swap_Permutation i j (l : list A) : swap i j l ≡ₚ l.
Proof.
  unfold swap. destruct (l !! i) as [x|] eqn:Ei; [|done]. destruct (l !! j) as [y|] eqn:Ej; [|done].
  by apply Permutation_insert_swap.
Qed.

Lemma length_swap i j (l : list A) : length (swap i j l) = length l.
Proof. unfold swap. destruct (l !! i), (l !! j); by rewrite ?length_insert. Qed.

Lemma lookup_swap i j k (l : list A) :
  (i < length l)%nat → (j < length l)%nat →
  swap i j l !! k = if decide (k = i) then l !! j else if decide (k = j) then l !! i else l !! k.
Proof.
  intros Hi Hj. unfold swap. destruct (lookup_lt_is_Some_2 l i Hi) as [x Ei], (lookup_lt_is_Some_2 l j Hj) as [y Ej].
  rewrite Ei, Ej. destruct (decide (k = i)) as [->|Hki].
  - apply list_lookup_insert_eq. by rewrite length_insert.
  - rewrite list_lookup_insert_ne by done. destruct (decide (k = j)) as [->|Hkj].
    + by apply list_lookup_insert_eq.
    + by apply list_lookup_insert_ne.
Qed.

Context `{!HeapOrder le}.

Lemma not_le x y : le x y = false → le y x = true.
Proof. intros H. destruct (le_total x y) as [|]; [congruence|done]. Qed.

Lemma le_refl x : le x x = true.
Proof. by destruct (le_total x x). Qed.

#[local] Hint Resolve not_le le_refl : oxide.

Lemma sift_up_spec fuel pos l :
  (pos ≤ fuel)%nat → (pos < length l)%nat → heap_up pos l →
  heap (sift_up fuel pos l) ∧ sift_up fuel pos l ≡ₚ l.
Proof.
  revert pos l. induction fuel as [|fuel IH]; intros pos l Hf Hpos [H1 H2]; simpl.
  - assert (pos = O) as -> by lia. split; [|done]. intros i x y Hi. apply H1; lia.
  - destruct (decide (pos = O)) as [->|Hne]; [split; [intros i x y Hi; apply H1; lia|done]|].
    pose proof (parent_lt pos ltac:(lia)) as Hp. set (p := parent pos) in *.
    destruct (lookup_lt_is_Some_2 l pos Hpos) as [x Ex].
    destruct (lookup_lt_is_Some_2 l p ltac:(lia)) as [y Ey].
    unfold le_at. rewrite Ex, Ey. destruct (le x y) eqn:Exy.
    + split; [|done]. intros i x' y' Hi Hx' Hy'. destruct (decide (i = pos)) as [->|Hip]; [|by eapply H1].
      fold p in Hy'. congruence.
    + apply not_le in Exy. pose proof (lookup_swap pos p) as Hlook.
      destruct (IH p (swap pos p l)) as [Hh Hperm]; [lia|rewrite length_swap; lia| |].
      * split.
        -- intros i x' y' Hi Hip Hx' Hy'. rewrite Hlook in Hx', Hy' by lia.
           destruct (decide (i = pos)) as [->|Hipos].
           ++ fold p in Hy'. rewrite (decide_False (P := p = pos)) in Hy' by lia.
              rewrite decide_True in Hy' by done. congruence.
           ++ rewrite decide_False in Hx' by done.
              destruct (decide (parent i = pos)) as [Hpi|Hpi].
              { rewrite Ey in Hy'. simplify_eq. eapply (H2 i x' y'); [lia|lia|done|done|by fold p]. }
              destruct (decide (parent i = p)) as [Hpi'|Hpi'].
              { rewrite Ex in Hy'. simplify_eq. eapply le_trans; [|exact Exy].
                eapply (H1 i); [lia|done|done|by rewrite Hpi']. }
              by eapply H1.
        -- intros i x' y' Hi Hp0 Hpi Hx' Hy'. pose proof (parent_lt p Hp0).
           rewrite Hlook in Hx', Hy' by lia. rewrite !decide_False in Hy' by lia.
           assert (le y y' = true) as Hyy' by (eapply (H1 p); [lia|lia|done|done]).
           destruct (decide (i = pos)) as [->|Hipos]; [congruence|].
           rewrite decide_False in Hx' by (intros ->; pose proof (parent_lt p Hp0); lia).
           eapply le_trans; [|exact Hyy']. eapply (H1 i); [lia|done|done|by rewrite Hpi].
      * split; [done|]. by rewrite Hperm, swap_Permutation.
Qed.

Lemma sink_step pos c l :
  (c < length l)%nat → (0 < c)%nat → parent c = pos → heap_down pos l →
  (∀ j x y, (0 < j)%nat → parent j = pos → l !! j = Some x → l !! c = Some y → le x y = true) →
  heap_down c (swap pos c l).
Proof.
  intros Hc Hc0 Hpar [H1 H2] Hmax. pose proof (parent_lt c Hc0) as Hlt. rewrite Hpar in Hlt.
  assert (Hlook : ∀ k, swap pos c l !! k = if decide (k = pos) then l !! c else if decide (k = c) then l !! pos
                                           else l !! k) by (intros; apply lookup_swap; lia).
  split.
  - intros i x y Hi Hic Hpi Hx Hy. rewrite Hlook in Hx, Hy.
    rewrite (decide_False (P := i = c)) in Hx by done. rewrite (decide_False (P := parent i = c)) in Hy by done.
    destruct (decide (i = pos)) as [->|Hipos].
    + rewrite decide_False in Hy by (pose proof (parent_lt pos Hi); lia).
      eapply (H2 c x y); [lia|lia|done|done|done].
    + destruct (decide (parent i = pos)) as [Hpp|Hpp]; [by eapply (Hmax i)|by eapply H1].
  - intros i x y Hi _ Hpi Hx Hy. rewrite Hlook in Hx, Hy. pose proof (parent_lt i Hi).
    rewrite !decide_False in Hx by lia. rewrite Hpar, decide_True in Hy by done.
    eapply (H1 i); [lia|lia|lia|done|by rewrite Hpi].
Qed.

Lemma sink_spec fuel pos l pos' l' :
  (length l ≤ pos + fuel)%nat → (pos < length l)%nat → heap_down pos l → sink fuel pos l = (pos', l') →
  heap_up pos' l' ∧ l' ≡ₚ l ∧ (pos' < length l')%nat.
Proof.
  revert pos l. induction fuel as [|fuel IH]; intros pos l Hf Hpos Hd H; [lia|]. cbn [sink] in H.
  assert (Hkids : ∀ j, (0 < j)%nat → parent j = pos → j = (2 * pos + 1)%nat ∨ j = (2 * pos + 2)%nat)
    by (intros j Hj; by apply parent_child).
  assert (Hp1 : parent (2 * pos + 1) = pos) by (apply parent_child; lia).
  assert (Hp2 : parent (2 * pos + 2) = pos) by (apply parent_child; lia).
  destruct (decide (2 * pos + 1 + 1 < length l)%nat) as [Htwo|Htwo].
  - destruct (lookup_lt_is_Some_2 l (2 * pos + 1) ltac:(lia)) as [a Ea].
    destruct (lookup_lt_is_Some_2 l (2 * pos + 2) ltac:(lia)) as [b Eb].
    replace (2 * pos + 1 + 1)%nat with (2 * pos + 2)%nat in H by lia.
    assert (Hab : le_at l (2 * pos + 1) (2 * pos + 2) = le a b) by (unfold le_at; by rewrite Ea, Eb).
    rewrite Hab in H. set (c := if le a b then (2 * pos + 2)%nat else (2 * pos + 1)%nat) in *.
    assert (Hc : (c < length l)%nat ∧ (pos < c)%nat ∧ parent c = pos) by (subst c; destruct (le a b); lia).
    destruct (IH c (swap pos c l)) as (Hup & Hperm & Hlt); [rewrite length_swap; lia|rewrite length_swap; lia| |done|].
    + apply sink_step; [lia|lia|lia|done|]. intros j x y Hj Hpj Hx Hy. subst c.
      destruct (Hkids j Hj Hpj) as [-> | ->]; destruct (le a b) eqn:Eab; simplify_eq; auto with oxide.
    + split; [done|]. split; [by rewrite Hperm, swap_Permutation|done].
  - destruct (decide (2 * pos + 1 + 1 = length l)%nat) as [Hone|Hone]; simplify_eq.
    + destruct (sink_step pos (2 * pos + 1) l) as [D1 D2]; [lia|lia|done|done| |].
      * intros j x y Hj Hpj Hx Hy. apply lookup_lt_Some in Hx as Hjl.
        destruct (Hkids j Hj Hpj) as [-> | ->]; [|lia]. simplify_eq. apply le_refl.
      * split; [|split; [apply swap_Permutation|rewrite length_swap; lia]]. split; [|done].
        intros i x y Hi Hip Hx Hy. apply lookup_lt_Some in Hx as Hil. rewrite length_swap in Hil.
        eapply (D1 i x y); [done|done| |done|done].
        intros Hpi. apply parent_child in Hpi; lia.
    + split; [|done]. destruct Hd as [D1 D2]. split; [|done]. intros i x y Hi Hip Hx Hy.
      apply lookup_lt_Some in Hx as Hil. eapply (D1 i x y); [done|done| |done|done].
      intros Hpi. apply parent_child in Hpi; lia.
Qed.

(** ** The operations *)
Lemma push_spec x l : heap l → heap (push x l) ∧ push x l ≡ₚ x :: l.
Proof.
  intros Hl. unfold push. destruct (sift_up_spec (length l) (length l) (l ++ [x])) as [Hh Hp].
  - done.
  - rewrite length_app. simpl. lia.
  - assert (Hin : ∀ i y, (l ++ [x]) !! i = Some y → i ≠ length l → l !! i = Some y).
    { intros i y Hy Hi. apply lookup_lt_Some in Hy as Hlt. rewrite length_app in Hlt. simpl in Hlt.
      by rewrite lookup_app_l in Hy by lia. }
    assert (Hlt : ∀ i y, (l ++ [x]) !! i = Some y → (i ≤ length l)%nat).
    { intros i y Hy. apply lookup_lt_Some in Hy. rewrite length_app in Hy. simpl in Hy. lia. }
    split.
    + intros i y z Hi Hne Hy Hz. pose proof (parent_lt i Hi). pose proof (Hlt _ _ Hy).
      eapply (Hl i); [done|by apply Hin|apply Hin; [done|lia]].
    + intros i y z Hi Hpos Hpi Hy _. pose proof (parent_lt i Hi). pose proof (Hlt _ _ Hy). lia.
  - split; [done|]. rewrite Hp. symmetry. apply Permutation_cons_append.
Qed.

Lemma heap_top l x y : heap l → head l = Some x → y ∈ l → le y x = true.
Proof.
  intros Hl Hx [i Hi]%list_elem_of_lookup. revert y Hi. induction (lt_wf i) as [i _ IH]. intros y Hi.
  rewrite head_lookup in Hx. destruct (decide (i = O)) as [->|Hne]; [simplify_eq; apply le_refl|].
  pose proof (parent_lt i ltac:(lia)) as Hp. apply lookup_lt_Some in Hi as Hil.
  destruct (lookup_lt_is_Some_2 l (parent i) ltac:(lia)) as [z Hz].
  eapply le_trans; [eapply (Hl i); [lia|done|done]|by eapply IH].
Qed.

Lemma heap_prefix l k : heap (l ++ k) → heap l.
Proof. intros H i x y Hi Hx Hy. eapply (H i); [done|by apply lookup_app_l_Some|by apply lookup_app_l_Some]. Qed.

Lemma replace_root_down x y l : heap (x :: l) → heap_down 0 (y :: l).
Proof.
  intros Hh. split; [|intros; lia]. intros i a b Hi _ Hpi Ha Hb. eapply (Hh i); [done| |].
  - destruct i; [lia|done].
  - destruct (parent i); [done|done].
Qed.

Lemma pop_spec l :
  heap l →
  match pop l with
  | (None, l') => l = [] ∧ l' = []
  | (Some x, l') => peek l = Some x ∧ heap l' ∧ l ≡ₚ x :: l' ∧ Forall (λ y, le y x = true) l'
  end.
Proof.
  intros Hl. unfold pop. destruct (last l) as [item|] eqn:El.
  2:{ by apply last_None in El. }
  apply last_Some in El as [rest ->]. rewrite removelast_last. destruct rest as [|top tl].
  { split; [done|]. split; [intros i x y Hi Hx; done|]. split; [done|constructor]. }
  pose proof (heap_prefix _ _ Hl) as Hrest.
  destruct (sink (length (top :: tl)) 0 (item :: tl)) as [pos l'] eqn:Es.
  apply sink_spec in Es as (Hup & Hperm & Hpos); [|simpl; lia|simpl; lia|by eapply replace_root_down].
  destruct (sift_up_spec pos pos l') as [Hh Hp]; [done|done|done|].
  assert (Hall : (top :: tl) ++ [item] ≡ₚ top :: sift_up pos pos l').
  { rewrite Hp, Hperm. simpl. f_equiv. symmetry. apply Permutation_cons_append. }
  split; [done|]. split; [done|]. split; [done|].
  apply Forall_forall. intros y Hy. eapply heap_top; [exact Hl|done|]. rewrite Hall. by right.
Qed.

Lemma heap_nil : heap [].
Proof. intros i x y _ Hx. done. Qed.

#[local] Hint Resolve heap_nil : oxide.

Lemma rebuild_spec xs : heap (rebuild xs) ∧ rebuild xs ≡ₚ xs.
Proof.
  unfold rebuild. assert (Hgen : ∀ h, heap h → heap (foldl (λ h x, push x h) h xs) ∧
    foldl (λ h x, push x h) h xs ≡ₚ h ++ xs); [|apply (Hgen []); auto with oxide].
  induction xs as [|x xs IH]; intros h Hh; simpl; [by rewrite app_nil_r|].
  destruct (push_spec x h Hh) as [H1 H2]. destruct (IH _ H1) as [H3 H4]. split; [done|].
  rewrite H4, H2. simpl. apply Permutation_middle.
Qed.
End heap.
