(* ===== verification/Timer.v ===== *)
(** * Timer: timer/deadline.rs, timer/clock.rs and the timer interrupt of interrupts.rs

    The deadline queue is a binary heap ordered so that its greatest entry is the earliest
    deadline.  [timer_handler] is the whole interrupt handler on the machine of Switch.v; the
    network poll it makes is an argument. *)

From S2P Require Import Prelude Task Scheduler Kernel Switch Ipc Heap.

Module Timer.
Import Tasks Sched Kern Switch.

Record DeadlineEntry : Type := mkEntry {
  deadline_tick : Z;
  task_id : Z;
  callback_id : Z;
}.

#[export] Instance DeadlineEntry_eq_dec : EqDecision DeadlineEntry.
Proof. solve_decision. Defined.

(** [self <= other] for [cmp] = the comparison of the deadlines the other way round. *)
Definition deadline_le (a b : DeadlineEntry) : bool := deadline_tick b <=? deadline_tick a.

(** DEADLINES and NEXT_CALLBACK. *)
Record DeadlineQueue : Type := mkQueue { q_heap : list DeadlineEntry; next_callback : Z }.

Definition queue_new : DeadlineQueue := mkQueue [] 1.

Definition schedule (task deadline : Z) (q : DeadlineQueue) : Z * DeadlineQueue :=
  let id := next_callback q in
  (id, mkQueue (push deadline_le (mkEntry deadline task id) (q_heap q)) (wrapping_add64 id 1)).

Definition cancel (id : Z) (q : DeadlineQueue) : DeadlineQueue :=
  mkQueue (rebuild deadline_le (filter (λ e, callback_id e ≠ id) (q_heap q))) (next_callback q).

(** The loop of check_expired; every turn pops an entry, so the length of the heap is enough
    fuel.  [free]: whether SCHEDULER.try_lock() succeeds. *)
Fixpoint check_loop (fuel : nat) (free : bool) (now : Z) (h : list DeadlineEntry) (k : Kernel) (fired : nat)
    : nat * list DeadlineEntry * Kernel :=
  match fuel with
  | O => (fired, h, k)
  | S fuel' =>
      match peek h with
      | None => (fired, h, k)
      | Some entry =>
          if decide (deadline_tick entry > now) then (fired, h, k)
          else match pop deadline_le h with
               | (Some entry', h') => check_loop fuel' free now h' (try_unblock free (task_id entry') k) (S fired)
               | (None, h') => (fired, h', k)
               end
      end
  end.

Definition check_expired (free : bool) (now : Z) (q : DeadlineQueue) (k : Kernel) : nat * DeadlineQueue * Kernel :=
  let '(n, h, k') := check_loop (length (q_heap q)) free now (q_heap q) k O in
  (n, mkQueue h (next_callback q), k').

Definition pending_count (q : DeadlineQueue) : nat := length (q_heap q).

(** [deadlines_free]: whether DEADLINES.try_lock() succeeds. *)
Definition tick (deadlines_free free : bool) (now : Z) (q : DeadlineQueue) (k : Kernel) : DeadlineQueue * Kernel :=
  if deadlines_free then let '(_, q', k') := check_expired free now q k in (q', k') else (q, k).

(** ** timer/clock.rs *)

(** BOOT_TSC after [init], from the halves RDTSC returns. *)
Definition boot_tsc (lo hi : Z) : Z := Z.lor (Z.shiftl hi 32) lo.

Definition TICKS_PER_SEC : Z := 100.

Definition millis (ticks : Z) : outcome Z :=
  let? p := checked_mul64 ticks 1000 in Ret (p / Z.max TICKS_PER_SEC 1).

Definition seconds (ticks : Z) : Z := ticks / Z.max TICKS_PER_SEC 1.

Definition ms_to_ticks (ms : Z) : outcome Z :=
  let? p := checked_mul64 ms TICKS_PER_SEC in Ret (p / 1000).

(** ** interrupts.rs

    The locks the handler tries: PENDING, DEADLINES and SCHEDULER. *)
Record Locks : Type := mkLocks { pending_free : bool; deadlines_free : bool; sched_free : bool }.

Definition timer_handler {N : Type} (poll : N → N) (locks : Locks) (n : N) (q : DeadlineQueue) (m : Machine)
    : N * DeadlineQueue * Machine :=
  let k := set_ticks (m_k m) (wrapping_add64 (k_ticks (m_k m)) 1) in
  let m1 := Switch.timer_tick (with_k m k) in
  let now := k_ticks k in
  let n1 := if decide (now mod 10 = 0) then poll n else n in
  let k1 := if decide (now mod 50 = 0) then Ipc.check_timeouts (pending_free locks) (sched_free locks) k else k in
  let '(q', k2) := tick (deadlines_free locks) (sched_free locks) now q k1 in
  (n1, q', with_k m1 k2).

(** ** The queue *)
#[global] Instance deadline_order : HeapOrder deadline_le.
Proof. split; unfold deadline_le; intros; rewrite ?Z.leb_le in *; lia. Qed.

(** A heap whose callback ids are distinct and below the next one. *)
Definition queue_wf (q : DeadlineQueue) : Prop :=
  heap deadline_le (q_heap q) ∧ NoDup (callback_id <$> q_heap q) ∧
  Forall (λ e, callback_id e < next_callback q) (q_heap q).

Definition due (now : Z) (e : DeadlineEntry) : bool := deadline_tick e <=? now.

Definition earlier (a b : DeadlineEntry) : Prop := deadline_tick a ≤ deadline_tick b.

Definition wake_all (free : bool) (k : Kernel) (es : list DeadlineEntry) : Kernel :=
  foldl (λ k e, try_unblock free (task_id e) k) k es.

Lemma check_loop_spec fuel free now h k fired :
  heap deadline_le h → (length h ≤ fuel)%nat →
  ∃ es h', check_loop fuel free now h k fired = ((fired + length es)%nat, h', wake_all free k es) ∧
    heap deadline_le h' ∧ h ≡ₚ es ++ h' ∧ StronglySorted earlier es ∧
    Forall (λ e, due now e = true) es ∧ Forall (λ e, due now e = false) h'.
Proof.
  revert h k fired. induction fuel as [|fuel IH]; intros h k fired Hh Hlen.
  { destruct h; [|simpl in Hlen; lia]. exists [], []. split; [by rewrite Nat.add_0_r|]. repeat split; try constructor; done. }
  simpl. destruct (peek h) as [top|] eqn:Et.
  2:{ destruct h; [|done]. exists [], []. split; [by rewrite Nat.add_0_r|]. repeat split; try constructor; done. }
  destruct (decide (deadline_tick top > now)) as [Hgt|Hle].
  - exists [], h. split; [by rewrite Nat.add_0_r|]. split; [done|]. split; [done|]. split; [constructor|].
    split; [constructor|]. apply Forall_forall. intros e He.
    assert (deadline_le e top = true) by by eapply (heap_top deadline_le h).
    unfold deadline_le in *. unfold due. rewrite Z.leb_le in *. apply Z.leb_gt. lia.
  - pose proof (pop_spec deadline_le h Hh) as Hp. destruct (pop deadline_le h) as [[e|] h'].
    2:{ destruct Hp as [-> _]. done. }
    destruct Hp as (Ee & Hh' & Hperm & Hbest). rewrite Et in Ee. simplify_eq.
    destruct (IH h' (try_unblock free (task_id e) k) (S fired) Hh') as (es & r & -> & Hr & Hpr & Hs & Hd & Hnd).
    { apply Permutation_length in Hperm. simpl in Hperm. lia. }
    exists (e :: es), r. split; [simpl; by rewrite Nat.add_succ_r|]. split; [done|]. split; [by rewrite Hperm, Hpr|].
    split; [|split; [constructor; [apply Z.leb_le; lia|done]|done]].
    constructor; [done|]. rewrite Hpr in Hbest. apply Forall_app in Hbest as [Hb _].
    eapply Forall_impl; [exact Hb|]. intros x Hx. unfold deadline_le in Hx. by apply Z.leb_le in Hx.
Qed.

Lemma due_split now es (h h' : list DeadlineEntry) :
  h ≡ₚ es ++ h' → Forall (λ e, due now e = true) es → Forall (λ e, due now e = false) h' →
  es ≡ₚ filter (λ e, due now e = true) h ∧ h' ≡ₚ filter (λ e, due now e = false) h.
Proof.
  rewrite !Forall_forall. intros Hp Ht Hf. rewrite !Hp, !filter_app. split.
  - rewrite filter_all by auto. rewrite filter_none by (intros x Hx; rewrite Hf by done; done). by rewrite app_nil_r.
  - rewrite filter_none by (intros x Hx; rewrite Ht by done; done). by rewrite filter_all by auto.
Qed.

(** On a heap, check_expired takes out exactly the entries whose deadline has come and keeps the
    others, as a heap; it returns their number; and it unblocks their tasks in order of deadline when
    the scheduler lock is free.  When the lock is taken the entries are removed just the same and
    nobody is woken. *)
Lemma check_expired_spec (free : bool) (now : Z) (q : DeadlineQueue) (k : Kernel) :
  heap deadline_le (q_heap q) →
  ∃ (es : list DeadlineEntry) (q' : DeadlineQueue),
    check_expired free now q k = (length es, q', wake_all free k es) ∧
    es ≡ₚ filter (λ e, due now e = true) (q_heap q) ∧ StronglySorted earlier es ∧
    heap deadline_le (q_heap q') ∧ q_heap q' ≡ₚ filter (λ e, due now e = false) (q_heap q) ∧
    (free = false → wake_all free k es = k).
Proof.
  intros Hh. destruct (check_loop_spec (length (q_heap q)) free now (q_heap q) k 0 Hh) as (es & h' & E & Hh' & Hp & Hs & Ht & Hf);
    [done|]. exists es, (mkQueue h' (next_callback q)). unfold check_expired. rewrite E.
  destruct (due_split now es (q_heap q) h' Hp Ht Hf) as [He Hr]. do 5 (split; [done|]).
  intros ->. clear. unfold wake_all. induction es as [|e es IH]; [done|exact IH].
Qed.

(** *** Every queue the operations build is well formed *)
Lemma queue_new_wf : queue_wf queue_new.
Proof. split; [apply heap_nil|]. split; constructor. Qed.

Lemma schedule_wf task d q : queue_wf q → next_callback q < U64_MAX → 0 ≤ next_callback q → queue_wf (schedule task d q).2.
Proof.
  intros (Hh & Hnd & Hlt) Hmax H0. unfold schedule, queue_wf. simpl.
  destruct (push_spec deadline_le (mkEntry d task (next_callback q)) (q_heap q) Hh) as [H1 H2].
  assert (Hn : wrapping_add64 (next_callback q) 1 = next_callback q + 1).
  { unfold wrapping_add64. apply Z.mod_small. unfold U64_MAX in Hmax. lia. }
  split; [done|]. rewrite H2, Hn. split.
  - simpl. apply NoDup_cons. split; [|done]. intros (e & He & Hin)%list_elem_of_fmap.
    rewrite Forall_forall in Hlt. apply Hlt in Hin. lia.
  - constructor; [simpl; lia|]. eapply Forall_impl; [exact Hlt|]. simpl. lia.
Qed.

Lemma sub_queue_wf q h : queue_wf q → heap deadline_le h → h ⊆+ q_heap q → queue_wf (mkQueue h (next_callback q)).
Proof.
  intros (_ & Hnd & Hlt) Hh Hsub. split; [done|]. split.
  - simpl. eapply sub_NoDup; [by apply fmap_submseteq|done].
  - by eapply sub_Forall.
Qed.

Lemma cancel_wf id q : queue_wf q → queue_wf (cancel id q).
Proof.
  intros Hwf. destruct (rebuild_spec deadline_le (filter (λ e, callback_id e ≠ id) (q_heap q))) as [H1 H2].
  apply sub_queue_wf; [done|done|]. rewrite H2. apply sublist_submseteq, sublist_filter.
Qed.

Lemma check_expired_wf free now q k n q' k' :
  queue_wf q → check_expired free now q k = (n, q', k') → queue_wf q'.
Proof.
  intros Hwf H. unfold check_expired in H.
  destruct (check_loop_spec (length (q_heap q)) free now (q_heap q) k 0 (proj1 Hwf)) as (es & h' & E & Hh' & Hp & _); [done|].
  rewrite E in H. simplify_eq. apply sub_queue_wf; [done|done|]. rewrite Hp. apply submseteq_inserts_l, reflexivity.
Qed.

(** Cancelling what was just scheduled leaves the entries as they were. *)
Lemma cancel_schedule task d q :
  queue_wf q → q_heap (cancel (next_callback q) (schedule task d q).2) ≡ₚ q_heap q.
Proof.
  intros (Hh & _ & Hlt). unfold cancel, schedule. simpl.
  destruct (push_spec deadline_le (mkEntry d task (next_callback q)) (q_heap q) Hh) as [_ H2].
  rewrite (proj2 (rebuild_spec deadline_le _)), H2, filter_cons, decide_False by (simpl; auto).
  rewrite filter_all; [done|]. intros e He. rewrite Forall_forall in Hlt. apply Hlt in He. lia.
Qed.

(** ** Waking *)

Definition blocked_ids (k : Kernel) : list Z := t_id <$> blocked (k_sched k).

(** [k'] is [k] with some blocked tasks made ready, [ids] among them. *)
Definition woken (ids : list Z) (k k' : Kernel) : Prop :=
  sched_wf (k_sched k') ∧ all_ids (k_sched k') ≡ₚ all_ids (k_sched k) ∧
  ∀ id, id ∈ blocked_ids k' → id ∈ blocked_ids k ∧ (id ∉ ids).

Lemma woken_none k : sched_wf (k_sched k) → woken [] k k.
Proof. intros Hwf. split; [done|]. split; [done|]. intros id Hid. split; [done|]. apply not_elem_of_nil. Qed.

Lemma woken_trans ids1 ids2 k1 k2 k3 : woken ids1 k1 k2 → woken ids2 k2 k3 → woken (ids1 ++ ids2) k1 k3.
Proof.
  intros (_ & Hp1 & H1) (Hwf & Hp2 & H2). split; [done|]. split; [by rewrite Hp2|].
  intros id [Hid Hn2]%H2. apply H1 in Hid as [Hid Hn1]. split; [done|]. rewrite elem_of_app. tauto.
Qed.

Lemma woken_sched ids k1 k2 k2' : k_sched k2' = k_sched k2 → woken ids k1 k2 → woken ids k1 k2'.
Proof. unfold woken, blocked_ids. by intros ->. Qed.

Lemma woken_weaken ids k1 k2 : woken ids k1 k2 → woken [] k1 k2.
Proof.
  intros (Hwf & Hp & H). split; [done|]. split; [done|]. intros id [Hid _]%H. split; [done|]. apply not_elem_of_nil.
Qed.

Lemma try_unblock_woken id k : sched_wf (k_sched k) → woken [id] k (try_unblock true id k).
Proof.
  intros Hwf. unfold try_unblock, woken, blocked_ids.
  destruct (unblock_spec (k_sched k) id Hwf) as [(t & bl1 & bl2 & s' & Ebl & Ht & Hu & Hwf' & Hp & Habs)|[Hn Hu]];
    rewrite Hu; simpl.
  - split; [done|]. split; [done|]. unfold abstract in Habs. injection Habs as _ _ Eb.
    pose proof (wf_nodup _ Hwf) as Hnd. unfold all_ids, all_tasks in Hnd.
    rewrite !fmap_app, Ebl, fmap_app, fmap_cons in Hnd.
    apply NoDup_app in Hnd as (_ & _ & Hnd). apply NoDup_app in Hnd as (Hnd & _ & _).
    rewrite <- Permutation_middle in Hnd. apply NoDup_cons in Hnd as [Hnin _].
    intros x. rewrite Eb, Ebl, !fmap_app, fmap_cons. rewrite Ht in *. set_solver.
  - split; [done|]. split; [done|]. intros x Hx. split; [done|]. intros ->%list_elem_of_singleton. done.
Qed.

Lemma wake_all_woken k es : sched_wf (k_sched k) → woken (task_id <$> es) k (wake_all true k es).
Proof.
  revert k. induction es as [|e es IH]; intros k Hwf; [by apply woken_none|].
  pose proof (try_unblock_woken (task_id e) k Hwf) as H1.
  change (task_id <$> e :: es) with ([task_id e] ++ (task_id <$> es)). eapply woken_trans; [exact H1|].
  apply IH, H1.
Qed.

Lemma drop_requests_woken k ids :
  sched_wf (k_sched k) → woken [] k (foldl (Ipc.drop_request true) k ids).
Proof.
  revert k. induction ids as [|id ids IH]; intros k Hwf; [by apply woken_none|]. simpl.
  change (@nil Z) with (@nil Z ++ []).
  assert (H1 : woken [] k (Ipc.drop_request true k id)).
  { unfold Ipc.drop_request. destruct (k_pending k !! id) as [req|]; [|by apply woken_none].
    apply (woken_weaken [requester req]). by apply (try_unblock_woken _ (set_pending k _)). }
  eapply woken_trans; [exact H1|]. apply IH, H1.
Qed.

Lemma drop_requests_ticks k ids : k_ticks (foldl (Ipc.drop_request true) k ids) = k_ticks k.
Proof.
  revert k. induction ids as [|id ids IH]; intros k; [done|]. simpl. rewrite IH. unfold Ipc.drop_request.
  by destruct (k_pending k !! id).
Qed.

Lemma check_timeouts_ticks k : k_ticks (Ipc.check_timeouts true true k) = k_ticks k.
Proof. apply drop_requests_ticks. Qed.

Lemma wake_all_fields k es :
  k_ticks (wake_all true k es) = k_ticks k ∧ k_pending (wake_all true k es) = k_pending k.
Proof. revert k. induction es as [|e es IH]; intros k; [done|]. apply (IH (try_unblock true (task_id e) k)). Qed.

Lemma check_timeouts_woken k : sched_wf (k_sched k) → woken [] k (Ipc.check_timeouts true true k).
Proof. apply drop_requests_woken. Qed.

Lemma timer_handler_spec {N : Type} (poll : N → N) (n : N) (q : DeadlineQueue) (m : Machine) :
  heap deadline_le (q_heap q) → sched_wf (k_sched (m_k m)) → k_ticks (m_k m) < U64_MAX → 0 ≤ k_ticks (m_k m) →
  let now := k_ticks (m_k m) + 1 in
  ∃ n' q' m', timer_handler poll (mkLocks true true true) n q m = (n', q', m') ∧
    k_ticks (m_k m') = now ∧ should_reschedule m' = true ∧ sched_wf (k_sched (m_k m')) ∧
    all_ids (k_sched (m_k m')) ≡ₚ all_ids (k_sched (m_k m)) ∧
    heap deadline_le (q_heap q') ∧ q_heap q' ≡ₚ filter (λ e, due now e = false) (q_heap q) ∧
    (∀ e, e ∈ q_heap q → deadline_tick e ≤ now → task_id e ∉ blocked_ids (m_k m')) ∧
    (∀ id, id ∈ blocked_ids (m_k m') → id ∈ blocked_ids (m_k m)) ∧
    (now mod 50 = 0 → k_pending (m_k m') = filter (λ r, now < Kern.deadline_tick r.2) (k_pending (m_k m))).
Proof.
  intros Hh Hwf Hmax H0 now. unfold timer_handler.
  assert (Hnow : wrapping_add64 (k_ticks (m_k m)) 1 = now).
  { unfold wrapping_add64. apply Z.mod_small. unfold U64_MAX in Hmax. lia. }
  rewrite Hnow. set (k := set_ticks (m_k m) now). change (k_ticks k) with now.
  set (k1 := if decide (now mod 50 = 0) then _ else k).
  assert (H1 : woken [] (m_k m) k1).
  { subst k1. destruct (decide (now mod 50 = 0)).
    - apply (check_timeouts_woken k Hwf).
    - apply (woken_sched [] _ (m_k m)); [done|by apply woken_none]. }
  assert (Hk1 : k_ticks k1 = now) by (subst k1; destruct (decide (now mod 50 = 0)); [apply check_timeouts_ticks|done]).
  unfold tick, check_expired.
  destruct (check_loop_spec (length (q_heap q)) true now (q_heap q) k1 0 Hh) as (es & h' & E & Hh' & Hp & Hs & Ht & Hf);
    [done|]. simpl deadlines_free. simpl sched_free. rewrite E.
  destruct (due_split now es (q_heap q) h' Hp Ht Hf) as [He Hr].
  pose proof (woken_trans _ _ _ _ _ H1 (wake_all_woken k1 es (proj1 H1))) as (Hw & Hall & Hb).
  destruct (wake_all_fields k1 es) as [Htk Hpd].
  eexists _, _, _. split; [reflexivity|]. simpl. rewrite Htk, Hpd, Hk1. do 6 (split; [done|]). split; [|split].
  - intros e Hin Hdue Hbl. apply Hb in Hbl as [_ Hn]. apply Hn. apply list_elem_of_fmap_2.
    rewrite He. apply list_elem_of_filter. split; [|done]. by apply Z.leb_le.
  - intros id Hid. by apply Hb in Hid as [? _].
  - intros H50. subst k1. rewrite decide_True by done. apply (Ipc.check_timeouts_pending true k).
Qed.

(** C23: one timer interrupt with its locks free advances the tick count, asks for a reschedule,
    leaves in the deadline queue exactly the entries that are not due, and leaves no task blocked
    that has an entry due.  No task is lost or added, and every fiftieth tick removes the requests
    that timed out. *)
Theorem timer_handler_wakes {N : Type} (poll : N → N) (n : N) (q : DeadlineQueue) (m : Machine) :
  heap deadline_le (q_heap q) → sched_wf (k_sched (m_k m)) → k_ticks (m_k m) < U64_MAX → 0 ≤ k_ticks (m_k m) →
  let now := k_ticks (m_k m) + 1 in
  ∃ n' q' m', timer_handler poll (mkLocks true true true) n q m = (n', q', m') ∧
    k_ticks (m_k m') = now ∧ should_reschedule m' = true ∧ sched_wf (k_sched (m_k m')) ∧
    all_ids (k_sched (m_k m')) ≡ₚ all_ids (k_sched (m_k m)) ∧
    heap deadline_le (q_heap q') ∧ q_heap q' ≡ₚ filter (λ e, due now e = false) (q_heap q) ∧
    (∀ e, e ∈ q_heap q → deadline_tick e ≤ now → task_id e ∉ blocked_ids (m_k m')) ∧
    (now mod 50 = 0 → k_pending (m_k m') = filter (λ r, now < Kern.deadline_tick r.2) (k_pending (m_k m))).
Proof.
  intros Hh Hwf Hmax H0 now.
  destruct (timer_handler_spec poll n q m Hh Hwf Hmax H0) as (n' & q' & m' & E & H1 & H2 & H3 & H4 & H5 & H6 & H7 & _ & H8).
  by exists n', q', m'.
Qed.

(** Task 4 is blocked and has a deadline at tick 5; the next tick is the fiftieth. *)
Definition demo_asleep : Machine :=
  mkMachine (set_ticks (set_sched kernel_new demo_sched) 49) empty_context empty_context true false.

Definition demo_timers : DeadlineQueue := (schedule 4 5 queue_new).2.

Lemma timer_handler_wakes_witness :
  ∃ n' q' m', timer_handler (λ n : nat, S n) (mkLocks true true true) 0%nat demo_timers demo_asleep = (n', q', m') ∧
    k_ticks (m_k m') = 50 ∧ (4 ∉ blocked_ids (m_k m')).
Proof.
  destruct (timer_handler_wakes (λ n : nat, S n) 0%nat demo_timers demo_asleep)
    as (n' & q' & m' & E & Ht & _ & _ & _ & _ & _ & Hw & _).
  - apply push_spec; [apply _|]. apply heap_nil.
  - apply demo_sched_wf.
  - reflexivity.
  - done.
  - exists n', q', m'. split; [exact E|]. split; [exact Ht|]. apply (Hw (mkEntry 5 4 1)); [|done]. vm_compute. by left.
Defined.
End Timer.
