(* ===== verification/Gpu.v ===== *)
(** * Gpu: gpu/scheduler.rs, the inference scheduler

    A binary heap of requests by priority and deadline (by age among those without one), one
    running request and two counters. *)

From S2P Require Import Prelude Capability Heap.

Module Gpu.
Import Perm CapTable.

Inductive InferenceStatus : Type := Queued | Running | Completed | Failed.

Inductive InferencePriority : Type := Urgent | Normal | Batch.

Definition priority_u8 (p : InferencePriority) : Z :=
  match p with Urgent => 0 | Normal => 1 | Batch => 2 end.

Record InferenceRequest : Type := mkRequest {
  ir_id : Z;
  ir_agent : Z;
  ir_model : string;
  ir_priority : InferencePriority;
  ir_deadline : option Z;
  ir_submitted : Z;
}.

(** [Ordering::then_with]. *)
Definition then_with (c d : comparison) : comparison := match c with Eq => d | _ => c end.

Definition cmp (self other : InferenceRequest) : comparison :=
  CompOpp (then_with (priority_u8 (ir_priority self) ?= priority_u8 (ir_priority other))
    (match ir_deadline self, ir_deadline other with
     | Some a, Some b => a ?= b
     | Some _, None => Lt
     | None, Some _ => Gt
     | None, None => ir_submitted self ?= ir_submitted other
     end)).

(** [self <= other]. *)
Definition request_le (self other : InferenceRequest) : bool :=
  match cmp self other with Gt => false | _ => true end.

(** GPU_SCHEDULER and NEXT_REQUEST_ID. *)
Record GpuScheduler : Type := mkGpu {
  g_queue : list InferenceRequest;
  g_current : option InferenceRequest;
  total_completed : Z;
  total_failed : Z;
  next_request_id : Z;
}.

Definition gpu_new : GpuScheduler := mkGpu [] None 0 0 1.

(** [ticks]: the value of interrupts::ticks(). *)
Definition submit (ticks agent_id : Z) (model_id : string) (priority : InferencePriority)
    (deadline_tick : option Z) (g : GpuScheduler) : Z * GpuScheduler :=
  let id := next_request_id g in
  (id, mkGpu (push request_le (mkRequest id agent_id model_id priority deadline_tick ticks) (g_queue g))
         (g_current g) (total_completed g) (total_failed g) (wrapping_add64 id 1)).

Definition dequeue (g : GpuScheduler) : option InferenceRequest * GpuScheduler :=
  match pop request_le (g_queue g) with
  | (None, q) => (None, mkGpu q (g_current g) (total_completed g) (total_failed g) (next_request_id g))
  | (Some req, q) => (Some req, mkGpu q (Some req) (total_completed g) (total_failed g) (next_request_id g))
  end.

Definition complete_current (g : GpuScheduler) : outcome GpuScheduler :=
  match g_current g with
  | Some _ => let? n := checked_add64 (total_completed g) 1 in
              Ret (mkGpu (g_queue g) None n (total_failed g) (next_request_id g))
  | None => Ret g
  end.

Definition fail_current (g : GpuScheduler) : outcome GpuScheduler :=
  match g_current g with
  | Some _ => let? n := checked_add64 (total_failed g) 1 in
              Ret (mkGpu (g_queue g) None (total_completed g) n (next_request_id g))
  | None => Ret g
  end.

(** The test of the closure in expire_deadlines. *)
Definition overdue (current_tick : Z) (req : InferenceRequest) : bool :=
  match ir_deadline req with Some d => d <? current_tick | None => false end.

Definition expire_deadlines (current_tick : Z) (g : GpuScheduler) : outcome (nat * GpuScheduler) :=
  let expired := length (filter (λ r, overdue current_tick r = true) (g_queue g)) in
  let remaining := filter (λ r, overdue current_tick r = false) (g_queue g) in
  let? n := checked_add64 (total_failed g) (Z.of_nat expired) in
  Ret (expired, mkGpu (rebuild request_le remaining) (g_current g) (total_completed g) n (next_request_id g)).

Definition queue_length (g : GpuScheduler) : nat := length (g_queue g).

Definition stats (g : GpuScheduler) : Z * Z * nat := (total_completed g, total_failed g, queue_length g).

Definition submit_request (caps : CapabilityTable) (ticks agent_id : Z) (model_id : string)
    (priority : InferencePriority) (deadline_tick : option Z) (cap_id : Z) (g : GpuScheduler)
    : result string Z * GpuScheduler :=
  match validate caps cap_id agent_id EXECUTE with
  | Err _ => (Err "insufficient inference capability", g)
  | Ok _ => let '(id, g') := submit ticks agent_id model_id priority deadline_tick g in (Ok id, g')
  end.

(** ** The order

    [before a b]: [a] has to run before [b] — a more urgent class, or the same class and an
    earlier deadline (any deadline is earlier than none), or neither has one and [a] is older.
    Requests of the same class with the same deadline are not ordered. *)
Definition before (a b : InferenceRequest) : Prop :=
  priority_u8 (ir_priority a) < priority_u8 (ir_priority b) ∨
  ir_priority a = ir_priority b ∧
  match ir_deadline a, ir_deadline b with
  | Some x, Some y => x < y
  | Some _, None => True
  | None, Some _ => False
  | None, None => ir_submitted a < ir_submitted b
  end.

Lemma request_le_before a b : request_le a b = true ↔ ¬ before a b.
Proof.
  unfold request_le, cmp, before, then_with.
  destruct (Z.compare_spec (priority_u8 (ir_priority a)) (priority_u8 (ir_priority b))) as [E|Hlt|Hgt]; simpl.
  - assert (ir_priority a = ir_priority b) as Ep by (destruct (ir_priority a), (ir_priority b); done).
    destruct (ir_deadline a) as [x|], (ir_deadline b) as [y|]; simpl.
    + destruct (Z.compare_spec x y); simpl; split; try done; intros; intuition (try lia); exfalso; eauto.
    + split; [done|]. intros H. exfalso. apply H. auto.
    + split; [|done]. intros _ [?|[]]; [lia|done].
    + destruct (Z.compare_spec (ir_submitted a) (ir_submitted b)); simpl; split; try done; intros; intuition (try lia);
        exfalso; eauto.
  - split; [done|]. intros H. exfalso. apply H. by left.
  - split; [|done]. intros _ [?|[E _]]; [lia|]. rewrite E in Hgt. lia.
Qed.

#[global] Instance request_order : HeapOrder request_le.
Proof.
  split.
  - intros x y. rewrite !request_le_before. unfold before.
    destruct (decide (priority_u8 (ir_priority x) < priority_u8 (ir_priority y))) as [|Hn].
    + right. intros [?|[E _]]; [lia|]. rewrite E in *. lia.
    + destruct (decide (priority_u8 (ir_priority y) < priority_u8 (ir_priority x))) as [|Hn'].
      * left. intros [?|[E _]]; [lia|]. rewrite E in *. lia.
      * destruct (ir_deadline x) as [a|], (ir_deadline y) as [b|].
        -- destruct (decide (a < b)); [right|left]; intros [?|[_ ?]]; lia.
        -- right. intros [?|[_ []]]; lia.
        -- left. intros [?|[_ []]]; lia.
        -- destruct (decide (ir_submitted x < ir_submitted y)); [right|left]; intros [?|[_ ?]]; lia.
  - intros x y z. rewrite !request_le_before. unfold before. intros Hxy Hyz Hxz.
    assert (Hp : priority_u8 (ir_priority y) ≤ priority_u8 (ir_priority x)) by lia.
    assert (Hp' : priority_u8 (ir_priority z) ≤ priority_u8 (ir_priority y)) by lia.
    destruct Hxz as [?|[E Hd]]; [lia|]. assert (ir_priority x = ir_priority y ∧ ir_priority y = ir_priority z) as [E1 E2].
    { rewrite E in *. destruct (ir_priority x), (ir_priority y), (ir_priority z); simpl in *; try done; lia. }
    destruct (ir_deadline x) as [a|], (ir_deadline y) as [b|], (ir_deadline z) as [c|]; try tauto.
    + assert (¬ a < b) by tauto. assert (¬ b < c) by tauto. lia.
    + assert (¬ ir_submitted x < ir_submitted y) by tauto. assert (¬ ir_submitted y < ir_submitted z) by tauto. lia.
Qed.

(** ** Runs

    [dropped] counts the requests that dequeue replaces while they are still running. *)
Record history : Type := mkHistory { submitted : Z; dropped : Z }.

Inductive gpu_step : GpuScheduler * history → GpuScheduler * history → Prop :=
| gs_submit g h ticks agent model p d :
    gpu_step (g, h) ((submit ticks agent model p d g).2, mkHistory (submitted h + 1) (dropped h))
| gs_dequeue_idle g h : g_current g = None → gpu_step (g, h) ((dequeue g).2, h)
| gs_dequeue_busy g h r g' :
    is_Some (g_current g) → dequeue g = (Some r, g') → gpu_step (g, h) (g', mkHistory (submitted h) (dropped h + 1))
| gs_dequeue_empty g h g' : dequeue g = (None, g') → gpu_step (g, h) (g', h)
| gs_complete g h g' : complete_current g = Ret g' → gpu_step (g, h) (g', h)
| gs_fail g h g' : fail_current g = Ret g' → gpu_step (g, h) (g', h)
| gs_expire g h now n g' : expire_deadlines now g = Ret (n, g') → gpu_step (g, h) (g', h).

Definition in_flight (g : GpuScheduler) : Z :=
  Z.of_nat (length (g_queue g)) + match g_current g with Some _ => 1 | None => 0 end.

Definition gpu_wf (x : GpuScheduler * history) : Prop :=
  let '(g, h) := x in
  heap request_le (g_queue g) ∧
  submitted h = total_completed g + total_failed g + in_flight g + dropped h.

Lemma submit_spec ticks agent model p d g :
  heap request_le (g_queue g) →
  let '(id, g') := submit ticks agent model p d g in
  heap request_le (g_queue g') ∧ g_queue g' ≡ₚ mkRequest id agent model p d ticks :: g_queue g ∧
  g_current g' = g_current g ∧ total_completed g' = total_completed g ∧ total_failed g' = total_failed g.
Proof. intros Hh. unfold submit. simpl. by destruct (push_spec request_le (mkRequest (next_request_id g) agent model p d ticks) _ Hh). Qed.

Lemma dequeue_spec g :
  heap request_le (g_queue g) →
  match dequeue g with
  | (None, g') => g_queue g = [] ∧ g' = g
  | (Some r, g') =>
      g_queue g ≡ₚ r :: g_queue g' ∧ heap request_le (g_queue g') ∧ (∀ r', r' ∈ g_queue g' → ¬ before r' r) ∧
      g_current g' = Some r ∧ total_completed g' = total_completed g ∧ total_failed g' = total_failed g
  end.
Proof.
  intros Hh. pose proof (pop_spec request_le _ Hh) as Hp. unfold dequeue.
  destruct (pop request_le (g_queue g)) as [[r|] q].
  - destruct Hp as (_ & Hq & Hperm & Hbest). split; [done|]. split; [done|]. split; [|done].
    intros r' Hr'. apply request_le_before. rewrite Forall_forall in Hbest. by apply Hbest.
  - destruct Hp as [E ->]. split; [done|]. destruct g. simpl in *. by subst.
Qed.

Lemma expire_spec now g n g' :
  expire_deadlines now g = Ret (n, g') →
  heap request_le (g_queue g') ∧ g_queue g' ≡ₚ filter (λ r, overdue now r = false) (g_queue g) ∧
  (length (g_queue g') + n = length (g_queue g))%nat ∧ total_failed g' = total_failed g + Z.of_nat n ∧
  g_current g' = g_current g ∧ total_completed g' = total_completed g.
Proof.
  unfold expire_deadlines, outcome_bind. destruct (checked_add64 _ _) as [f|] eqn:E; [|done].
  apply checked_add64_Ret in E as [-> _]. intros [= <- <-]. simpl.
  destruct (rebuild_spec request_le (filter (λ r, overdue now r = false) (g_queue g))) as [H1 H2].
  do 2 (split; [done|]). split; [|done]. rewrite H2, Nat.add_comm. apply length_filter_split.
Qed.

Lemma gpu_step_wf x y : gpu_wf x → gpu_step x y → gpu_wf y.
Proof.
  intros Hwf Hs. destruct Hs; destruct Hwf as [Hh Ha]; unfold gpu_wf, in_flight in *.
  - pose proof (submit_spec ticks agent model p d g Hh) as H. destruct (submit ticks agent model p d g) as [id g'].
    destruct H as (H1 & H2%Permutation_length & H3 & H4 & H5). simpl in *. rewrite H2, H3, H4, H5. split; [done|lia].
  - pose proof (dequeue_spec g Hh) as Hd. destruct (dequeue g) as [[r|] g'].
    + destruct Hd as (H1%Permutation_length & H2 & _ & H3 & H4 & H5). simpl in *. rewrite H1, H in Ha. rewrite H3, H4, H5.
      split; [done|lia].
    + destruct Hd as [_ ->]. done.
  - pose proof (dequeue_spec g Hh) as Hd. rewrite H0 in Hd. destruct Hd as (H1%Permutation_length & H2 & _ & H3 & H4 & H5).
    destruct H as [c Hc]. simpl in *. rewrite H1, Hc in Ha. rewrite H3, H4, H5. split; [done|lia].
  - pose proof (dequeue_spec g Hh) as Hd. rewrite H in Hd. by destruct Hd as [_ ->].
  - unfold complete_current in H. destruct (g_current g) eqn:E; [|simplify_eq; rewrite E; done].
    unfold outcome_bind in H. destruct (checked_add64 _ _) eqn:En; [|done]. apply checked_add64_Ret in En as [-> _].
    simplify_eq/=. split; [done|lia].
  - unfold fail_current in H. destruct (g_current g) eqn:E; [|simplify_eq; rewrite E; done].
    unfold outcome_bind in H. destruct (checked_add64 _ _) eqn:En; [|done]. apply checked_add64_Ret in En as [-> _].
    simplify_eq/=. split; [done|lia].
  - destruct (expire_spec _ _ _ _ H) as (H1 & _ & H2 & H3 & H4 & H5). rewrite H3, H4, H5. split; [done|lia].
Qed.

Lemma gpu_reachable_wf g h : rtc gpu_step (gpu_new, mkHistory 0 0) (g, h) → gpu_wf (g, h).
Proof.
  intros H. assert (Hgen : ∀ x y, rtc gpu_step x y → gpu_wf x → gpu_wf y).
  { clear. intros x y. induction 1; eauto using gpu_step_wf. }
  eapply Hgen; [exact H|]. split; [apply heap_nil|done].
Qed.

(** C38: in every state the scheduler can reach, dequeue returns None only on an empty queue and
    otherwise takes out, and makes current, a request before which no queued one has to run:
    priority class first, then deadline, then, among requests without a deadline only, age.
    expire_deadlines removes exactly the requests whose deadline has passed and counts them as
    failed. *)
Theorem gpu_dequeue_best (g : GpuScheduler) (h : history) :
  rtc gpu_step (gpu_new, mkHistory 0 0) (g, h) →
  match dequeue g with
  | (None, g') => g_queue g = [] ∧ g' = g
  | (Some r, g') => g_queue g ≡ₚ r :: g_queue g' ∧ g_current g' = Some r ∧ (∀ r', r' ∈ g_queue g' → ¬ before r' r)
  end ∧
  (∀ now n g', expire_deadlines now g = Ret (n, g') →
     g_queue g' ≡ₚ filter (λ r, overdue now r = false) (g_queue g) ∧
     total_failed g' = total_failed g + Z.of_nat n ∧ (length (g_queue g') + n = length (g_queue g))%nat).
Proof.
  intros [Hh _]%gpu_reachable_wf. split.
  - pose proof (dequeue_spec g Hh) as Hd. destruct (dequeue g) as [[r|] g']; [|done]. tauto.
  - intros now n g' He. destruct (expire_spec _ _ _ _ He) as (_ & H1 & H2 & H3 & _). done.
Qed.

(** Four urgent requests with the deadline 50, submitted one tick after the other. *)
Definition tied_gpu : GpuScheduler :=
  foldl (λ g t, (submit t 7 "m" Urgent (Some 50) g).2) gpu_new [1; 2; 3; 4].

(** Age does not break the tie of two deadlines: the second request to leave the queue is the one
    submitted at tick 3, and the one of tick 2 is still waiting. *)
Lemma tie_ignores_age :
  (ir_submitted <$> (dequeue (dequeue tied_gpu).2).1) = Some 3 ∧
  2 ∈ ir_submitted <$> g_queue (dequeue (dequeue tied_gpu).2).2.
Proof. vm_compute. split; [reflexivity|left]. Qed.

(** Every submitted request is queued, running, completed, failed or was replaced by dequeue
    while it ran; as long as dequeue is only called with nothing running, none is lost. *)
Lemma gpu_accounting (g : GpuScheduler) (h : history) :
  rtc gpu_step (gpu_new, mkHistory 0 0) (g, h) →
  submitted h = total_completed g + total_failed g + Z.of_nat (queue_length g) +
                match g_current g with Some _ => 1 | None => 0 end + dropped h.
Proof. intros [_ Ha]%gpu_reachable_wf. unfold in_flight in Ha. unfold queue_length. lia. Qed.

(** A batch request, then an urgent one with a deadline, then an urgent one without. *)
Definition demo_gpu : GpuScheduler :=
  (submit 3 7 "m" Urgent None (submit 2 7 "m" Urgent (Some 50) (submit 1 7 "m" Batch None gpu_new).2).2).2.

Lemma demo_gpu_reachable : rtc gpu_step (gpu_new, mkHistory 0 0) (demo_gpu, mkHistory 3 0).
Proof.
  eapply rtc_l; [apply (gs_submit _ _ 1 7 "m" Batch None)|].
  eapply rtc_l; [apply (gs_submit _ _ 2 7 "m" Urgent (Some 50))|].
  eapply rtc_l; [apply (gs_submit _ _ 3 7 "m" Urgent None)|]. reflexivity.
Defined.

Lemma gpu_dequeue_best_witness :
  ∃ r g', dequeue demo_gpu = (Some r, g') ∧ ir_id r = 2 ∧ (∀ r', r' ∈ g_queue g' → ¬ before r' r) ∧
          length (g_queue g') = 2%nat.
Proof.
  destruct (gpu_dequeue_best demo_gpu _ demo_gpu_reachable) as [H _].
  destruct (dequeue demo_gpu) as [[r|] g'] eqn:E; [|vm_compute in E; discriminate E].
  exists r, g'. split; [done|]. destruct H as (_ & _ & Hb). split; [vm_compute in E; by injection E as <- _|].
  split; [exact Hb|]. vm_compute in E. by injection E as _ <-.
Defined.

(** Two dequeues in a row: the first request vanishes from the counters. *)
Lemma gpu_accounting_example :
  match (dequeue (dequeue demo_gpu).2).2 with
  | g => 3 = total_completed g + total_failed g + Z.of_nat (queue_length g) +
             match g_current g with Some _ => 1 | None => 0 end + 1
  end.
Proof.
  apply (gpu_accounting (dequeue (dequeue demo_gpu).2).2 (mkHistory 3 1)).
  etransitivity; [apply demo_gpu_reachable|].
  eapply rtc_l; [apply gs_dequeue_idle; reflexivity|].
  eapply rtc_l; [|reflexivity].
  destruct (dequeue (dequeue demo_gpu).2) as [[r|] g'] eqn:E; [|vm_compute in E; discriminate E].
  apply (gs_dequeue_busy (dequeue demo_gpu).2 (mkHistory 3 0) r g'); [vm_compute; eauto|exact E].
Defined.
End Gpu.
