(* ===== verification/Crypto.v ===== *)
(** * Crypto: crypto/rng.rs, crypto/hmac_cap.rs and crypto/signing.rs

    SHA-256 and HMAC-SHA-256 come from the sha2 and hmac crates and RDRAND from the processor:
    they are arguments here. *)

From S2P Require Import Prelude Bytes.

Module Crypto.

(** ** crypto/rng.rs *)

(** [x << n] and [x >> n] on u64. *)
Definition shl64 (x n : Z) : Z := Z.shiftl x n mod 2 ^ 64.

Definition xorshift (x : Z) : Z :=
  let x := Z.lxor x (shl64 x 13) in
  let x := Z.lxor x (Z.shiftr x 7) in
  Z.lxor x (shl64 x 17).

(** HAS_RDRAND, FALLBACK and the number of RDRAND instructions executed so far. *)
Record Rng : Type := mkRng { has_rdrand : bool; fallback : Z; executed : nat }.

Definition rng_new : Rng := mkRng false 0xDEADBEEFCAFEBABE O.

(** [ecx]: of CPUID leaf 1; [lo], [hi]: of RDTSC. *)
Definition rng_init (ecx lo hi : Z) (r : Rng) : Rng :=
  let has_hw := Z.land (Z.shiftr ecx 30) 1 =? 1 in
  let tsc := Z.lor (Z.shiftl hi 32) lo in
  mkRng has_hw (if has_hw then fallback r else if tsc =? 0 then 0xDEADBEEF else tsc) (executed r).

Section rng.
(** The [n]-th execution of RDRAND: the value when the carry flag is set. *)
Variable rdrand : nat → option Z.

(** The retry loop. *)
Fixpoint try_rdrand (tries pos : nat) : option Z * nat :=
  match tries with
  | O => (None, pos)
  | S tries' => match rdrand pos with
                | Some v => (Some v, S pos)
                | None => try_rdrand tries' (S pos)
                end
  end.

Definition random_u64 (r : Rng) : Z * Rng :=
  let '(hw, pos) := if has_rdrand r then try_rdrand 10 (executed r) else (None, executed r) in
  match hw with
  | Some v => (v, mkRng (has_rdrand r) (fallback r) pos)
  | None => let x := xorshift (fallback r) in (x, mkRng (has_rdrand r) x pos)
  end.

(** The loop of fill_bytes; [i] grows by at least one, so the length is enough fuel. *)
Fixpoint fill_loop (fuel i : nat) (buffer : list Z) (r : Rng) : list Z * Rng :=
  match fuel with
  | O => (buffer, r)
  | S fuel' =>
      if decide (i < length buffer)%nat then
        let '(val, r') := random_u64 r in
        let to_copy := Nat.min (length buffer - i) 8 in
        fill_loop fuel' (i + to_copy)
          (take i buffer ++ take to_copy (to_le_bytes 8 val) ++ drop (i + to_copy) buffer) r'
      else (buffer, r)
  end.

Definition fill_bytes (buffer : list Z) (r : Rng) : list Z * Rng := fill_loop (length buffer) 0 buffer r.

(** [n] successive values. *)
Fixpoint randoms (n : nat) (r : Rng) : list Z * Rng :=
  match n with
  | O => ([], r)
  | S n' => let '(v, r1) := random_u64 r in let '(vs, r2) := randoms n' r1 in (v :: vs, r2)
  end.
End rng.

(** ** crypto/hmac_cap.rs *)

(** [diff |= a ^ b] over the zipped bytes, then [diff == 0]. *)
Definition ct_eq (expected tag : list Z) : bool :=
  foldl (λ diff p, Z.lor diff (Z.lxor p.1 p.2)) 0 (zip expected tag) =? 0.

(** The bytes given to update(). *)
Definition tag_message (cap_id owner_id permissions : Z) : list Z :=
  to_le_bytes 8 cap_id ++ to_le_bytes 8 owner_id ++ to_le_bytes 4 permissions.

Section hmac.
(** [hmac key message]. *)
Variable hmac : list Z → list Z → list Z.

Definition generate_tag (key : list Z) (cap_id owner_id permissions : Z) : list Z :=
  hmac key (tag_message cap_id owner_id permissions).

Definition verify_tag (key : list Z) (cap_id owner_id permissions : Z) (tag : list Z) : bool :=
  ct_eq (generate_tag key cap_id owner_id permissions) tag.

(** [init]: a fresh key. *)
Definition hmac_init (rdrand : nat → option Z) (r : Rng) : list Z * Rng := fill_bytes rdrand (replicate 32 0) r.
End hmac.

(** ** crypto/signing.rs *)
Record KeyPair : Type := mkKeys { public_key : list Z; secret_key : list Z }.

Section signing.
(** [sha256 message]. *)
Variable sha256 : list Z → list Z.

Definition generate (rdrand : nat → option Z) (r : Rng) : KeyPair * Rng :=
  let '(secret, r') := fill_bytes rdrand (replicate 32 0) r in
  (mkKeys (sha256 secret) secret, r').

Definition kp_sign (kp : KeyPair) (message : list Z) : list Z := sha256 (secret_key kp ++ message).

(** [keys]: AGENT_KEYS. *)
Definition verify (keys : gmap Z KeyPair) (public message signature : list Z) : bool :=
  match List.find (λ e, bool_decide (public_key e.2 = public)) (btree_iter_Z keys) with
  | Some (_, kp) => ct_eq (kp_sign kp message) signature
  | None => false
  end.

Definition generate_agent_keypair (rdrand : nat → option Z) (agent_id : Z) (keys : gmap Z KeyPair) (r : Rng)
    : list Z * gmap Z KeyPair * Rng :=
  let '(kp, r') := generate rdrand r in (public_key kp, <[agent_id := kp]> keys, r').

Definition sign (keys : gmap Z KeyPair) (agent_id : Z) (message : list Z) : option (list Z) :=
  (λ kp, kp_sign kp message) <$> keys !! agent_id.

Definition get_public_key (keys : gmap Z KeyPair) (agent_id : Z) : option (list Z) :=
  public_key <$> keys !! agent_id.
End signing.

(** A key has the length of its buffer. *)
Lemma length_fill_bytes rdrand buffer r : length (fill_bytes rdrand buffer r).1 = length buffer.
Proof.
  unfold fill_bytes. generalize 0%nat as i. generalize (length buffer) at 1 as fuel. intros fuel. revert buffer r.
  induction fuel as [|fuel IH]; intros buffer r i; [done|]. cbn [fill_loop]. case_decide as Hi; [|done].
  destruct (random_u64 rdrand r) as [v r']. rewrite IH, !length_app, !length_take, length_drop, length_to_le_bytes. lia.
Qed.

(** ** XorShift64 permutes the 64-bit words *)
Definition word (x : Z) : Prop := 0 ≤ x < 2 ^ 64.

Lemma word_testbit x i : word x → 64 ≤ i → Z.testbit x i = false.
Proof.
  intros Hx Hi. destruct (decide (x = 0)) as [->|Hne]; [apply Z.bits_0|].
  apply Z.bits_above_log2; [apply Hx|]. apply Z.log2_lt_pow2; [unfold word in Hx; lia|].
  eapply Z.lt_le_trans; [apply Hx|]. apply Z.pow_le_mono_r; lia.
Qed.

Lemma word_of_bits x : 0 ≤ x → (∀ i, 64 ≤ i → Z.testbit x i = false) → word x.
Proof.
  intros H0 Hb. split; [done|]. destruct (decide (x = 0)) as [->|Hne]; [lia|].
  apply Z.log2_lt_pow2; [lia|]. apply Z.nle_gt. intros Hle.
  assert (Z.testbit x (Z.log2 x) = true) by (apply Z.bit_log2; lia). rewrite Hb in * by done. done.
Qed.

Lemma shl64_testbit x n i : 0 ≤ n → 0 ≤ i → Z.testbit (shl64 x n) i = (i <? 64) && Z.testbit x (i - n).
Proof.
  intros Hn Hi. unfold shl64. destruct (Z.ltb_spec i 64).
  - rewrite Z.mod_pow2_bits_low by lia. by rewrite Z.shiftl_spec.
  - by rewrite Z.mod_pow2_bits_high by lia.
Qed.

Lemma word_lxor_shl x n : 0 ≤ n → word x → word (Z.lxor x (shl64 x n)).
Proof.
  intros Hn Hx. assert (word (shl64 x n)) as Hs by (apply Z.mod_pos_bound; lia).
  apply word_of_bits; [apply Z.lxor_nonneg; unfold word in *; lia|]. intros i Hi.
  rewrite Z.lxor_spec, (word_testbit x), (word_testbit (shl64 x n)); done.
Qed.

Lemma word_lxor_shr x n : 0 ≤ n → word x → word (Z.lxor x (Z.shiftr x n)).
Proof.
  intros Hn Hx. apply word_of_bits.
  - apply Z.lxor_nonneg. rewrite Z.shiftr_nonneg. unfold word in *. lia.
  - intros i Hi. rewrite Z.lxor_spec, Z.shiftr_spec by lia. rewrite !word_testbit; try done. lia.
Qed.

Lemma lxor_shl_inj x y n :
  0 < n → word x → word y → Z.lxor x (shl64 x n) = Z.lxor y (shl64 y n) → x = y.
Proof.
  intros Hn Hx Hy H. apply Z.bits_inj'. intros i Hi. revert i Hi.
  apply (Zlt_0_ind (λ i, Z.testbit x i = Z.testbit y i)). intros i IH Hi.
  destruct (decide (64 ≤ i)); [by rewrite !word_testbit|].
  assert (Hb : Z.testbit (Z.lxor x (shl64 x n)) i = Z.testbit (Z.lxor y (shl64 y n)) i) by by rewrite H.
  rewrite !Z.lxor_spec, !shl64_testbit in Hb by lia.
  assert (Z.testbit x (i - n) = Z.testbit y (i - n)) as E.
  { destruct (decide (0 ≤ i - n)); [apply IH; lia|]. rewrite !Z.testbit_neg_r by lia. done. }
  rewrite E in Hb. destruct (Z.testbit x i), (Z.testbit y i), ((i <? 64) && Z.testbit y (i - n)); done.
Qed.

Lemma lxor_shr_inj x y n :
  0 < n → word x → word y → Z.lxor x (Z.shiftr x n) = Z.lxor y (Z.shiftr y n) → x = y.
Proof.
  intros Hn Hx Hy H. apply Z.bits_inj'. intros i Hi.
  assert (Hgen : ∀ k, 0 ≤ k → ∀ i, 0 ≤ i → 64 - i ≤ k → Z.testbit x i = Z.testbit y i).
  2:{ apply (Hgen 64); lia. }
  apply (Zlt_0_ind (λ k, ∀ i, 0 ≤ i → 64 - i ≤ k → Z.testbit x i = Z.testbit y i)). intros k IH Hk j Hj Hjk.
  destruct (decide (64 ≤ j)); [by rewrite !word_testbit|].
  assert (Hb : Z.testbit (Z.lxor x (Z.shiftr x n)) j = Z.testbit (Z.lxor y (Z.shiftr y n)) j) by by rewrite H.
  rewrite !Z.lxor_spec, !Z.shiftr_spec in Hb by lia.
  assert (Z.testbit x (j + n) = Z.testbit y (j + n)) as E by (apply (IH (k - 1)); lia).
  rewrite E in Hb. destruct (Z.testbit x j), (Z.testbit y j), (Z.testbit y (j + n)); done.
Qed.

Lemma xorshift_word x : word x → word (xorshift x).
Proof. intros H. unfold xorshift. by apply word_lxor_shl, word_lxor_shr, word_lxor_shl. Qed.

Lemma xorshift_inj x y : word x → word y → xorshift x = xorshift y → x = y.
Proof.
  intros Hx Hy H. unfold xorshift in H.
  apply lxor_shl_inj in H; [|lia|by apply word_lxor_shr, word_lxor_shl..].
  apply lxor_shr_inj in H; [|lia|by apply word_lxor_shl..]. by apply lxor_shl_inj in H; [|lia|..].
Qed.

Lemma xorshift_0 : xorshift 0 = 0.
Proof. reflexivity. Qed.

Lemma xorshift_nonzero x : word x → x ≠ 0 → xorshift x ≠ 0.
Proof. intros Hx Hne H. apply Hne, xorshift_inj; [done|unfold word; lia|by rewrite xorshift_0]. Qed.

#[local] Hint Resolve xorshift_word xorshift_nonzero : oxide.

(** A state the generator cannot get stuck in. *)
Definition seeded (r : Rng) : Prop := word (fallback r) ∧ fallback r ≠ 0.

Lemma rng_init_seeded ecx lo hi r : 0 ≤ lo < 2 ^ 32 → 0 ≤ hi < 2 ^ 32 → seeded r → seeded (rng_init ecx lo hi r).
Proof.
  intros Hlo Hhi Hr. unfold rng_init, seeded. cbn [fallback]. destruct (_ =? 1); [done|].
  destruct (Z.eqb_spec (Z.lor (Z.shiftl hi 32) lo) 0) as [E|E]; [unfold word; lia|]. split; [|done].
  apply word_of_bits.
  - apply Z.lor_nonneg. rewrite Z.shiftl_nonneg. lia.
  - intros i Hi. rewrite Z.lor_spec, Z.shiftl_spec by lia.
    assert (Hs : ∀ x k, 0 ≤ x < 2 ^ 32 → 32 ≤ k → Z.testbit x k = false).
    { intros x k Hx Hk. destruct (decide (x = 0)) as [->|Hne]; [apply Z.bits_0|].
      apply Z.bits_above_log2; [lia|]. apply Z.log2_lt_pow2; [lia|].
      eapply Z.lt_le_trans; [apply Hx|]. apply Z.pow_le_mono_r; lia. }
    rewrite !Hs by lia. done.
Qed.

Section rng_facts.
Variable rdrand : nat → option Z.

Lemma random_u64_seeded r v r' : random_u64 rdrand r = (v, r') → seeded r → seeded r'.
Proof.
  unfold random_u64. intros H [Hw Hne].
  destruct (if has_rdrand r then _ else _) as [[w|] pos]; simplify_eq; split; cbn [fallback]; auto with oxide.
Qed.

Lemma randoms_seeded n r vs r' : randoms rdrand n r = (vs, r') → seeded r → seeded r' ∧ length vs = n.
Proof.
  revert r vs. induction n as [|n IH]; intros r vs H Hr; simplify_eq/=; [done|].
  destruct (random_u64 rdrand r) as [v r1] eqn:E1, (randoms rdrand n r1) as [ws r2] eqn:E2. simplify_eq/=.
  destruct (IH r1 ws E2) as [? <-]; [by eapply random_u64_seeded|done].
Qed.

(** The number of 8-byte chunks of [n] bytes. *)
Definition chunks (n : nat) : nat := ((n + 7) / 8)%nat.

Lemma chunks_step n : (0 < n)%nat → chunks n = S (chunks (n - Nat.min n 8)).
Proof.
  intros Hn. unfold chunks. pose proof (Nat.div_mod (n + 7) 8 ltac:(lia)).
  pose proof (Nat.mod_upper_bound (n + 7) 8 ltac:(lia)).
  pose proof (Nat.div_mod (n - Nat.min n 8 + 7) 8 ltac:(lia)).
  pose proof (Nat.mod_upper_bound (n - Nat.min n 8 + 7) 8 ltac:(lia)). lia.
Qed.

Lemma fill_loop_spec fuel i buffer r vs r' :
  (length buffer - i ≤ fuel)%nat → (i ≤ length buffer)%nat →
  randoms rdrand (chunks (length buffer - i)) r = (vs, r') →
  fill_loop rdrand fuel i buffer r =
    (take i buffer ++ take (length buffer - i) (concat (to_le_bytes 8 <$> vs)), r').
Proof.
  revert i buffer r vs. induction fuel as [|fuel IH]; intros i buffer r vs Hf Hi Hr.
  { assert (length buffer ≤ i)%nat by lia. replace (length buffer - i)%nat with 0%nat in * by lia. simplify_eq/=.
    by rewrite take_ge, app_nil_r by lia. }
  cbn [fill_loop]. destruct (decide (i < length buffer)%nat) as [Hlt|Hge].
  2:{ assert (length buffer ≤ i)%nat by lia. replace (length buffer - i)%nat with 0%nat in * by lia. simplify_eq/=.
    by rewrite take_ge, app_nil_r by lia. }
  rewrite chunks_step in Hr by lia. simpl in Hr. destruct (random_u64 rdrand r) as [v r1].
  remember (Nat.min (length buffer - i) 8) as c eqn:Ec.
  destruct (randoms rdrand (chunks (length buffer - i - c)) r1) as [ws r2] eqn:Ews. injection Hr as <- <-.
  assert (Hc : length (take c (to_le_bytes 8 v)) = c) by (rewrite length_take, length_to_le_bytes; lia).
  set (buf := take i buffer ++ take c (to_le_bytes 8 v) ++ drop (i + c) buffer).
  assert (Hlen : length buf = length buffer).
  { subst buf. rewrite !length_app, Hc, length_take, length_drop. lia. }
  rewrite (IH (i + c)%nat buf r1 ws); rewrite ?Hlen; [|lia|lia|by replace (length buffer - (i + c))%nat with (length buffer - i - c)%nat by lia].
  f_equal. rewrite fmap_cons. cbn [concat]. subst buf. rewrite (assoc_L (++) (take i buffer)).
  rewrite take_app_length'; [|rewrite length_app, Hc, length_take; lia].
  rewrite <- (assoc_L (++)). f_equal.
  destruct (decide (length buffer - i ≤ 8)%nat) as [Hs|Hs].
  - replace (length buffer - (i + c))%nat with 0%nat by lia. rewrite take_0, app_nil_r.
    rewrite take_app_le by (rewrite length_to_le_bytes; lia). f_equal. lia.
  - rewrite (take_ge (to_le_bytes 8 v)) by (rewrite length_to_le_bytes; lia).
    rewrite take_app_ge by (rewrite length_to_le_bytes; lia). f_equal. f_equal. rewrite length_to_le_bytes. lia.
Qed.
End rng_facts.

(** Fill_bytes overwrites the whole buffer with the little-endian bytes of successive random
    words and keeps its length.  Starting from init, whatever CPUID, the time stamp counter and
    RDRAND return, the software generator never reaches its fixed point 0, and its step is
    injective on the 64-bit words, so no two states are ever merged. *)
Theorem rng_fills (rdrand : nat → option Z) (ecx lo hi : Z) (buffer : list Z) :
  0 ≤ lo < 2 ^ 32 → 0 ≤ hi < 2 ^ 32 →
  let r := rng_init ecx lo hi rng_new in
  ∃ vs r', randoms rdrand ((length buffer + 7) / 8)%nat r = (vs, r') ∧
    fill_bytes rdrand buffer r = (take (length buffer) (concat (to_le_bytes 8 <$> vs)), r') ∧
    length (fill_bytes rdrand buffer r).1 = length buffer ∧
    seeded r' ∧
    (∀ x y, word x → word y → xorshift x = xorshift y → x = y).
Proof.
  intros Hlo Hhi r. destruct (randoms rdrand ((length buffer + 7) / 8) r) as [vs r'] eqn:E.
  exists vs, r'. split; [done|].
  assert (Hf : fill_bytes rdrand buffer r = (take (length buffer) (concat (to_le_bytes 8 <$> vs)), r')).
  { unfold fill_bytes. rewrite (fill_loop_spec rdrand (length buffer) 0 buffer r vs r'); [|lia|lia|].
    - by rewrite Nat.sub_0_r.
    - rewrite Nat.sub_0_r. exact E. }
  destruct (randoms_seeded rdrand _ _ _ _ E) as [Hs Hl].
  { apply rng_init_seeded; [done|done|]. split; unfold rng_new, word; cbn [fallback]; lia. }
  split; [done|]. split; [|split; [done|apply xorshift_inj]]. rewrite Hf. cbn [fst]. rewrite length_take, length_concat.
  rewrite Nat.min_l; [done|]. rewrite <- list_fmap_compose.
  assert (Hsum : list_sum ((length ∘ to_le_bytes 8) <$> vs) = (8 * length vs)%nat).
  { clear. induction vs as [|v vs IH]; [done|]. rewrite fmap_cons.
    change (length (to_le_bytes 8 v) + list_sum ((length ∘ to_le_bytes 8) <$> vs) = 8 * S (length vs))%nat.
    rewrite IH, length_to_le_bytes. lia. }
  rewrite Hsum, Hl. pose proof (Nat.div_mod (length buffer + 7) 8 ltac:(lia)).
  pose proof (Nat.mod_upper_bound (length buffer + 7) 8 ltac:(lia)). lia.
Qed.

Lemma rng_fills_witness :
  length (fill_bytes (λ _, None) (replicate 20 0) (rng_init 0 5 1 rng_new)).1 = 20%nat.
Proof.
  destruct (rng_fills (λ _, None) 0 5 1 (replicate 20 0)) as (vs & r' & _ & _ & H & _); [lia|lia|exact H].
Defined.

(** ** Tags *)
Lemma ct_eq_fold (l : list (Z * Z)) d :
  foldl (λ diff p, Z.lor diff (Z.lxor p.1 p.2)) d l = 0 ↔ d = 0 ∧ Forall (λ p, p.1 = p.2) l.
Proof.
  revert d. induction l as [|[a b] l IH]; intros d; simpl.
  - split; [by intros ->|]. by intros [-> _].
  - rewrite IH, Z.lor_eq_0_iff, Z.lxor_eq_0_iff, Forall_cons. simpl. tauto.
Qed.

Lemma ct_eq_spec a b : length a = length b → ct_eq a b = true ↔ a = b.
Proof.
  intros Hlen. unfold ct_eq. rewrite Z.eqb_eq, ct_eq_fold. split.
  - intros [_ H]. revert b Hlen H. induction a as [|x a IH]; intros [|y b] Hlen H; try done.
    simpl in H. apply Forall_cons in H as [E H]. simpl in E. subst. f_equal. apply IH; [by injection Hlen|done].
  - intros ->. split; [done|]. clear. induction b; simpl; by constructor.
Qed.

Lemma to_le_bytes_inj n v w :
  0 ≤ v < 2 ^ (8 * Z.of_nat n) → 0 ≤ w < 2 ^ (8 * Z.of_nat n) → to_le_bytes n v = to_le_bytes n w → v = w.
Proof. intros Hv Hw H. by rewrite <- (from_to_le_bytes n v), H, from_to_le_bytes by done. Qed.

Lemma tag_message_inj c o p c' o' p' :
  u64_ok c → u64_ok o → u32_ok p → u64_ok c' → u64_ok o' → u32_ok p' →
  tag_message c o p = tag_message c' o' p' → c = c' ∧ o = o' ∧ p = p'.
Proof.
  unfold tag_message, u64_ok, u32_ok, U64_MAX, U32_MAX. intros Hc Ho Hp Hc' Ho' Hp' H.
  apply app_inj_1 in H as [H1 H]; [|by rewrite !length_to_le_bytes].
  apply app_inj_1 in H as [H2 H3]; [|by rewrite !length_to_le_bytes].
  split; [|split]; eapply to_le_bytes_inj; try done; simpl; lia.
Qed.

(** C39: capability tags.  With an HMAC of 32 bytes, verify_tag accepts exactly the tag that
    generate_tag computes for the same capability, owner and permissions; and a tag made for one
    capability is accepted for a different one only if the HMAC itself collides on the two
    messages, which differ. *)
Theorem capability_tag_sound (hmac : list Z → list Z → list Z) (key tag : list Z) (c o p c' o' p' : Z) :
  (∀ k m, length (hmac k m) = 32%nat) → length tag = 32%nat →
  (verify_tag hmac key c o p tag = true ↔ tag = generate_tag hmac key c o p) ∧
  (u64_ok c → u64_ok o → u32_ok p → u64_ok c' → u64_ok o' → u32_ok p' → (c, o, p) ≠ (c', o', p') →
   verify_tag hmac key c' o' p' (generate_tag hmac key c o p) = true →
   tag_message c o p ≠ tag_message c' o' p' ∧
   hmac key (tag_message c o p) = hmac key (tag_message c' o' p')).
Proof.
  intros Hmac Htag. split.
  - unfold verify_tag. rewrite ct_eq_spec; [split; congruence|]. unfold generate_tag. by rewrite Hmac.
  - intros Hc Ho Hp Hc' Ho' Hp' Hne Hv. split.
    + intros E. apply tag_message_inj in E as (-> & -> & ->); done.
    + unfold verify_tag in Hv. rewrite ct_eq_spec in Hv; [by symmetry|]. unfold generate_tag. by rewrite !Hmac.
Qed.

(** A stand-in of the right length. *)
Definition demo_hmac (k m : list Z) : list Z := take 32 (m ++ replicate 32 0).

Lemma capability_tag_sound_witness :
  verify_tag demo_hmac [] 7 3 5 (generate_tag demo_hmac [] 7 3 5) = true.
Proof.
  destruct (capability_tag_sound demo_hmac [] (generate_tag demo_hmac [] 7 3 5) 7 3 5 0 0 0) as [H _].
  - intros k m. unfold demo_hmac. rewrite length_take, length_app, length_replicate. lia.
  - reflexivity.
  - by apply H.
Defined.

(** ** Signatures *)
Lemma find_Some_first {A} (p : A → bool) (l : list A) x :
  x ∈ l → p x = true → ∃ y, List.find p l = Some y ∧ y ∈ l ∧ p y = true.
Proof.
  intros Hx Hp. destruct (List.find p l) as [y|] eqn:E.
  - apply List.find_some in E as [Hin Hy]. exists y. split; [done|]. split; [by apply list_elem_of_In|done].
  - eapply List.find_none in E; [|by apply list_elem_of_In]. congruence.
Qed.

(** What sign makes, verify accepts under the agent's public key, unless another agent of the
    table has the same public key with a different secret. *)
Lemma sign_verify (sha256 : list Z → list Z) keys a msg sig pk :
  sign sha256 keys a msg = Some sig → get_public_key keys a = Some pk →
  verify sha256 keys pk msg sig = true ∨
  ∃ kp a' kp', keys !! a = Some kp ∧ keys !! a' = Some kp' ∧ public_key kp' = public_key kp ∧
               secret_key kp' ≠ secret_key kp.
Proof.
  unfold sign, get_public_key. intros (kp & E & ->)%fmap_Some Hpk. rewrite E in Hpk. simplify_eq/=.
  destruct (find_Some_first (λ e, bool_decide (public_key e.2 = public_key kp)) (btree_iter_Z keys) (a, kp))
    as ([a' kp'] & Hf & Hin & Hp); [by apply elem_of_btree_iter|by apply bool_decide_eq_true|].
  apply bool_decide_eq_true in Hp. apply elem_of_btree_iter in Hin. simpl in Hp. unfold verify. rewrite Hf.
  destruct (decide (secret_key kp' = secret_key kp)) as [Es|Es].
  - left. unfold kp_sign. rewrite Es. by apply ct_eq_spec.
  - right. by exists kp, a', kp'.
Qed.

(** An accepted signature is the hash of the secret of an agent with that public key and the
    message. *)
Lemma verify_sound (sha256 : list Z → list Z) keys pk msg sig :
  (∀ m, length (sha256 m) = 32%nat) → length sig = 32%nat → verify sha256 keys pk msg sig = true →
  ∃ a kp, keys !! a = Some kp ∧ public_key kp = pk ∧ sign sha256 keys a msg = Some sig.
Proof.
  intros Hsha Hsig. unfold verify. destruct (List.find _ _) as [[a kp]|] eqn:E; [|done].
  apply List.find_some in E as [Hin Hp]. apply bool_decide_eq_true in Hp. simpl in Hp.
  apply list_elem_of_In, elem_of_btree_iter in Hin. intros Hv. exists a, kp. split; [done|]. split; [done|].
  unfold sign. rewrite Hin. simpl. f_equal. apply ct_eq_spec; [|done]. unfold kp_sign. by rewrite Hsha.
Qed.
End Crypto.
