(* ===== verification/Text.v ===== *)
(** * Text: the str methods of Rust's standard library that net/http.rs uses

    Strings are byte strings; a byte search is exact on valid UTF-8 because the searched characters
    are ASCII or are compared as whole encodings. *)

From S2P Require Import Prelude Bytes.

(** ** Strings *)

(** [s.find(c)] for an ASCII character. *)
Fixpoint find_char (c : Ascii.ascii) (s : string) : option nat :=
  match s with
  | EmptyString => None
  | String d s' => if Ascii.eqb c d then Some O else S <$> find_char c s'
  end.

(** [&s[..i]] and [&s[i..]]. *)
Fixpoint str_take (i : nat) (s : string) : string :=
  match i, s with
  | S i', String c s' => String c (str_take i' s')
  | _, _ => EmptyString
  end.

Fixpoint str_drop (i : nat) (s : string) : string :=
  match i, s with
  | S i', String _ s' => str_drop i' s'
  | _, _ => s
  end.

(** [s.strip_prefix(p)]. *)
Definition strip_prefix (p s : string) : option string :=
  if String.prefix p s then Some (str_drop (String.length p) s) else None.

Definition COLON : Ascii.ascii := Ascii.ascii_of_N 58.

(** ** [str::parse::<u16>] *)
Definition digit (b : Z) : option Z := if between 48 57 b then Some (b - 48) else None.

Fixpoint digits (acc : Z) (l : list Z) : option Z :=
  match l with
  | [] => Some acc
  | b :: l' => match digit b with
               | Some d => if acc * 10 + d <=? U16_MAX then digits (acc * 10 + d) l' else None
               | None => None
               end
  end.

Definition parse_u16 (l : list Z) : option Z :=
  match l with
  | [] => None
  | 43 :: l' => match l' with [] => None | _ => digits 0 l' end
  | _ => digits 0 l
  end.

(** ** Lines, words, substrings *)

(** [text.lines().next()]: up to the first line feed, with the carriage return before it removed. *)
Fixpoint until_lf (l : list Z) : list Z * bool :=
  match l with
  | [] => ([], false)
  | b :: l' => if b =? 10 then ([], true) else let '(line, lf) := until_lf l' in (b :: line, lf)
  end.

Definition first_line (l : list Z) : option (list Z) :=
  match l with
  | [] => None
  | _ => let '(line, lf) := until_lf l in
         Some (if lf && bool_decide (last line = Some 13) then removelast line else line)
  end.

(** The length of the White_Space character at the front, 0 if there is none. *)
Definition ws_len (l : list Z) : nat :=
  match l with
  | b0 :: l1 =>
      if between 9 13 b0 || (b0 =? 32) then 1%nat
      else match l1 with
           | b1 :: l2 =>
               if (b0 =? 0xC2) && ((b1 =? 0x85) || (b1 =? 0xA0)) then 2%nat
               else match l2 with
                    | b2 :: _ =>
                        if (b0 =? 0xE1) && (b1 =? 0x9A) && (b2 =? 0x80)
                           || (b0 =? 0xE2) && (b1 =? 0x80) &&
                              (between 0x80 0x8A b2 || (b2 =? 0xA8) || (b2 =? 0xA9) || (b2 =? 0xAF))
                           || (b0 =? 0xE2) && (b1 =? 0x81) && (b2 =? 0x9F)
                           || (b0 =? 0xE3) && (b1 =? 0x80) && (b2 =? 0x80)
                        then 3%nat else O
                    | [] => O
                    end
           | [] => O
           end
  | [] => O
  end.

(** [split_whitespace()]: [skip] bytes of a separator are left, [cur] is the word so far. *)
Fixpoint split_ws (skip : nat) (cur l : list Z) : list (list Z) :=
  match l with
  | [] => match cur with [] => [] | _ => [cur] end
  | b :: l' =>
      match skip with
      | S skip' => split_ws skip' cur l'
      | O => match ws_len l with
             | O => split_ws O (cur ++ [b]) l'
             | S n => match cur with [] => [] | _ => [cur] end ++ split_ws n [] l'
             end
      end
  end.

Definition split_whitespace (l : list Z) : list (list Z) := split_ws O [] l.

Fixpoint starts_with (p l : list Z) : bool :=
  match p, l with
  | [], _ => true
  | x :: p', y :: l' => (x =? y) && starts_with p' l'
  | _, [] => false
  end.

(** [text.find(p)]. *)
Fixpoint find_sub (p l : list Z) : option nat :=
  if starts_with p l then Some O
  else match l with
       | [] => None
       | _ :: l' => S <$> find_sub p l'
       end.

(** ** Facts *)
Lemma find_char_app c s t : no_char c s = true → find_char c (s +:+ String c t) = Some (String.length s).
Proof.
  induction s as [|d s IH]; intros H.
  - change (find_char c (String c t) = Some O). simpl. by rewrite Ascii.eqb_refl.
  - change (find_char c (String d (s +:+ String c t)) = Some (S (String.length s))). simpl in *.
    apply andb_true_iff in H as [Hd H]. apply negb_true_iff in Hd. rewrite Hd. by rewrite IH.
Qed.

Lemma find_char_none c s : no_char c s = true → find_char c s = None.
Proof.
  induction s as [|d s IH]; intros H; [done|]. simpl in *. apply andb_true_iff in H as [Hd H].
  apply negb_true_iff in Hd. by rewrite Hd, IH.
Qed.

Lemma str_take_app s t : str_take (String.length s) (s +:+ t) = s.
Proof.
  induction s as [|c s IH]; [by destruct t|].
  change (String c (str_take (String.length s) (s +:+ t)) = String c s). by rewrite IH.
Qed.

Lemma str_drop_app s t : str_drop (String.length s) (s +:+ t) = t.
Proof.
  induction s as [|c s IH]; [by destruct t|]. change (str_drop (String.length s) (s +:+ t) = t). done.
Qed.

Lemma str_drop_S_app c s t : str_drop (String.length s + 1) (s +:+ String c t) = t.
Proof.
  induction s as [|d s IH]; [by destruct t|].
  change (str_drop (String.length s + 1) (s +:+ String c t) = t). done.
Qed.

Lemma strip_prefix_app p s : strip_prefix p (p +:+ s) = Some s.
Proof.
  unfold strip_prefix. assert (String.prefix p (p +:+ s) = true) as -> by (apply prefix_app_iff; by exists s).
  by rewrite str_drop_app.
Qed.

Lemma pretty_N_char_digit x : (x < 10)%N → digit (byte_of_ascii (pretty_N_char x)) = Some (Z.of_N x).
Proof.
  intros Hx. assert (Hc : (x = 0 ∨ x = 1 ∨ x = 2 ∨ x = 3 ∨ x = 4 ∨ x = 5 ∨ x = 6 ∨ x = 7 ∨ x = 8 ∨ x = 9)%N) by lia.
  by destruct Hc as [->|[->|[->|[->|[->|[->|[->|[->|[->| ->]]]]]]]]].
Qed.

Lemma digits_pretty_go x s :
  (Z.of_N x ≤ U16_MAX) → digits 0 (as_bytes (pretty_N_go x s)) = digits (Z.of_N x) (as_bytes s).
Proof.
  revert s. induction (N.lt_wf_0 x) as [x _ IH]; intros s Hx.
  destruct (decide (0 < x)%N) as [Hpos|Hz].
  - rewrite pretty_N_go_step by done.
    assert (Hdm : Z.of_N x = Z.of_N (x / 10) * 10 + Z.of_N (x mod 10)).
    { rewrite N2Z.inj_div, N2Z.inj_mod. change (Z.of_N 10) with 10. pose proof (Z.div_mod (Z.of_N x) 10 ltac:(lia)). lia. }
    rewrite IH; [|by apply N.div_lt|eapply Z.le_trans; [apply N2Z.inj_le, N.lt_le_incl, N.div_lt; lia|done]]. simpl. rewrite pretty_N_char_digit by (apply N.mod_lt; lia).
    rewrite <- Hdm. destruct (Z.leb_spec (Z.of_N x) U16_MAX); [done|lia].
  - assert (x = 0%N) as -> by lia. by rewrite pretty_N_go_0.
Qed.

Lemma fmt_u64_head n b l : as_bytes (fmt_u64 n) = b :: l → b ≠ 43.
Proof.
  intros H.
  assert (Hg : ∀ x s, (∀ b l, as_bytes s = b :: l → b ≠ 43) → ∀ b l, as_bytes (pretty_N_go x s) = b :: l → b ≠ 43).
  { intros x. induction (N.lt_wf_0 x) as [x _ IH]. intros s Hs b' l' E.
    destruct (decide (0 < x)%N) as [Hpos|Hz].
    - rewrite pretty_N_go_step in E by done. eapply (IH (x / 10)%N); [by apply N.div_lt| |exact E].
      intros b'' l'' [= <- _]. assert (Hm : (x mod 10 < 10)%N) by (apply N.mod_lt; lia).
      apply pretty_N_char_digit in Hm as Hc.
      intros E'. by rewrite E' in Hc.
    - assert (x = 0%N) as -> by lia. rewrite pretty_N_go_0 in E. by eapply Hs. }
  unfold fmt_u64, pretty, pretty_N in H. case_decide as Ez; [|eapply Hg; [|exact H]; intros ??; simpl; discriminate].
  change (48 :: [] = b :: l) in H. by injection H as <- _.
Qed.

Lemma fmt_u64_nonempty n : as_bytes (fmt_u64 n) ≠ [].
Proof.
  intros H. assert (fmt_u64 n = "") as E by (rewrite <- (of_as_bytes (fmt_u64 n)), H; done).
  unfold fmt_u64, pretty, pretty_N in E. case_decide as Hc; [done|].
  assert (Hg : ∀ x s, s ≠ "" → pretty_N_go x s ≠ "").
  { intros x. induction (N.lt_wf_0 x) as [x _ IH]. intros s Hs. destruct (decide (0 < x)%N) as [Hpos|Hz].
    - rewrite pretty_N_go_step by done. apply IH; [by apply N.div_lt|done].
    - assert (x = 0%N) as -> by lia. by rewrite pretty_N_go_0. }
  rewrite pretty_N_go_step in E by lia. by eapply Hg in E.
Qed.

(** Printing a port and parsing it back. *)
Lemma parse_u16_fmt n : 0 ≤ n ≤ U16_MAX → parse_u16 (as_bytes (fmt_u64 n)) = Some n.
Proof.
  intros Hn. assert (Hdig : digits 0 (as_bytes (fmt_u64 n)) = Some n).
  { unfold fmt_u64, pretty, pretty_N. case_decide as E; [assert (n = 0) as -> by lia; reflexivity|].
    rewrite digits_pretty_go by lia. simpl. f_equal. lia. }
  pose proof (fmt_u64_nonempty n) as Hne. pose proof (fmt_u64_head n) as Hh. unfold parse_u16.
  destruct (as_bytes (fmt_u64 n)) as [|b l]; [done|]. specialize (Hh b l eq_refl).
  destruct b as [|p|p]; try done. repeat (destruct p as [p|p|]; try done).
Qed.

(** A separator found splits the text at its first occurrence. *)
Lemma starts_with_spec p l : starts_with p l = true ↔ ∃ k, l = p ++ k.
Proof.
  revert l. induction p as [|x p IH]; intros l; simpl; [split; [by exists l|done]|].
  destruct l as [|y l]; [split; [done|]; by intros [k ?]|]. rewrite andb_true_iff, Z.eqb_eq, IH. split.
  - intros [-> [k ->]]. by exists k.
  - intros [k [= -> ->]]. split; [done|]. by exists k.
Qed.

Lemma find_sub_Some p l i : find_sub p l = Some i → ∃ k, l = take i l ++ p ++ k ∧ length (take i l) = i.
Proof.
  revert i. induction l as [|y l IH]; intros i H; cbn [find_sub] in H.
  - destruct (starts_with p []) eqn:E; [|done]. apply starts_with_spec in E as [k ->]. simplify_eq. by exists k.
  - destruct (starts_with p (y :: l)) eqn:E.
    + apply starts_with_spec in E as [k Ek]. simplify_eq. exists k. by rewrite Ek.
    + apply fmap_Some in H as (j & Hj & ->). destruct (IH j Hj) as (k & Ek & Hl). exists k. simpl.
      split; [by rewrite <- Ek|by rewrite Hl].
Qed.

Lemma no_char_app c s t : no_char c (s +:+ t) = no_char c s && no_char c t.
Proof.
  induction s as [|d s IH]; [done|].
  change (negb (Ascii.eqb c d) && no_char c (s +:+ t) = negb (Ascii.eqb c d) && no_char c s && no_char c t).
  by rewrite IH, andb_assoc.
Qed.

Lemma digits_range acc l n : 0 ≤ acc ≤ U16_MAX → digits acc l = Some n → 0 ≤ n ≤ U16_MAX.
Proof.
  revert acc. induction l as [|b l IH]; intros acc Ha H; simpl in H; [by simplify_eq|].
  unfold digit in H. destruct (between 48 57 b) eqn:E; [|done].
  apply andb_true_iff in E as [E1%Z.leb_le E2%Z.leb_le].
  destruct (Z.leb_spec (acc * 10 + (b - 48)) U16_MAX); [|done]. eapply IH; [|exact H]. lia.
Qed.

Lemma parse_u16_range l n : parse_u16 l = Some n → 0 ≤ n ≤ U16_MAX.
Proof.
  assert (0 ≤ 0 ≤ U16_MAX) as H0 by (unfold U16_MAX; lia). intros H.
  assert (Hd : digits 0 l = Some n ∨ digits 0 (tail l) = Some n).
  { unfold parse_u16 in H. repeat (case_match; try done); by auto. }
  destruct Hd as [Hd|Hd]; by eapply digits_range.
Qed.
