(* ===== verification/Net.v ===== *)
(** * Net: net/firewall.rs, net/dns.rs, net/tls.rs, net/socket.rs, net/http.rs, net/stack.rs (init and poll)

    The TCP/IP stack is the smoltcp crate: the class [Smoltcp] lists the operations the kernel calls
    and [SmoltcpLaws] what it relies on.  An Ipv4Address is its 32-bit number.  The tick values a
    request reads while it waits are an argument, in the order in which they are read. *)

From S2P Require Import Prelude Capability Bytes Text.

Module Net.
Import Perm Res CapTable.

(** ** net/firewall.rs *)
Inductive FirewallDecision : Type := Allow | Deny (reason : string).

Definition check_outbound (table : CapabilityTable) (task_id cap_id : Z) (target_host : string) (target_port : Z)
    : FirewallDecision :=
  match validate table cap_id task_id CONNECT with
  | Err _ => Deny "no valid network capability"
  | Ok cap =>
      match c_resource cap with
      | Network host port =>
          if negb (bool_decide (host = "*")) && negb (bool_decide (host = target_host)) then Deny "host not allowed"
          else if negb (port =? 0) && negb (port =? target_port) then Deny "port not allowed"
          else Allow
      | _ => Deny "not a network capability"
      end
  end.

(** ** net/tls.rs *)
Inductive TlsError : Type :=
| HandshakeNotImplemented
| CertificateValidationNotImplemented
| NoTlsLibrary.

Definition tls_connect (host : string) (port task_id cap_id : Z) : result TlsError () := Err HandshakeNotImplemented.

Definition is_available : bool := false.

(** ** smoltcp *)
Class Smoltcp (I S H : Type) := {
  set_add : S → H * S;  (** SocketSet::add of a new TCP socket *)
  has_socket : H → S → bool;  (** get_mut panics without *)
  sock_connect : H → Z → Z → Z → I → S → bool * I * S;  (** remote address and port, local port *)
  may_send : H → S → bool;
  send_slice : H → list Z → S → option Z * S;
  may_recv : H → S → bool;
  recv_slice : H → nat → S → option (list Z) * S;  (** the bytes put into a buffer of the given size *)
  sock_close : H → S → S;
  iface_poll : Z → I → S → I * S;
}.

(** A handle stays valid until its socket is removed, which the kernel never does. *)
Class SmoltcpLaws (I S H : Type) `{Smoltcp I S H} : Prop := {
  add_has (s : S) : has_socket (set_add s).1 (set_add s).2 = true;
  connect_has h h' a p lp (i : I) s : has_socket h s = true → has_socket h (sock_connect h' a p lp i s).2 = true;
  send_has h h' l s : has_socket h s = true → has_socket h (send_slice h' l s).2 = true;
  recv_has h h' n s : has_socket h s = true → has_socket h (recv_slice h' n s).2 = true;
  close_has h h' s : has_socket h s = true → has_socket h (sock_close h' s) = true;
  poll_has h t (i : I) s : has_socket h s = true → has_socket h (iface_poll t i s).2 = true;
}.

(** Building an interface: [None] where the kernel unwraps. *)
Class SmoltcpInit (I S : Type) := {
  iface_new : list Z → Z → I;  (** hardware address and time *)
  push_addr : Z → Z → I → option I;  (** an IPv4 address with its prefix length *)
  add_default_route : Z → I → option I;
  sockets_new : S;
}.

(** There is room for the first address and for a default route. *)
Class SmoltcpInitLaws (I S : Type) `{!SmoltcpInit I S} : Prop := {
  push_first : ∀ mac time addr prefix, is_Some (push_addr addr prefix (iface_new mac time));
  route_first : ∀ mac time addr prefix gateway i, push_addr addr prefix (iface_new mac time) = Some i →
                is_Some (add_default_route gateway i);
}.

Inductive SocketError : Type :=
| ConnectionFailed
| NotConnected
| SendFailed
| ReceiveFailed
| CapabilityDenied.

Inductive HttpError : Type :=
| HDnsResolutionFailed
| HConnectionFailed
| HSendFailed
| HReceiveFailed
| HParseError
| HCapabilityDenied
| HFirewallDenied.

Record HttpResponse : Type := mkResponse { status_code : Z; body : list Z }.

(** How a request stops: an error, or still waiting when the given readings are used up. *)
Inductive stop : Type := Failed (e : HttpError) | Waiting.

(** INTERFACE, SOCKETS, NEXT_LOCAL_PORT and RESOLVER. *)
Record NetState (I S : Type) : Type := mkNet {
  interface : option I;
  sockets : option S;
  next_local_port : Z;
  resolver : option (gmap string Z);
}.
Arguments mkNet {I S} _ _ _ _.
Arguments interface {I S} _.
Arguments sockets {I S} _.
Arguments next_local_port {I S} _.
Arguments resolver {I S} _.

(** ** net/dns.rs *)
Definition resolver_new : gmap string Z := {[ "localhost" := 0x7F000001 ]}.

Definition dns_init {I S} (n : NetState I S) : NetState I S :=
  mkNet (interface n) (sockets n) (next_local_port n) (Some resolver_new).

Definition add_entry (hostname : string) (addr : Z) (cache : gmap string Z) : gmap string Z :=
  <[hostname := addr]> cache.

Definition resolve {I S} (n : NetState I S) (hostname : string) : option Z :=
  match resolver n with Some cache => cache !! hostname | None => None end.

(** ** net/http.rs: parsing *)
Definition parse_url (url : string) : result HttpError (string * Z * string) :=
  let default_port := if String.prefix "https://" url then 443 else 80 in
  let url := match strip_prefix "https://" url with
             | Some u => u
             | None => match strip_prefix "http://" url with Some u => u | None => url end
             end in
  let '(host_port, path) := match find_char SLASH url with
                            | Some i => (str_take i url, str_drop i url)
                            | None => (url, "/")
                            end in
  let '(host, port) :=
    match find_char COLON host_port with
    | Some i => (str_take i host_port, default default_port (parse_u16 (as_bytes (str_drop (i + 1) host_port))))
    | None => (host_port, default_port)
    end in
  Ok (host, port, path).

Definition CRLFCRLF : list Z := [13; 10; 13; 10].

Definition parse_http_response (data : list Z) : result HttpError HttpResponse :=
  if utf8_valid data then
    match first_line data with
    | None => Err HParseError
    | Some status_line =>
        match split_whitespace status_line !! 1%nat ≫= parse_u16 with
        | None => Err HParseError
        | Some code =>
            let body_start := match find_sub CRLFCRLF data with Some i => (i + 4)%nat | None => length data end in
            Ok (mkResponse code (drop body_start data))
        end
    end
  else Err HParseError.

(** [m] with its result as a value, for a [match] on it. *)
Definition attempt {S E E' A} (m : cmd S E A) : cmd S E' (result E A) :=
  λ s, match m s with Ret (r, s') => Ret (Ok r, s') | Panic => Panic end.

Definition CRLF : string := of_bytes [13; 10].

Definition get_request (path host : string) : string :=
  "GET " +:+ path +:+ " HTTP/1.1" +:+ CRLF +:+ "Host: " +:+ host +:+ CRLF +:+ "Connection: close" +:+ CRLF +:+ CRLF.

Definition post_request (path host : string) (len : nat) : string :=
  "POST " +:+ path +:+ " HTTP/1.1" +:+ CRLF +:+ "Host: " +:+ host +:+ CRLF +:+
  "Content-Type: application/json" +:+ CRLF +:+ "Content-Length: " +:+ fmt_u64 (Z.of_nat len) +:+ CRLF +:+
  "Connection: close" +:+ CRLF +:+ CRLF.

(** The ticks read: for the connect deadline, in each turn of the wait loop (for poll and for the
    test), for the receive deadline, and in each turn of the receive loop. *)
Record Clock : Type := mkClock {
  at_connect : Z;
  waits : list (Z * Z);
  at_receive : Z;
  rounds : list (Z * Z);
}.

Section stack.
Context {I S H : Type} `{!Smoltcp I S H}.
Local Abbreviation Net := (NetState I S).

Definition set_sockets (n : Net) (s : S) : Net := mkNet (interface n) (Some s) (next_local_port n) (resolver n).

(** net/stack.rs *)
Definition poll (ticks : Z) (n : Net) : Net :=
  match interface n, sockets n with
  | Some i, Some s => let '(i', s') := iface_poll (as_i64 ticks) i s in
                      mkNet (Some i') (Some s') (next_local_port n) (resolver n)
  | _, _ => n
  end.

(** [init]: the interface 10.0.2.15/24 with the card's hardware address and the gateway 10.0.2.2. *)
Definition stack_init `{!SmoltcpInit I S} (mac : list Z) (n : Net) : outcome Net :=
  let iface := iface_new mac 0 in
  match push_addr 0x0A00020F 24 iface with
  | None => Panic
  | Some iface =>
      match add_default_route 0x0A000202 iface with
      | None => Panic
      | Some iface => Ret (mkNet (Some iface) (Some sockets_new) (next_local_port n) (resolver n))
      end
  end.

(** net/mod.rs [init], once the card is initialised. *)
Definition net_start `{!SmoltcpInit I S} (mac : list Z) (n : Net) : outcome Net :=
  let? n := stack_init mac n in
  Ret (dns_init n).

(** ** net/socket.rs *)
Definition tcp_create (n : Net) : option H * Net :=
  match sockets n with
  | Some s => let '(h, s') := set_add s in (Some h, set_sockets n s')
  | None => (None, n)
  end.

Definition local_port (raw : Z) : Z := 49152 + raw mod (65535 - 49152 + 1).

Definition tcp_connect (table : CapabilityTable) (handle : H) (remote_addr remote_port task_id net_cap : Z)
    : cmd Net SocketError () :=
  λ n, match validate table net_cap task_id CONNECT with
       | Err _ => Ret (Err CapabilityDenied, n)
       | Ok _ =>
           match interface n, sockets n with
           | Some i, Some s =>
               if has_socket handle s then
                 let raw := next_local_port n in
                 let '(ok, i', s') := sock_connect handle remote_addr remote_port (local_port raw) i s in
                 let n' := mkNet (Some i') (Some s') (wrapping_add16 raw 1) (resolver n) in
                 if ok then Ret (Ok (), n') else Ret (Err ConnectionFailed, n')
               else Panic
           | _, _ => Ret (Err ConnectionFailed, n)
           end
       end.

Definition tcp_send (handle : H) (data : list Z) : cmd Net SocketError Z :=
  λ n, match sockets n with
       | Some s =>
           if has_socket handle s then
             if negb (may_send handle s) then Ret (Err NotConnected, n)
             else match send_slice handle data s with
                  | (Some k, s') => Ret (Ok k, set_sockets n s')
                  | (None, s') => Ret (Err SendFailed, set_sockets n s')
                  end
           else Panic
       | None => Ret (Err SendFailed, n)
       end.

(** The bytes received; their number is the value the function returns. *)
Definition tcp_receive (handle : H) (size : nat) : cmd Net SocketError (list Z) :=
  λ n, match sockets n with
       | Some s =>
           if has_socket handle s then
             if negb (may_recv handle s) then Ret (Err NotConnected, n)
             else match recv_slice handle size s with
                  | (Some l, s') => Ret (Ok l, set_sockets n s')
                  | (None, s') => Ret (Err ReceiveFailed, set_sockets n s')
                  end
           else Panic
       | None => Ret (Err ReceiveFailed, n)
       end.

Definition tcp_close {E} (handle : H) : cmd Net E () :=
  λ n, match sockets n with
       | Some s => if has_socket handle s then Ret (Ok (), set_sockets n (sock_close handle s)) else Panic
       | None => Ret (Ok (), n)
       end.

(** ** net/http.rs: the exchange *)

(** Poll until a reading passes the deadline. *)
Fixpoint wait_loop (deadline : Z) (ts : list (Z * Z)) : cmd Net stop () :=
  match ts with
  | [] => throw Waiting
  | (t, now) :: ts' =>
      let! n := get_state in
      let! _ := put_state (poll t n) in
      if deadline <? now then ret () else wait_loop deadline ts'
  end.

Fixpoint receive_loop (handle : H) (deadline : Z) (ts : list (Z * Z)) (acc : list Z) : cmd Net stop (list Z) :=
  match ts with
  | [] => throw Waiting
  | (t, now) :: ts' =>
      let! n := get_state in
      let! _ := put_state (poll t n) in
      let! r := attempt (tcp_receive handle 4096) in
      match r with
      | Ok [] => ret acc
      | Ok l => if deadline <? now then ret (acc ++ l) else receive_loop handle deadline ts' (acc ++ l)
      | Err NotConnected => ret acc
      | Err _ => if deadline <? now then ret acc else receive_loop handle deadline ts' acc
      end
  end.

(** The first part of get and post: the checks, the name, the connection and the wait. *)
Definition connect_phase (table : CapabilityTable) (clock : Clock) (url : string) (task_id net_cap : Z)
    : cmd Net stop (H * string * string) :=
  let! '(host, port, path) := lift_result Failed (parse_url url) in
  let! _ := lift_result (λ _, Failed HCapabilityDenied) (validate table net_cap task_id CONNECT) in
  match check_outbound table task_id net_cap host port with
  | Deny _ => throw (Failed HFirewallDenied)
  | Allow =>
      let! n := get_state in
      let! addr := ok_or (resolve n host) (Failed HDnsResolutionFailed) in
      let '(created, n') := tcp_create n in
      let! _ := put_state n' in
      let! handle := ok_or created (Failed HConnectionFailed) in
      let! r := attempt (tcp_connect table handle addr port task_id net_cap) in
      let! _ := lift_result (λ _, Failed HConnectionFailed) r in
      let! deadline := lift_outcome (checked_add64 (at_connect clock) 500) in
      let! _ := wait_loop deadline (waits clock) in
      ret (handle, host, path)
  end.

(** Send, closing the socket on an error. *)
Definition send_or_close (handle : H) (data : list Z) : cmd Net stop () :=
  let! r := attempt (tcp_send handle data) in
  match r with
  | Ok _ => ret ()
  | Err _ => let! _ := tcp_close handle in throw (Failed HSendFailed)
  end.

(** The last part: receive until the end or the deadline, close, parse. *)
Definition receive_phase (clock : Clock) (handle : H) : cmd Net stop HttpResponse :=
  let! deadline := lift_outcome (checked_add64 (at_receive clock) 1000) in
  let! response := receive_loop handle deadline (rounds clock) [] in
  let! _ := tcp_close handle in
  match response with
  | [] => ret (mkResponse 0 [])
  | _ => lift_result Failed (parse_http_response response)
  end.

Definition get (table : CapabilityTable) (clock : Clock) (url : string) (task_id net_cap : Z)
    : cmd Net stop HttpResponse :=
  let! '(handle, host, path) := connect_phase table clock url task_id net_cap in
  let! _ := send_or_close handle (as_bytes (get_request path host)) in
  receive_phase clock handle.

Definition post (table : CapabilityTable) (clock : Clock) (url : string) (payload : list Z) (task_id net_cap : Z)
    : cmd Net stop HttpResponse :=
  let! '(handle, host, path) := connect_phase table clock url task_id net_cap in
  let! _ := send_or_close handle (as_bytes (post_request path host (length payload))) in
  let! _ := send_or_close handle payload in
  receive_phase clock handle.
End stack.

(** ** Facts *)
Definition allowed (table : CapabilityTable) (cap_id task_id : Z) (host : string) (port : Z) : Prop :=
  ∃ c, validate table cap_id task_id CONNECT = Ok c ∧ admits (c_resource c) host port = true.

Lemma check_outbound_spec table task_id cap_id host port :
  check_outbound table task_id cap_id host port = Allow ↔ allowed table cap_id task_id host port.
Proof.
  unfold check_outbound, allowed. destruct (validate table cap_id task_id CONNECT) as [c|e].
  2:{ split; [done|]. by intros (c & ? & _). }
  assert (Ha : (∃ c', @Ok CapError _ c = Ok c' ∧ admits (c_resource c') host port = true) ↔
               admits (c_resource c) host port = true) by (split; [by intros (? & [= <-] & ?)|by eauto]).
  rewrite Ha. destruct (c_resource c); try done. simpl.
  destruct (bool_decide (host0 = "*")), (bool_decide (host0 = host)), (port0 =? 0), (port0 =? port); done.
Qed.

Lemma local_port_range raw : 0 ≤ raw → 49152 ≤ local_port raw ≤ 65535.
Proof. intros H. unfold local_port. change (65535 - 49152 + 1) with 16384. pose proof (Z.mod_pos_bound raw 16384 ltac:(lia)). lia. Qed.

(** Any 16384 connections in a row use different local ports. *)
Lemma local_port_fresh a b : 0 ≤ a → a < b < a + 16384 → local_port a ≠ local_port b.
Proof.
  intros Ha Hab. unfold local_port. change (65535 - 49152 + 1) with 16384.
  pose proof (Z.div_mod a 16384 ltac:(lia)). pose proof (Z.div_mod b 16384 ltac:(lia)).
  pose proof (Z.mod_pos_bound a 16384 ltac:(lia)). pose proof (Z.mod_pos_bound b 16384 ltac:(lia)). lia.
Qed.

(** A response is valid UTF-8 and its body is what follows the first empty line, or nothing. *)
Lemma parse_http_response_body data r :
  parse_http_response data = Ok r →
  utf8_valid data = true ∧ 0 ≤ status_code r ≤ U16_MAX ∧
  ((∃ head, data = head ++ CRLFCRLF ++ body r) ∨ (find_sub CRLFCRLF data = None ∧ body r = [])).
Proof.
  unfold parse_http_response. destruct (utf8_valid data); [|done]. destruct (first_line data) as [line|]; [|done].
  destruct (split_whitespace line !! 1%nat) as [w|]; [|done]. simpl. destruct (parse_u16 w) as [code|] eqn:Ec; [|done].
  intros [= <-]. split; [done|]. split; [by eapply parse_u16_range|]. cbn [body].
  destruct (find_sub CRLFCRLF data) as [i|] eqn:Ef; [left|right; by rewrite drop_all].
  apply find_sub_Some in Ef as (k & E & Hl). exists (take i data). rewrite E at 1. do 2 f_equal.
  rewrite E, (assoc_L (++)), drop_app_length'; [done|]. rewrite length_app, Hl. simpl. lia.
Qed.

(** A printed URL is parsed back. *)
Lemma parse_url_print (tls : bool) (host path : string) (port : Z) :
  no_char SLASH host = true → no_char COLON host = true → 0 ≤ port ≤ U16_MAX →
  parse_url ((if tls then "https://" else "http://") +:+ host +:+ String COLON (fmt_u64 port +:+ String SLASH path)) =
    Ok (host, port, String SLASH path).
Proof.
  intros Hs Hc Hp. set (rest := host +:+ String COLON (fmt_u64 port +:+ String SLASH path)).
  assert (Hstrip : match strip_prefix "https://" ((if tls then "https://" else "http://") +:+ rest) with
             | Some u => u
             | None => match strip_prefix "http://" ((if tls then "https://" else "http://") +:+ rest) with
                       | Some u => u | None => (if tls then "https://" else "http://") +:+ rest end
             end = rest).
  { destruct tls; [by rewrite strip_prefix_app|].
    change (strip_prefix "https://" ("http://" +:+ rest)) with (@None string). by rewrite strip_prefix_app. }
  unfold parse_url. rewrite Hstrip. clear Hstrip.
  assert (Hrest : rest = (host +:+ String COLON (fmt_u64 port)) +:+ String SLASH path).
  { unfold rest. rewrite <- string_app_assoc. done. }
  rewrite Hrest, find_char_app, str_take_app, str_drop_app.
  - rewrite find_char_app, str_take_app, str_drop_S_app, parse_u16_fmt by done. done.
  - rewrite no_char_app, Hs. simpl. apply fmt_u64_no_slash.
Qed.

(** ** Requests *)
Section requests.
Context {I S H : Type} `{Stack : !Smoltcp I S H}.
Local Abbreviation Net := (NetState I S).

(** The error of a request that is not allowed. *)
Definition denial (table : CapabilityTable) (task_id net_cap : Z) : HttpError :=
  match validate table net_cap task_id CONNECT with Ok _ => HFirewallDenied | Err _ => HCapabilityDenied end.

Lemma connect_phase_denied table clock url task_id net_cap host port path (n : Net) :
  parse_url url = Ok (host, port, path) → ¬ allowed table net_cap task_id host port →
  connect_phase table clock url task_id net_cap n = Ret (Err (Failed (denial table task_id net_cap)), n).
Proof.
  intros Hu Hn. unfold connect_phase, denial. rewrite Hu. unfold lift_result, cmd_bind.
  destruct (validate table net_cap task_id CONNECT) as [c|e] eqn:Ev; [|done].
  destruct (check_outbound table task_id net_cap host port) eqn:Ec; [|done].
  by apply check_outbound_spec in Ec.
Qed.

(** The handle is valid as long as the stack is up. *)
Definition live (h : H) (n : Net) : Prop := ∀ s, sockets n = Some s → has_socket h s = true.

(** From every state where [h] is live, [m] returns, is not left waiting, keeps it live, and a value
    it returns satisfies [Q]. *)
Definition ends_with {A} (h : H) (Q : A → Prop) (m : cmd Net stop A) : Prop :=
  ∀ n, live h n → ∃ r n', m n = Ret (r, n') ∧ r ≠ Err Waiting ∧ live h n' ∧ (∀ a, r = Ok a → Q a).

Abbreviation ends h m := (ends_with h (λ _, True) m).

Lemma ends_bind {A B} h (Q : B → Prop) (m : cmd Net stop A) (k : A → cmd Net stop B) :
  ends h m → (∀ a, ends_with h Q (k a)) → ends_with h Q (cmd_bind m k).
Proof.
  intros Hm Hk n Hn. unfold cmd_bind. destruct (Hm n Hn) as ([a|e] & n1 & -> & Hr & Hn1 & _).
  - by apply Hk.
  - exists (Err e), n1. split; [done|]. split; [congruence|done].
Qed.

Lemma ends_ret {A} h (Q : A → Prop) (a : A) : Q a → ends_with h Q (ret a).
Proof. intros Hq n Hn. exists (Ok a), n. do 3 (split; [done|]). by intros ? [= <-]. Qed.

Lemma ends_throw {A} h (e : HttpError) : ends h (throw (A := A) (Failed e)).
Proof. intros n Hn. by exists (Err (Failed e)), n. Qed.

Lemma ends_result {A E} h (f : E → HttpError) (r : result E A) : ends h (lift_result (λ e, Failed (f e)) r).
Proof. intros n Hn. destruct r as [a|e]; [by exists (Ok a), n|by exists (Err (Failed (f e))), n]. Qed.

Context `{!SmoltcpLaws I S H}.

Lemma live_set_sockets h n s : has_socket h s = true → live h (set_sockets n s).
Proof. intros Hs s' [= <-]. done. Qed.

Lemma poll_live h t n : live h n → live h (poll t n).
Proof.
  intros Hn. unfold poll. destruct (interface n) as [i|], (sockets n) as [s|] eqn:Es; try done.
  pose proof (poll_has h (as_i64 t) i s (Hn s Es)). destruct (iface_poll (as_i64 t) i s) as [i' s'].
  by intros s'' [= <-].
Qed.

Lemma ends_send h data : ends h (attempt (tcp_send h data)).
Proof.
  intros n Hn. unfold attempt, tcp_send. destruct (sockets n) as [s|] eqn:Es; [|by eexists _, _].
  rewrite (Hn s Es). destruct (negb (may_send h s)); [by eexists _, _|].
  pose proof (send_has h h data s (Hn s Es)). destruct (send_slice h data s) as [[k|] s'];
    eexists _, _; (split; [reflexivity|]; split; [done|]; split; [by apply live_set_sockets|done]).
Qed.

Lemma ends_receive h size : ends h (attempt (tcp_receive h size)).
Proof.
  intros n Hn. unfold attempt, tcp_receive. destruct (sockets n) as [s|] eqn:Es; [|by eexists _, _].
  rewrite (Hn s Es). destruct (negb (may_recv h s)); [by eexists _, _|].
  pose proof (recv_has h h size s (Hn s Es)). destruct (recv_slice h size s) as [[k|] s'];
    eexists _, _; (split; [reflexivity|]; split; [done|]; split; [by apply live_set_sockets|done]).
Qed.

Lemma ends_close h : ends h (tcp_close h).
Proof.
  intros n Hn. unfold tcp_close. destruct (sockets n) as [s|] eqn:Es; [|by eexists _, _].
  rewrite (Hn s Es). eexists _, _. split; [reflexivity|]. split; [done|]. split; [|done].
  apply live_set_sockets, close_has, Hn, Es.
Qed.

#[local] Hint Resolve ends_ret ends_throw ends_send ends_receive ends_close : oxide.

Lemma ends_poll {A} h t (Q : A → Prop) (k : cmd Net stop A) :
  ends_with h Q k → ends_with h Q (let! n := get_state in let! _ := put_state (poll t n) in k).
Proof. intros Hk n Hn. unfold cmd_bind, get_state, put_state. by apply Hk, poll_live. Qed.

(** A reading past the deadline. *)
Definition passes (deadline : Z) (ts : list (Z * Z)) : Prop := Exists (λ p, deadline < p.2) ts.

Lemma ends_wait h deadline ts : passes deadline ts → ends h (wait_loop deadline ts).
Proof.
  induction ts as [|[t now] ts IH]; intros Hp; [by inversion Hp|]. simpl. apply ends_poll.
  destruct (Z.ltb_spec deadline now) as [Hlt|Hge]; [by apply ends_ret|]. apply IH.
  apply Exists_cons in Hp as [Hp|Hp]; [simpl in Hp; lia|done].
Qed.

Lemma ends_receive_loop h deadline ts acc : passes deadline ts → ends h (receive_loop h deadline ts acc).
Proof.
  revert acc. induction ts as [|[t now] ts IH]; intros acc Hp; [by inversion Hp|]. cbn [receive_loop]. apply ends_poll.
  apply ends_bind; [auto with oxide|]. intros r.
  assert (Hnext : ∀ acc', ends h (if deadline <? now then ret acc' else receive_loop h deadline ts acc')).
  { intros acc'. destruct (Z.ltb_spec deadline now) as [Hlt|Hge]; [by apply ends_ret|]. apply IH.
    apply Exists_cons in Hp as [Hp|Hp]; [simpl in Hp; lia|done]. }
  destruct r as [[|b l]|[]]; try apply Hnext; auto with oxide.
Qed.

Lemma ends_send_or_close h data : ends h (send_or_close h data).
Proof.
  apply ends_bind; [auto with oxide|]. intros [k|e]; [auto with oxide|]. apply ends_bind; auto with oxide.
Qed.

(** The readings of a request: no overflow, and both loops see their deadline pass. *)
Definition clock_passes (clock : Clock) : Prop :=
  at_connect clock + 500 ≤ U64_MAX ∧ passes (at_connect clock + 500) (waits clock) ∧
  at_receive clock + 1000 ≤ U64_MAX ∧ passes (at_receive clock + 1000) (rounds clock).

Lemma lift_sum_bind {A} h (Q : A → Prop) a b (k : Z → cmd Net stop A) :
  a + b ≤ U64_MAX → ends_with h Q (k (a + b)) → ends_with h Q (let! d := lift_outcome (checked_add64 a b) in k d).
Proof.
  intros Hle Hk n Hn. unfold cmd_bind, lift_outcome, checked_add64. rewrite decide_True by done. by apply Hk.
Qed.

Lemma ends_receive_phase h clock : clock_passes clock → ends h (receive_phase clock h).
Proof.
  intros (_ & _ & Hle & Hp). apply lift_sum_bind; [done|]. apply ends_bind; [by apply ends_receive_loop|].
  intros l. apply ends_bind; [auto with oxide|]. intros _. destruct l as [|b l]; [auto with oxide|].
  apply (ends_result h (λ e, e)).
Qed.

Lemma ends_connect table h addr port task_id net_cap :
  ends h (attempt (tcp_connect table h addr port task_id net_cap)).
Proof.
  intros n Hn. unfold attempt, tcp_connect. destruct (validate table net_cap task_id CONNECT); [|by eexists _, _].
  destruct (interface n) as [i|]; [|by eexists _, _]. destruct (sockets n) as [s|] eqn:Es; [|by eexists _, _].
  rewrite (Hn s Es). pose proof (connect_has h h addr port (local_port (next_local_port n)) i s (Hn s Es)) as Hc.
  destruct (sock_connect h addr port _ i s) as [[ok i'] s']. simpl in Hc.
  destruct ok; eexists _, _; (split; [reflexivity|]; split; [done|]; split; [by intros s'' [= <-]|done]).
Qed.

Lemma connect_phase_ends table clock url task_id net_cap (n : Net) :
  clock_passes clock →
  ∃ r n', connect_phase table clock url task_id net_cap n = Ret (r, n') ∧ r ≠ Err Waiting ∧
          ∀ h host path, r = Ok (h, host, path) → live h n'.
Proof.
  intros (Hle & Hp & _ & _). unfold connect_phase. destruct (parse_url url) as [[[host port] path]|e];
    [|by eexists _, _]. unfold cmd_bind at 1. unfold lift_result at 1. unfold cmd_bind at 1. unfold lift_result at 1.
  destruct (validate table net_cap task_id CONNECT) as [c|e]; [|by eexists _, _].
  destruct (check_outbound table task_id net_cap host port); [|by eexists _, _].
  unfold cmd_bind at 1, get_state. unfold cmd_bind at 1, ok_or at 1.
  destruct (resolve n host) as [addr|]; [|by eexists _, _].
  destruct (tcp_create n) as [created n1] eqn:Ec. unfold cmd_bind at 1, put_state. unfold cmd_bind at 1, ok_or at 1.
  destruct created as [h|]; [|by eexists _, _].
  assert (Hl : live h n1).
  { unfold tcp_create in Ec. destruct (sockets n) as [s|]; [|done]. pose proof (add_has s) as Ha.
    destruct (set_add s) as [h' s']. simplify_eq. by apply live_set_sockets. }
  assert (He : ends_with h (λ a, a = (h, host, path)) (let! r := attempt (tcp_connect table h addr port task_id net_cap) in
                       let! _ := lift_result (λ _, Failed HConnectionFailed) r in
                       let! deadline := lift_outcome (checked_add64 (at_connect clock) 500) in
                       let! _ := wait_loop deadline (waits clock) in ret (h, host, path))).
  { apply ends_bind; [apply ends_connect|]. intros r. apply ends_bind; [apply (ends_result h (λ _, HConnectionFailed))|].
    intros _. apply lift_sum_bind; [done|]. apply ends_bind; [by apply ends_wait|]. intros _. by apply ends_ret. }
  destruct (He n1 Hl) as (r & n2 & -> & Hr & Hn2 & Hq). exists r, n2. split; [done|]. split; [done|].
  intros h' host' path' E. apply Hq in E. by simplify_eq.
Qed.

Lemma request_ends {A} (m : cmd Net stop (H * string * string)) (k : H * string * string → cmd Net stop A) n :
  (∃ r n', m n = Ret (r, n') ∧ r ≠ Err Waiting ∧ ∀ h host path, r = Ok (h, host, path) → live h n') →
  (∀ h host path, ends h (k (h, host, path))) →
  ∃ r n', cmd_bind m k n = Ret (r, n') ∧ r ≠ Err Waiting.
Proof.
  intros (r & n' & E & Hr & Hl) Hk. unfold cmd_bind. rewrite E. destruct r as [[[h host] path]|e].
  - destruct (Hk h host path n' (Hl h host path eq_refl)) as (r & n2 & -> & Hr2 & _). by eexists _, _.
  - exists (Err e), n'. split; [done|congruence].
Qed.

Lemma ends_exchange h clock data :
  clock_passes clock → ends h (let! _ := send_or_close h data in receive_phase clock h).
Proof. intros Hc. apply ends_bind; [apply ends_send_or_close|]. intros _. by apply ends_receive_phase. Qed.
End requests.

(** Without a live capability of the task with CONNECT permission whose network resource
    admits the host and port of the URL, get and post return the denial and leave the whole network
    state untouched: no socket, no port, no packet. *)
Theorem http_denied {I S H : Type} `{!Smoltcp I S H} (table : CapabilityTable) (clock : Clock) (url : string)
    (payload : list Z) (task_id net_cap : Z) (host : string) (port : Z) (path : string) (n : NetState I S) :
  parse_url url = Ok (host, port, path) → ¬ allowed table net_cap task_id host port →
  get table clock url task_id net_cap n = Ret (Err (Failed (denial table task_id net_cap)), n) ∧
  post table clock url payload task_id net_cap n = Ret (Err (Failed (denial table task_id net_cap)), n).
Proof.
  intros Hu Hn. unfold get, post, cmd_bind at 1 2.
  rewrite (connect_phase_denied table clock url task_id net_cap host port path n Hu Hn).
  unfold cmd_bind. by rewrite (connect_phase_denied table clock url task_id net_cap host port path n Hu Hn).
Qed.

(** C40: over a TCP/IP stack that keeps its handles valid, get and post return, with a response or
    an error, as soon as the tick counter passes the two deadlines: neither the wait nor the receive
    loop goes on, and no socket lookup panics. *)
Theorem http_returns {I S H : Type} `{!Smoltcp I S H, !SmoltcpLaws I S H} (table : CapabilityTable) (clock : Clock)
    (url : string) (payload : list Z) (task_id net_cap : Z) (n : NetState I S) :
  clock_passes clock →
  (∃ r n', get table clock url task_id net_cap n = Ret (r, n') ∧ r ≠ Err Waiting) ∧
  (∃ r n', post table clock url payload task_id net_cap n = Ret (r, n') ∧ r ≠ Err Waiting).
Proof.
  intros Hc. split.
  - apply (request_ends (connect_phase table clock url task_id net_cap)); [by apply connect_phase_ends|].
    intros h host path. by apply ends_exchange.
  - apply (request_ends (connect_phase table clock url task_id net_cap)); [by apply connect_phase_ends|].
    intros h host path. apply ends_bind; [apply ends_send_or_close|]. intros _. by apply ends_exchange.
Qed.

(** After net::init there is an interface and a socket set, so a socket can be made, and the resolver knows
    the local host. *)
Lemma net_start_ready {I S H : Type} `{!Smoltcp I S H, !SmoltcpLaws I S H, !SmoltcpInit I S} mac (n n' : NetState I S) :
  net_start mac n = Ret n' →
  is_Some (interface n') ∧ resolve n' "localhost" = Some 0x7F000001 ∧
  ∃ h n'' s, tcp_create n' = (Some h, n'') ∧ sockets n'' = Some s ∧ has_socket h s = true.
Proof.
  unfold net_start, stack_init. destruct (push_addr _ _ _) as [i|]; [|done]. destruct (add_default_route _ i) as [i'|]; [|done].
  cbn [outcome_bind]. intros [= <-]. split; [by eexists|]. split; [reflexivity|]. unfold tcp_create. simpl.
  pose proof (add_has (S := S) (H := H) (I := I) sockets_new) as Hadd. destruct (set_add sockets_new) as [h s'].
  eexists h, _, s'. done.
Qed.

Lemma net_start_returns {I S : Type} `{!SmoltcpInit I S, !SmoltcpInitLaws I S} mac (n : NetState I S) :
  ∃ n', net_start mac n = Ret n' ∧ is_Some (interface n') ∧ is_Some (sockets n') ∧ resolver n' = Some resolver_new.
Proof.
  unfold net_start, stack_init. destruct (push_first mac 0 0x0A00020F 24) as [i Ei]. rewrite Ei.
  destruct (route_first mac 0 0x0A00020F 24 0x0A000202 i Ei) as [i' ->]. cbn [outcome_bind]. by eexists.
Qed.

(** ** A peer that answers every request with the same response *)
Record Sock : Type := mkSock { s_open : bool; s_rx : list Z }.

Definition canned : list Z := as_bytes ("HTTP/1.1 200 OK" +:+ CRLF +:+ "Server: x" +:+ CRLF +:+ CRLF +:+ "hi").

#[export] Instance canned_stack : Smoltcp () (list Sock) nat := {
  set_add s := (length s, s ++ [mkSock false []]);
  has_socket h s := bool_decide (h < length s)%nat;
  sock_connect h a p lp i s := (true, i, alter (λ k, mkSock true (s_rx k)) h s);
  may_send h s := match s !! h with Some k => s_open k | None => false end;
  send_slice h l s := (Some (Z.of_nat (length l)), alter (λ k, mkSock (s_open k) canned) h s);
  may_recv h s := match s !! h with Some k => s_open k | None => false end;
  recv_slice h n s := (match s !! h with Some k => Some (take n (s_rx k)) | None => None end,
                       alter (λ k, mkSock (s_open k) (drop n (s_rx k))) h s);
  sock_close h s := alter (λ k, mkSock false (s_rx k)) h s;
  iface_poll t i s := (i, s);
}.

#[export] Instance canned_laws : SmoltcpLaws () (list Sock) nat.
Proof.
  split; intros; simpl in *; rewrite ?bool_decide_eq_true in *; rewrite ?length_alter, ?length_app; simpl; lia.
Qed.

Definition demo_net : NetState () (list Sock) := mkNet (Some tt) (Some []) 49152 (Some resolver_new).

Definition demo_clock : Clock := mkClock 10 [(10, 11); (600, 601)] 601 [(601, 602); (602, 1700)].

(** Capability 1 of task 7: connect to localhost:8080. *)
Definition demo_caps : CapabilityTable :=
  match create_root CapTable.new 7 (Network "localhost" 8080) CONNECT with Ret (_, t) => t | Panic => CapTable.new end.

Lemma http_denied_witness :
  get demo_caps demo_clock "http://localhost:9090/x" 7 1 demo_net = Ret (Err (Failed HFirewallDenied), demo_net) ∧
  get demo_caps demo_clock "http://localhost:8080/x" 8 1 demo_net = Ret (Err (Failed HCapabilityDenied), demo_net).
Proof.
  split.
  - destruct (http_denied demo_caps demo_clock "http://localhost:9090/x" [] 7 1 "localhost" 9090 "/x" demo_net) as [E _];
      [vm_compute; reflexivity| |exact E].
    intros (c & Hv & Ha). vm_compute in Hv. injection Hv as <-. vm_compute in Ha. discriminate Ha.
  - destruct (http_denied demo_caps demo_clock "http://localhost:8080/x" [] 8 1 "localhost" 8080 "/x" demo_net) as [E _];
      [vm_compute; reflexivity| |exact E].
    intros (c & Hv & _). vm_compute in Hv. discriminate Hv.
Defined.

Lemma http_returns_witness :
  ∃ r n', get demo_caps demo_clock "http://localhost:8080/x" 7 1 demo_net = Ret (r, n') ∧ r ≠ Err Waiting ∧
          r = Ok (mkResponse 200 (as_bytes "hi")).
Proof.
  destruct (http_returns demo_caps demo_clock "http://localhost:8080/x" [] 7 1 demo_net) as [(r & n' & E & Hr) _].
  - unfold clock_passes, passes. simpl. split; [unfold U64_MAX; lia|]. split; [apply Exists_cons_tl, Exists_cons_hd; simpl; lia|].
    split; [unfold U64_MAX; lia|]. apply Exists_cons_tl, Exists_cons_hd. simpl. lia.
  - exists r, n'. split; [exact E|]. split; [exact Hr|]. vm_compute in E. injection E as <- _. reflexivity.
Defined.
End Net.
