(* ===== verification/Syscall.v ===== *)
(** * Syscall: syscall/numbers.rs, syscall/handler.rs and the entry code of syscall/mod.rs

    [dispatch] runs on a [System]: the machine of Switch.v, the agent registry, the context store,
    the deadline queue and the bytes written to the console.  What a call meets from outside is a
    [Surroundings]: which addresses can be read, and which requests the kernel heap serves. *)

From S2P Require Import Prelude Capability Task Scheduler Kernel Switch Ipc Agent Bytes OxideFs ContextStore Heap Timer.

Module Syscall.
Import Tasks Sched Kern Switch.

(** ** syscall/numbers.rs *)
Definition SYS_EXIT : Z := 0.
Definition SYS_PRINT : Z := 1.
Definition SYS_YIELD : Z := 2.
Definition SYS_AGENT_SPAWN : Z := 10.
Definition SYS_AGENT_KILL : Z := 11.
Definition SYS_AGENT_LIST : Z := 12.
Definition SYS_AGENT_STATUS : Z := 13.
Definition SYS_IPC_SEND : Z := 20.
Definition SYS_IPC_RECEIVE : Z := 21.
Definition SYS_IPC_REQUEST : Z := 22.
Definition SYS_IPC_REPLY : Z := 23.
Definition SYS_NET_HTTP_GET : Z := 30.
Definition SYS_NET_HTTP_POST : Z := 31.
Definition SYS_STORAGE_GET : Z := 40.
Definition SYS_STORAGE_SET : Z := 41.
Definition SYS_STORAGE_DELETE : Z := 42.
Definition SYS_CAP_DELEGATE : Z := 50.
Definition SYS_CAP_REVOKE : Z := 51.
Definition SYS_TIMER_SLEEP : Z := 60.
Definition SYS_TIMER_DEADLINE : Z := 61.

(** ** syscall/handler.rs *)
Record System : Type := mkSystem {
  s_m : Machine;
  s_reg : Agents.AgentRegistry;
  s_store : Ctx.ContextStore;
  s_timers : Timer.DeadlineQueue;
  s_console : list Z;
}.

(** How a call ends: it returns a value; the caller is switched out and the value is returned when
    it is resumed; it never returns; it reads an address that cannot be read, and the handler of the
    fault spins with interrupts disabled; or the fuel for kill is used up. *)
Inductive ending : Type := Returns (v : Z) | Parked (v : Z) | Gone | Hangs | Unfinished.

(** The places where a system call may ask the heap for memory. *)
Inductive HeapRequest : Type :=
| Requeue    (* the queue or list reschedule pushes the caller on *)
| Deadline   (* the heap of the deadline queue *)
| Children   (* the copies of the lists of children in kill *)
| Payload    (* payload.to_vec() *)
| Slot       (* the queue of the mailbox *)
| Wake       (* the ready queue unblock pushes the recipient on *)
| Value      (* set: the entry of the agent, the key and the copy of the value *)
| File       (* set: the entry of the key, the path and what write_file stores *)
| Lookup.    (* get: the copy of the value or the path *)

(** [user_mem]: the byte at an address, if it can be read; [stops]: whether from_utf8 reports an
    invalid byte without reading on into an address that cannot be read; [serves]: whether the heap
    has the memory a place asks for, if it asks for any; [sched_free]: whether
    SCHEDULER.try_lock() succeeds in send. *)
Record Surroundings : Type := mkSurroundings {
  user_mem : Z → option Z;
  stops : bool;
  serves : HeapRequest → bool;
  sched_free : bool;
}.

Definition set_m (s : System) (m : Machine) : System := mkSystem m (s_reg s) (s_store s) (s_timers s) (s_console s).
Definition set_reg (s : System) (r : Agents.AgentRegistry) : System :=
  mkSystem (s_m s) r (s_store s) (s_timers s) (s_console s).
Definition set_store (s : System) (c : Ctx.ContextStore) : System :=
  mkSystem (s_m s) (s_reg s) c (s_timers s) (s_console s).
Definition set_timers (s : System) (q : Timer.DeadlineQueue) : System :=
  mkSystem (s_m s) (s_reg s) (s_store s) q (s_console s).

(** [agent.state as i64]. *)
Definition state_code (st : Agents.AgentState) : Z :=
  match st with
  | Agents.Initializing => 0
  | Agents.ARunning => 1
  | Agents.Waiting => 2
  | Agents.Suspended => 3
  | Agents.ADead => 4
  end.

Section handler.
(** Code addresses, the surroundings of the call, and the fuel for kill. *)
Context (RESUME TRAMPOLINE : Z) (env : Surroundings) (fuel : nat).

(** The addresses of [from_raw_parts(ptr, len)]. *)
Definition slice_addrs (ptr len : Z) : list Z := (λ i, wrapping_add64 ptr i) <$> seqZ 0 len.

(** Its bytes, if all of them can be read; and those before the first that cannot. *)
Definition user_slice (ptr len : Z) : option (list Z) := mapM (user_mem env) (slice_addrs ptr len).

Fixpoint readable (addrs : list Z) : list Z :=
  match addrs with
  | [] => []
  | a :: addrs' => match user_mem env a with Some b => b :: readable addrs' | None => [] end
  end.

(** [from_utf8] of a slice; [None] is a fault. *)
Definition user_str (ptr len : Z) : option (option string) :=
  match user_slice ptr len with
  | Some bytes => Some (from_utf8 bytes)
  | None => if stops env && utf8_broken (readable (slice_addrs ptr len)) then Some None else None
  end.

(** A refused request ends in alloc_error. *)
Definition ask (r : HeapRequest) : outcome () := if serves env r then Ret () else Panic.

Definition sys_exit (s : System) : outcome (ending * System) :=
  let? m := exit_current RESUME TRAMPOLINE (s_m s) in Ret (Gone, set_m s m).

Definition sys_print (ptr len : Z) (s : System) : ending * System :=
  if (ptr =? 0) || (4096 <? len) then (Returns (-1), s)
  else match user_str ptr len with
       | None => (Hangs, s)
       | Some (Some str) => (Returns len, mkSystem (s_m s) (s_reg s) (s_store s) (s_timers s) (s_console s ++ as_bytes str))
       | Some None => (Returns (-1), s)
       end.

Definition finish (v : Z) (s : System) (r : bool * Machine) : ending * System :=
  (if fst r then Parked v else Returns v, set_m s (snd r)).

(** What reschedule asks for to put the caller back. *)
Definition requeue (s : System) : outcome () :=
  match current (k_sched (m_k (s_m s))) with Some _ => ask Requeue | None => Ret () end.

Definition sys_yield (s : System) : outcome (ending * System) :=
  let? _ := requeue s in
  let? r := yield_now RESUME TRAMPOLINE (s_m s) in Ret (finish 0 s r).

Definition sys_agent_list (s : System) : ending * System := (Returns (Z.of_nat (Agents.count (s_reg s))), s).

Definition sys_agent_status (agent_id : Z) (s : System) : ending * System :=
  match Agents.get (s_reg s) agent_id with
  | Some agent => (Returns (state_code (Agents.a_state agent)), s)
  | None => (Returns (-1), s)
  end.

Definition sys_agent_kill (agent_id : Z) (s : System) : outcome (ending * System) :=
  let? _ := match Agents.get (s_reg s) agent_id with Some _ => ask Children | None => Ret () end in
  Ret (match Agents.kill fuel agent_id (s_reg s) with
       | Some (Ok _, reg) => (Returns 0, set_reg s reg)
       | Some (Err _, reg) => (Returns (-1), set_reg s reg)
       | None => (Unfinished, s)
       end).

(** The message is pushed on the mailbox, and the recipient on its queue if it was blocked. *)
Definition ask_delivery (recipient : Z) (s : System) : outcome () :=
  let? _ := ask Slot in
  if sched_free env && bool_decide (recipient ∈ Timer.blocked_ids (m_k (s_m s))) then ask Wake else Ret ().

Definition sys_ipc_send (sender recipient payload_ptr payload_len cap_id : Z) (s : System) : outcome (ending * System) :=
  if (payload_ptr =? 0) || (65536 <? payload_len) then Ret (Returns (-1), s)
  else
    let? _ := ask Payload in
    match user_slice payload_ptr payload_len with
    | None => Ret (Hangs, s)
    | Some payload =>
        let? r := Ipc.send (sched_free env) sender recipient Data payload None None cap_id (m_k (s_m s)) in
        let s' := set_m s (with_k (s_m s) (snd r)) in
        match fst r with
        | Ok msg_id => let? _ := ask_delivery recipient s in Ret (Returns (as_i64 msg_id), s')
        | Err _ => Ret (Returns (-1), s')
        end
    end.

Definition sys_ipc_receive (task_id : Z) (s : System) : ending * System :=
  let '(m, k) := Ipc.receive task_id (m_k (s_m s)) in
  (Returns (match m with Some _ => 1 | None => 0 end), set_m s (with_k (s_m s) k)).

Definition sys_storage_set (agent_id key_ptr key_len val_ptr val_len : Z) (s : System) : outcome (ending * System) :=
  if (key_ptr =? 0) || (val_ptr =? 0) || (256 <? key_len) || (65536 <? val_len) then Ret (Returns (-1), s)
  else match user_str key_ptr key_len with
       | None => Ret (Hangs, s)
       | Some None => Ret (Returns (-1), s)
       | Some (Some key) =>
           let? _ := ask Value in
           match user_slice val_ptr val_len with
           | None => Ret (Hangs, s)
           | Some value =>
               let? _ := ask File in
               let? store := Ctx.set agent_id key value (k_ticks (m_k (s_m s))) (s_store s) in
               Ret (Returns 0, set_store s store)
           end
       end.

Definition sys_storage_get (agent_id key_ptr key_len : Z) (s : System) : outcome (ending * System) :=
  if (key_ptr =? 0) || (256 <? key_len) then Ret (Returns (-1), s)
  else match user_str key_ptr key_len with
       | None => Ret (Hangs, s)
       | Some None => Ret (Returns (-1), s)
       | Some (Some key) =>
           let? _ := ask Lookup in
           Ret (match Ctx.get agent_id key (s_store s) with
                | Some data => (Returns (Z.of_nat (length data)), s)
                | None => (Returns (-1), s)
                end)
       end.

Definition sys_sleep (ticks : Z) (s : System) : outcome (ending * System) :=
  let? deadline := checked_add64 (k_ticks (m_k (s_m s))) ticks in
  match current (k_sched (m_k (s_m s))) with
  | Some t =>
      let? _ := ask Deadline in
      let s' := set_timers s (Timer.schedule (t_id t) deadline (s_timers s)).2 in
      let? _ := requeue s' in
      let? r := block_and_yield RESUME TRAMPOLINE (s_m s') in Ret (finish 0 s' r)
  | None => Ret (Returns 0, s)
  end.

Definition dispatch (number arg1 arg2 arg3 arg4 arg5 : Z) (s : System) : outcome (ending * System) :=
  if number =? SYS_EXIT then sys_exit s
  else if number =? SYS_PRINT then Ret (sys_print arg1 arg2 s)
  else if number =? SYS_YIELD then sys_yield s
  else if number =? SYS_AGENT_LIST then Ret (sys_agent_list s)
  else if number =? SYS_AGENT_STATUS then Ret (sys_agent_status arg1 s)
  else if number =? SYS_AGENT_KILL then sys_agent_kill arg1 s
  else if number =? SYS_IPC_SEND then sys_ipc_send arg1 arg2 arg3 arg4 arg5 s
  else if number =? SYS_IPC_RECEIVE then Ret (sys_ipc_receive arg1 s)
  else if number =? SYS_STORAGE_SET then sys_storage_set arg1 arg2 arg3 arg4 arg5 s
  else if number =? SYS_STORAGE_GET then sys_storage_get arg1 arg2 arg3 s
  else if number =? SYS_TIMER_SLEEP then sys_sleep arg1 s
  else Ret (Returns (-1), s).
End handler.

(** ** Sleeping *)

(** [k] timer interrupts with their locks free. *)
Fixpoint interrupts {N : Type} (poll : N → N) (k : nat) (n : N) (q : Timer.DeadlineQueue) (m : Machine)
    : N * Timer.DeadlineQueue * Machine :=
  match k with
  | O => (n, q, m)
  | S k' => let '(n', q', m') := Timer.timer_handler poll (Timer.mkLocks true true true) n q m in
            interrupts poll k' n' q' m'
  end.

Lemma cleanup_dead_task_ticks t k k' : cleanup_dead_task t k = Ret k' → k_ticks k' = k_ticks k.
Proof.
  unfold cleanup_dead_task. destruct (k_frames k) as [a|]; cbn [outcome_bind].
  - destruct (free_frames (t_stack_frames t) a) as [a'|]; intros H; by simplify_eq/=.
  - intros H. by simplify_eq/=.
Qed.

Lemma k_reschedule_ticks k ids k' : sched_wf (k_sched k) → k_reschedule k = Ret (ids, k') → k_ticks k' = k_ticks k.
Proof.
  intros Hwf H. unfold k_reschedule in H.
  destruct (reschedule_spec cleanup_dead_task (k_sched k) k Hwf) as (s1 & _ & _ & _ & Heq). rewrite Heq in H.
  destruct (reap cleanup_dead_task (k_sched k) k) as [k1|] eqn:Er; simplify_eq/=.
  unfold reap in Er. destruct (current (k_sched k)) as [c|]; [|by simplify_eq].
  destruct (t_state c); [by simplify_eq..|]. by eapply cleanup_dead_task_ticks.
Qed.

Section sleep.
Context (RESUME TRAMPOLINE : Z).

Lemma yield_now_ticks m b m' :
  sched_wf (k_sched (m_k m)) → yield_now RESUME TRAMPOLINE m = Ret (b, m') → k_ticks (m_k m') = k_ticks (m_k m).
Proof.
  intros Hwf H. unfold yield_now in H. destruct (k_reschedule (m_k m)) as [[[old new] k]|] eqn:E; [|done].
  apply k_reschedule_ticks in E; [|done]. rewrite <- E. cbn [outcome_bind] in H.
  destruct (negb (old =? new) && negb (new =? 0)); [|by simplify_eq].
  destruct (old =? 0); [|destruct (decide (old < 256)); [|done]]; cbn [outcome_bind fst snd] in H;
    destruct (_ !! Z.to_nat new); by simplify_eq.
Qed.

Lemma block_and_yield_blocks m b m' c :
  sys_wf (k_sys (m_k m)) → current (k_sched (m_k m)) = Some c → block_and_yield RESUME TRAMPOLINE m = Ret (b, m') →
  sched_wf (k_sched (m_k m')) ∧ t_id c ∈ Timer.blocked_ids (m_k m') ∧ k_ticks (m_k m') = k_ticks (m_k m).
Proof.
  intros Hwf Hc H. unfold block_and_yield in H.
  set (m1 := with_k m (set_sched (m_k m) (block_current (k_sched (m_k m))))) in *.
  assert (Hwf1 : sys_wf (k_sys (m_k m1))).
  { apply (sys_step_wf (k_sys (m_k m))); [done|]. apply step_block. }
  pose proof (yield_now_ticks m1 b m' (proj1 Hwf1) H) as Ht.
  destruct (yield_now_spec RESUME TRAMPOLINE m1 b m' Hwf1 H) as ((Hs & _) & Habs & _). split; [done|]. split; [|done].
  assert (Hcur : current (k_sched (m_k m1)) = Some (set_state c Blocked)) by (simpl; by rewrite Hc).
  apply (f_equal snd) in Habs. unfold abstract, abs_reschedule in Habs. rewrite Hcur in Habs. simpl in Habs.
  unfold Timer.blocked_ids. assert (blocked (k_sched (m_k m')) = blocked (k_sched (m_k m)) ++ [set_state c Blocked]) as ->.
  { rewrite Habs. unfold run_head. by case_match. }
  rewrite fmap_app. apply elem_of_app. right. simpl. by left.
Qed.
End sleep.

Lemma interrupts_wake {N} (poll : N → N) k n q m e :
  heap Timer.deadline_le (Timer.q_heap q) → sched_wf (k_sched (m_k m)) → 0 ≤ k_ticks (m_k m) →
  k_ticks (m_k m) + Z.of_nat k ≤ U64_MAX → (0 < k)%nat → Timer.deadline_tick e ≤ k_ticks (m_k m) + Z.of_nat k →
  e ∈ Timer.q_heap q ∨ (Timer.task_id e ∉ Timer.blocked_ids (m_k m)) →
  ∃ n' q' m', interrupts poll k n q m = (n', q', m') ∧ (Timer.task_id e ∉ Timer.blocked_ids (m_k m')) ∧
              all_ids (k_sched (m_k m')) ≡ₚ all_ids (k_sched (m_k m)).
Proof.
  revert n q m. induction k as [|k IH]; intros n q m Hh Hwf H0 Hmax Hk Hd He; [lia|]. cbn [interrupts].
  destruct (Timer.timer_handler_spec poll n q m Hh Hwf) as (n1 & q1 & m1 & -> & Ht & _ & Hwf1 & Hall & Hh1 & Hq1 & Hw & Hb & _);
    [lia|lia|].
  assert (He1 : e ∈ Timer.q_heap q1 ∨ (Timer.task_id e ∉ Timer.blocked_ids (m_k m1))).
  { destruct He as [He|He]; [|right; by intros ?%Hb].
    destruct (decide (Timer.deadline_tick e ≤ k_ticks (m_k m) + 1)) as [Hdue|Hdue]; [right; by apply Hw|].
    left. rewrite Hq1. apply list_elem_of_filter. split; [apply Z.leb_gt; lia|done]. }
  destruct k as [|k].
  - exists n1, q1, m1. split; [done|]. split; [|done]. destruct He as [He|He]; [apply Hw; [done|lia]|by intros ?%Hb].
  - destruct (IH n1 q1 m1 Hh1 Hwf1) as (n2 & q2 & m2 & E & Hn & Hall2); [lia|lia|lia|lia|done|].
    exists n2, q2, m2. split; [done|]. split; [done|]. by rewrite Hall2.
Qed.

(** C24: the sleep system call.  When it returns or parks the caller, the caller is blocked; and
    after as many timer interrupts as it asked for (at least one), with the interrupt's locks free,
    it is no longer blocked and still one of the scheduler's tasks. *)
Theorem sleep_wakes {N : Type} (RESUME TRAMPOLINE : Z) (env : Surroundings) (poll : N → N) (n : N) (k : nat) (ticks : Z)
    (s s1 : System) (r : ending) (c : Task) :
  sys_wf (k_sys (m_k (s_m s))) → heap Timer.deadline_le (Timer.q_heap (s_timers s)) →
  current (k_sched (m_k (s_m s))) = Some c → 0 ≤ k_ticks (m_k (s_m s)) →
  sys_sleep RESUME TRAMPOLINE env ticks s = Ret (r, s1) →
  t_id c ∈ Timer.blocked_ids (m_k (s_m s1)) ∧
  ((0 < k)%nat → ticks ≤ Z.of_nat k → k_ticks (m_k (s_m s)) + Z.of_nat k ≤ U64_MAX →
   ∃ n' q' m', interrupts poll k n (s_timers s1) (s_m s1) = (n', q', m') ∧
     (t_id c ∉ Timer.blocked_ids (m_k m')) ∧ t_id c ∈ all_ids (k_sched (m_k m'))).
Proof.
  intros Hwf Hh Hc H0 H. unfold sys_sleep in H. destruct (checked_add64 _ ticks) as [d|] eqn:Ed; [|done].
  apply checked_add64_Ret in Ed as [-> _]. cbn [outcome_bind] in H. rewrite Hc in H.
  destruct (ask env Deadline) as [[]|]; [|done]. cbn [outcome_bind] in H. cbv zeta in H.
  destruct (requeue env _) as [[]|]; [|done]. cbn [outcome_bind] in H. change (s_m (set_timers s _)) with (s_m s) in H.
  destruct (block_and_yield RESUME TRAMPOLINE (s_m s)) as [[b m']|] eqn:Ey; cbn [outcome_bind] in H; [|done].
  unfold finish in H. injection H as _ <-.
  destruct (block_and_yield_blocks _ _ _ _ _ _ Hwf Hc Ey) as (Hwf' & Hbl & Ht). split; [done|].
  intros Hk Htk Hmax. set (d := k_ticks (m_k (s_m s)) + ticks) in *.
  destruct (push_spec Timer.deadline_le (Timer.mkEntry d (t_id c) (Timer.next_callback (s_timers s))) _ Hh) as [Hh' Hp].
  simpl. destruct (interrupts_wake poll k n (Timer.schedule (t_id c) d (s_timers s)).2 m'
    (Timer.mkEntry d (t_id c) (Timer.next_callback (s_timers s)))) as (n' & q' & m2 & E & Hn & Hall);
    [done|done|lia|lia|done|simpl; lia|left; simpl; rewrite Hp; by left|].
  exists n', q', m2. split; [done|]. split; [done|]. rewrite Hall. unfold all_ids, all_tasks.
  unfold Timer.blocked_ids in Hbl. rewrite !fmap_app. set_solver.
Qed.

(** ** Storage *)

(** Storage_set asks for no capability.  Whenever it returns 0, the context of the agent named
    by its first argument holds the bytes under the key, whoever called; and the result is the same
    whatever the capability table contains. *)
Theorem storage_set_unchecked (env : Surroundings) (agent kp kl vp vl : Z) (s s' : System) :
  0 ≤ agent → Ctx.store_wf (s_store s) → sys_storage_set env agent kp kl vp vl s = Ret (Returns 0, s') →
  (∃ key value, user_str env kp kl = Some (Some key) ∧ user_slice env vp vl = Some value ∧
                Ctx.get agent key (s_store s') = Some value) ∧
  (∀ caps, sys_storage_set env agent kp kl vp vl (set_m s (with_k (s_m s) (set_caps (m_k (s_m s)) caps))) =
           Ret (Returns 0, set_m s' (with_k (s_m s') (set_caps (m_k (s_m s')) caps)))).
Proof.
  intros Ha Hwf H. unfold sys_storage_set in *. destruct (_ || _); [by simplify_eq|].
  destruct (user_str env kp kl) as [[key|]|]; [|by simplify_eq..].
  destruct (ask env Value) as [[]|]; cbn [outcome_bind] in *; [|done].
  destruct (user_slice env vp vl) as [value|]; [|by simplify_eq].
  destruct (ask env File) as [[]|]; cbn [outcome_bind] in *; [|done].
  change (k_ticks (m_k (s_m (set_m s (with_k (s_m s) (set_caps (m_k (s_m s)) _)))))) with (k_ticks (m_k (s_m s))).
  change (s_store (set_m s _)) with (s_store s).
  destruct (Ctx.set agent key value (k_ticks (m_k (s_m s))) (s_store s)) as [st|] eqn:Es; [|by simplify_eq/=].
  cbn [outcome_bind] in *. simplify_eq. split; [|done]. exists key, value. do 2 (split; [done|]).
  destruct (Ctx.set_spec _ _ _ _ _ _ Ha Hwf Es) as [_ Hg]. simpl. by rewrite Hg, decide_True.
Qed.

(** Task 1 runs, task 2 is ready. *)
Definition demo_system : System :=
  mkSystem Switch.demo_machine Agents.registry_new (Ctx.mkStore ∅ Fs.fs_new) Timer.queue_new [].

(** Every address below 2^16 can be read and the heap serves everything. *)
Definition demo_env : Surroundings :=
  mkSurroundings (λ a, if a <? 65536 then Some (a mod 256) else None) false (λ _, true) true.

Lemma sleep_wakes_witness :
  match sys_sleep 0x10 0x20 demo_env 3 demo_system with
  | Ret (_, s1) => 1 ∈ Timer.blocked_ids (m_k (s_m s1)) ∧
                   ∃ n' q' m', interrupts (λ n : nat, S n) 3 0%nat (s_timers s1) (s_m s1) = (n', q', m') ∧
                     (1 ∉ Timer.blocked_ids (m_k m'))
  | Panic => False
  end.
Proof.
  destruct (sys_sleep 0x10 0x20 demo_env 3 demo_system) as [[r s1]|] eqn:E; [|vm_compute in E; discriminate E].
  destruct (sleep_wakes 0x10 0x20 demo_env (λ n : nat, S n) 0%nat 3 3 demo_system s1 r (set_state (boot_task 1 "a" Normal) Running))
    as [Hb Hw]; [apply demo_machine_wf|apply heap_nil|reflexivity|done|exact E|].
  split; [exact Hb|]. destruct Hw as (n' & q' & m' & Ei & Hn & _); [lia|lia|vm_compute; discriminate|].
  exists n', q', m'. split; [exact Ei|exact Hn].
Defined.

(** The key "a" at address 97 and the three bytes at 1; the capability table is empty. *)
Lemma storage_set_unchecked_witness :
  match sys_storage_set demo_env 7 97 1 1 3 demo_system with
  | Ret (_, s') => Ctx.get 7 "a" (s_store s') = Some [1; 2; 3]
  | Panic => False
  end.
Proof.
  destruct (sys_storage_set demo_env 7 97 1 1 3 demo_system) as [[r s']|] eqn:E; [|vm_compute in E; discriminate E].
  assert (r = Returns 0) as -> by (vm_compute in E; by injection E as <- _).
  destruct (storage_set_unchecked demo_env 7 97 1 1 3 demo_system s') as [(key & value & Hk & Hv & Hg) _];
    [lia|apply Ctx.empty_store_wf|exact E|]. vm_compute in Hk. vm_compute in Hv. injection Hk as <-. injection Hv as <-. exact Hg.
Defined.

(** ** syscall_entry

    The registers and the stack as a list of words, top first.  [call_dispatch] is the call of the
    Rust function under the System V ABI: the value in rax, the other caller-saved registers
    arbitrary, the rest and the stack as before. *)
Inductive reg : Type :=
| RAX | RBX | RCX | RDX | RSI | RDI | RBP | R8 | R9 | R10 | R11 | R12 | R13 | R14 | R15.

#[export] Instance reg_eq_dec : EqDecision reg.
Proof. solve_decision. Defined.

Definition regs : Type := reg → Z.
Definition set_reg_to (r : reg) (v : Z) (f : regs) : regs := λ x, if decide (x = r) then v else f x.

Inductive instr : Type := Push (r : reg) | Pop (r : reg) | Mov (dst src : reg) | CallDispatch.

Definition caller_saved (r : reg) : bool :=
  match r with RCX | RDX | RSI | RDI | R8 | R9 | R10 | R11 => true | _ => false end.

Definition args : Type := Z * Z * Z * Z * Z * Z.

Section entry.
(** What the dispatcher returns for its six arguments, and what it leaves in the registers it may use. *)
Context (dispatched : args → Z) (scratch : reg → Z).

(** One instruction: registers, stack and the arguments of the call made so far. *)
Definition exec (i : instr) (x : regs * list Z * option args) : option (regs * list Z * option args) :=
  let '(f, st, called) := x in
  match i with
  | Push r => Some (f, f r :: st, called)
  | Pop r => match st with v :: st' => Some (set_reg_to r v f, st', called) | [] => None end
  | Mov dst src => Some (set_reg_to dst (f src) f, st, called)
  | CallDispatch =>
      let a := (f RDI, f RSI, f RDX, f RCX, f R8, f R9) in
      Some (λ r, if decide (r = RAX) then dispatched a else if caller_saved r then scratch r else f r, st, Some a)
  end.

Fixpoint run (code : list instr) (x : regs * list Z * option args) : option (regs * list Z * option args) :=
  match code with
  | [] => Some x
  | i :: code' => exec i x ≫= run code'
  end.
End entry.

(** The instructions up to [sysretq], in order. *)
Definition syscall_entry : list instr :=
  [Push RCX; Push R11; Push RBP; Push RBX; Push R12; Push R13; Push R14; Push R15;
   Mov R9 R8; Mov R8 R10; Mov RCX RDX; Mov RDX RSI; Mov RSI RDI; Mov RDI RAX;
   CallDispatch;
   Pop R15; Pop R14; Pop R13; Pop R12; Pop RBX; Pop RBP; Pop R11; Pop RCX].

(** The dispatcher gets the number and the five arguments in order; rax holds its result, the
    return address (rcx), the flags (r11) and the callee-saved registers are the caller's, and the
    stack is balanced. *)
Lemma syscall_entry_spec dispatched scratch (f : regs) st :
  ∃ f', run dispatched scratch syscall_entry (f, st, None) =
          Some (f', st, Some (f RAX, f RDI, f RSI, f RDX, f R10, f R8)) ∧
        f' RAX = dispatched (f RAX, f RDI, f RSI, f RDX, f R10, f R8) ∧
        Forall (λ r, f' r = f r) [RCX; R11; RBP; RBX; R12; R13; R14; R15].
Proof. eexists. split; [reflexivity|]. split; [reflexivity|]. repeat constructor. Qed.
End Syscall.
