(* ===== verification/Os.v ===== *)
(** * Os: the kernel as a whole

    All statics, the agent registry, the page tables, the context store, the timers and the
    inference queue in one state, and every operation on them as a step: system calls, timer
    interrupts, scheduling, agents, capabilities, ipc, shared memory, contexts.  The invariants of
    the components hold together in every reachable state, and the ways they depend on each other
    are among them. *)

From S2P Require Import Prelude Capability FrameAlloc Task Paging Scheduler Kernel Ownership Switch Ipc Agent Bytes OxideFs ContextStore Heap Timer Gpu Syscall.

Module Os.
Import Frames CapTable Tasks Sched Kern Ownership Switch Syscall.

(** ** Operations that neither create nor remove a task

    They may wake tasks, allocate frames and change what the ipc modules own, keeping its
    invariants. *)
Definition moved : relation Scheduler := rtc (λ s s', ∃ id, s' = (unblock s id).2).

Definition frames_le (o o' : option BitmapFrameAllocator) : Prop :=
  ∀ a, o = Some a → alloc_wf a → ∃ a', o' = Some a' ∧ fewer_free a a'.

(** No mailbox is over its capacity. *)
Definition mail_ok (k : Kernel) : Prop := ∀ t q, k_mailboxes k !! t = Some q → (length q ≤ Ipc.MAILBOX_CAPACITY)%nat.

Record quiet (k k' : Kernel) : Prop := {
  qu_sched : moved (k_sched k) (k_sched k');
  qu_ids : k_ids k' = k_ids k;
  qu_contexts : k_contexts k' = k_contexts k;
  qu_frames : frames_le (k_frames k) (k_frames k');
  qu_boxes : ∀ t, is_Some (k_mailboxes k !! t) → is_Some (k_mailboxes k' !! t);
  qu_caps : table_wf (k_caps k) → table_wf (k_caps k');
  qu_mail : mail_ok k → mail_ok k';
  qu_chan : Ipc.channels_wf k → Ipc.channels_wf k';
}.

Lemma frames_le_refl o : frames_le o o.
Proof. intros a Ha Hwf. exists a. by split; [|apply fewer_refl]. Qed.

Lemma frames_le_trans o1 o2 o3 : frames_le o1 o2 → frames_le o2 o3 → frames_le o1 o3.
Proof.
  intros H12 H23 a Ha Hwf. destruct (H12 a Ha Hwf) as (b & Hb & Hf). destruct (H23 b Hb (proj1 Hf)) as (c & Hc & Hf').
  exists c. split; [done|]. by eapply fewer_trans.
Qed.

#[global] Instance quiet_preorder : PreOrder quiet.
Proof.
  split; [intros k; split; [done|done|done|apply frames_le_refl|done..]|].
  intros k1 k2 k3 [] []. split; [by etrans|by etrans|by etrans|by eapply frames_le_trans|eauto..].
Qed.

(** The fields that matter are untouched. *)
Lemma quiet_same k k' :
  k_sched k' = k_sched k → k_ids k' = k_ids k → k_contexts k' = k_contexts k → k_frames k' = k_frames k →
  k_mailboxes k' = k_mailboxes k → k_caps k' = k_caps k → k_channels k' = k_channels k → quiet k k'.
Proof.
  intros Es Ei Ec Ef Em Ek Eh. split; unfold mail_ok, Ipc.channels_wf; rewrite ?Es, ?Ei, ?Ec, ?Ef, ?Em, ?Ek, ?Eh; try done.
  apply frames_le_refl.
Qed.

Lemma quiet_unblock free id k : quiet k (try_unblock free id k).
Proof.
  destruct free; [|done]. split; try done; [|apply frames_le_refl]. apply rtc_once. by exists id.
Qed.

Lemma quiet_caps k t : (table_wf (k_caps k) → table_wf t) → quiet k (set_caps k t).
Proof. intros Ht. split; try done. apply frames_le_refl. Qed.

Lemma quiet_mail k m :
  (∀ t, is_Some (k_mailboxes k !! t) → is_Some (m !! t)) →
  (mail_ok k → ∀ t q, m !! t = Some q → (length q ≤ Ipc.MAILBOX_CAPACITY)%nat) → quiet k (set_mailboxes k m).
Proof. intros Hd Hm. split; try done. apply frames_le_refl. Qed.

Lemma quiet_frames k a a' : k_frames k = Some a → (alloc_wf a → fewer_free a a') → quiet k (set_frames k (Some a')).
Proof.
  intros Ha Hf. split; try done. simpl. rewrite Ha. intros b [= <-] Hwf. exists a'. split; [done|]. by apply Hf.
Qed.

(** A command all of whose outcomes are quiet. *)
Definition quiets {E A} (m : cmd Kernel E A) : Prop := ∀ k r k', m k = Ret (r, k') → quiet k k'.

Lemma quiets_bind {E A B} (m : cmd Kernel E A) (f : A → cmd Kernel E B) :
  quiets m → (∀ x, quiets (f x)) → quiets (cmd_bind m f).
Proof.
  intros Hm Hf k r k' E0. unfold cmd_bind in E0. destruct (m k) as [[[x|e] k1]|] eqn:Em; [|simplify_eq; by eapply Hm|done].
  etrans; [by eapply Hm|by eapply Hf].
Qed.

(** The state that was read is the current one. *)
Lemma quiets_get {E A} (f : Kernel → cmd Kernel E A) :
  (∀ k r k', f k k = Ret (r, k') → quiet k k') → quiets (cmd_bind get_state f).
Proof. intros Hf k r k' E0. by eapply Hf. Qed.

Lemma quiets_ret {E A} (x : A) : quiets (ret x : cmd Kernel E A).
Proof. intros k r k' [= _ <-]. done. Qed.

Lemma quiets_lift {E A} (o : outcome A) : quiets (lift_outcome o : cmd Kernel E A).
Proof. intros k r k' E0. unfold lift_outcome in E0. by destruct o; simplify_eq. Qed.

Lemma quiets_check cap t p e : quiets (Ipc.check_cap cap t p e).
Proof. intros k r k' E. unfold Ipc.check_cap in E. by destruct (validate _ _ _ _); simplify_eq. Qed.

(** ** The ipc operations are quiet *)
Lemma push_quiet k t q msg :
  k_mailboxes k !! t = Some q → (length q < Ipc.MAILBOX_CAPACITY)%nat →
  quiet k (set_mailboxes k (<[t := q ++ [msg]]> (k_mailboxes k))).
Proof.
  intros Hq Hl. apply quiet_mail.
  - intros u Hu. apply lookup_insert_is_Some'. by right.
  - intros Hm u q'. rewrite lookup_insert. case_decide; [intros [= <-]; rewrite length_app; simpl; lia|apply Hm].
Qed.

Lemma transfer_quiet sender recipient ct : quiets (Ipc.transfer sender recipient ct).
Proof.
  intros k r k' E. pose proof (Ipc.transfer_spec sender recipient ct k) as H. rewrite E in H. destruct r as [[]|e].
  - destruct H as (t & Ht & ->). apply quiet_caps. intros Hwf. by eapply Ipc.delegate_wf_kernel.
  - by destruct H as [-> _].
Qed.

Lemma send_quiet free sender recipient ty payload ct rt cap : quiets (Ipc.send free sender recipient ty payload ct rt cap).
Proof.
  intros k r k' E. rewrite Ipc.send_eq in E. destruct (validate _ _ _ _); [|by simplify_eq].
  destruct (Ipc.transfer sender recipient ct k) as [[[[]|e] k1]|] eqn:Et; [|simplify_eq; by eapply transfer_quiet|done].
  transitivity k1; [by eapply transfer_quiet|]. cbv zeta in E.
  transitivity (set_next_msg k1 (wrapping_add64 (k_next_msg k1) 1)); [by apply quiet_same|].
  destruct (k_mailboxes k1 !! recipient) as [mb|] eqn:Em; [|by simplify_eq]. case_decide; [by simplify_eq|].
  injection E as _ <-. etrans; [|apply quiet_unblock].
  apply (push_quiet (set_next_msg k1 (wrapping_add64 (k_next_msg k1) 1)) recipient mb); [done|lia].
Qed.

Lemma receive_quiet t k m k' : Ipc.receive t k = (m, k') → quiet k k'.
Proof.
  unfold Ipc.receive. destruct (k_mailboxes k !! t) as [mb|] eqn:Em; [|by intros [= _ <-]].
  destruct (Ipc.pop mb) as [m0 mb'] eqn:Ep. intros [= _ <-]. apply quiet_mail.
  - intros u Hu. apply lookup_insert_is_Some'. by right.
  - intros Hm u q. rewrite lookup_insert. case_decide; [intros [= <-]|apply Hm]. pose proof (Hm t mb Em).
    destruct mb as [|x mb]; simplify_eq/=; lia.
Qed.

Lemma deliver_quiet sender payload subs k : quiet k (set_mailboxes k (foldl (Ipc.deliver sender payload) (k_mailboxes k) subs)).
Proof.
  revert k. induction subs as [|u subs IH]; intros k; [by apply quiet_same|]. cbn [foldl].
  transitivity (set_mailboxes k (Ipc.deliver sender payload (k_mailboxes k) u)).
  - unfold Ipc.deliver. destruct (k_mailboxes k !! u) as [mb|] eqn:Em; [|by apply quiet_same].
    unfold Ipc.push. case_decide; [by apply quiet_same|]. apply push_quiet; [done|lia].
  - apply (IH (set_mailboxes k (Ipc.deliver sender payload (k_mailboxes k) u))).
Qed.

Lemma publish_quiet name sender payload cap : quiets (Ipc.publish name sender payload cap).
Proof.
  intros k r k' E. rewrite Ipc.publish_eq in E. destruct (validate _ _ _ _); [|by simplify_eq].
  destruct (k_channels k !! name); [|by simplify_eq]. injection E as _ <-. apply deliver_quiet.
Qed.

(** An update of the channels that keeps their invariant. *)
Lemma quiet_channels k ch :
  (Ipc.channels_wf k → Ipc.channels_wf (set_channels k ch)) → quiet k (set_channels k ch).
Proof. intros Hc. split; try done. apply frames_le_refl. Qed.

Lemma create_quiet name k id k' : Ipc.create name k = (id, k') → quiet k k'.
Proof.
  intros [= _ <-]. transitivity (set_next_channel k (wrapping_add64 (k_next_channel k) 1)); [by apply quiet_same|].
  apply quiet_channels. intros Hc.
  apply (Ipc.insert_channel_wf (set_next_channel k (wrapping_add64 (k_next_channel k) 1))); [done|constructor].
Qed.

Lemma subscribe_quiet name task cap : quiets (Ipc.subscribe name task cap).
Proof.
  apply quiets_bind; [apply quiets_check|]. intros _. apply quiets_get. intros k r k' E.
  pose proof (Ipc.subscribe_wf name task cap k) as Hwf. unfold cmd_bind, ok_or in E.
  destruct (k_channels k !! name) as [ch|] eqn:Ech; [|by simplify_eq].
  case_bool_decide as Hin; injection E as _ <-; [done|]. apply quiet_channels. intros Hc.
  apply Ipc.insert_channel_wf; [done|]. simpl. rewrite fmap_app. apply NoDup_app. split; [by eapply Hc|].
  split; [|apply NoDup_singleton]. intros x Hx ->%list_elem_of_singleton. done.
Qed.

Lemma unsubscribe_quiet name task : quiets (Ipc.unsubscribe name task).
Proof.
  intros k r k' E. pose proof E as E0. unfold Ipc.unsubscribe, cmd_bind, get_state, ok_or in E.
  destruct (k_channels k !! name) as [ch|] eqn:Ech; [|by simplify_eq]. injection E as _ <-.
  apply quiet_channels. intros Hc. by eapply Ipc.unsubscribe_wf.
Qed.

Lemma request_quiet free sender recipient payload cap timeout : quiets (Ipc.request free sender recipient payload cap timeout).
Proof.
  apply quiets_bind; [apply quiets_check|]. intros _. apply quiets_bind; [apply send_quiet|]. intros id.
  apply quiets_get. intros k r k' E. unfold cmd_bind, lift_outcome in E. destruct (checked_add64 _ _); [|done].
  injection E as _ <-. by apply quiet_same.
Qed.

Lemma reply_quiet free sender id payload cap : quiets (Ipc.reply free sender id payload cap).
Proof.
  apply quiets_get. intros k r k' E. unfold cmd_bind, ok_or in E. destruct (k_pending k !! id); [|by simplify_eq].
  injection E as _ <-. etrans; [|apply quiet_unblock]. by apply quiet_same.
Qed.

Lemma collect_quiet id k m k' : Ipc.collect_reply id k = (m, k') → quiet k k'.
Proof. intros [= _ <-]. by apply quiet_same. Qed.

Lemma timeouts_quiet pf free k : quiet k (Ipc.check_timeouts pf free k).
Proof.
  destruct pf; [|done]. unfold Ipc.check_timeouts. set (l := (filter _ _).*1). clearbody l. revert k.
  induction l as [|id l IH]; intros k; [done|]. cbn [foldl]. etrans; [|apply IH].
  destruct (k_pending k !! id); [|done]. etrans; [|apply quiet_unblock]. by apply quiet_same.
Qed.

(** ** Shared memory *)
Lemma quiets_ok_or {E A} (o : option A) (e : E) : quiets (ok_or o e).
Proof. intros k r k' E0. unfold ok_or in E0. by destruct o; simplify_eq. Qed.

(** An allocation whose result is stored. *)
Lemma quiets_allocate {E A} k a (f : option Z → cmd Kernel E A) r k' :
  k_frames k = Some a → (∀ x, quiets (f x)) →
  cmd_bind (lift_outcome (allocate_frame a)) (λ x, match x with (o, a') => cmd_bind (put_state (set_frames k (Some a'))) (λ _, f o) end) k
    = Ret (r, k') → quiet k k'.
Proof.
  intros Ha Hf E0. unfold cmd_bind, lift_outcome in E0. destruct (allocate_frame a) as [[o a']|] eqn:Ea; [|done].
  cbn [put_state] in E0. transitivity (set_frames k (Some a')); [|by eapply Hf].
  apply (quiet_frames k a a' Ha). intros Hwf. by eapply allocate_fewer.
Qed.

Lemma alloc_more_quiet n : quiets (Ipc.alloc_more n).
Proof.
  induction n as [|n IH]; [apply quiets_ret|]. cbn [Ipc.alloc_more]. apply quiets_get. intros k r k' E.
  destruct (k_frames k) as [a|] eqn:Ha; [|by unfold throw in E; simplify_eq].
  eapply quiets_allocate; [exact Ha| |exact E]. intros o. apply quiets_bind; [apply quiets_ok_or|done].
Qed.

Lemma create_root_quiet k owner res perms id t :
  create_root (k_caps k) owner res perms = Ret (id, t) → quiet k (set_caps k t).
Proof. intros E. apply quiet_caps. intros Hwf. by eapply create_root_wf. Qed.

Lemma create_region_quiet owner size : quiets (Ipc.create_region owner size).
Proof.
  apply quiets_bind; [apply quiets_lift|]. intros up. apply quiets_get. intros k r k' E.
  unfold cmd_bind at 1, ok_or at 1 in E. destruct (k_frames k) as [a|] eqn:Ha; [|by simplify_eq].
  eapply quiets_allocate; [exact Ha| |exact E]. intros o. apply quiets_bind; [apply quiets_ok_or|]. intros base.
  apply quiets_bind; [apply alloc_more_quiet|]. intros _. apply quiets_get. clear k r k' E Ha. intros k r k' E.
  unfold cmd_bind, lift_outcome in E. destruct (checked_mul64 _ _); [|done].
  destruct (create_root (k_caps k) _ _ _) as [[id t]|] eqn:Ec; [|done]. injection E as _ <-.
  transitivity (set_caps k t); [by eapply create_root_quiet|]. by apply quiet_same.
Qed.

Lemma grant_access_quiet region granter grantee cap : quiets (Ipc.grant_access region granter grantee cap).
Proof.
  apply quiets_bind; [apply quiets_check|]. intros _. apply quiets_get. intros k r k' E.
  unfold cmd_bind, ok_or, lift_outcome in E. destruct (k_regions k !! region); [|by simplify_eq].
  destruct (create_root (k_caps k) _ _ _) as [[id t]|] eqn:Ec; [|done]. injection E as _ <-.
  transitivity (set_caps k t); [by eapply create_root_quiet|]. by apply quiet_same.
Qed.

(** ** The timer interrupt *)
Lemma check_loop_quiet fuel free now h k n : quiet k (Timer.check_loop fuel free now h k n).2.
Proof.
  revert h k n. induction fuel as [|fuel IH]; intros h k n; [done|]. cbn [Timer.check_loop].
  destruct (peek h) as [e|]; [|done]. case_decide; [done|]. destruct (pop Timer.deadline_le h) as [[e'|] h']; [|done].
  etrans; [apply quiet_unblock|apply IH].
Qed.

Lemma timer_quiet {N} (poll : N → N) locks n q m :
  heap Timer.deadline_le (Timer.q_heap q) →
  let '(_, q', m') := Timer.timer_handler poll locks n q m in
  quiet (m_k m) (m_k m') ∧ heap Timer.deadline_le (Timer.q_heap q').
Proof.
  intros Hh. unfold Timer.timer_handler. set (k := set_ticks (m_k m) _).
  set (k1 := if decide _ then _ else k). assert (Hk1 : quiet (m_k m) k1).
  { transitivity k; [by apply quiet_same|]. unfold k1. case_decide; [apply timeouts_quiet|done]. }
  clearbody k1. unfold Timer.tick. destruct (Timer.deadlines_free locks); [|done].
  pose proof (Timer.check_expired_spec (Timer.sched_free locks) (k_ticks k) q k1 Hh) as (es & q' & E & _ & _ & Hh' & _).
  pose proof (check_loop_quiet (length (Timer.q_heap q)) (Timer.sched_free locks) (k_ticks k) (Timer.q_heap q) k1 0) as Hq.
  unfold Timer.check_expired in *. destruct (Timer.check_loop _ _ _ _ _ _) as [[n0 h0] k0]. simplify_eq/=.
  split; [by etrans|done].
Qed.

(** ** The invariant of the statics and the page tables *)
Section kernel.
Context {PT : Type} `{!Mapper PT, !MapperLaws PT}.
Implicit Types (k : Kernel) (pt : PT).

Record kern_wf k pt : Prop := {
  kw_sys : sys_wf (k_sys k);
  kw_caps : table_wf (k_caps k);
  kw_mail : mail_ok k;
  kw_boxes : ∀ id, id ∈ all_ids (k_sched k) → is_Some (k_mailboxes k !! id);
  kw_chan : Ipc.channels_wf k;
  kw_memory : memory_ok (cores (k_sched k)) (ids_next (k_ids k)) (k_frames k) pt;
}.

Lemma moved_wf s s' ctxs ids :
  moved s s' → sys_wf (s, ctxs, ids) → sys_wf (s', ctxs, ids) ∧ cores s' ≡ₚ cores s.
Proof.
  intros Hm. induction Hm as [s|s s1 s2 [id ->] _ IH]; intros Hwf; [done|].
  assert (Hwf1 : sys_wf ((unblock s id).2, ctxs, ids)) by (eapply sys_step_wf; [exact Hwf|apply step_unblock]).
  destruct (IH Hwf1) as [? Hc]. split; [done|]. rewrite Hc. apply unblock_cores, Hwf.
Qed.

Lemma kern_wf_quiet k k' pt : quiet k k' → kern_wf k pt → kern_wf k' pt.
Proof.
  intros [Hs Hi Hc Hf Hb Ht Hm Hch] [Hsys Hcaps Hmail Hboxes Hchan Hmem]. unfold k_sys in *.
  destruct (moved_wf _ _ _ _ Hs Hsys) as [Hsys' Hcores]. split; [by unfold k_sys; rewrite Hc, Hi|auto|auto| |auto|].
  - intros id. rewrite <- cores_ids, Hcores, cores_ids. intros Hin. auto.
  - rewrite Hcores, Hi. destruct (mo_frames _ _ _ _ Hmem) as (a & Ha & Hwf & _).
    destruct (Hf a Ha Hwf) as (a' & -> & Hfew). rewrite Ha in Hmem. by eapply memory_ok_fewer.
Qed.

(** Marking the current task. *)
Lemma kern_wf_mark k pt st :
  st ≠ Ready → kern_wf k pt →
  kern_wf (set_sched k {| queues := queues (k_sched k); current := (λ t, set_state t st) <$> current (k_sched k);
                          blocked := blocked (k_sched k) |}) pt.
Proof.
  intros Hst [(Hsched & Hids & Huse & Hlen) Hcaps Hmail Hboxes Hchan Hmem].
  destruct (mark_current_wf (k_sched k) st Hsched Hst) as [Hs Hall].
  split; [|done|done| |done|]; simpl.
  - split; [done|]. split; [done|]. split; [by rewrite Hall|done].
  - by rewrite Hall.
  - by rewrite mark_cores.
Qed.

Lemma current_id_range s : sched_wf s → 0 ≤ current_id s < 256.
Proof.
  intros Hwf. unfold current_id. destruct (current s) as [c|] eqn:Ec; [|lia].
  pose proof (wf_ids _ Hwf) as Hids. rewrite Forall_forall in Hids. unfold MAX_TASKS in Hids.
  assert (t_id c ∈ all_ids s); [|by apply Hids in H; lia].
  unfold all_ids, all_tasks. rewrite Ec, !fmap_app. set_solver.
Qed.

(** What a cleanup or a reschedule leaves alone. *)
Record undisturbed k k' : Prop := {
  un_next : ids_next (k_ids k') = ids_next (k_ids k);
  un_caps : k_caps k' = k_caps k;
  un_channels : k_channels k' = k_channels k;
  un_ticks : k_ticks k' = k_ticks k;
  un_regions : k_regions k' = k_regions k;
}.

Definition dead_ids (s : Scheduler) : list Z := t_id <$> option_list (dead_current s).

(** Cleaning up never panics: the stack of a dead task can be given back. *)
Lemma reap_ok k cs pt :
  memory_ok ((core <$> option_list (dead_current (k_sched k))) ++ cs) (ids_next (k_ids k)) (k_frames k) pt →
  ∃ k1, reap cleanup_dead_task (k_sched k) k = Ret k1 ∧ undisturbed k k1 ∧
    memory_ok cs (ids_next (k_ids k1)) (k_frames k1) pt ∧
    ∀ t, (t ∈ dead_ids (k_sched k) → k_mailboxes k1 !! t = None) ∧
         (t ∉ dead_ids (k_sched k) → k_mailboxes k1 !! t = k_mailboxes k !! t).
Proof.
  intros Hmem. unfold reap, dead_ids, dead_current in *.
  destruct (current (k_sched k)) as [c|] eqn:Ec; simpl in *; [|exists k; split; [done|]; split; [done|]; split; [done|set_solver]].
  case_decide as Hd.
  - rewrite Hd. simpl in Hmem. destruct (mo_frames _ _ _ _ Hmem) as (a & Ha & _). rewrite Ha in Hmem.
    destruct (memory_ok_drop _ _ _ _ _ Hmem) as (a' & Ef & Hmem'). unfold cleanup_dead_task. rewrite Ha. simpl in Ef.
    rewrite Ef. cbn [outcome_bind]. eexists. split; [reflexivity|]. split; [done|]. split; [exact Hmem'|].
    intros t. simpl. rewrite lookup_delete. case_decide; set_solver.
  - exists k. destruct (t_state c); [..|done]; (split; [done|]; split; [done|]; split; [done|set_solver]).
Qed.

Lemma k_reschedule_ok k pt :
  kern_wf k pt → ∃ ids k', k_reschedule k = Ret (ids, k') ∧ kern_wf k' pt ∧ undisturbed k k' ∧
    ∀ t, k_mailboxes k' !! t = k_mailboxes k !! t ∨ k_mailboxes k' !! t = None.
Proof.
  intros [Hsys Hcaps Hmail Hboxes Hchan Hmem]. pose proof Hsys as (Hsched & _).
  destruct (reschedule_spec cleanup_dead_task (k_sched k) k Hsched) as (s' & Hs' & Habs & Hrun & Heq).
  pose proof (reschedule_cores _ _ Hsched Habs) as Hcores. rewrite Hcores in Hmem.
  assert (Hall : all_ids (k_sched k) ≡ₚ dead_ids (k_sched k) ++ all_ids s').
  { rewrite <- !cores_ids, Hcores, fmap_app, <- list_fmap_compose. done. }
  destruct (reap_ok k (cores s') pt Hmem) as (k1 & Ek & [Hnx Hc1 Hch1 Ht1 Hr1] & Hmem' & Hmb).
  assert (Er : k_reschedule k = Ret ((current_id (k_sched k), current_id s'), set_sched k1 s'))
    by (unfold k_reschedule; rewrite Heq, Ek; done).
  eexists _, _. split; [exact Er|]. destruct (k_reschedule_sys _ _ _ Hsys Er) as (Hsys' & _).
  assert (Hbox : ∀ t, k_mailboxes k1 !! t = k_mailboxes k !! t ∨ k_mailboxes k1 !! t = None).
  { intros t. destruct (Hmb t) as [H1 H2]. destruct (decide (t ∈ dead_ids (k_sched k))); auto. }
  split; [|split; [done|exact Hbox]]. split; simpl; rewrite ?Hc1; try done.
  - intros t q Hq. destruct (Hbox t) as [E|E]; simpl in Hq; rewrite E in Hq; [by eapply Hmail|done].
  - intros id Hid. destruct (Hmb id) as [_ ->]; [apply Hboxes; rewrite Hall; set_solver|].
    intros Hdead. pose proof (wf_nodup _ Hsched) as Hnd. rewrite Hall in Hnd. apply NoDup_app in Hnd as (_ & Hdisj & _).
    by apply (Hdisj id).
  - unfold Ipc.channels_wf. simpl. by rewrite Hch1.
Qed.

(** Storing a context keeps the invariant. *)
Lemma kern_wf_context k pt i c : kern_wf k pt → kern_wf (set_contexts k (<[i := c]> (k_contexts k))) pt.
Proof.
  intros [(? & ? & ? & Hlen) Hcaps Hmail Hboxes Hchan Hmem]. split; try done.
  split; [done|]. split; [done|]. split; [done|]. simpl. by rewrite length_insert.
Qed.

Section yield.
Context (RESUME TRAMPOLINE : Z).

(** yield_now never panics; it stays with the caller exactly when nobody else can run. *)
Lemma yield_now_ok m pt :
  kern_wf (m_k m) pt → ∃ b m', yield_now RESUME TRAMPOLINE m = Ret (b, m') ∧ kern_wf (m_k m') pt ∧
    undisturbed (m_k m) (m_k m') ∧
    (∀ t, k_mailboxes (m_k m') !! t = k_mailboxes (m_k m) !! t ∨ k_mailboxes (m_k m') !! t = None) ∧
    (b = false ↔ running m = running m' ∨ running m' = 0) ∧
    abstract (k_sched (m_k m')) = abs_reschedule (abstract (k_sched (m_k m))).
Proof.
  intros Hwf. destruct (k_reschedule_ok _ _ Hwf) as (ids & k & Er & Hk & Hun & Hmb).
  destruct (k_reschedule_sys _ _ _ (kw_sys _ _ Hwf) Er) as (_ & Hctx & -> & Habs).
  unfold yield_now. rewrite Er. cbn [outcome_bind]. set (old := current_id (k_sched (m_k m))). set (new := current_id (k_sched k)).
  pose proof (kw_sys _ _ Hwf) as (Hsched & _ & _ & Hlen0). pose proof (kw_sys _ _ Hk) as (Hsched' & _ & _ & Hlen).
  assert (Hold : 0 ≤ old < 256) by apply (current_id_range _ Hsched).
  assert (Hnew : 0 ≤ new < 256) by apply (current_id_range _ Hsched').
  destruct (Z.eqb_spec old new) as [E|E]; cbn [negb andb].
  { eexists false, _. split; [reflexivity|]. do 3 (split; [done|]). split; [split; [by left|done]|done]. }
  destruct (Z.eqb_spec new 0) as [E0|E0]; cbn [negb andb].
  { eexists false, _. split; [reflexivity|]. do 3 (split; [done|]). split; [split; [by right|done]|done]. }
  set (p := if old =? 0 then Ret (save_context RESUME (m_cpu m), k)
            else if decide (old < 256) then Ret (m_idle m, set_contexts k (<[Z.to_nat old := save_context RESUME (m_cpu m)]> (k_contexts k)))
                 else Panic).
  assert (Hp : ∃ c k2, p = Ret (c, k2) ∧ kern_wf k2 pt ∧ k_sched k2 = k_sched k ∧ undisturbed k k2 ∧ k_mailboxes k2 = k_mailboxes k).
  { unfold p. destruct (old =? 0); [by eexists _, k|]. rewrite decide_True by lia. eexists _, _. split; [reflexivity|].
    split; [by apply kern_wf_context|done]. }
  destruct Hp as (c & k2 & -> & Hk2 & Hs2 & Hun2 & Hm2). cbn [outcome_bind fst snd].
  destruct (lookup_lt_is_Some_2 (k_contexts k2) (Z.to_nat new)) as [ctx ->].
  { destruct (kw_sys _ _ Hk2) as (_ & _ & _ & ->). lia. }
  eexists true, _. split; [reflexivity|]. cbn [m_k]. split; [done|]. split; [by destruct Hun, Hun2; split; etrans|].
  split; [intros t; rewrite Hm2; apply Hmb|]. unfold running. cbn [m_k]. rewrite Hs2. split; [|done].
  split; [done|]. fold old new. naive_solver.
Qed.

Lemma block_and_yield_ok m pt :
  kern_wf (m_k m) pt → ∃ b m', block_and_yield RESUME TRAMPOLINE m = Ret (b, m') ∧ kern_wf (m_k m') pt ∧
    undisturbed (m_k m) (m_k m') ∧
    (∀ t, k_mailboxes (m_k m') !! t = k_mailboxes (m_k m) !! t ∨ k_mailboxes (m_k m') !! t = None).
Proof.
  intros Hwf. destruct (yield_now_ok (with_k m (set_sched (m_k m) (block_current (k_sched (m_k m))))) pt)
    as (b & m' & E & Hk & Hun & Hmb & _); [by apply kern_wf_mark|].
  exists b, m'. split; [done|]. split; [done|]. split; [by destruct Hun; split|done].
Qed.

(** exit_current returns into another task, or panics when there is none. *)
Lemma exit_current_ok m pt :
  kern_wf (m_k m) pt →
  if decide (ready (k_sched (m_k m)) = []) then exit_current RESUME TRAMPOLINE m = Panic
  else ∃ m', exit_current RESUME TRAMPOLINE m = Ret m' ∧ kern_wf (m_k m') pt ∧ undisturbed (m_k m) (m_k m') ∧
    ∀ t, k_mailboxes (m_k m') !! t = k_mailboxes (m_k m) !! t ∨ k_mailboxes (m_k m') !! t = None.
Proof.
  intros Hwf. unfold exit_current. set (m1 := with_k m (set_sched (m_k m) (kill_current (k_sched (m_k m))))).
  assert (Hwf1 : kern_wf (m_k m1) pt) by by apply kern_wf_mark.
  destruct (yield_now_ok m1 pt Hwf1) as (b & m' & -> & Hk & Hun & Hmb & Hb & Habs). cbn [outcome_bind fst snd].
  assert (Hrun : abstract (k_sched (m_k m')) = run_head (ready (k_sched (m_k m))) (blocked (k_sched (m_k m)))).
  { rewrite Habs. unfold m1, abstract, abs_reschedule, ready. simpl. by destruct (current (k_sched (m_k m))). }
  case_decide as Hr.
  - rewrite Hr in Hrun. injection Hrun as _ Hc _. rewrite (proj2 Hb); [done|]. right.
    unfold running, current_id. by rewrite Hc.
  - destruct b; [exists m'; split; [done|]; split; [done|]; split; [by destruct Hun; split|done]|]. exfalso.
    destruct (ready (k_sched (m_k m))) as [|t l] eqn:El; [done|]. injection Hrun as _ Hc _.
    pose proof (kw_sys _ _ Hwf1) as (Hs1 & _). pose proof (sched_wf_others _ Hs1) as Ho.
    assert (Hin : t ∈ ready (k_sched (m_k m1))) by (unfold m1, ready in *; simpl; rewrite El; by left).
    rewrite Forall_forall in Ho. specialize (Ho t Hin).
    assert (1 ≤ t_id t).
    { pose proof (wf_ids _ Hs1) as Hids. rewrite Forall_forall in Hids. apply Hids. unfold all_ids, all_tasks.
      rewrite fmap_app. apply elem_of_app. left. by apply list_elem_of_fmap_2. }
    assert (running m' = t_id t) as Er by (unfold running, current_id; by rewrite Hc).
    rewrite Er in Hb. destruct (proj1 Hb eq_refl) as [E|E]; [by apply Ho|lia].
Qed.
End yield.

(** ** Spawning *)
Lemma spawn_ok parent config entry tramp k reg pt k' reg' pt' res :
  kern_wf k pt → Agents.spawn parent config entry tramp (Agents.mkWorld k reg pt) = Ret (res, Agents.mkWorld k' reg' pt') →
  kern_wf k' pt' ∧
  match res with
  | Err _ => k' = k ∧ reg' = reg ∧ pt' = pt
  | Ok id => id = ids_next (k_ids k) ∧ ids_next (k_ids k') = id + 1 ∧ reg' = Agents.enroll reg id config parent
  end.
Proof.
  intros Hwf H. pose proof (Agents.spawn_effect _ _ _ _ _ _ _ (kw_sys _ _ Hwf : sys_wf (Agents.w_sys (Agents.mkWorld k reg pt))) H) as Heff.
  destruct res as [id|e]; [|destruct Heff as [[= -> -> ->] _]; done].
  destruct Heff as (_ & Hsys & _ & _ & Hmb & Hreg & _). simpl in Hsys, Hmb, Hreg.
  unfold Agents.spawn, cmd_bind, get_state in H. destruct (Agents.at_limit _ parent); [done|]. unfold lift_outcome in H. cbn [Agents.w_k Agents.w_pt Agents.w_reg] in H.
  destruct (task_new _ _ _ _ _) as [[t env]|] eqn:Et; [|done].
  destruct (Sched.spawn _ _ t) as [[s ctxs]|] eqn:Es; [|done]. injection H as <- <- <- <-. simpl in Hsys, Hmb, Es |- *.
  assert (Hlt : t_id t < 256).
  { unfold Sched.spawn in Es. destruct (Z.ltb_spec (t_id t) MAX_TASKS); [done|]. done. }
  destruct (task_new_memory _ _ _ _ (mkEnv (k_ids k) (k_frames k) pt) env t (cores (k_sched k)) (proj1 (proj2 (kw_sys _ _ Hwf))) (kw_memory _ _ Hwf) Et Hlt)
    as (Hid & Hnext & Hmem). simpl in Hid, Hnext.
  destruct (task_new_inv _ _ _ _ _ _ _ Et) as (ids' & bottom & Hal & _ & _ & _ & _ & Hst & _). simpl in Hal.
  pose proof (kw_sys _ _ Hwf) as (Hs & Hidwf & Huse & _).
  destruct (ids_alloc_spec _ _ _ Hidwf Hal) as (_ & Hfresh & Hin).
  assert (t_id t ∉ all_ids (k_sched k)) as Hnew by (intros Hx; rewrite Forall_forall in Huse; by apply Hfresh, Huse).
  destruct (spawn_spec _ _ _ _ _ Hs Es Hst (allocated_pos _ _ _ Hidwf Hal) Hnew) as (_ & Habs & Hall & _).
  split; [|split; [done|split; [lia|done]]]. split; simpl; [done|apply Hwf| | |apply Hwf|].
  - intros u q. simpl. rewrite lookup_insert. case_decide; [intros [= <-]; simpl; lia|apply (kw_mail _ _ Hwf)].
  - intros u. rewrite Hall. intros Hu. apply lookup_insert_is_Some'. apply elem_of_cons in Hu as [->|Hu]; [by left|].
    right. by apply (kw_boxes _ _ Hwf).
  - by rewrite (spawn_cores _ _ _ Habs).
Qed.
End kernel.

(** ** System calls *)
Section syscalls.
Context {PT : Type} `{!Mapper PT, !MapperLaws PT} (RESUME TRAMPOLINE : Z).

Record sys_ok (s : System) (pt : PT) : Prop := {
  so_kern : kern_wf (m_k (s_m s)) pt;
  so_tree : Agents.tree_wf (s_reg s);
  so_agents : ∀ id, is_Some (Agents.agents (s_reg s) !! id) → 1 ≤ id < ids_next (k_ids (m_k (s_m s)));
  so_store : Ctx.store_wf (s_store s);
  so_timers : heap Timer.deadline_le (Timer.q_heap (s_timers s));
}.

(** A message that nobody without a live WRITE capability can have sent. *)
Definition authorised (t : CapabilityTable) (msg : Message) : Prop :=
  ∃ cap c, validate t cap (m_sender msg) Perm.WRITE = Ok c.

(** What user programs can change: no authority is created, channels and shared regions stay, the
    registry only loses agents, the console only grows, and every new message is authorised. *)
Record confined (s s' : System) : Prop := {
  cf_caps : k_caps (m_k (s_m s')) = k_caps (m_k (s_m s));
  cf_channels : k_channels (m_k (s_m s')) = k_channels (m_k (s_m s));
  cf_regions : k_regions (m_k (s_m s')) = k_regions (m_k (s_m s));
  cf_next : ids_next (k_ids (m_k (s_m s'))) = ids_next (k_ids (m_k (s_m s)));
  cf_agents : Agents.shrinks (s_reg s) (s_reg s');
  cf_console : s_console s `prefix_of` s_console s';
  cf_mail : ∀ t q' msg, k_mailboxes (m_k (s_m s')) !! t = Some q' → msg ∈ q' →
    (∃ q, k_mailboxes (m_k (s_m s)) !! t = Some q ∧ msg ∈ q) ∨ authorised (k_caps (m_k (s_m s))) msg;
}.

Lemma shrinks_refl reg : Agents.shrinks reg reg.
Proof. intros x a Ha. by exists a. Qed.

Lemma shrinks_trans r1 r2 r3 : Agents.shrinks r1 r2 → Agents.shrinks r2 r3 → Agents.shrinks r1 r3.
Proof.
  intros H12 H23 x a Ha. destruct (H23 x a Ha) as (b & Hb & Hp & [Hc Hi] & Hs). destruct (H12 x b Hb) as (d & Hd & Hp' & [Hc' Hi'] & Hs').
  exists d. split; [done|]. split; [by etrans|]. split; [split; by etrans|by etrans].
Qed.

Lemma mail_kept (mb : gmap Z (list Message)) table t q msg :
  mb !! t = Some q → msg ∈ q → (∃ q0, mb !! t = Some q0 ∧ msg ∈ q0) ∨ authorised table msg.
Proof. intros Hq Hin. left. by exists q. Qed.
#[local] Hint Resolve shrinks_refl mail_kept : oxide.

#[global] Instance confined_preorder : PreOrder confined.
Proof.
  split.
  - intros s. split; eauto with oxide.
  - intros s1 s2 s3 [Hc Hch Hr Hn Ha Ho Hm] [Hc' Hch' Hr' Hn' Ha' Ho' Hm'].
    split; [by etrans..|by eapply shrinks_trans|by etrans|]. intros t q msg Hq Hin.
    destruct (Hm' t q msg Hq Hin) as [(q2 & Hq2 & Hin2)|Hau]; [by eapply Hm|right; by rewrite Hc in Hau].
Qed.

(** The scheduler ran: mailboxes are as they were or gone. *)
Lemma confined_machine s m' :
  undisturbed (m_k (s_m s)) (m_k m') →
  (∀ t, k_mailboxes (m_k m') !! t = k_mailboxes (m_k (s_m s)) !! t ∨ k_mailboxes (m_k m') !! t = None) →
  confined s (set_m s m').
Proof.
  intros [Hn Hc Hch _ Hr] Hmb. split; try done; [apply shrinks_refl|]. simpl. intros t q msg Hq Hin. left.
  destruct (Hmb t) as [E|E]; rewrite E in Hq; [by exists q|done].
Qed.

Lemma sys_ok_machine s m' pt :
  sys_ok s pt → kern_wf (m_k m') pt → ids_next (k_ids (m_k m')) = ids_next (k_ids (m_k (s_m s))) → sys_ok (set_m s m') pt.
Proof. intros [Hk Ht Ha Hst Hti] Hk' Hn. split; try done. simpl. by rewrite Hn. Qed.

Section calls.
Context (env : Surroundings) (fuel : nat) (pt : PT) (s : System) (Hok : sys_ok s pt).

Definition fine (r : ending * System) : Prop := sys_ok r.2 pt ∧ confined s r.2.

Lemma sys_exit_fine :
  if decide (ready (k_sched (m_k (s_m s))) = []) then sys_exit RESUME TRAMPOLINE s = Panic
  else ∃ r, sys_exit RESUME TRAMPOLINE s = Ret r ∧ fine r.
Proof.
  pose proof (exit_current_ok RESUME TRAMPOLINE (s_m s) pt (so_kern _ _ Hok)) as H. unfold sys_exit.
  case_decide; [by rewrite H|]. destruct H as (m' & -> & Hk & Hun & Hmb). eexists. split; [reflexivity|].
  split; [by apply sys_ok_machine, Hun|by apply confined_machine].
Qed.

Lemma finish_fine v b m' :
  kern_wf (m_k m') pt → undisturbed (m_k (s_m s)) (m_k m') →
  (∀ t, k_mailboxes (m_k m') !! t = k_mailboxes (m_k (s_m s)) !! t ∨ k_mailboxes (m_k m') !! t = None) →
  fine (finish v s (b, m')).
Proof. intros Hk Hun Hmb. split; [by apply sys_ok_machine, Hun|by apply confined_machine]. Qed.

(** What a call asks the heap for, when it comes that far. *)
Definition payload_ok (ptr len : Z) : Prop := ptr ≠ 0 ∧ len ≤ 65536.

Definition delivers (sender recipient ptr len cap : Z) : Prop :=
  payload_ok ptr len ∧ is_Some (user_slice env ptr len) ∧
  (∃ c, validate (k_caps (m_k (s_m s))) cap sender Perm.WRITE = Ok c) ∧
  ∃ q, k_mailboxes (m_k (s_m s)) !! recipient = Some q ∧ (length q < Ipc.MAILBOX_CAPACITY)%nat.

(** The arguments of storage_set pass its checks, and so do the bytes of the key. *)
Definition storage_args (kp kl vp vl : Z) : Prop := kp ≠ 0 ∧ vp ≠ 0 ∧ kl ≤ 256 ∧ vl ≤ 65536.
Definition key_ok (kp kl : Z) : Prop := ∃ key, user_str env kp kl = Some (Some key).

Definition asks (number arg1 arg2 arg3 arg4 arg5 : Z) (r : HeapRequest) : Prop :=
  match r with
  | Requeue => (number = SYS_YIELD ∨ number = SYS_TIMER_SLEEP) ∧ is_Some (current (k_sched (m_k (s_m s))))
  | Deadline => number = SYS_TIMER_SLEEP ∧ is_Some (current (k_sched (m_k (s_m s))))
  | Children => number = SYS_AGENT_KILL ∧ is_Some (Agents.get (s_reg s) arg1)
  | Payload => number = SYS_IPC_SEND ∧ payload_ok arg3 arg4
  | Slot => number = SYS_IPC_SEND ∧ delivers arg1 arg2 arg3 arg4 arg5
  | Wake => number = SYS_IPC_SEND ∧ delivers arg1 arg2 arg3 arg4 arg5 ∧ sched_free env = true ∧
            arg2 ∈ Timer.blocked_ids (m_k (s_m s))
  | Value => number = SYS_STORAGE_SET ∧ storage_args arg2 arg3 arg4 arg5 ∧ key_ok arg2 arg3
  | File => number = SYS_STORAGE_SET ∧ storage_args arg2 arg3 arg4 arg5 ∧ key_ok arg2 arg3 ∧ is_Some (user_slice env arg4 arg5)
  | Lookup => number = SYS_STORAGE_GET ∧ arg2 ≠ 0 ∧ arg3 ≤ 256 ∧ key_ok arg2 arg3
  end.

Definition refused (number arg1 arg2 arg3 arg4 arg5 : Z) : Prop :=
  ∃ r, serves env r = false ∧ asks number arg1 arg2 arg3 arg4 arg5 r.

(** The counters of the file system would overflow. *)
Definition store_full (data : list Z) (fs : Fs.OxideFs) : Prop :=
  Fs.find_blob fs data = None ∧ (U64_MAX ≤ Fs.fs_next fs ∨ U64_MAX < Fs.fs_total fs + Z.of_nat (length data)).

Lemma write_file_panics path data tick fs : Fs.write_file path data tick fs = Panic ↔ store_full data fs.
Proof.
  unfold Fs.write_file, store_full, checked_add64. destruct (Fs.find_blob fs data); [split; [done|by intros [? _]]|].
  case_decide; cbn [outcome_bind]; [|split; [|done]; intros _; split; [done|left; lia]].
  case_decide; cbn [outcome_bind]; [|split; [|done]; intros _; split; [done|right; lia]]. split; [done|]. intros [_ [?|?]]; lia.
Qed.

(** The system calls that panic the kernel: the last runnable task exits, a sleep beyond the end of
    the clock, a write that overflows a counter of the file system, or the heap refuses a request. *)
Definition call_panics (number arg1 arg2 arg3 arg4 arg5 : Z) : Prop :=
  (number = SYS_EXIT ∧ ready (k_sched (m_k (s_m s))) = []) ∨
  (number = SYS_TIMER_SLEEP ∧ U64_MAX < k_ticks (m_k (s_m s)) + arg1) ∨
  (number = SYS_STORAGE_SET ∧ storage_args arg2 arg3 arg4 arg5 ∧ key_ok arg2 arg3 ∧
     ∃ value, user_slice env arg4 arg5 = Some value ∧ store_full value (Ctx.cs_fs (s_store s))) ∨
  refused number arg1 arg2 arg3 arg4 arg5.

(** The system calls that never come back because they read an address that cannot be read. *)
Definition call_hangs (number arg1 arg2 arg3 arg4 arg5 : Z) : Prop :=
  (number = SYS_PRINT ∧ arg1 ≠ 0 ∧ arg2 ≤ 4096 ∧ user_str env arg1 arg2 = None) ∨
  (number = SYS_IPC_SEND ∧ payload_ok arg3 arg4 ∧ serves env Payload = true ∧ user_slice env arg3 arg4 = None) ∨
  (number = SYS_STORAGE_SET ∧ storage_args arg2 arg3 arg4 arg5 ∧
     (user_str env arg2 arg3 = None ∨ key_ok arg2 arg3 ∧ serves env Value = true ∧ user_slice env arg4 arg5 = None)) ∨
  (number = SYS_STORAGE_GET ∧ arg2 ≠ 0 ∧ arg3 ≤ 256 ∧ user_str env arg2 arg3 = None).

(** How a call ends, on every path. *)
Definition settles (o : outcome (ending * System)) (number arg1 arg2 arg3 arg4 arg5 : Z) : Prop :=
  match o with
  | Panic => call_panics number arg1 arg2 arg3 arg4 arg5
  | Ret r => fine r ∧ ¬ call_panics number arg1 arg2 arg3 arg4 arg5 ∧
             (r.1 = Hangs ↔ call_hangs number arg1 arg2 arg3 arg4 arg5)
  end.

Ltac no_panic :=
  unfold call_panics, refused, not; intros [[? ?]|[[? ?]|[(? & ? & ? & ? & ? & ?)|([] & ? & ?)]]];
  unfold asks, delivers, payload_ok, storage_args, key_ok, is_Some in *; destruct_and?; destruct_or?; first [done|congruence|lia|naive_solver|intuition congruence].
Ltac no_hang := unfold call_hangs, payload_ok, storage_args, key_ok in *; naive_solver.
Ltac starve r := right; right; right; exists r; split; [done|]; unfold asks; eauto 10.

Lemma settles_ret r number a1 a2 a3 a4 a5 :
  fine r → ¬ call_panics number a1 a2 a3 a4 a5 → (r.1 = Hangs ↔ call_hangs number a1 a2 a3 a4 a5) → settles (Ret r) number a1 a2 a3 a4 a5.
Proof. done. Qed.

Lemma sys_exit_settles a1 a2 a3 a4 a5 : settles (sys_exit RESUME TRAMPOLINE s) SYS_EXIT a1 a2 a3 a4 a5.
Proof.
  pose proof sys_exit_fine as H. case_decide; [rewrite H; by left|]. destruct H as ([r s'] & E & Hf). rewrite E.
  apply settles_ret; [done|no_panic|]. unfold sys_exit in E. destruct (exit_current _ _ _); simplify_eq/=. no_hang.
Qed.

Lemma sys_yield_settles a1 a2 a3 a4 a5 : settles (sys_yield RESUME TRAMPOLINE env s) SYS_YIELD a1 a2 a3 a4 a5.
Proof.
  destruct (yield_now_ok RESUME TRAMPOLINE (s_m s) pt (so_kern _ _ Hok)) as (b & m' & E & Hk & Hun & Hmb & _).
  assert (Hend : ¬ call_panics SYS_YIELD a1 a2 a3 a4 a5 → settles (let? r := yield_now RESUME TRAMPOLINE (s_m s) in Ret (finish 0 s r)) SYS_YIELD a1 a2 a3 a4 a5).
  { intros Hp. rewrite E. apply settles_ret; [by apply finish_fine|done|]. destruct b; no_hang. }
  unfold sys_yield, requeue, ask. destruct (current (k_sched (m_k (s_m s)))) eqn:Ec; [destruct (serves env Requeue) eqn:Er|];
    cbn [outcome_bind]; [apply Hend; no_panic|starve Requeue|apply Hend; no_panic].
Qed.

(** The guards of the calls as propositions. *)
Lemma small_arg ptr len bound : (ptr =? 0) || (bound <? len) = false ↔ ptr ≠ 0 ∧ len ≤ bound.
Proof. rewrite orb_false_iff. lia. Qed.

Lemma small_arg_not ptr len bound : (ptr =? 0) || (bound <? len) = true → ¬ (ptr ≠ 0 ∧ len ≤ bound).
Proof. rewrite orb_true_iff. lia. Qed.

Lemma sys_print_settles ptr len a3 a4 a5 : settles (Ret (sys_print env ptr len s)) SYS_PRINT ptr len a3 a4 a5.
Proof.
  unfold sys_print. destruct (_ || _) eqn:Eg; [apply small_arg_not in Eg|apply small_arg in Eg].
  { apply settles_ret; [done|no_panic|no_hang]. }
  destruct (user_str env ptr len) as [[str|]|] eqn:Es; (apply settles_ret; [|no_panic|no_hang]); [|done..].
  destruct Hok. split; [done|]. split; try done; eauto with oxide. by apply prefix_app_r.
Qed.

Lemma sys_kill_fine id r reg : Agents.kill fuel id (s_reg s) = Some (r, reg) → ∀ v, fine (v, set_reg s reg).
Proof.
  intros Ek v. destruct (Agents.kill_good _ _ _ _ _ (Agents.tree_linked _ (so_tree _ _ Hok)) Ek) as [Hg _].
  destruct Hok as [Hk Ht Ha Hst Hti]. pose proof Hg as (_ & Hsh & _). split.
  - split; try done; [by eapply Agents.good_wf|]. simpl. intros x [a' Hx]. apply Ha.
    destruct (Hsh x a' Hx) as (a & -> & _). done.
  - split; try done. eauto with oxide.
Qed.

Lemma sys_kill_settles id a2 a3 a4 a5 : settles (sys_agent_kill env fuel id s) SYS_AGENT_KILL id a2 a3 a4 a5.
Proof.
  unfold sys_agent_kill, ask. match goal with |- context [λ _ : (), Ret ?w] => set (v := w) end.
  assert (Hv : fine v ∧ v.1 ≠ Hangs).
  { unfold v. destruct (Agents.kill fuel id (s_reg s)) as [[[] reg]|] eqn:Ek; [..|done]; split; try done; by eapply sys_kill_fine. }
  clearbody v. destruct Hv as [Hf Hh].
  destruct (Agents.get (s_reg s) id) eqn:Eg; [destruct (serves env Children) eqn:Er|]; cbn [outcome_bind];
    [|starve Children|]; (apply settles_ret; [done|no_panic|split; [done|no_hang]]).
Qed.

(** A kernel operation that wakes tasks and touches no authority. *)
Lemma quiet_fine r k' :
  quiet (m_k (s_m s)) k' → k_caps k' = k_caps (m_k (s_m s)) → k_channels k' = k_channels (m_k (s_m s)) →
  k_regions k' = k_regions (m_k (s_m s)) →
  (∀ t q' msg, k_mailboxes k' !! t = Some q' → msg ∈ q' →
     (∃ q, k_mailboxes (m_k (s_m s)) !! t = Some q ∧ msg ∈ q) ∨ authorised (k_caps (m_k (s_m s))) msg) →
  fine (r, set_m s (with_k (s_m s) k')).
Proof.
  intros Hq Hc Hch Hr Hm. pose proof (qu_ids _ _ Hq) as Hi. split.
  - apply sys_ok_machine; [done|by eapply kern_wf_quiet, Hok|simpl; by rewrite Hi].
  - split; try done; [simpl; by rewrite Hi|apply shrinks_refl].
Qed.

(** What send does with the payload, when it gets one. *)
Lemma send_cases sender recipient payload cap :
  ∃ r k', Ipc.send (sched_free env) sender recipient Data payload None None cap (m_k (s_m s)) = Ret (r, k') ∧
    (∀ v, fine (v, set_m s (with_k (s_m s) k'))) ∧
    ((∃ id, r = Ok id) ↔ (∃ c, validate (k_caps (m_k (s_m s))) cap sender Perm.WRITE = Ok c) ∧
       ∃ q, k_mailboxes (m_k (s_m s)) !! recipient = Some q ∧ (length q < Ipc.MAILBOX_CAPACITY)%nat).
Proof.
  set (k := m_k (s_m s)). destruct (Ipc.send (sched_free env) sender recipient Data payload None None cap k) as [[r k']|] eqn:E.
  2:{ rewrite Ipc.send_eq in E. simpl in E. destruct (validate _ _ _ _); [|done]. destruct (k_mailboxes k !! recipient); [|done].
      by case_decide. }
  exists r, k'. split; [done|]. pose proof (send_quiet _ _ _ _ _ _ _ _ _ _ _ E) as Hq.
  rewrite Ipc.send_eq in E. simpl in E. destruct (validate (k_caps k) cap sender Perm.WRITE) as [c|] eqn:Ev.
  2:{ injection E as <- <-. split; [intros v; apply quiet_fine; eauto with oxide|naive_solver]. }
  destruct (k_mailboxes k !! recipient) as [mb|] eqn:Em.
  2:{ injection E as <- <-. split; [intros v; apply quiet_fine; eauto with oxide|naive_solver]. }
  case_decide.
  { injection E as <- <-. split; [intros v; apply quiet_fine; eauto with oxide|]. split; [naive_solver|].
    intros (_ & q & [= <-] & ?). lia. }
  injection E as <- <-. split; [intros v|split; [intros _; split; [by eexists|]; eexists; split; [done|lia]|by eexists]].
  destruct (Ipc.try_unblock_fields (sched_free env) recipient (set_mailboxes (set_next_msg k (wrapping_add64 (k_next_msg k) 1))
    (<[recipient := mb ++ [mkMsg (k_next_msg k) sender recipient Data payload None None]]> (k_mailboxes k)))) as (Em' & Ec' & _ & _ & Ech' & _).
  apply quiet_fine; [done|done|done|by destruct (sched_free env)|]. rewrite Em'. simpl. intros t q msg. rewrite lookup_insert.
  case_decide as Ht; [|eauto with oxide]. intros [= <-] [Hin|Hin]%elem_of_app.
  - left. subst t. by exists mb.
  - apply list_elem_of_singleton in Hin as ->. right. by exists cap, c.
Qed.

(** The requests of a delivery. *)
Lemma ask_delivery_spec recipient :
  match ask_delivery env recipient s with
  | Ret _ => serves env Slot = true ∧
             (sched_free env = true → recipient ∈ Timer.blocked_ids (m_k (s_m s)) → serves env Wake = true)
  | Panic => serves env Slot = false ∨
             serves env Wake = false ∧ sched_free env = true ∧ recipient ∈ Timer.blocked_ids (m_k (s_m s))
  end.
Proof.
  unfold ask_delivery, ask. destruct (serves env Slot); cbn [outcome_bind]; [|by left].
  destruct (sched_free env); cbn [andb]; [|done]. case_bool_decide; [|done]. destruct (serves env Wake); auto.
Qed.

Lemma sys_send_settles sender recipient ptr len cap :
  settles (sys_ipc_send env sender recipient ptr len cap s) SYS_IPC_SEND sender recipient ptr len cap.
Proof.
  unfold sys_ipc_send. destruct (_ || _) eqn:Eg; [apply small_arg_not in Eg|apply small_arg in Eg].
  { apply settles_ret; [done|no_panic|no_hang]. }
  unfold ask at 1. destruct (serves env Payload) eqn:Ep; cbn [outcome_bind]; [|starve Payload].
  destruct (user_slice env ptr len) as [payload|] eqn:Eu; [|apply settles_ret; [done|no_panic|no_hang]].
  destruct (send_cases sender recipient payload cap) as (r & k' & -> & Hf & Hr). cbn [outcome_bind fst snd].
  destruct r as [id|e].
  2:{ assert (¬ delivers sender recipient ptr len cap) as Hn by (intros (_ & _ & Hd); by destruct (proj2 Hr Hd)).
      clear Hr. apply settles_ret; [apply Hf| |no_hang]. intros [[? ?]|[[? ?]|[[? ?]|([] & Hs & Ha)]]]; try done;
        cbn [asks] in Ha; destruct_and?; destruct_or?; first [done|congruence]. }
  pose proof (ask_delivery_spec recipient) as Hd. pose proof (proj1 Hr (ex_intro _ id eq_refl)) as Hdel.
  clear Hr. destruct (ask_delivery env recipient s); cbn [outcome_bind].
  { clear Hdel. destruct Hd as [Hs Hw]. apply settles_ret; [apply Hf|no_panic|no_hang]. }
  assert (delivers sender recipient ptr len cap) by (split; [done|]; split; [by eexists|done]).
  destruct Hd as [Hs|(Hs & Hfr & Hb)]; [starve Slot|starve Wake].
Qed.

Lemma sys_receive_fine t : fine (sys_ipc_receive t s).
Proof.
  unfold sys_ipc_receive. destruct (Ipc.receive t (m_k (s_m s))) as [m k'] eqn:E. pose proof (receive_quiet _ _ _ _ E) as Hq.
  unfold Ipc.receive in E. destruct (k_mailboxes (m_k (s_m s)) !! t) as [mb|] eqn:Em.
  2:{ injection E as <- <-. apply quiet_fine; eauto with oxide. }
  destruct (Ipc.pop mb) as [m0 mb'] eqn:Ep. injection E as <- <-. apply quiet_fine; try done. simpl. intros u q msg.
  rewrite lookup_insert. case_decide as Hu; intros Hq' Hin; left; [|by exists q]. subst u. simplify_eq. exists mb. split; [done|].
  destruct mb as [|x mb]; simplify_eq/=; [by apply not_elem_of_nil in Hin|by right].
Qed.

Lemma sys_storage_set_settles agent kp kl vp vl :
  0 ≤ agent → settles (sys_storage_set env agent kp kl vp vl s) SYS_STORAGE_SET agent kp kl vp vl.
Proof.
  intros Ha. unfold sys_storage_set, ask.
  destruct ((kp =? 0) || (vp =? 0) || (256 <? kl) || (65536 <? vl)) eqn:Eg.
  { assert (¬ storage_args kp kl vp vl) as Hn by (rewrite !orb_true_iff in Eg; unfold storage_args; lia).
    apply settles_ret; [done|no_panic|no_hang]. }
  assert (storage_args kp kl vp vl) as Hargs by (rewrite !orb_false_iff in Eg; unfold storage_args; lia).
  destruct (user_str env kp kl) as [[key|]|] eqn:Ek; [|apply settles_ret; [done|no_panic|no_hang]..].
  assert (key_ok kp kl) as Hkey by by eexists.
  destruct (serves env Value) eqn:Ev; cbn [outcome_bind]; [|starve Value].
  destruct (user_slice env vp vl) as [value|] eqn:Eu; [|apply settles_ret; [done|no_panic|no_hang]].
  destruct (serves env File) eqn:Ef; cbn [outcome_bind]; [|starve File].
  destruct (Ctx.set agent key value _ _) as [st|] eqn:Es; cbn [outcome_bind].
  - destruct (Ctx.set_spec _ _ _ _ _ _ Ha (so_store _ _ Hok) Es) as [Hst _].
    assert (Hn : ¬ store_full value (Ctx.cs_fs (s_store s))).
    { intros Hf. rewrite <- (write_file_panics (Ctx.agent_path agent key) _ (k_ticks (m_k (s_m s)))) in Hf.
      unfold Ctx.set in Es. by rewrite Hf in Es. }
    apply settles_ret; [|no_panic|no_hang]. destruct Hok. split; [done|]. split; try done; eauto with oxide.
  - right. right. left. do 3 (split; [done|]). exists value. split; [done|]. unfold Ctx.set in Es.
    destruct (Fs.write_file _ _ _ _) eqn:Ew; [done|]. by apply write_file_panics in Ew.
Qed.

Lemma sys_storage_get_settles agent kp kl a4 a5 : settles (sys_storage_get env agent kp kl s) SYS_STORAGE_GET agent kp kl a4 a5.
Proof.
  unfold sys_storage_get, ask. destruct (_ || _) eqn:Eg; [apply small_arg_not in Eg|apply small_arg in Eg].
  { apply settles_ret; [done|no_panic|no_hang]. }
  destruct (user_str env kp kl) as [[key|]|] eqn:Ek; [|apply settles_ret; [done|no_panic|no_hang]..].
  assert (key_ok kp kl) as Hkey by by eexists. destruct Eg.
  destruct (serves env Lookup) eqn:Er; cbn [outcome_bind]; [|starve Lookup].
  destruct (Ctx.get _ _ _); (apply settles_ret; [done|no_panic|no_hang]).
Qed.

Lemma sys_sleep_settles ticks a2 a3 a4 a5 : settles (sys_sleep RESUME TRAMPOLINE env ticks s) SYS_TIMER_SLEEP ticks a2 a3 a4 a5.
Proof.
  unfold sys_sleep, checked_add64. case_decide; cbn [outcome_bind]; [|right; left; split; [done|lia]].
  destruct (current (k_sched (m_k (s_m s)))) as [c|] eqn:Ec; [|apply settles_ret; [done|no_panic|no_hang]].
  unfold ask at 1. destruct (serves env Deadline) eqn:Ed; cbn [outcome_bind]; [|starve Deadline; by rewrite Ec].
  set (q := (Timer.schedule (t_id c) (k_ticks (m_k (s_m s)) + ticks) (s_timers s)).2). cbv zeta.
  unfold requeue, ask. cbn [s_m set_timers]. rewrite Ec.
  destruct (serves env Requeue) eqn:Er; cbn [outcome_bind]; [|starve Requeue; by rewrite Ec].
  destruct (block_and_yield_ok RESUME TRAMPOLINE (s_m s) pt (so_kern _ _ Hok)) as (b & m' & E & Hk & Hun & Hmb). rewrite E.
  cbn [outcome_bind]. apply settles_ret; [|no_panic|destruct b; no_hang].
  destruct (push_spec Timer.deadline_le (Timer.mkEntry (k_ticks (m_k (s_m s)) + ticks) (t_id c)
    (Timer.next_callback (s_timers s))) _ (so_timers _ _ Hok)) as [Hh _].
  destruct (finish_fine 0 b m' Hk Hun Hmb) as [[] []]. split; split; done.
Qed.

Lemma dispatch_settles number arg1 arg2 arg3 arg4 arg5 :
  0 ≤ arg1 →
  settles (dispatch RESUME TRAMPOLINE env fuel number arg1 arg2 arg3 arg4 arg5 s) number arg1 arg2 arg3 arg4 arg5.
Proof.
  intros Ha. unfold dispatch.
  repeat match goal with |- context [if number =? ?c then _ else _] => destruct (Z.eqb_spec number c) as [->|?] end.
  - apply sys_exit_settles.
  - apply sys_print_settles.
  - apply sys_yield_settles.
  - apply settles_ret; [done|no_panic|no_hang].
  - unfold sys_agent_status. destruct (Agents.get _ _); (apply settles_ret; [done|no_panic|no_hang]).
  - apply sys_kill_settles.
  - apply sys_send_settles.
  - pose proof (sys_receive_fine arg1) as Hf. apply settles_ret; [done|no_panic|]. unfold sys_ipc_receive.
    destruct (Ipc.receive _ _) as [[] k]; no_hang.
  - by apply sys_storage_set_settles.
  - apply sys_storage_get_settles.
  - apply sys_sleep_settles.
  - apply settles_ret; [done|no_panic|no_hang].
Qed.
End calls.
End syscalls.

(** ** The kernel state and its steps *)

(** The operations of kernel code on the capability table and the ipc modules. *)
Inductive kernel_op (k : Kernel) : Kernel → Prop :=
| op_create_root owner res perms id t : create_root (k_caps k) owner res perms = Ret (id, t) → kernel_op k (set_caps k t)
| op_delegate src from to perms r res t :
    delegate src from to perms r (k_caps k) = Ret (res, t) → kernel_op k (set_caps k t)
| op_revoke id revoker res t : revoke id revoker (k_caps k) = Ret (res, t) → kernel_op k (set_caps k t)
| op_send free sender recipient ty payload ct rt cap r k' :
    Ipc.send free sender recipient ty payload ct rt cap k = Ret (r, k') → kernel_op k k'
| op_receive t m k' : Ipc.receive t k = (m, k') → kernel_op k k'
| op_create name id k' : Ipc.create name k = (id, k') → kernel_op k k'
| op_subscribe name task cap r k' : Ipc.subscribe name task cap k = Ret (r, k') → kernel_op k k'
| op_unsubscribe name task r k' : Ipc.unsubscribe name task k = Ret (r, k') → kernel_op k k'
| op_publish name sender payload cap r k' : Ipc.publish name sender payload cap k = Ret (r, k') → kernel_op k k'
| op_request free sender recipient payload cap timeout r k' :
    Ipc.request free sender recipient payload cap timeout k = Ret (r, k') → kernel_op k k'
| op_reply free sender id payload cap r k' : Ipc.reply free sender id payload cap k = Ret (r, k') → kernel_op k k'
| op_collect id m k' : Ipc.collect_reply id k = (m, k') → kernel_op k k'
| op_region owner size r k' : Ipc.create_region owner size k = Ret (r, k') → kernel_op k k'
| op_grant region granter grantee cap r k' : Ipc.grant_access region granter grantee cap k = Ret (r, k') → kernel_op k k'.

Lemma kernel_op_quiet k k' : kernel_op k k' → quiet k k'.
Proof.
  destruct 1;
    [by eapply create_root_quiet
    |apply quiet_caps; eauto using delegate_wf|apply quiet_caps; eauto using revoke_wf
    |by eapply send_quiet|by eapply receive_quiet|by eapply create_quiet|by eapply subscribe_quiet|by eapply unsubscribe_quiet
    |by eapply publish_quiet|by eapply request_quiet|by eapply reply_quiet|by eapply collect_quiet
    |by eapply create_region_quiet|by eapply grant_access_quiet].
Qed.

(** The operations on the agent registry alone. *)
Inductive agent_op (reg : Agents.AgentRegistry) : Agents.AgentRegistry → Prop :=
| ao_kill fuel id r reg' : Agents.kill fuel id reg = Some (r, reg') → agent_op reg reg'
| ao_suspend id r reg' : Agents.suspend id reg = Ret (r, reg') → agent_op reg reg'
| ao_resume id r reg' : Agents.resume id reg = Ret (r, reg') → agent_op reg reg'.

(** The operations on the context store, with the capability table [t]. *)
Inductive store_op (t : CapabilityTable) (c : Ctx.ContextStore) : Ctx.ContextStore → Prop :=
| so_set agent key v tick cap r c' : 0 ≤ agent → Ctx.gated_set t agent key v tick cap c = Ret (r, c') → store_op t c c'
| so_delete agent key : 0 ≤ agent → store_op t c (Ctx.delete agent key c).2
| so_clear agent : 0 ≤ agent → store_op t c (Ctx.clear_agent agent c).

Inductive timer_op (q : Timer.DeadlineQueue) : Timer.DeadlineQueue → Prop :=
| to_schedule task deadline : timer_op q (Timer.schedule task deadline q).2
| to_cancel id : timer_op q (Timer.cancel id q).

Section os.
Context {PT N : Type} `{!Mapper PT, !MapperLaws PT} (RESUME TRAMPOLINE : Z) (poll : N → N).

(** The state of the system calls, the page tables, GPU_SCHEDULER with the requests it has seen, and the network. *)
Record Os : Type := mkOs { o_sys : System; o_pt : PT; o_gpu : Gpu.GpuScheduler * Gpu.history; o_net : N }.

Definition with_sys (o : Os) (s : System) : Os := mkOs s (o_pt o) (o_gpu o) (o_net o).
Definition with_machine (o : Os) (m : Machine) : Os := with_sys o (set_m (o_sys o) m).
Definition o_m (o : Os) : Machine := s_m (o_sys o).

(** A call that panics or hangs has no next state. *)
Inductive os_step (o : Os) : Os → Prop :=
| os_syscall env fuel number arg1 arg2 arg3 arg4 arg5 r s' :
    0 ≤ arg1 → dispatch RESUME TRAMPOLINE env fuel number arg1 arg2 arg3 arg4 arg5 (o_sys o) = Ret (r, s') → r ≠ Hangs →
    os_step o (with_sys o s')
| os_timer locks n q m :
    Timer.timer_handler poll locks (o_net o) (s_timers (o_sys o)) (o_m o) = (n, q, m) →
    os_step o (mkOs (set_timers (set_m (o_sys o) m) q) (o_pt o) (o_gpu o) n)
| os_run cpu :
    os_step o (with_machine o (mkMachine (m_k (o_m o)) (m_idle (o_m o)) cpu (m_if (o_m o)) (m_need_resched (o_m o))))
| os_yield b m : yield_now RESUME TRAMPOLINE (o_m o) = Ret (b, m) → os_step o (with_machine o m)
| os_block b m : block_and_yield RESUME TRAMPOLINE (o_m o) = Ret (b, m) → os_step o (with_machine o m)
| os_exit m : exit_current RESUME TRAMPOLINE (o_m o) = Ret m → os_step o (with_machine o m)
| os_spawn parent config entry tramp res k reg pt :
    (∀ p, parent = Some p → is_Some (Agents.agents (s_reg (o_sys o)) !! p)) →
    Agents.spawn parent config entry tramp (Agents.mkWorld (m_k (o_m o)) (s_reg (o_sys o)) (o_pt o)) =
      Ret (res, Agents.mkWorld k reg pt) →
    os_step o (mkOs (set_reg (set_m (o_sys o) (with_k (o_m o) k)) reg) pt (o_gpu o) (o_net o))
| os_agent reg : agent_op (s_reg (o_sys o)) reg → os_step o (with_sys o (set_reg (o_sys o) reg))
| os_kernel k : kernel_op (m_k (o_m o)) k → os_step o (with_machine o (with_k (o_m o) k))
| os_store c : store_op (k_caps (m_k (o_m o))) (s_store (o_sys o)) c → os_step o (with_sys o (set_store (o_sys o) c))
| os_deadline q : timer_op (s_timers (o_sys o)) q → os_step o (with_sys o (set_timers (o_sys o) q))
| os_gpu g : Gpu.gpu_step (o_gpu o) g → os_step o (mkOs (o_sys o) (o_pt o) g (o_net o)).

(** ** The invariant of the whole kernel *)
Definition os_wf (o : Os) : Prop := sys_ok (o_sys o) (o_pt o) ∧ Gpu.gpu_wf (o_gpu o).

Lemma agent_op_good reg reg' : Agents.tree_wf reg → agent_op reg reg' → Agents.tree_wf reg' ∧ Agents.shrinks reg reg'.
Proof.
  intros Hwf Hop. assert (Hmark : ∀ id st r reg', (let! reg := get_state in
      let! _ := ok_or (Agents.get reg id) "agent not found" in put_state (Agents.update reg id (Agents.set_agent_state st))) reg
      = Ret (r, reg') → Agents.tree_wf reg' ∧ Agents.shrinks reg reg').
  { intros id st r reg1 E. unfold cmd_bind, get_state, ok_or, put_state in E.
    destruct (Agents.get reg id); simplify_eq; [|split; [done|apply shrinks_refl]]. split; [by apply Agents.mark_wf|].
    by apply Agents.update_good; [apply Agents.tree_linked|]. }
  destruct Hop as [fuel id r reg' E|id r reg' E|id r reg' E]; [|by eapply Hmark..].
  destruct (Agents.kill_good _ _ _ _ _ (Agents.tree_linked _ Hwf) E) as [Hg _]. split; [by eapply Agents.good_wf|apply Hg].
Qed.

Lemma store_op_wf t c c' : Ctx.store_wf c → store_op t c c' → Ctx.store_wf c'.
Proof.
  intros Hwf Hop. destruct Hop as [agent key v tick cap r c' Ha E|agent key Ha|agent Ha].
  - unfold Ctx.gated_set in E. destruct (validate _ _ _ _); [|by simplify_eq].
    destruct (Ctx.set agent key v tick c) as [c1|] eqn:Es; simplify_eq/=. by eapply Ctx.set_spec.
  - by apply Ctx.delete_spec.
  - by apply Ctx.clear_agent_spec.
Qed.

(** Spawning in the whole kernel: a new id, so the registry stays a tree. *)
Lemma spawn_sys_ok s pt parent config entry tramp res k reg pt' :
  sys_ok s pt → (∀ p, parent = Some p → is_Some (Agents.agents (s_reg s) !! p)) →
  Agents.spawn parent config entry tramp (Agents.mkWorld (m_k (s_m s)) (s_reg s) pt) = Ret (res, Agents.mkWorld k reg pt') →
  sys_ok (set_reg (set_m s (with_k (s_m s) k)) reg) pt'.
Proof.
  intros [Hk Ht Ha Hst Hti] Hp E. destruct (spawn_ok _ _ _ _ _ _ _ _ _ _ _ Hk E) as [Hk' Hres].
  destruct res as [id|e]; [|destruct Hres as (-> & -> & ->); by split].
  destruct Hres as (-> & Hn & ->). set (id := ids_next (k_ids (m_k (s_m s)))) in *.
  split; try done; simpl.
  - apply Agents.enroll_wf; [done| |done]. destruct (Agents.agents (s_reg s) !! id) eqn:Ex; [|done].
    assert (1 ≤ id < id) by (apply Ha; by rewrite Ex). lia.
  - intros x Hx. apply Agents.is_Some_enroll in Hx. rewrite Hn. destruct Hx as [->|Hx]; [|apply Ha in Hx; fold id in Hx; lia].
    destruct (kw_sys _ _ Hk) as (_ & Hids & _). pose proof (ids_next_pos _ Hids) as Hpos. simpl in Hpos. fold id in Hpos. lia.
Qed.

Lemma os_step_wf o o' : os_wf o → os_step o o' → os_wf o'.
Proof.
  intros [Hs Hg] Hstep. destruct Hstep as [env fuel number a1 a2 a3 a4 a5 r s' Ha E _|locks n q m E|cpu|b m E|b m E|m E
    |parent config entry tramp res k reg pt Hp E|reg Hop|k Hop|c Hop|q Hop|g Hop]; (split; [|first [exact Hg|by eapply Gpu.gpu_step_wf]]); cbn [o_sys o_pt with_sys with_machine].
  - pose proof (dispatch_settles RESUME TRAMPOLINE env fuel _ _ Hs number a1 a2 a3 a4 a5 Ha) as Hd. rewrite E in Hd. apply Hd.
  - pose proof (timer_quiet poll locks (o_net o) (s_timers (o_sys o)) (o_m o) (so_timers _ _ Hs)) as Hq. rewrite E in Hq.
    destruct Hq as [Hq Hh]. pose proof (qu_ids _ _ Hq) as Hi. destruct Hs as [Hk Ht Ha Hst Hti].
    split; try done; simpl; [by eapply kern_wf_quiet|by rewrite Hi].
  - by destruct Hs; split.
  - destruct (yield_now_ok RESUME TRAMPOLINE _ _ (so_kern _ _ Hs)) as (b' & m' & E' & Hk & Hun & _). unfold o_m in E.
    rewrite E in E'. injection E' as <- <-. by apply sys_ok_machine, Hun.
  - destruct (block_and_yield_ok RESUME TRAMPOLINE _ _ (so_kern _ _ Hs)) as (b' & m' & E' & Hk & Hun & _). unfold o_m in E.
    rewrite E in E'. injection E' as <- <-. by apply sys_ok_machine, Hun.
  - pose proof (exit_current_ok RESUME TRAMPOLINE _ _ (so_kern _ _ Hs)) as He. unfold o_m in E. rewrite E in He.
    case_decide; [done|]. destruct He as (m' & [= <-] & Hk & Hun & _). by apply sys_ok_machine, Hun.
  - by eapply spawn_sys_ok.
  - destruct Hs as [Hk Ht Ha Hst Hti]. destruct (agent_op_good _ _ Ht Hop) as [Ht' Hsh]. split; try done; simpl.
    intros x [a Hx]. apply Ha. by destruct (Hsh x a Hx) as (a0 & -> & _).
  - apply kernel_op_quiet in Hop. apply sys_ok_machine; [done|by eapply kern_wf_quiet, Hs|]. simpl.
    by rewrite (qu_ids _ _ Hop).
  - destruct Hs. split; try done. by eapply store_op_wf.
  - destruct Hs as [Hk Ht Ha Hst Hti]. split; try done. destruct Hop; [exact (proj1 (push_spec _ _ _ Hti))|exact (proj1 (rebuild_spec _ _))].
  - done.
Qed.

Lemma os_run_wf o o' : os_wf o → rtc os_step o o' → os_wf o'.
Proof. intros Hwf Hrun. induction Hrun; eauto using os_step_wf. Qed.

(** ** The statics at boot *)
Definition boot_system (a : BitmapFrameAllocator) (cpu : CpuContext) (store : Ctx.ContextStore) (console : list Z) : System :=
  mkSystem (mkMachine (set_frames kernel_new (Some a)) empty_context cpu true false) Agents.registry_new store
    Timer.queue_new console.

Lemma boot_sys_ok a cpu store console (pt : PT) : alloc_wf a → Ctx.store_wf store → sys_ok (boot_system a cpu store console) pt.
Proof.
  intros Ha Hst. split; [|apply Agents.registry_new_wf| |done|apply heap_nil].
  - split; [exact sys_init_wf|exact new_wf|done| |done|].
    + intros id Hid. by apply not_elem_of_nil in Hid.
    + split; [exists a; split; [done|]; split; [done|]; by intros f ?%not_elem_of_nil|constructor|by intros id fs ?%not_elem_of_nil| |done].
      simpl. lia.
  - by intros id [x Hx].
Qed.

(** ** User programs

    What happens between two operations of kernel code: system calls, timer interrupts, the registers changing,
    and the scheduler running in a task or in the idle loop. *)
Inductive user_step (s : System) : System → Prop :=
| us_call env fuel number arg1 arg2 arg3 arg4 arg5 r s' :
    0 ≤ arg1 → dispatch RESUME TRAMPOLINE env fuel number arg1 arg2 arg3 arg4 arg5 s = Ret (r, s') → r ≠ Hangs → user_step s s'
| us_timer locks n n' q m :
    Timer.timer_handler poll locks n (s_timers s) (s_m s) = (n', q, m) → user_step s (set_timers (set_m s m) q)
| us_run cpu : user_step s (set_m s (mkMachine (m_k (s_m s)) (m_idle (s_m s)) cpu (m_if (s_m s)) (m_need_resched (s_m s))))
| us_yield b m : yield_now RESUME TRAMPOLINE (s_m s) = Ret (b, m) → user_step s (set_m s m).

(** What a timer interrupt leaves alone. *)
Definition same_authority (k k' : Kernel) : Prop :=
  k_caps k' = k_caps k ∧ k_channels k' = k_channels k ∧ k_regions k' = k_regions k ∧ k_mailboxes k' = k_mailboxes k.

#[local] Instance same_authority_preorder : PreOrder same_authority.
Proof.
  split; [done|]. intros k1 k2 k3 (? & ? & ? & ?) (? & ? & ? & ?). unfold same_authority. by repeat (split; [by etrans|]); etrans.
Qed.

Lemma unblock_authority free id k : same_authority k (try_unblock free id k).
Proof. by destruct free. Qed.

Lemma timer_authority locks n q m :
  let '(_, _, m') := Timer.timer_handler poll locks n q m in same_authority (m_k m) (m_k m').
Proof.
  unfold Timer.timer_handler. set (k := set_ticks (m_k m) _). set (k1 := if decide _ then _ else k).
  assert (Hk1 : same_authority (m_k m) k1).
  { transitivity k; [done|]. unfold k1. case_decide; [|done]. unfold Ipc.check_timeouts. destruct (Timer.pending_free locks); [|done].
    set (l := (filter _ _).*1). clearbody l. clear k1. generalize k as k0. induction l as [|id l IH]; intros k0; [done|]. cbn [foldl].
    etrans; [|apply IH]. destruct (k_pending k0 !! id); [|done]. etrans; [|apply unblock_authority]. done. }
  clearbody k1. unfold Timer.tick. destruct (Timer.deadlines_free locks); [|done]. unfold Timer.check_expired.
  assert (Hloop : ∀ fuel h k0 i, same_authority k0 (Timer.check_loop fuel (Timer.sched_free locks) (k_ticks k) h k0 i).2).
  { clear. induction fuel as [|fuel IH]; intros h k0 i; [done|]. cbn [Timer.check_loop]. destruct (peek h); [|done].
    case_decide; [done|]. destruct (pop Timer.deadline_le h) as [[e'|] h']; [|done]. etrans; [apply unblock_authority|apply IH]. }
  specialize (Hloop (length (Timer.q_heap q)) (Timer.q_heap q) k1 0%nat). destruct (Timer.check_loop _ _ _ _ _ _) as [[n0 h0] k0].
  by etrans.
Qed.

Lemma user_step_ok s s' pt : sys_ok s pt → user_step s s' → sys_ok s' pt ∧ confined s s'.
Proof.
  intros Hok Hstep. destruct Hstep as [env fuel number a1 a2 a3 a4 a5 r s' Ha E _|locks n n' q m E|cpu|b m E].
  - pose proof (dispatch_settles RESUME TRAMPOLINE env fuel _ _ Hok number a1 a2 a3 a4 a5 Ha) as Hd. rewrite E in Hd. apply Hd.
  - pose proof (timer_quiet poll locks n (s_timers s) (s_m s) (so_timers _ _ Hok)) as Hq.
    pose proof (timer_authority locks n (s_timers s) (s_m s)) as Hau. rewrite E in Hq, Hau.
    destruct Hq as [Hq Hh], Hau as (Hc & Hch & Hr & Hm). pose proof (qu_ids _ _ Hq) as Hi. destruct Hok as [Hk Ht Ha Hst Hti]. split.
    + split; try done; simpl; [by eapply kern_wf_quiet|by rewrite Hi].
    + split; try done; simpl; [by rewrite Hi|apply shrinks_refl|]. rewrite Hm. intros t q0 msg. apply mail_kept.
  - destruct Hok. split; [by split|]. apply confined_machine; [done|by left].
  - destruct (yield_now_ok RESUME TRAMPOLINE _ _ (so_kern _ _ Hok)) as (b' & m' & E' & Hk & Hun & Hmb & _).
    rewrite E in E'. injection E' as <- <-. split; [by apply sys_ok_machine, Hun|by apply confined_machine].
Qed.

(** Enough fuel for kill. *)
Lemma dispatch_finishes env number arg1 arg2 arg3 arg4 arg5 s :
  Agents.tree_wf (s_reg s) → ∃ bound, ∀ fuel s', (bound ≤ fuel)%nat →
    dispatch RESUME TRAMPOLINE env fuel number arg1 arg2 arg3 arg4 arg5 s ≠ Ret (Unfinished, s').
Proof.
  intros Hwf. destruct (Agents.kill_total _ arg1 Hwf) as (bound & v & Hk). exists bound. intros fuel s' Hf. unfold dispatch.
  repeat match goal with |- context [if number =? ?c then _ else _] => destruct (number =? c) end; try done.
  - unfold sys_exit. by destruct (exit_current _ _ _).
  - unfold sys_print. destruct (_ || _); [done|]. by destruct (user_str _ _ _) as [[]|].
  - unfold sys_yield, finish. destruct (requeue _ _); [|done]. by destruct (yield_now _ _ _) as [[[] m]|].
  - unfold sys_agent_status. by destruct (Agents.get _ _).
  - unfold sys_agent_kill. rewrite Hk by done. unfold ask. destruct (Agents.get _ _); [destruct (serves env _)|]; try done; by destruct v as [[] reg].
  - unfold sys_ipc_send. destruct (_ || _); [done|]. destruct (ask _ _); [|done]. cbn [outcome_bind].
    destruct (user_slice _ _ _); [|done]. destruct (Ipc.send _ _ _ _ _ _ _ _ _) as [[[] k]|]; cbn [outcome_bind fst]; try done.
    by destruct (ask_delivery _ _ _).
  - unfold sys_ipc_receive. by destruct (Ipc.receive _ _).
  - unfold sys_storage_set. destruct (_ || _); [done|]. destruct (user_str _ _ _) as [[key|]|]; [|done..].
    destruct (ask _ Value); [|done]. cbn [outcome_bind]. destruct (user_slice _ _ _); [|done]. destruct (ask _ File); [|done].
    cbn [outcome_bind]. by destruct (Ctx.set _ _ _ _ _).
  - unfold sys_storage_get. destruct (_ || _); [done|]. destruct (user_str _ _ _) as [[key|]|]; [|done..].
    destruct (ask _ Lookup); [|done]. cbn [outcome_bind]. by destruct (Ctx.get _ _ _).
  - unfold sys_sleep, finish. destruct (checked_add64 _ _) as [d|]; [|done]. cbn [outcome_bind].
    destruct (current _); [|done]. destruct (ask _ _); [|done]. cbn [outcome_bind]. cbv zeta. destruct (requeue _ _); [|done].
    cbn [outcome_bind]. by destruct (block_and_yield _ _ _) as [[[] m]|].
Qed.
End os.

(** *** Properties *)

(** C2: memory safety of the whole kernel.  Any sequence of system calls, timer interrupts, context switches,
    exits, spawns under a registered parent, kills, ipc and capability operations, storage operations, deadlines and GPU requests, in any
    order, keeps the invariant of every component at once (scheduler, task ids, capabilities, mailboxes, channels, frame allocator, page
    tables, agent tree, context store, deadlines, GPU queue); so every stack page of every live task is mapped to a frame the allocator
    does not consider free, no two stack pages share a frame, every live task has a mailbox, and no task id is used twice. *)
Theorem kernel_memory_safe {PT N : Type} `{!Mapper PT, !MapperLaws PT} (RESUME TRAMPOLINE : Z) (poll : N → N) (o o' : Os (PT := PT) (N := N)) :
  os_wf o → rtc (os_step RESUME TRAMPOLINE poll) o o' →
  let k := m_k (o_m o') in
  os_wf o' ∧ NoDup (all_ids (k_sched k)) ∧
  (∀ t, t ∈ all_tasks (k_sched k) → is_Some (k_mailboxes k !! t_id t) ∧
     ∀ i, (i < 4)%nat → ∃ a f, k_frames k = Some a ∧ translate (o_pt o') (stack_page (t_id t) i) = Some (f * PAGE_SIZE) ∧ taken a f) ∧
  (∀ t1 t2 i1 i2 p, t1 ∈ all_tasks (k_sched k) → t2 ∈ all_tasks (k_sched k) → (i1 < 4)%nat → (i2 < 4)%nat →
     translate (o_pt o') (stack_page (t_id t1) i1) = Some p → translate (o_pt o') (stack_page (t_id t2) i2) = Some p →
     t_id t1 = t_id t2 ∧ i1 = i2).
Proof.
  intros Hwf Hrun k. pose proof (os_run_wf _ _ _ _ _ Hwf Hrun) as Hwf'. split; [done|].
  destruct Hwf' as [Hok _]. pose proof (so_kern _ _ Hok) as [(Hs & _) _ _ Hboxes _ Hmem].
  assert (Hcore : ∀ t, t ∈ all_tasks (k_sched k) → core t ∈ cores (k_sched k)) by (intros t Ht; by apply list_elem_of_fmap_2).
  split; [apply Hs|]. split.
  - intros t Ht. split; [apply Hboxes; by apply list_elem_of_fmap_2|]. intros i Hi.
    destruct (memory_ok_page _ _ _ _ _ _ _ Hmem (Hcore t Ht) Hi) as (f & a & n & _ & Htr & Ha & -> & Htk). by exists a, n.
  - intros t1 t2 i1 i2 p H1 H2. exact (memory_ok_isolated _ _ _ _ _ _ _ _ _ _ _ Hmem (Hcore _ H1) (Hcore _ H2)).
Qed.

(** C3: what user programs can do.  However system calls, timer interrupts and context switches follow each
    other, they create no capability and no channel, give no access to a shared region, start no agent
    and no task, take nothing back from the console, and every message that appears in a mailbox has a sender that
    holds a WRITE capability which is not revoked. *)
Theorem user_programs_confined {PT N : Type} `{!Mapper PT, !MapperLaws PT} (RESUME TRAMPOLINE : Z) (poll : N → N) (s s' : System) (pt : PT) :
  sys_ok s pt → rtc (user_step RESUME TRAMPOLINE poll) s s' → sys_ok s' pt ∧ confined s s'.
Proof.
  intros Hok Hrun. induction Hrun as [s|s s1 s2 Hstep _ IH]; [done|].
  destruct (user_step_ok _ _ _ _ _ _ Hok Hstep) as [Hok1 Hc1]. destruct (IH Hok1) as [Hok2 Hc2]. split; [done|]. by etrans.
Qed.


(** *** Witnesses *)
Definition demo_memory : BitmapFrameAllocator := {| bitmap := [0x00; 0x00]; total_frames := 16; next_free := 0 |}.

Lemma demo_memory_wf : alloc_wf demo_memory.
Proof.
  split; simpl; [lia|unfold PAGE_SIZE, PHYS_LIMIT; lia|reflexivity|lia|]. intros i Hi. unfold bit. cbn [bitmap demo_memory].
  rewrite lookup_ge_None_2; [reflexivity|]. assert (2 ≤ i / 8) by (apply Z.div_le_lower_bound; lia). simpl. lia.
Qed.

Definition store_new : Ctx.ContextStore := Ctx.mkStore ∅ Fs.fs_new.

Lemma store_new_wf : Ctx.store_wf store_new.
Proof. split; [apply Fs.fs_new_wf|done..]. Qed.

(** The kernel at boot with 16 frames of memory, and after two agents were started. *)
Definition demo_boot : Os (PT := flat) (N := unit) :=
  mkOs (boot_system demo_memory empty_context store_new []) ∅ (Gpu.gpu_new, Gpu.mkHistory 0 0) tt.

Lemma demo_boot_wf : os_wf demo_boot.
Proof.
  split; [apply boot_sys_ok; [apply demo_memory_wf|apply store_new_wf]|]. split; [apply heap_nil|done].
Qed.

Definition demo_spawn_os (parent : option Z) (name : string) (o : Os (PT := flat) (N := unit)) : Os (PT := flat) (N := unit) :=
  match Agents.spawn parent (Agents.cfg name Agents.Permanent) 0x1000 0x2000 (Agents.mkWorld (m_k (o_m o)) (s_reg (o_sys o)) (o_pt o)) with
  | Ret (_, w) => mkOs (set_reg (set_m (o_sys o) (with_k (o_m o) (Agents.w_k w))) (Agents.w_reg w)) (Agents.w_pt w) (o_gpu o) (o_net o)
  | Panic => o
  end.

Lemma demo_spawn_step parent name o :
  (∀ p, parent = Some p → is_Some (Agents.agents (s_reg (o_sys o)) !! p)) →
  rtc (os_step 0x10 0x20 id) o (demo_spawn_os parent name o).
Proof.
  intros Hp. unfold demo_spawn_os. destruct (Agents.spawn _ _ _ _ _) as [[r [k reg pt]]|] eqn:E; [|done].
  apply rtc_once. by eapply os_spawn.
Qed.

(** The supervisor of the second agent is registered; both tasks are ready. *)
Lemma demo_registered : bool_decide (is_Some (Agents.agents (s_reg (o_sys (demo_spawn_os None "a" demo_boot))) !! 1)) = true.
Proof. vm_compute. reflexivity. Qed.

Lemma demo_two_tasks :
  bool_decide (t_id <$> all_tasks (k_sched (m_k (o_m (demo_spawn_os (Some 1) "b" (demo_spawn_os None "a" demo_boot))))) = [1; 2]) = true.
Proof. vm_compute. reflexivity. Qed.

Lemma demo_two :
  ∃ o, rtc (os_step 0x10 0x20 id) demo_boot o ∧ t_id <$> all_tasks (k_sched (m_k (o_m o))) = [1; 2].
Proof.
  exists (demo_spawn_os (Some 1) "b" (demo_spawn_os None "a" demo_boot)).
  split; [|exact (proj1 (bool_decide_eq_true _) demo_two_tasks)].
  transitivity (demo_spawn_os None "a" demo_boot).
  - apply demo_spawn_step. intros p Hp. discriminate Hp.
  - apply demo_spawn_step. intros p Hp. injection Hp as <-. exact (proj1 (bool_decide_eq_true _) demo_registered).
Qed.

Lemma kernel_memory_safe_witness :
  ∃ o : Os (PT := flat) (N := unit), t_id <$> all_tasks (k_sched (m_k (o_m o))) = [1; 2] ∧ os_wf o ∧
    ∀ p, translate (o_pt o) (stack_page 1 0) = Some p → translate (o_pt o) (stack_page 2 3) ≠ Some p.
Proof.
  destruct demo_two as (o & Hrun & Ht). exists o. split; [exact Ht|].
  destruct (kernel_memory_safe 0x10 0x20 id demo_boot o demo_boot_wf Hrun) as (Hwf & _ & _ & Hiso).
  split; [exact Hwf|]. intros p H1 H2. destruct (all_tasks _) as [|t1 [|t2 [|]]] eqn:E; try discriminate Ht.
  injection Ht as E1 E2. destruct (Hiso t1 t2 0%nat 3%nat p) as [Hid _].
  - left.
  - right. left.
  - lia.
  - lia.
  - rewrite E1. exact H1.
  - rewrite E2. exact H2.
  - rewrite E1, E2 in Hid. discriminate Hid.
Defined.

(** Addresses below 2^16 hold the letter A and the others cannot be read; the heap has no room for payloads. *)
Definition demo_calls : Surroundings :=
  mkSurroundings (λ a, if a <? 65536 then Some 65 else None) false (λ r, match r with Payload => false | _ => true end) true.

(** A print and a yield. *)
Definition demo_user : outcome System :=
  let? r := dispatch 0x10 0x20 demo_calls 1 SYS_PRINT 1 3 0 0 0 (o_sys demo_boot) in
  let? r := dispatch 0x10 0x20 demo_calls 1 SYS_YIELD 0 0 0 0 0 (snd r) in
  Ret (snd r).

Lemma demo_user_console : match demo_user with Ret s => bool_decide (s_console s = [65; 65; 65]) | Panic => false end = true.
Proof. vm_compute. reflexivity. Qed.

(** Neither call hangs. *)
Lemma demo_user_ends :
  match dispatch 0x10 0x20 demo_calls 1 SYS_PRINT 1 3 0 0 0 (o_sys demo_boot) with
  | Ret (r1, s1) => r1 ≠ Hangs ∧
      match dispatch 0x10 0x20 demo_calls 1 SYS_YIELD 0 0 0 0 0 s1 with Ret (r2, _) => r2 ≠ Hangs | Panic => False end
  | Panic => False
  end.
Proof. vm_compute. split; discriminate. Qed.

Lemma demo_user_steps s : demo_user = Ret s → rtc (user_step 0x10 0x20 (id : unit → unit)) (o_sys demo_boot) s.
Proof.
  intros H. pose proof demo_user_ends as Hends. unfold demo_user in *.
  destruct (dispatch _ _ _ _ SYS_PRINT _ _ _ _ _ _) as [[r1 s1]|] eqn:E1; [|done]. cbn [outcome_bind snd] in *. destruct Hends as [H1 H2].
  destruct (dispatch _ _ _ _ SYS_YIELD _ _ _ _ _ _) as [[r2 s2]|] eqn:E2; [|done]. cbn [outcome_bind snd] in *. simplify_eq.
  eapply rtc_l; [by eapply us_call, H1; [|exact E1]|]. eapply rtc_once. by eapply us_call, H2; [|exact E2].
Qed.

Lemma user_programs_confined_witness :
  match demo_user with
  | Ret s => s_console s = [65; 65; 65] ∧ sys_ok s (o_pt demo_boot) ∧ k_caps (m_k (s_m s)) = k_caps (m_k (o_m demo_boot))
  | Panic => False
  end.
Proof.
  pose proof demo_user_console as Hc. pose proof demo_user_steps as Hs. destruct demo_user as [s|]; [|discriminate Hc].
  destruct (user_programs_confined 0x10 0x20 (id : unit → unit) (o_sys demo_boot) s (o_pt demo_boot) (proj1 demo_boot_wf) (Hs s eq_refl)) as [Hok Hcf].
  split; [by apply bool_decide_eq_true in Hc|]. split; [exact Hok|apply Hcf].
Defined.

End Os.
