(* ===== verification/Console.v ===== *)
(** * Console: serial.rs, the handlers of interrupts.rs, and spin locks under interrupts

    One processor runs a task and, while the interrupt flag is set, the interrupt handlers on top of
    it.  A function is the [code] of its lock scopes, its critical sections without interrupts and
    the bytes it writes to the serial port; whatever else it does is left out.  A spin lock that is
    held by code further down the stack is never released: the processor spins.

    The tasks of the kernel are sequences of [calls]: messages through println and scopes of locks.  Under the timer
    interrupt such a task is shown to hang exactly when it takes a lock that the interrupt waits for, and otherwise
    every message is written whole. *)

From S2P Require Import Prelude.

Module Console.

(** ** Code *)
Inductive lock : Type :=
| SERIAL | INTERFACE | SOCKETS | DEVICE | ALLOCATOR | PENDING | DEADLINES | SCHEDULER.

#[global] Instance lock_eq_dec : EqDecision lock.
Proof. solve_decision. Defined.

(** [Locked l body k] is the scope of [l.lock()] followed by [k], [TryLocked] that of a successful
    [l.try_lock()], [WithoutInterrupts] the closure of [without_interrupts].  [Put] writes one byte to
    the port in SERIAL, when there is one, [RawPut] to the port itself; [InitPort] puts the port into
    SERIAL; [Forever] is the empty loop.  [Unlock] and [Restore] appear at the ends of scopes. *)
Inductive code : Type :=
| Done
| Locked (l : lock) (body k : code)
| TryLocked (l : lock) (body k : code)
| WithoutInterrupts (body k : code)
| InitPort (k : code)
| Put (b : Z) (k : code)
| RawPut (b : Z) (k : code)
| Forever
| Unlock (l : lock) (k : code)
| Restore (saved : bool) (k : code).

#[global] Instance code_eq_dec : EqDecision code.
Proof. solve_decision. Defined.

(** Sequential composition. *)
Fixpoint seq (p q : code) : code :=
  match p with
  | Done => q
  | Locked l body k => Locked l body (seq k q)
  | TryLocked l body k => TryLocked l body (seq k q)
  | WithoutInterrupts body k => WithoutInterrupts body (seq k q)
  | InitPort k => InitPort (seq k q)
  | Put b k => Put b (seq k q)
  | RawPut b k => RawPut b (seq k q)
  | Forever => Forever
  | Unlock l k => Unlock l (seq k q)
  | Restore saved k => Restore saved (seq k q)
  end.

Definition puts (bytes : list Z) (k : code) : code := foldr Put k bytes.

(** ** serial.rs *)
Definition serial_init : code := Locked SERIAL (InitPort Done) Done.

Definition _print (args : list Z) : code := WithoutInterrupts (Locked SERIAL (puts args Done) Done) Done.

Definition _panic_print (args : list Z) : code := foldr RawPut Done args.

Definition println (args : list Z) : code := _print (args ++ [10]).

(** ** The processor

    The interrupt flag, the locks that are taken, whether SERIAL holds a port, what was written, and
    the stack of running code with the innermost handler first. *)
Record cpu : Type := mkCpu {
  c_if : bool;
  c_held : list lock;
  c_port : bool;
  c_out : list Z;
  c_stack : list code;
}.

(** One step of the innermost code; [None] when it has nothing to do or spins on a lock.  The end of
    a handler is [iretq], which restores the flag: it was set, or there would have been no
    interrupt. *)
Definition exec (c : cpu) : option cpu :=
  match c_stack c with
  | [] => None
  | p :: rest =>
      match p with
      | Done => match rest with
                | [] => None
                | _ :: _ => Some (mkCpu true (c_held c) (c_port c) (c_out c) rest)
                end
      | Locked l body k =>
          if decide (l ∈ c_held c) then None
          else Some (mkCpu (c_if c) (l :: c_held c) (c_port c) (c_out c) (seq body (Unlock l k) :: rest))
      | TryLocked l body k =>
          if decide (l ∈ c_held c) then Some (mkCpu (c_if c) (c_held c) (c_port c) (c_out c) (k :: rest))
          else Some (mkCpu (c_if c) (l :: c_held c) (c_port c) (c_out c) (seq body (Unlock l k) :: rest))
      | WithoutInterrupts body k =>
          Some (mkCpu false (c_held c) (c_port c) (c_out c) (seq body (Restore (c_if c) k) :: rest))
      | InitPort k => Some (mkCpu (c_if c) (c_held c) true (c_out c) (k :: rest))
      | Put b k => Some (mkCpu (c_if c) (c_held c) (c_port c) (c_out c ++ if c_port c then [b] else []) (k :: rest))
      | RawPut b k => Some (mkCpu (c_if c) (c_held c) (c_port c) (c_out c ++ [b]) (k :: rest))
      | Forever => Some c
      | Unlock l k => Some (mkCpu (c_if c) (filter (.≠ l) (c_held c)) (c_port c) (c_out c) (k :: rest))
      | Restore saved k => Some (mkCpu (saved || c_if c) (c_held c) (c_port c) (c_out c) (k :: rest))
      end
  end.

(** An interrupt is taken between two steps while the flag is set; its gate clears the flag. *)
Definition interrupt (h : code) (c : cpu) : cpu := mkCpu false (c_held c) (c_port c) (c_out c) (h :: c_stack c).

Inductive cpu_step (handlers : code → Prop) (c : cpu) : cpu → Prop :=
| cs_exec c' : exec c = Some c' → cpu_step handlers c c'
| cs_interrupt h : handlers h → c_if c = true → c_stack c ≠ [] → cpu_step handlers c (interrupt h c).

(** The innermost code waits for a lock that nobody can release. *)
Definition spinning (c : cpu) : Prop :=
  match c_stack c with Locked l _ _ :: _ => l ∈ c_held c | _ => False end.

Definition task_on_cpu (p : code) : cpu := mkCpu true [] true [] [p].

(** ** interrupts.rs and what the timer interrupt calls *)

(** An allocation or release of the global allocator, a LockedHeap. *)
Definition allocate (k : code) : code := Locked ALLOCATOR Done k.

(** OxideNetDevice::receive of net/stack.rs: the device, then a buffer. *)
Definition device_receive (k : code) : code := Locked DEVICE (allocate Done) k.

(** net/stack.rs [poll]; [polled] is what the interface does with the device. *)
Definition poll_code (polled : code) : code := Locked INTERFACE (Locked SOCKETS polled Done) Done.

(** The expired entries, one after the other: whether removing it releases memory, and whether waking its task makes the ready queue grow. *)
Fixpoint unblocks (l : list (bool * bool)) (k : code) : code :=
  match l with
  | [] => k
  | (freed, grown) :: l' =>
      let next := TryLocked SCHEDULER (if grown then allocate Done else Done) (unblocks l' k) in
      if freed then allocate next else next
  end.

(** ipc/request_reply.rs [check_timeouts]: the list of expired requests is allocated and released. *)
Definition check_timeouts_code (expired : list (bool * bool)) : code :=
  TryLocked PENDING (match expired with [] => Done | _ :: _ => allocate (unblocks expired (allocate Done)) end) Done.

(** timer/deadline.rs [tick]. *)
Definition tick_code (fired : list (bool * bool)) : code := TryLocked DEADLINES (unblocks fired Done) Done.

(** [timer_handler] at tick [t]. *)
Definition timer_code (t : Z) (polled : code) (expired fired : list (bool * bool)) : code :=
  seq (if t mod 10 =? 0 then poll_code polled else Done)
    (seq (if t mod 50 =? 0 then check_timeouts_code expired else Done) (tick_code fired)).

(** The exception handlers; the arguments are the formatted messages. *)
Definition breakpoint_handler (msg : list Z) : code := println msg.
Definition double_fault_handler (msg : list Z) : code := seq (println msg) Forever.
Definition page_fault_handler (msg addr err frame : list Z) : code :=
  seq (println msg) (seq (println addr) (seq (println err) (seq (println frame) Forever))).
Definition general_protection_handler (msg : list Z) : code := seq (println msg) Forever.
Definition invalid_opcode_handler (msg : list Z) : code := seq (println msg) Forever.

(** main.rs: the panic handler, with the message formatted; panic_println ends the line. *)
Definition panic_handler (info : list Z) : code := seq (_panic_print (info ++ [10])) Forever.

(** The interrupt descriptor table: the handler of a vector and the index of its stack, [None] for
    the stack in use. *)
Inductive handler : Type :=
| Breakpoint | DoubleFault | PageFault | GeneralProtection | InvalidOpcode | TimerInterrupt.

Definition TIMER_VECTOR : Z := 32.
Definition DOUBLE_FAULT_IST_INDEX : Z := 0.

Definition IDT : gmap Z (handler * option Z) :=
  <[3 := (Breakpoint, None)]>
  (<[8 := (DoubleFault, Some DOUBLE_FAULT_IST_INDEX)]>
  (<[14 := (PageFault, None)]>
  (<[13 := (GeneralProtection, None)]>
  (<[6 := (InvalidOpcode, None)]>
  (<[32 := (TimerInterrupt, None)]> ∅))))).

(** ** Discipline

    [disciplined shared irq held base p]: code that is started with the flag [irq] and the locks
    [held] never takes a lock it has, takes the locks that interrupt handlers wait for only with
    interrupts disabled, and ends with the locks [base]. *)
Fixpoint disciplined (shared : lock → bool) (irq : bool) (held base : list lock) (p : code) : bool :=
  match p with
  | Done => bool_decide (held = base)
  | Forever => true
  | Locked l body k =>
      bool_decide (l ∉ held) && (negb (shared l) || negb irq) &&
      disciplined shared irq (l :: held) (l :: held) body && disciplined shared irq held base k
  | TryLocked l body k =>
      (negb (shared l) || negb irq) && disciplined shared irq (l :: held) (l :: held) body &&
      disciplined shared irq held base k
  | WithoutInterrupts body k => disciplined shared false held held body && disciplined shared irq held base k
  | InitPort k | Put _ k | RawPut _ k => disciplined shared irq held base k
  | Unlock l k =>
      match held with l' :: held' => bool_decide (l = l') && disciplined shared irq held' base k | [] => false end
  | Restore saved k =>
      (negb saved || forallb (λ l, negb (shared l)) held) && disciplined shared (saved || irq) held base k
  end.

(** Source code: scopes are still closed. *)
Fixpoint static (p : code) : bool :=
  match p with
  | Done | Forever => true
  | Locked _ body k | TryLocked _ body k | WithoutInterrupts body k => static body && static k
  | InitPort k | Put _ k | RawPut _ k => static k
  | Unlock _ _ | Restore _ _ => false
  end.

(** Every lock the code waits for is shared, and it leaves interrupts disabled. *)
Fixpoint waits_only (shared : lock → bool) (p : code) : bool :=
  match p with
  | Done | Forever => true
  | Locked l body k => shared l && waits_only shared body && waits_only shared k
  | TryLocked _ body k | WithoutInterrupts body k => waits_only shared body && waits_only shared k
  | InitPort k | Put _ k | RawPut _ k | Unlock _ k => waits_only shared k
  | Restore saved k => negb saved && waits_only shared k
  end.

(** ** No deadlock *)
Lemma disciplined_seq shared irq held base p k :
  static p = true → disciplined shared irq held held p = true → disciplined shared irq held base k = true →
  disciplined shared irq held base (seq p k) = true.
Proof.
  intros Hs Hp Hk. induction p; simpl in *; rewrite ?andb_true_iff in *; naive_solver.
Qed.

Lemma waits_only_seq shared p k :
  waits_only shared p = true → waits_only shared k = true → waits_only shared (seq p k) = true.
Proof. intros Hp Hk. induction p; simpl in *; rewrite ?andb_true_iff in *; naive_solver. Qed.

Lemma static_seq p k : static p = true → static k = true → static (seq p k) = true.
Proof. intros Hp Hk. induction p; simpl in *; rewrite ?andb_true_iff in *; naive_solver. Qed.

(** [static] scopes below the spine: what is left of source code after some steps. *)
Fixpoint scoped (p : code) : bool :=
  match p with
  | Done | Forever => true
  | Locked _ body k | TryLocked _ body k | WithoutInterrupts body k => static body && scoped k
  | InitPort k | Put _ k | RawPut _ k | Unlock _ k | Restore _ k => scoped k
  end.

Lemma static_scoped p : static p = true → scoped p = true.
Proof. induction p; simpl; rewrite ?andb_true_iff; naive_solver. Qed.

Lemma scoped_seq p k : scoped p = true → scoped k = true → scoped (seq p k) = true.
Proof. intros Hp Hk. induction p; simpl in *; rewrite ?andb_true_iff in *; naive_solver. Qed.

Lemma filter_head (l : lock) ls : NoDup (l :: ls) → filter (.≠ l) (l :: ls) = ls.
Proof.
  intros [Hl _]%NoDup_cons. rewrite filter_cons, decide_False by (intros H; by apply H).
  apply filter_all. intros x Hx ->. done.
Qed.

Definition unshared (shared : lock → bool) (ls : list lock) : Prop := Forall (λ l, shared l = false) ls.

(** The facts about one frame that every step keeps. *)
Record frame_ok (shared : lock → bool) (irq : bool) (held : list lock) (p : code) : Prop := {
  fr_disciplined : disciplined shared irq held [] p = true;
  fr_scoped : scoped p = true;
  fr_unshared : irq = true → unshared shared held;
}.

Ltac unfold_checks := cbn [disciplined scoped waits_only] in *; rewrite ?andb_true_iff, ?orb_true_iff, ?negb_true_iff in *.

Lemma frame_enter shared irq held l body k :
  (shared l = false ∨ irq = false) → frame_ok shared irq held k → static body = true →
  disciplined shared irq (l :: held) (l :: held) body = true → frame_ok shared irq (l :: held) (seq body (Unlock l k)).
Proof.
  intros Hl [Hd Hs Hu] Hb Hbd. split.
  - apply disciplined_seq; [done..|]. simpl. by rewrite bool_decide_eq_true_2.
  - apply scoped_seq; [by apply static_scoped|done].
  - intros Hi. constructor; [destruct Hl; congruence|by apply Hu].
Qed.

Lemma exec_frame shared c p rest hh hm c' :
  exec c = Some c' → c_stack c = p :: rest → c_held c = hh ++ hm → NoDup (c_held c) → p ≠ Done →
  frame_ok shared (c_if c) hh p →
  ∃ p' hh', c_stack c' = p' :: rest ∧ c_held c' = hh' ++ hm ∧ NoDup (c_held c') ∧ frame_ok shared (c_if c') hh' p' ∧
            (waits_only shared p = true → c_if c = false → waits_only shared p' = true ∧ c_if c' = false).
Proof.
  intros He Hst Hheld Hnd Hp [Hd Hs Hu]. unfold exec in He. rewrite Hst in He. rewrite Hheld in *.
  destruct p as [|l body k|l body k|body k|k|b k|b k| |l k|saved k]; [done| | | | | | | | |]; unfold_checks.
  - case_decide as Hin; simplify_eq/=. destruct Hd as [[[_ Hl] Hb] Hk], Hs as [Hsb Hsk].
    eexists _, (l :: hh). split; [done|]. split; [done|]. split; [by constructor|]. split; [by apply frame_enter|].
    intros Hw ->. unfold_checks. split; [|done]. apply waits_only_seq; by destruct Hw as [[? ?] ?].
  - destruct Hd as [[Hl Hb] Hk], Hs as [Hsb Hsk]. case_decide as Hin; simplify_eq/=.
    + eexists _, hh. split; [done|]. split; [done|]. split; [done|]. split; [by split|]. intros Hw ?. unfold_checks. tauto.
    + eexists _, (l :: hh). split; [done|]. split; [done|]. split; [by constructor|]. split; [by apply frame_enter|].
      intros Hw ->. unfold_checks. split; [|done]. apply waits_only_seq; tauto.
  - simplify_eq/=. destruct Hd as [Hb Hk], Hs as [Hsb Hsk]. eexists _, hh. do 3 (split; [done|]). split.
    + split; [|apply scoped_seq; [by apply static_scoped|done]|done]. apply disciplined_seq; [done..|].
      simpl. rewrite orb_false_r, Hk, andb_true_r. destruct (c_if c); [|done]. simpl. apply forallb_forall.
      intros x Hx%list_elem_of_In. pose proof (proj1 (Forall_forall _ _) (Hu eq_refl) x Hx) as E. simpl in E. by rewrite E.
    + intros Hw Hif. unfold_checks. destruct Hw. split; [|done]. apply waits_only_seq; [done|]. simpl. by rewrite Hif.
  - simplify_eq/=. eexists _, hh. do 3 (split; [done|]). split; [by split|done].
  - simplify_eq/=. eexists _, hh. do 3 (split; [done|]). split; [by split|done].
  - simplify_eq/=. eexists _, hh. do 3 (split; [done|]). split; [by split|done].
  - simplify_eq/=. eexists _, hh. split; [done|]. split; [done|]. rewrite Hheld. do 2 (split; [done|]). done.
  - destruct hh as [|l' hh]; [done|]. rewrite andb_true_iff, bool_decide_eq_true in Hd. destruct Hd as [<- Hk].
    injection He as <-. eexists _, hh. split; [done|]. cbn [c_held c_if].
    change ((l :: hh) ++ hm) with (l :: (hh ++ hm)) in *. rewrite filter_head by done.
    split; [done|]. split; [by apply NoDup_cons in Hnd as []|]. split; [|done]. split; [done..|].
    intros Hi. specialize (Hu Hi). by inversion Hu.
  - simplify_eq/=. destruct Hd as [Hsv Hk]. eexists _, hh. do 3 (split; [done|]). split; [split; [done..|]|].
    + intros Hi. destruct saved; [|auto]. destruct Hsv as [|Hsv]; [done|]. apply Forall_forall.
      intros x Hx. rewrite forallb_forall in Hsv. apply negb_true_iff, Hsv. by apply list_elem_of_In.
    + intros Hw ->. unfold_checks. by destruct Hw as [-> ?].
Qed.

(** The task runs alone, or one handler runs on top of it: interrupts stay disabled meanwhile. *)
Definition cpu_ok (shared : lock → bool) (c : cpu) : Prop :=
  NoDup (c_held c) ∧
  match c_stack c with
  | [m] => frame_ok shared (c_if c) (c_held c) m
  | [h; m] => c_if c = false ∧ ∃ hh hm, c_held c = hh ++ hm ∧
      frame_ok shared false hh h ∧ waits_only shared h = true ∧ frame_ok shared true hm m
  | _ => False
  end.

(** What a handler may be. *)
Definition handler_ok (shared : lock → bool) (h : code) : Prop :=
  static h = true ∧ disciplined shared false [] [] h = true ∧ waits_only shared h = true.

Lemma exec_ok shared c c' : cpu_ok shared c → exec c = Some c' → cpu_ok shared c'.
Proof.
  intros [Hnd Hok] He. destruct (c_stack c) as [|p [|m [|]]] eqn:Hst; [done| | |done].
  - destruct (decide (p = Done)) as [->|Hp]; [unfold exec in He; by rewrite Hst in He|].
    destruct (exec_frame shared c p [] (c_held c) [] c') as (p' & hh & Est & Ehd & Hnd' & Hf & _);
      [done|done|by rewrite app_nil_r|done..|].
    split; [done|]. rewrite Est. by rewrite Ehd, app_nil_r.
  - destruct Hok as (Hif & hh & hm & Hheld & Hh & Hw & Hm). destruct (decide (p = Done)) as [->|Hp].
    + unfold exec in He. rewrite Hst in He. simplify_eq/=. split; [done|]. simpl. destruct Hh as [Hd _ _]. simpl in Hd.
      apply bool_decide_eq_true in Hd as ->. by rewrite Hheld.
    + rewrite <- Hif in Hh. destruct (exec_frame shared c p [m] hh hm c') as (p' & hh' & Est & Ehd & Hnd' & Hf & Hk);
        [done..|]. destruct (Hk Hw Hif) as [Hw' Hif']. split; [done|]. rewrite Est. split; [done|].
      exists hh', hm. by rewrite Hif' in Hf.
Qed.

Lemma step_ok shared handlers c c' :
  (∀ h, handlers h → handler_ok shared h) → cpu_ok shared c → cpu_step handlers c c' → cpu_ok shared c'.
Proof.
  intros Hh Hok [c1 He|h Hhd Hif _]; [by eapply exec_ok|]. destruct Hok as [Hnd Hok]. split; [done|]. simpl.
  destruct (c_stack c) as [|p [|m [|]]]; [done| | |done].
  - split; [done|]. destruct (Hh h Hhd) as (Hs & Hd & Hw). exists [], (c_held c). split; [done|].
    split; [split; [done|by apply static_scoped|done]|]. split; [done|]. by rewrite Hif in Hok.
  - destruct Hok as [? _]. congruence.
Qed.

Lemma cpu_ok_not_spinning shared c : cpu_ok shared c → ¬ spinning c.
Proof.
  intros [_ Hok]. unfold spinning. destruct (c_stack c) as [|p [|m [|]]]; [done| | |done].
  - destruct p as [|l body k| | | | | | | |]; try tauto. destruct Hok as [Hd _ _]. unfold_checks.
    destruct Hd as [[[Hl _] _] _]. by apply bool_decide_eq_true in Hl.
  - destruct Hok as (_ & hh & hm & -> & [Hd _ _] & Hw & [_ _ Hu]). destruct p as [|l body k| | | | | | | |]; try tauto.
    unfold_checks. destruct Hd as [[[Hl _] _] _], Hw as [[Hw _] _]. apply bool_decide_eq_true in Hl.
    intros [Hin|Hin]%elem_of_app; [done|]. specialize (Hu eq_refl). unfold unshared in Hu. rewrite Forall_forall in Hu.
    specialize (Hu l Hin). simpl in Hu. congruence.
Qed.

(** ** The calls of a task

    Messages through println, and scopes of locks. *)
Inductive calls : Type :=
| Return
| Say (msg : list Z) (k : calls)
| Take (l : lock) (body k : calls).

Fixpoint code_of (cs : calls) : code :=
  match cs with
  | Return => Done
  | Say msg k => seq (println msg) (code_of k)
  | Take l body k => Locked l (code_of body) (code_of k)
  end.

(** No lock is taken twice, and SERIAL only by serial.rs. *)
Fixpoint fits (held : list lock) (cs : calls) : bool :=
  match cs with
  | Return => true
  | Say _ k => fits held k
  | Take l body k => bool_decide (l ∉ held) && bool_decide (l ≠ SERIAL) && fits (l :: held) body && fits held k
  end.

(** Some lock of [f] is taken; only locks of [f] are. *)
Fixpoint uses (f : lock → bool) (cs : calls) : bool :=
  match cs with
  | Return => false
  | Say _ k => uses f k
  | Take l body k => f l || uses f body || uses f k
  end.

Definition uses_only (f : lock → bool) (cs : calls) : bool := negb (uses (λ l, negb (f l)) cs).

(** The lines it writes. *)
Fixpoint lines (cs : calls) : list (list Z) :=
  match cs with
  | Return => []
  | Say msg k => (msg ++ [10]) :: lines k
  | Take _ body k => lines body ++ lines k
  end.

(** The locks that the timer interrupt waits for; it only tries the others. *)
Definition waited (l : lock) : bool :=
  match l with INTERFACE | SOCKETS | DEVICE | ALLOCATOR => true | _ => false end.

Definition shared_locks (l : lock) : bool := waited l || bool_decide (l = SERIAL).

(** The timer interrupt at any tick, with any expired requests and deadlines.  The interface may do anything with the
    device and the heap when it is polled, and write messages. *)
Definition timer_interrupt (h : code) : Prop :=
  ∃ t polled expired fired, h = timer_code t (code_of polled) expired fired ∧
    fits [SOCKETS; INTERFACE] polled = true ∧ uses_only waited polled = true.

Lemma static_calls cs : static (code_of cs) = true.
Proof.
  induction cs as [|msg k IH|l body IHb k IHk]; [done|simpl|simpl; by rewrite IHb, IHk].
  rewrite IH, andb_true_r. generalize (msg ++ [10]) as m. intros m. by induction m.
Qed.

Lemma disciplined_puts shared irq held base m k :
  disciplined shared irq held base (puts m k) = disciplined shared irq held base k.
Proof. by induction m. Qed.

(** Calls keep the discipline with interrupts disabled, and with interrupts enabled when they take no shared lock. *)
Lemma disciplined_calls irq held cs :
  fits held cs = true → (SERIAL ∉ held) → (irq = true → uses waited cs = false) →
  disciplined shared_locks irq held held (code_of cs) = true.
Proof.
  revert held. induction cs as [|msg k IH|l body IHb k IHk]; intros held Hf Hs Hu; simpl in *.
  - by rewrite bool_decide_eq_true_2.
  - rewrite IH by done. rewrite andb_true_r, disciplined_puts. simpl. by rewrite !bool_decide_eq_true_2.
  - rewrite !andb_true_iff in Hf. destruct Hf as [[[Hl%bool_decide_eq_true Hns%bool_decide_eq_true] Hb] Hk].
    rewrite bool_decide_eq_true_2 by done.
    assert (Hparts : irq = true → waited l = false ∧ uses waited body = false ∧ uses waited k = false).
    { intros Hi. specialize (Hu Hi). rewrite !orb_false_iff in Hu. tauto. }
    rewrite IHb, IHk; [|done|done|naive_solver|done|set_solver|naive_solver]. rewrite !andb_true_r. simpl.
    destruct irq; [|by rewrite orb_true_r]. unfold shared_locks. destruct (Hparts eq_refl) as (-> & _ & _).
    by rewrite bool_decide_eq_false_2.
Qed.

Lemma waits_only_calls cs : uses_only waited cs = true → waits_only shared_locks (code_of cs) = true.
Proof.
  unfold uses_only. induction cs as [|msg k IH|l body IHb k IHk]; intros Hu; simpl in *; [done| |].
  - rewrite IH by done. rewrite andb_true_r. generalize (msg ++ [10]) as m. intros m. by induction m.
  - rewrite negb_true_iff, !orb_false_iff, negb_false_iff in Hu. destruct Hu as [[Hl Hb] Hk].
    rewrite IHb, IHk by (by rewrite ?Hb, ?Hk). unfold shared_locks. by rewrite Hl.
Qed.

(** ** The timer handler keeps the discipline *)
Lemma unblocks_ok l held k :
  (ALLOCATOR ∉ held) → static k = true → disciplined shared_locks false held held k = true → waits_only shared_locks k = true →
  static (unblocks l k) = true ∧ disciplined shared_locks false held held (unblocks l k) = true ∧ waits_only shared_locks (unblocks l k) = true.
Proof.
  intros Ha Hs Hd Hw. induction l as [|[freed grown] l (IH1 & IH2 & IH3)]; [done|]. cbn [unblocks].
  assert (Hg : disciplined shared_locks false (SCHEDULER :: held) (SCHEDULER :: held) (if grown then allocate Done else Done) = true).
  { destruct grown; simpl; [|by rewrite bool_decide_eq_true_2]. rewrite !bool_decide_eq_true_2 by set_solver. done. }
  assert (Hn : disciplined shared_locks false held held (TryLocked SCHEDULER (if grown then allocate Done else Done) (unblocks l k)) = true).
  { cbn [disciplined]. by rewrite Hg, IH2, orb_true_r. }
  destruct freed; cbn [static disciplined waits_only allocate]; rewrite ?Hn, ?IH1, ?IH3, ?orb_true_r.
  - rewrite !bool_decide_eq_true_2 by (done || set_solver). by destruct grown.
  - cbn [disciplined] in Hn. rewrite Hg, IH2. by destruct grown.
Qed.

Lemma timer_interrupt_ok h : timer_interrupt h → handler_ok shared_locks h.
Proof.
  intros (t & polled & expired & fired & -> & Hf & Hu). unfold timer_code.
  assert (Hpoll : handler_ok shared_locks (if t mod 10 =? 0 then poll_code (code_of polled) else Done)).
  { destruct (_ =? 0); [|by split]. split; [simpl; by rewrite static_calls|]. split.
    - unfold poll_code. cbn [disciplined]. rewrite disciplined_calls by (done || set_solver). rewrite !bool_decide_eq_true_2 by set_solver. done.
    - simpl. by rewrite waits_only_calls. }
  assert (Htick : handler_ok shared_locks (tick_code fired)).
  { destruct (unblocks_ok fired [DEADLINES] Done) as (H1 & H2 & H3); [set_solver|done..|].
    split; [simpl; by rewrite H1|]. split; [cbn [tick_code disciplined]; by rewrite H2|simpl; by rewrite H3]. }
  assert (Hcheck : handler_ok shared_locks (if t mod 50 =? 0 then check_timeouts_code expired else Done)).
  { destruct (t mod 50 =? 0); [|by repeat split]. destruct expired as [|e l]; [by repeat split|].
    destruct (unblocks_ok (e :: l) [PENDING] (allocate Done)) as (H1 & H2 & H3); [set_solver|done..|].
    unfold check_timeouts_code, handler_ok. cbn [static disciplined waits_only allocate]. rewrite H1, H2, H3.
    rewrite !bool_decide_eq_true_2 by set_solver. done. }
  destruct Hpoll as (P1 & P2 & P3), Htick as (T1 & T2 & T3), Hcheck as (C1 & C2 & C3). split; [|split].
  - apply static_seq; [done|]. by apply static_seq.
  - apply disciplined_seq; [done|done|]. by apply disciplined_seq.
  - apply waits_only_seq; [done|]. by apply waits_only_seq.
Qed.

(** ** Whole messages *)

(** What is left of source code that writes the lines [l] through println and nothing else.  [tries]: it may try
    locks, and the lines of such a scope count. *)
Inductive prints (tries : bool) : code → list (list Z) → Prop :=
| pr_done : prints tries Done []
| pr_locked l body k l1 l2 : prints tries body l1 → prints tries k l2 → prints tries (Locked l body k) (l1 ++ l2)
| pr_try l body k l1 l2 : tries = true → prints tries body l1 → prints tries k l2 → prints tries (TryLocked l body k) (l1 ++ l2)
| pr_print x k l : prints tries k l → prints tries (seq (println x) k) ((x ++ [10]) :: l)
| pr_unlock lk k l : prints tries k l → prints tries (Unlock lk k) l
| pr_restore saved k l : prints tries k l → prints tries (Restore saved k) l.

Definition is_line (m : list Z) : Prop := ∃ x, m = x ++ [10].

Lemma prints_lines tries p l : prints tries p l → Forall is_line l.
Proof. induction 1; try done; [by apply Forall_app|by apply Forall_app|]. constructor; [by eexists|done]. Qed.

Lemma prints_tries p l : prints false p l → prints true p l.
Proof.
  induction 1; [apply pr_done|by apply pr_locked|done|by apply pr_print|by apply pr_unlock|by apply pr_restore].
Qed.

Lemma prints_seq tries p q l1 l2 : prints tries p l1 → prints tries q l2 → prints tries (seq p q) (l1 ++ l2).
Proof.
  intros Hp Hq. induction Hp as [|l body k la lb Hb _ Hk IH|l body k la lb Ht Hb _ Hk IH|x k l Hk IH|lk k l Hk IH|saved k l Hk IH];
    rewrite <- ?app_assoc; [exact Hq|by apply pr_locked|by apply pr_try|by apply pr_print|by apply pr_unlock|by apply pr_restore].
Qed.

Lemma prints_calls cs : prints false (code_of cs) (lines cs).
Proof. induction cs as [|msg k IH|l body IHb k IHk]; simpl; [constructor|by apply pr_print|by constructor]. Qed.

Lemma prints_allocate k l : prints true k l → prints true (allocate k) l.
Proof. intros Hk. exact (pr_locked _ ALLOCATOR Done k [] l (pr_done _) Hk). Qed.

Lemma prints_unblocks es k l : prints true k l → prints true (unblocks es k) l.
Proof.
  intros Hk. induction es as [|[freed grown] es IH]; [done|]. cbn [unblocks].
  assert (Hn : prints true (TryLocked SCHEDULER (if grown then allocate Done else Done) (unblocks es k)) l).
  { apply (pr_try _ SCHEDULER _ _ [] l); [done| |done]. destruct grown; [apply prints_allocate|]; constructor. }
  destruct freed; [by apply prints_allocate|done].
Qed.

Lemma prints_timer h : timer_interrupt h → ∃ l, prints true h l.
Proof.
  intros (t & polled & expired & fired & -> & _ & _). exists ((if t mod 10 =? 0 then lines polled ++ [] ++ [] else []) ++ [] ++ []).
  unfold timer_code. apply prints_seq; [|apply prints_seq].
  - destruct (_ =? 0); [|constructor]. rewrite app_assoc.
    constructor; [constructor; [apply prints_tries, prints_calls|constructor]|constructor].
  - destruct (_ =? 0); [|constructor]. apply (pr_try _ PENDING _ _ [] []); [done| |constructor].
    destruct expired; [constructor|]. apply prints_allocate, prints_unblocks, prints_allocate. constructor.
  - apply (pr_try _ DEADLINES _ _ [] []); [done|apply prints_unblocks|]; constructor.
Qed.

Lemma seq_puts m k : seq (puts m Done) k = puts m k.
Proof. induction m as [|b m IH]; simpl; [done|]. by rewrite IH. Qed.

(** In the middle of the message [m], with [k] after it: before its lock is taken, or with [post] of it still to be
    written; interrupts are disabled. *)
Definition printing (c : cpu) (ms : list (list Z)) (m : list Z) (k p : code) : Prop :=
  c_if c = false ∧
  ((p = Locked SERIAL (puts m Done) k ∧ c_out c = concat ms) ∨
   ∃ pre post, m = pre ++ post ∧ p = puts post (Unlock SERIAL k) ∧ c_out c = concat ms ++ pre).

(** The code that runs will write the lines [l], after the messages [ms] that are out. *)
Definition writes (tries : bool) (c : cpu) (ms : list (list Z)) (p : code) (l : list (list Z)) : Prop :=
  (prints tries p l ∧ c_out c = concat ms) ∨
  (∃ m k l', l = m :: l' ∧ is_line m ∧ prints tries k l' ∧ printing c ms m k p).

Lemma writes_lines tries c ms p l : writes tries c ms p l → Forall is_line l.
Proof.
  intros [[Hp _]|(m & k & l' & -> & Hm & Hk & _)]; [by eapply prints_lines|]. constructor; [done|by eapply prints_lines].
Qed.

(** One step of the code that runs: a message more may be out, and then it is the next one.  A lock that is tried and
    not free cuts the lines of its scope. *)
Lemma exec_writes tries c c' ms p rest l :
  exec c = Some c' → c_stack c = p :: rest → c_port c = true → p ≠ Done → writes tries c ms p l →
  ∃ p' ms' l', c_stack c' = p' :: rest ∧ c_port c' = true ∧ writes tries c' (ms ++ ms') p' l' ∧ ms' `prefix_of` l ∧
    (tries = false → ms' ++ l' = l).
Proof.
  intros He Hst Hport Hp Hw. unfold exec in He. rewrite Hst in He.
  assert (Hquiet : ∀ p' l', c_stack c' = p' :: rest → c_port c' = true → writes tries c' ms p' l' → (tries = false → l' = l) →
    ∃ p' ms' l', c_stack c' = p' :: rest ∧ c_port c' = true ∧ writes tries c' (ms ++ ms') p' l' ∧ ms' `prefix_of` l ∧ (tries = false → ms' ++ l' = l)).
  { intros p' l' H1 H2 H3 H4. exists p', [], l'. rewrite app_nil_r. do 3 (split; [done|]). split; [apply prefix_nil|done]. }
  destruct Hw as [[Hpr Hout]|(m & k & l0 & -> & Hline & Hk & Hif & Hmid)].
  - destruct Hpr as [|lk body k l1 l2 Hb Hk|lk body k l1 l2 Ht Hb Hk|x k l2 Hk|lk k l2 Hk|saved k l2 Hk]; [done| | | | |].
    + case_decide; simplify_eq/=. eapply (Hquiet _ (l1 ++ l2)); [done|done| |done]. left. split; [|done]. apply prints_seq; [done|by constructor].
    + case_decide; simplify_eq/=.
      * eapply (Hquiet _ l2); [done|done|by left|done].
      * eapply (Hquiet _ (l1 ++ l2)); [done|done| |done]. left. split; [|done]. apply prints_seq; [done|by constructor].
    + simplify_eq/=. eapply (Hquiet _ ((x ++ [10]) :: l2)); [done|done| |done]. right. exists (x ++ [10]), (Restore (c_if c) k), l2.
      split; [done|]. split; [by eexists|]. split; [by constructor|]. split; [done|]. by left.
    + simplify_eq/=. eapply (Hquiet _ l2); [done|done|by left|done].
    + simplify_eq/=. eapply (Hquiet _ l2); [done|done|by left|done].
  - destruct Hmid as [[-> Hout]|(pre & post & -> & -> & Hout)].
    + case_decide; simplify_eq/=. eapply (Hquiet _ (m :: l0)); [done|done| |done]. right. exists m, k, l0. do 3 (split; [done|]).
      split; [done|]. right. exists [], m. split; [done|]. split; [by rewrite seq_puts|]. by rewrite app_nil_r.
    + destruct post as [|b post]; simplify_eq/=.
      * eexists _, [pre ++ []], l0. do 2 (split; [done|]). split; [|split; [by eexists|done]]. left. split; [done|].
        cbn [c_out]. by rewrite Hout, concat_app; simpl; rewrite !app_nil_r.
      * eapply (Hquiet _ ((pre ++ b :: post) :: l0)); [done|done| |done]. right. exists (pre ++ b :: post), k, l0. do 3 (split; [done|]).
        split; [done|]. right. exists (pre ++ [b]), post. split; [by rewrite <- app_assoc|]. split; [done|]. simpl. by rewrite Hport, Hout, app_assoc.
Qed.

(** The task has written the lines [old] of its lines [all], in order, among the messages [ms] that are out. *)
Definition out_ok (all : list (list Z)) (c : cpu) : Prop :=
  c_port c = true ∧ ∃ ms old new, Forall is_line ms ∧ old ++ new = all ∧ old `sublist_of` ms ∧
  match c_stack c with
  | [p] => writes false c ms p new
  | [h; p] => prints false p new ∧ ∃ l, writes true c ms h l
  | _ => False
  end.

Lemma prefix_Forall {A} (Q : A → Prop) l1 l2 : l1 `prefix_of` l2 → Forall Q l2 → Forall Q l1.
Proof. intros [k ->] [H _]%Forall_app. done. Qed.

Lemma step_out all c c' :
  cpu_ok shared_locks c → out_ok all c → cpu_step timer_interrupt c c' → out_ok all c'.
Proof.
  intros [_ Hok] (Hport & ms & old & new & Hms & Hall & Hsub & Hst) Hstep. destruct (c_stack c) as [|p [|q [|]]] eqn:Es; [done| | |done].
  - destruct Hstep as [c1 He|h Hh Hif _].
    + destruct (decide (p = Done)) as [->|Hp]; [unfold exec in He; by rewrite Es in He|].
      destruct (exec_writes false c c1 ms p [] new He Es Hport Hp Hst) as (p' & ms' & l' & E' & Hport' & Hw & Hpre & Heq).
      split; [done|]. exists (ms ++ ms'), (old ++ ms'), l'. split; [apply Forall_app; split; [done|]; eapply prefix_Forall, writes_lines; done|].
      split; [by rewrite <- app_assoc, Heq|]. split; [by apply sublist_app|]. by rewrite E'.
    + split; [done|]. exists ms, old, new. do 3 (split; [done|]). simpl. rewrite Es.
      destruct Hst as [[Hp Hout]|(m & k & l' & _ & _ & _ & Hif' & _)]; [|congruence].
      split; [done|]. destruct (prints_timer h Hh) as [l Hl]. exists l. by left.
  - destruct Hst as [Hq [l Hw]]. destruct Hstep as [c1 He|h Hh Hif _].
    + destruct (decide (p = Done)) as [->|Hp].
      * unfold exec in He. rewrite Es in He. simplify_eq/=. split; [done|]. exists ms, old, new. do 3 (split; [done|]). left.
        split; [done|]. destruct Hw as [[_ Hout]|(m & k & l' & _ & _ & _ & _ & [[? _]|(pre & post & _ & Hp & _)])]; [done|done|].
        by destruct post.
      * destruct (exec_writes true c c1 ms p [q] l He Es Hport Hp Hw) as (p' & ms' & l' & E' & Hport' & Hw' & Hpre & _).
        split; [done|]. exists (ms ++ ms'), old, new. split; [apply Forall_app; split; [done|]; eapply prefix_Forall, writes_lines; done|].
        split; [done|]. split; [by apply sublist_inserts_r|]. rewrite E'. split; [done|]. by exists l'.
    + destruct Hok as [Hif' _]. congruence.
Qed.

(** ** Running without interrupts *)
Fixpoint steps (n : nat) (c : cpu) : cpu :=
  match n with O => c | S n' => match exec c with Some c' => steps n' c' | None => c end end.

Lemma steps_rtc handlers n c : rtc (cpu_step handlers) c (steps n c).
Proof.
  revert c. induction n as [|n IH]; intros c; simpl; [apply rtc_refl|].
  destruct (exec c) as [c'|] eqn:E; [|apply rtc_refl]. eapply rtc_l; [by apply cs_exec|apply IH].
Qed.

Section runs.
Context (handlers : code → Prop).
Local Abbreviation run := (rtc (cpu_step handlers)).

Lemma run_exec c c' c'' : exec c = Some c' → run c' c'' → run c c''.
Proof. intros He Hr. eapply rtc_l; [by apply cs_exec|done]. Qed.

(** A message is written and the flag is as before. *)
Lemma run_puts i held out m k rest :
  run (mkCpu i held true out (puts m k :: rest)) (mkCpu i held true (out ++ m) (k :: rest)).
Proof.
  revert out. induction m as [|b m IH]; intros out; simpl; [rewrite app_nil_r; apply rtc_refl|].
  eapply run_exec; [reflexivity|]. simpl. replace (out ++ b :: m) with ((out ++ [b]) ++ m) by (by rewrite <- app_assoc). apply IH.
Qed.

Lemma run_print held out m k :
  NoDup held → (SERIAL ∉ held) →
  run (mkCpu true held true out [seq (println m) k]) (mkCpu true held true (out ++ m ++ [10]) [k]).
Proof.
  intros Hnd Hs. simpl. eapply run_exec; [reflexivity|]. simpl. eapply run_exec; [unfold exec; simpl; by rewrite decide_False|].
  simpl. rewrite seq_puts. etrans; [apply run_puts|]. eapply run_exec; [reflexivity|]. simpl.
  eapply run_exec; [reflexivity|]. simpl. rewrite (filter_head SERIAL held) by (by constructor). apply rtc_refl.
Qed.

(** Calls run to their end. *)
Lemma run_calls cs held out k :
  NoDup held → (SERIAL ∉ held) → fits held cs = true →
  ∃ out', run (mkCpu true held true out [seq (code_of cs) k]) (mkCpu true held true out' [k]).
Proof.
  revert held out k. induction cs as [|msg cs IH|l body IHb cs IHk]; intros held out k Hnd Hs Hf.
  - exists out. apply rtc_refl.
  - destruct (IH held (out ++ msg ++ [10]) k Hnd Hs Hf) as [out' Hr]. exists out'. etrans; [|exact Hr].
    exact (run_print held out msg (seq (code_of cs) k) Hnd Hs).
  - cbn [fits] in Hf. rewrite !andb_true_iff in Hf. destruct Hf as [[[Hl%bool_decide_eq_true Hns%bool_decide_eq_true] Hb] Hk].
    destruct (IHb (l :: held) out (Unlock l (seq (code_of cs) k))) as [out1 H1]; [by constructor|set_solver|done|].
    destruct (IHk held out1 k Hnd Hs Hk) as [out2 H2]. exists out2.
    simpl. eapply run_exec; [unfold exec; simpl; by rewrite decide_False|]. simpl. etrans; [exact H1|].
    eapply run_exec; [reflexivity|]. cbn [c_if c_held c_port c_out]. rewrite (filter_head l held) by (by constructor). exact H2.
Qed.

(** A task that takes a lock of [f] comes to hold one, with interrupts enabled. *)
Lemma run_uses f cs held out k :
  NoDup held → (SERIAL ∉ held) → fits held cs = true → uses f cs = true →
  ∃ l held' out' p, f l = true ∧ l ∈ held' ∧ run (mkCpu true held true out [seq (code_of cs) k]) (mkCpu true held' true out' [p]).
Proof.
  revert held out k. induction cs as [|msg cs IH|l body IHb cs IHk]; intros held out k Hnd Hs Hf Hu; [done| |].
  - destruct (IH held (out ++ msg ++ [10]) k Hnd Hs Hf Hu) as (l & h & o & p & Hl & Hin & Hr). exists l, h, o, p.
    do 2 (split; [done|]). etrans; [|exact Hr]. exact (run_print held out msg (seq (code_of cs) k) Hnd Hs).
  - cbn [fits] in Hf. rewrite !andb_true_iff in Hf. destruct Hf as [[[Hl%bool_decide_eq_true Hns%bool_decide_eq_true] Hb] Hk].
    cbn [uses] in Hu. rewrite !orb_true_iff in Hu.
    assert (Henter : exec (mkCpu true held true out [seq (code_of (Take l body cs)) k]) =
      Some (mkCpu true (l :: held) true out [seq (code_of body) (Unlock l (seq (code_of cs) k))])).
    { simpl. unfold exec. simpl. by rewrite decide_False. }
    destruct Hu as [[Hu|Hu]|Hu].
    + eexists l, (l :: held), out, _. split; [done|]. split; [set_solver|]. eapply run_exec; [exact Henter|apply rtc_refl].
    + destruct (IHb (l :: held) out (Unlock l (seq (code_of cs) k))) as (l' & h & o & p & Hl' & Hin & Hr);
        [by constructor|set_solver|done|done|]. exists l', h, o, p. do 2 (split; [done|]). by eapply run_exec.
    + destruct (run_calls body (l :: held) out (Unlock l (seq (code_of cs) k))) as [o1 H1]; [by constructor|set_solver|done|].
      destruct (IHk held o1 k Hnd Hs Hk Hu) as (l' & h & o & p & Hl' & Hin & Hr). exists l', h, o, p. do 2 (split; [done|]).
      eapply run_exec; [exact Henter|]. etrans; [exact H1|]. eapply run_exec; [reflexivity|]. cbn [c_if c_held c_port c_out].
      rewrite (filter_head l held) by (by constructor). exact Hr.
Qed.
End runs.

Lemma seq_done p : seq p Done = p.
Proof. induction p; simpl; congruence. Qed.

(** What the console shows. *)
Lemma writes_shows tries c ms p l :
  writes tries c ms p l →
  ∃ pre, c_out c = concat ms ++ pre ∧ (c_if c = true → pre = []) ∧ (pre = [] ∨ ∃ m, is_line m ∧ pre `prefix_of` m).
Proof.
  intros [[_ Hout]|(m & k & l' & _ & Hline & _ & Hif & [[_ Hout]|(pre & post & -> & _ & Hout)])].
  - exists []. rewrite app_nil_r. auto.
  - exists []. rewrite app_nil_r. auto.
  - exists pre. split; [done|]. split; [congruence|]. right. exists (pre ++ post). split; [done|]. by eexists.
Qed.

Lemma out_ok_shows all c :
  out_ok all c →
  ∃ ms pre, Forall is_line ms ∧ c_out c = concat ms ++ pre ∧ (c_if c = true → pre = []) ∧
            (pre = [] ∨ ∃ m, is_line m ∧ pre `prefix_of` m) ∧ (c_stack c = [Done] → all `sublist_of` ms).
Proof.
  intros (_ & ms & old & new & Hms & Hall & Hsub & Hst). exists ms. destruct (c_stack c) as [|p [|q [|]]] eqn:Es; [done| | |done].
  - destruct (writes_shows _ _ _ _ _ Hst) as (pre & H1 & H2 & H3). exists pre. do 4 (split; [done|]). intros [= ->].
    destruct Hst as [[Hp _]|(m & k & l' & _ & _ & _ & _ & [[? _]|(a & post & _ & Hp & _)])]; [|done|by destruct post].
    inversion Hp; simplify_eq. by rewrite app_nil_r.
  - destruct Hst as [_ [l Hw]]. destruct (writes_shows _ _ _ _ _ Hw) as (pre & H1 & H2 & H3). exists pre. by do 4 (split; [done|]).
Qed.

(** A poll that receives a packet. *)
Definition receives : calls := Take DEVICE (Take ALLOCATOR Return Return) Return.

(** Taken while such a lock is held, the timer interrupt spins. *)
Lemma timer_spins l held out p :
  waited l = true → l ∈ held →
  ∃ c, rtc (cpu_step timer_interrupt) (mkCpu true held true out [p]) c ∧ spinning c.
Proof.
  intros Hw Hin. set (h := timer_code 10 (code_of receives) [] []).
  assert (Hh : timer_interrupt h) by (exists 10, receives, [], []; done).
  set (c0 := interrupt h (mkCpu true held true out [p])).
  assert (H0 : rtc (cpu_step timer_interrupt) (mkCpu true held true out [p]) c0) by (apply rtc_once; by apply cs_interrupt).
  destruct (decide (INTERFACE ∈ held)) as [H1|H1]; [exists c0; by split|].
  set (c1 := steps 1 c0). destruct (decide (SOCKETS ∈ held)) as [H2|H2].
  { exists c1. split; [etrans; [exact H0|apply steps_rtc]|]. subst c1 c0. unfold steps, exec. simpl. rewrite decide_False by done.
    simpl. set_solver. }
  destruct (decide (DEVICE ∈ held)) as [H3|H3].
  { exists (steps 2 c0). split; [etrans; [exact H0|apply steps_rtc]|]. subst c1 c0. unfold steps, exec. simpl. rewrite decide_False by done.
    simpl. rewrite decide_False by set_solver. simpl. set_solver. }
  exists (steps 3 c0). split; [etrans; [exact H0|apply steps_rtc]|]. subst c1 c0. unfold steps, exec. simpl. rewrite decide_False by done.
  simpl. rewrite decide_False by set_solver. simpl. rewrite decide_False by set_solver. simpl. destruct l; set_solver.
Qed.

(** What always holds of a task that takes no lock the timer interrupt waits for. *)
Lemma task_inv cs c :
  fits [] cs = true → uses waited cs = false → rtc (cpu_step timer_interrupt) (task_on_cpu (code_of cs)) c →
  cpu_ok shared_locks c ∧ out_ok (lines cs) c.
Proof.
  intros Hf Hu Hrun. refine (rtc_ind_r (λ c, cpu_ok shared_locks c ∧ out_ok (lines cs) c) _ _ _ c Hrun).
  - split.
    + split; [constructor|]. split; [by apply disciplined_calls; [|set_solver|]|apply static_scoped, static_calls|by constructor].
    + split; [done|]. exists [], [], (lines cs). split; [done|]. split; [done|]. split; [done|]. left. split; [apply prints_calls|done].
  - intros c1 c2 _ Hst [H1 H2]. split; [|by eapply step_out].
    eapply step_ok; [|done|done]. apply timer_interrupt_ok.
Qed.

(** *** Properties *)

(** C10: a task under the timer interrupt.  The task is any sequence of println and scopes of locks, none taken
    twice; the timer interrupt may come at any point where interrupts are enabled, at any tick, with any
    expired requests and deadlines, and the network poll in it may itself write messages.  The processor can come to
    spin for ever if and only if the task takes one of the locks that the interrupt waits for (INTERFACE, SOCKETS,
    DEVICE, ALLOCATOR); println is not among the reasons, since _print disables interrupts around its own lock.  When
    the task takes none of them, the console always shows whole lines, and at most the beginning of one more while
    interrupts are disabled; and when the task is through, all its lines are there, in order. *)
Theorem console_sound (task : calls) :
  fits [] task = true →
  ((∃ c, rtc (cpu_step timer_interrupt) (task_on_cpu (code_of task)) c ∧ spinning c) ↔ uses waited task = true) ∧
  (uses waited task = false → ∀ c, rtc (cpu_step timer_interrupt) (task_on_cpu (code_of task)) c →
   ∃ ms pre, Forall is_line ms ∧ c_out c = concat ms ++ pre ∧ (c_if c = true → pre = []) ∧
             (pre = [] ∨ ∃ m, is_line m ∧ pre `prefix_of` m) ∧ (c_stack c = [Done] → lines task `sublist_of` ms)).
Proof.
  intros Hf. split; [split|].
  - intros (c & Hrun & Hspin). destruct (uses waited task) eqn:Hu; [done|].
    destruct (task_inv task c Hf Hu Hrun) as [Hok _]. by destruct (cpu_ok_not_spinning _ _ Hok).
  - intros Hu. destruct (run_uses timer_interrupt waited task [] [] Done) as (l & held & out & p & Hl & Hin & Hr);
      [constructor|set_solver|done|done|]. rewrite seq_done in Hr. destruct (timer_spins l held out p Hl Hin) as (c & Hc & Hs).
    exists c. split; [etrans; [exact Hr|exact Hc]|done].
  - intros Hu c Hrun. destruct (task_inv task c Hf Hu Hrun) as [_ Hout]. by apply out_ok_shows.
Qed.

(** *** Witnesses *)

(** A task that takes the scheduler's lock and writes two lines, one of them inside. *)
Definition demo_task : calls := Take SCHEDULER (Say [97] Return) (Say [98; 99] Return).

(** A timer interrupt whose poll writes a line. *)
Definition demo_interrupt : code := timer_code 10 (code_of (Say [120] Return)) [] [(false, true)].

(** The interrupt between the two lines; the first byte of the second one is written. *)
Lemma console_sound_witness :
  let c := steps 3 (steps 17 (interrupt demo_interrupt (steps 8 (task_on_cpu (code_of demo_task))))) in
  ¬ spinning c ∧ c_out c = [97; 10] ++ [120; 10] ++ [98] ∧
  ∃ ms pre, Forall is_line ms ∧ c_out c = concat ms ++ pre ∧ (c_if c = true → pre = []) ∧
            (pre = [] ∨ ∃ m, is_line m ∧ pre `prefix_of` m) ∧ (c_stack c = [Done] → lines demo_task `sublist_of` ms).
Proof.
  intros c. destruct (console_sound demo_task eq_refl) as [H1 H2].
  assert (Hrun : rtc (cpu_step timer_interrupt) (task_on_cpu (code_of demo_task)) c).
  { subst c. etransitivity; [apply (steps_rtc _ 8)|]. eapply rtc_l.
    { apply (cs_interrupt _ _ demo_interrupt); [|reflexivity|discriminate]. exists 10, (Say [120] Return), [], [(false, true)]. repeat split. }
    etransitivity; [apply (steps_rtc _ 17)|apply (steps_rtc _ 3)]. }
  split; [intros Hs; discriminate (proj1 H1 (ex_intro _ c (conj Hrun Hs)))|]. split; [reflexivity|exact (H2 eq_refl c Hrun)].
Defined.

(** *** Where the kernel does not keep the discipline *)

(** A timer interrupt that polls, taken while the task is in [poll] itself, spins for good: nothing
    is left to run but the handler, and it waits for the task. *)
Lemma poll_interrupt_spins polled :
  let c := interrupt (timer_code 10 polled [] []) (steps 1 (task_on_cpu (poll_code polled))) in
  rtc (cpu_step (λ h, h = timer_code 10 polled [] [])) (task_on_cpu (poll_code polled)) c ∧
  spinning c ∧ exec c = None ∧ c_if c = false.
Proof.
  split; [|split; [|split]]; [|simpl; by left|reflexivity|reflexivity].
  etransitivity; [apply (steps_rtc _ 1)|]. eapply rtc_l; [|apply rtc_refl].
  by apply cs_interrupt.
Qed.

(** The same through the allocator: a tick with an expired request allocates, and so may the
    interrupted task. *)
Lemma allocator_interrupt_spins :
  let h := timer_code 150 Done [(false, false)] [] in
  let c := steps 6 (interrupt h (steps 1 (task_on_cpu (allocate Done)))) in
  rtc (cpu_step (λ x, x = h)) (task_on_cpu (allocate Done)) c ∧ spinning c ∧ exec c = None ∧ c_if c = false.
Proof.
  split; [|split; [|split]]; [|simpl; set_solver|reflexivity|reflexivity].
  etransitivity; [apply (steps_rtc _ 1)|]. eapply rtc_l; [|apply (steps_rtc _ 6)].
  by apply cs_interrupt.
Qed.

(** An exception is not masked by the flag: one raised while a message is written spins in its own
    message, which is never shown. *)
Lemma fault_in_print_spins msg addr err frame b bytes :
  let c := interrupt (page_fault_handler msg addr err frame) (steps 2 (task_on_cpu (_print (b :: bytes)))) in
  spinning (steps 1 c) ∧ exec (steps 1 c) = None.
Proof. split; [simpl; set_solver|reflexivity]. Qed.

(** [_panic_print] takes no lock: it writes its message whatever is held. *)
Lemma raw_puts_write args next c rest :
  c_stack c = seq (_panic_print args) next :: rest →
  c_out (steps (length args) c) = c_out c ++ args ∧ c_stack (steps (length args) c) = seq Done next :: rest.
Proof.
  revert c. induction args as [|b args IH]; intros c Hst; simpl.
  - by rewrite app_nil_r.
  - unfold exec. rewrite Hst. simpl. destruct (IH (mkCpu (c_if c) (c_held c) (c_port c) (c_out c ++ [b]) (seq (_panic_print args) next :: rest)))
      as [-> ->]; [done|]. simpl. by rewrite <- app_assoc.
Qed.

(** A panic is reported whatever locks are held, and the processor spins in the handler from then on. *)
Lemma panic_reports info c rest :
  c_stack c = panic_handler info :: rest →
  c_out (steps (length info + 1) c) = c_out c ++ info ++ [10] ∧ c_stack (steps (length info + 1) c) = Forever :: rest.
Proof.
  intros H. destruct (raw_puts_write (info ++ [10]) Forever c rest H) as [Ho Hs]. rewrite length_app in Ho, Hs. split; [done|exact Hs].
Qed.
End Console.
