(* ===== verification/Pci.v ===== *)
(** * Pci: pci/mod.rs, enumeration through configuration mechanism 1

    Port I/O is the class [Ports]; [PciBus] states what the two configuration ports do: the
    address written to 0xCF8 selects the register that 0xCFC reads and writes. *)

From S2P Require Import Prelude.

(** The x86 [in] and [out] instructions on a machine [P]. *)
Class Ports (P : Type) : Type := {
  in8 : Z → P → Z * P;
  in16 : Z → P → Z * P;
  in32 : Z → P → Z * P;
  out8 : Z → Z → P → P;
  out16 : Z → Z → P → P;
  out32 : Z → Z → P → P;
}.

Module Pci.

Definition PCI_CONFIG_ADDR : Z := 0xCF8.
Definition PCI_CONFIG_DATA : Z := 0xCFC.

Record PciDevice : Type := mkPci {
  bus : Z;
  device : Z;
  function : Z;
  vendor_id : Z;
  device_id : Z;
  class_code : Z;
  subclass : Z;
  header_type : Z;
  bars : list Z;
  interrupt_line : Z;
}.

(** The address word of both accessors. *)
Definition config_address (bus device function offset : Z) : Z :=
  Z.lor (Z.lor (Z.lor (Z.lor (Z.shiftl 1 31) (Z.shiftl bus 16)) (Z.shiftl device 11)) (Z.shiftl function 8))
    (Z.land offset 0xFC).

Section ports.
Context {P : Type} `{!Ports P}.

Definition pci_config_read (bus device function offset : Z) (p : P) : Z * P :=
  in32 PCI_CONFIG_DATA (out32 PCI_CONFIG_ADDR (config_address bus device function offset) p).

Definition pci_config_write (bus device function offset value : Z) (p : P) : P :=
  out32 PCI_CONFIG_DATA value (out32 PCI_CONFIG_ADDR (config_address bus device function offset) p).

(** The bars [i..6]. *)
Fixpoint read_bars_from (n : nat) (i bus device function : Z) (p : P) : list Z * P :=
  match n with
  | O => ([], p)
  | S n' => let '(v, p1) := pci_config_read bus device function (0x10 + i * 4) p in
            let '(vs, p2) := read_bars_from n' (i + 1) bus device function p1 in (v :: vs, p2)
  end.

Definition read_bars (bus device function : Z) (p : P) : list Z * P := read_bars_from 6 0 bus device function p.

(** The body of the loop over functions 1 to 7. *)
Definition scan_function (bus device func : Z) (p : P) : list PciDevice * P :=
  let '(vd, p) := pci_config_read bus device func 0 p in
  let vid := Z.land vd 0xFFFF in
  if vid =? 0xFFFF then ([], p)
  else
    let did := Z.land (Z.shiftr vd 16) 0xFFFF in
    let '(cr, p) := pci_config_read bus device func 0x08 p in
    let '(ir, p) := pci_config_read bus device func 0x3C p in
    let '(fb, p) := read_bars bus device func p in
    ([mkPci bus device func vid did (Z.land (Z.shiftr cr 24) 0xFF) (Z.land (Z.shiftr cr 16) 0xFF) 0 fb
        (Z.land ir 0xFF)], p).

(** [for x in xs { body(x) }] with the pushes collected. *)
Fixpoint for_each (body : Z → P → list PciDevice * P) (xs : list Z) (p : P) : list PciDevice * P :=
  match xs with
  | [] => ([], p)
  | x :: xs' => let '(l1, p1) := body x p in let '(l2, p2) := for_each body xs' p1 in (l1 ++ l2, p2)
  end.

(** The body of the loop over devices. *)
Definition scan_device (bus device : Z) (p : P) : list PciDevice * P :=
  let '(vendor_device, p) := pci_config_read bus device 0 0 p in
  let vendor_id := Z.land vendor_device 0xFFFF in
  if vendor_id =? 0xFFFF then ([], p)
  else
    let device_id := Z.land (Z.shiftr vendor_device 16) 0xFFFF in
    let '(class_reg, p) := pci_config_read bus device 0 0x08 p in
    let class_code := Z.land (Z.shiftr class_reg 24) 0xFF in
    let subclass := Z.land (Z.shiftr class_reg 16) 0xFF in
    let '(header_reg, p) := pci_config_read bus device 0 0x0C p in
    let header_type := Z.land (Z.shiftr header_reg 16) 0xFF in
    let '(int_reg, p) := pci_config_read bus device 0 0x3C p in
    let interrupt_line := Z.land int_reg 0xFF in
    let '(bars, p) := read_bars bus device 0 p in
    let dev := mkPci bus device 0 vendor_id device_id class_code subclass header_type bars interrupt_line in
    if Z.land header_type 0x80 =? 0 then ([dev], p)
    else let '(others, p) := for_each (scan_function bus device) (seqZ 1 7) p in (dev :: others, p).

Definition pci_scan (p : P) : list PciDevice * P :=
  for_each (λ bus, for_each (scan_device bus) (seqZ 0 32)) (seqZ 0 256) p.

Definition find_device (vendor device : Z) (p : P) : option PciDevice * P :=
  let '(l, p) := pci_scan p in
  (List.find (λ d, (vendor_id d =? vendor) && (device_id d =? device)) l, p).

Definition find_by_vendor (vendor : Z) (p : P) : list PciDevice * P :=
  let '(l, p) := pci_scan p in (filter (λ d, (vendor_id d =? vendor) = true) l, p).

Definition enable_bus_master (dev : PciDevice) (p : P) : P :=
  let '(cmd, p) := pci_config_read (bus dev) (device dev) (function dev) 0x04 p in
  pci_config_write (bus dev) (device dev) (function dev) 0x04 (Z.lor cmd 0x04) p.
End ports.

(** ** The bus

    [config p a]: the register selected by the address word [a].  Reading through the ports
    returns it and changes no register; writing changes that one as the device lets it
    ([accept]). *)
Class PciBus (P : Type) `{!Ports P} : Type := {
  config : P → Z → Z;
  accept : P → Z → Z → Z;
  config_read_value : ∀ a p, (in32 PCI_CONFIG_DATA (out32 PCI_CONFIG_ADDR a p)).1 = config p a;
  config_read_keeps : ∀ a b p, config (in32 PCI_CONFIG_DATA (out32 PCI_CONFIG_ADDR a p)).2 b = config p b;
  config_write_value : ∀ a b v p,
    config (out32 PCI_CONFIG_DATA v (out32 PCI_CONFIG_ADDR a p)) b = if b =? a then accept p a v else config p b;
}.

(** *** Different registers have different address words *)
Definition location (b d f o : Z) : Prop := 0 ≤ b < 256 ∧ 0 ≤ d < 32 ∧ 0 ≤ f < 8 ∧ 0 ≤ o < 256 ∧ o mod 4 = 0.

Lemma shift_disjoint x k n : 0 ≤ n → 0 ≤ x < 2 ^ n → Z.lor (Z.shiftl k n) x = k * 2 ^ n + x.
Proof.
  intros Hn Hx. rewrite Z.shiftl_mul_pow2 by done. rewrite <- Z.add_lor_land.
  assert (Z.land (k * 2 ^ n) x = 0) as ->; [|lia]. apply Z.bits_inj'. intros i Hi.
  rewrite Z.land_spec, Z.bits_0. destruct (decide (i < n)) as [Hlt|Hge].
  - by rewrite Z.mul_pow2_bits_low.
  - apply andb_false_intro2. destruct (decide (x = 0)) as [->|Hne]; [apply Z.bits_0|].
    apply Z.bits_above_log2; [lia|]. apply Z.log2_lt_pow2; [lia|].
    eapply Z.lt_le_trans; [apply Hx|]. apply Z.pow_le_mono_r; lia.
Qed.

Lemma config_address_value b d f o :
  location b d f o → config_address b d f o = 2 ^ 31 + b * 2 ^ 16 + d * 2 ^ 11 + f * 2 ^ 8 + o.
Proof.
  intros (Hb & Hd & Hf & Ho & Ha). unfold config_address.
  assert (Z.land o 0xFC = o) as ->.
  { apply Z.bits_inj'. intros i Hi. rewrite Z.land_spec.
    assert (H252 : Z.testbit 0xFC i = (2 <=? i) && (i <? 8)).
    { destruct (Z.leb_spec 2 i), (Z.ltb_spec i 8); simpl.
      - assert (i = 2 ∨ i = 3 ∨ i = 4 ∨ i = 5 ∨ i = 6 ∨ i = 7) as Hi' by lia.
        by destruct Hi' as [->|[->|[->|[->|[->| ->]]]]].
      - apply Z.bits_above_log2; [lia|]. change (Z.log2 252) with 7. lia.
      - assert (i = 0 ∨ i = 1) as [-> | ->] by lia; done.
      - lia. }
    rewrite H252. destruct (Z.leb_spec 2 i) as [H2|H2]; simpl.
    - destruct (Z.ltb_spec i 8) as [H8|H8]; simpl; [by rewrite andb_true_r|]. rewrite andb_false_r. symmetry.
      destruct (decide (o = 0)) as [->|Hne]; [apply Z.bits_0|]. apply Z.bits_above_log2; [lia|].
      apply Z.log2_lt_pow2; [lia|]. eapply Z.lt_le_trans; [apply Ho|]. change 256 with (2 ^ 8). apply Z.pow_le_mono_r; lia.
    - rewrite andb_false_r. symmetry. rewrite <- (Z.mod_pow2_bits_low o 2 i) by lia. change (2 ^ 2) with 4.
      rewrite Ha. apply Z.bits_0. }
  rewrite <- !Z.lor_assoc.
  rewrite (shift_disjoint o f 8) by lia. rewrite (shift_disjoint _ d 11) by lia.
  rewrite (shift_disjoint _ b 16) by lia. rewrite (shift_disjoint _ 1 31) by lia. lia.
Qed.

Lemma config_address_inj b d f o b' d' f' o' :
  location b d f o → location b' d' f' o' → config_address b d f o = config_address b' d' f' o' →
  b = b' ∧ d = d' ∧ f = f' ∧ o = o'.
Proof.
  intros H H'. rewrite !config_address_value by done. destruct H as (Hb & Hd & Hf & Ho & _), H' as (Hb' & Hd' & Hf' & Ho' & _).
  intros E. assert (b = b') by lia. subst. assert (d = d') by lia. subst. assert (f = f') by lia. subst. lia.
Qed.

(** ** What is on the bus, from the registers alone *)
Section view.
Context (c : Z → Z).

Definition view (b d f o : Z) : Z := c (config_address b d f o).

Definition vendor_of (b d f : Z) : Z := Z.land (view b d f 0) 0xFFFF.

Definition header_of (b d : Z) : Z := Z.land (Z.shiftr (view b d 0 0x0C) 16) 0xFF.

(** A function answers; functions other than 0 count when function 0 answers and is
    multi-function. *)
Definition present (b d f : Z) : Prop :=
  vendor_of b d f ≠ 0xFFFF ∧ (f = 0 ∨ vendor_of b d 0 ≠ 0xFFFF ∧ Z.land (header_of b d) 0x80 ≠ 0).

(** The record for it; the header type is only kept for function 0. *)
Definition function_at (b d f : Z) : PciDevice :=
  mkPci b d f (vendor_of b d f) (Z.land (Z.shiftr (view b d f 0) 16) 0xFFFF)
    (Z.land (Z.shiftr (view b d f 0x08) 24) 0xFF) (Z.land (Z.shiftr (view b d f 0x08) 16) 0xFF)
    (if f =? 0 then header_of b d else 0) ((λ i, view b d f (0x10 + i * 4)) <$> seqZ 0 6)
    (Z.land (view b d f 0x3C) 0xFF).
End view.

Section pci_scan.
Context {P : Type} `{!Ports P, !PciBus P}.

(** The registers are the same. *)
Definition same (p p' : P) : Prop := ∀ a, config p' a = config p a.

Lemma same_refl p : same p p.
Proof. done. Qed.

Lemma same_trans p1 p2 p3 : same p1 p2 → same p2 p3 → same p1 p3.
Proof. intros H1 H2 a. by rewrite H2. Qed.

Lemma view_same p p' b d f o : same p p' → view (config p') b d f o = view (config p) b d f o.
Proof. intros H. apply H. Qed.

Lemma config_read b d f o p0 p :
  same p0 p → ∃ p', pci_config_read b d f o p = (view (config p0) b d f o, p') ∧ same p0 p'.
Proof.
  intros Hs. unfold pci_config_read. pose proof (config_read_value (config_address b d f o) p) as Hv.
  pose proof (λ x, config_read_keeps (config_address b d f o) x p) as Hk.
  destruct (in32 _ _) as [v p'] eqn:E. simpl in *. exists p'. split.
  - f_equal. rewrite Hv. apply Hs.
  - intros a. by rewrite Hk.
Qed.

Lemma read_bars_from_view n i b d f p0 p :
  same p0 p →
  ∃ p', read_bars_from n i b d f p = ((λ i, view (config p0) b d f (0x10 + i * 4)) <$> seqZ i (Z.of_nat n), p') ∧ same p0 p'.
Proof.
  revert i p. induction n as [|n IH]; intros i p Hs; [by exists p|]. cbn [read_bars_from].
  destruct (config_read b d f (0x10 + i * 4) p0 p Hs) as (p1 & -> & H1).
  destruct (IH (i + 1) p1 H1) as (p2 & -> & H2). exists p2. split; [|done].
  rewrite (seqZ_cons i) by lia. rewrite fmap_cons.
  by replace (Z.pred (Z.of_nat (S n))) with (Z.of_nat n) by lia.
Qed.

Lemma scan_function_view b d f p0 p :
  same p0 p → f ≠ 0 →
  ∃ p', scan_function b d f p =
          (if vendor_of (config p0) b d f =? 0xFFFF then [] else [function_at (config p0) b d f], p') ∧ same p0 p'.
Proof.
  intros Hs Hf. unfold scan_function. destruct (config_read b d f 0 p0 p Hs) as (p1 & -> & H1). fold (vendor_of (config p0) b d f).
  destruct (vendor_of (config p0) b d f =? 0xFFFF) eqn:Ev; [by exists p1|].
  destruct (config_read b d f 0x08 p0 p1 H1) as (p2 & -> & H2). destruct (config_read b d f 0x3C p0 p2 H2) as (p3 & -> & H3).
  destruct (read_bars_from_view 6 0 b d f p0 p3 H3) as (p4 & E4 & H4). unfold read_bars. rewrite E4.
  exists p4. split; [|done]. unfold function_at. by rewrite (proj2 (Z.eqb_neq f 0) Hf).
Qed.

Lemma for_each_view (body : Z → P → list PciDevice * P) (spec : Z → list PciDevice) xs p0 p :
  (∀ x p, x ∈ xs → same p0 p → ∃ p', body x p = (spec x, p') ∧ same p0 p') → same p0 p →
  ∃ p', for_each body xs p = (concat (spec <$> xs), p') ∧ same p0 p'.
Proof.
  revert p. induction xs as [|x xs IH]; intros p Hb Hs; [by exists p|]. cbn [for_each].
  destruct (Hb x p) as (p1 & -> & H1); [by left|done|].
  destruct (IH p1) as (p2 & -> & H2); [intros; apply Hb; [by right|done]|done|]. by exists p2.
Qed.

Definition devices_at (c : Z → Z) (b d : Z) : list PciDevice :=
  if vendor_of c b d 0 =? 0xFFFF then []
  else function_at c b d 0 ::
       if Z.land (header_of c b d) 0x80 =? 0 then []
       else concat ((λ f, if vendor_of c b d f =? 0xFFFF then [] else [function_at c b d f]) <$> seqZ 1 7).

Lemma scan_device_view b d p0 p :
  same p0 p → ∃ p', scan_device b d p = (devices_at (config p0) b d, p') ∧ same p0 p'.
Proof.
  intros Hs. unfold scan_device, devices_at. destruct (config_read b d 0 0 p0 p Hs) as (p1 & -> & H1).
  fold (vendor_of (config p0) b d 0). destruct (vendor_of (config p0) b d 0 =? 0xFFFF) eqn:Ev; [by exists p1|].
  destruct (config_read b d 0 0x08 p0 p1 H1) as (p2 & -> & H2). destruct (config_read b d 0 0x0C p0 p2 H2) as (p3 & -> & H3).
  destruct (config_read b d 0 0x3C p0 p3 H3) as (p4 & -> & H4).
  destruct (read_bars_from_view 6 0 b d 0 p0 p4 H4) as (p5 & E5 & H5). unfold read_bars. rewrite E5.
  fold (header_of (config p0) b d). destruct (Z.land (header_of (config p0) b d) 0x80 =? 0); [by exists p5|].
  destruct (for_each_view (scan_function b d)
    (λ f, if vendor_of (config p0) b d f =? 0xFFFF then [] else [function_at (config p0) b d f]) (seqZ 1 7) p0 p5) as (p6 & -> & H6).
  - intros f q Hf Hq. apply elem_of_seqZ in Hf. apply scan_function_view; [done|lia].
  - done.
  - by exists p6.
Qed.

Lemma scan_view p :
  ∃ p', pci_scan p = (concat ((λ b, concat (devices_at (config p) b <$> seqZ 0 32)) <$> seqZ 0 256), p') ∧ same p p'.
Proof.
  unfold pci_scan. apply for_each_view; [|apply same_refl]. intros b q _ Hq.
  apply for_each_view; [|done]. intros d q' _ Hq'. by apply scan_device_view.
Qed.

Lemma elem_of_devices_at c b d x :
  x ∈ devices_at c b d ↔ ∃ f, 0 ≤ f < 8 ∧ present c b d f ∧ x = function_at c b d f.
Proof.
  unfold devices_at, present. destruct (Z.eqb_spec (vendor_of c b d 0) 0xFFFF) as [E|E].
  { split; [by intros ?%not_elem_of_nil|]. intros (f & _ & [Hv [->|[H _]]] & _); done. }
  rewrite elem_of_cons. destruct (Z.eqb_spec (Z.land (header_of c b d) 0x80) 0) as [Eh|Eh].
  - split.
    + intros [->|?%not_elem_of_nil]; [|done]. exists 0. split; [lia|]. auto.
    + intros (f & _ & [Hv [->|[_ H]]] & ->); [by left|done].
  - rewrite list_elem_of_In, in_concat. split.
    + intros [->|(l & Hl & Hx)]; [exists 0; split; [lia|auto]|].
      apply list_elem_of_In, list_elem_of_fmap in Hl as (f & -> & Hf). apply elem_of_seqZ in Hf.
      destruct (Z.eqb_spec (vendor_of c b d f) 0xFFFF) as [?|Hv]; [by destruct Hx|].
      destruct Hx as [<-|[]]. exists f. split; [lia|]. split; [|done]. split; [done|]. by right.
    + intros (f & Hf & [Hv _] & ->). destruct (decide (f = 0)) as [->|Hne]; [by left|right].
      exists [function_at c b d f]. split; [|by left]. apply list_elem_of_In, list_elem_of_fmap. exists f.
      split; [by rewrite (proj2 (Z.eqb_neq _ _) Hv)|]. apply elem_of_seqZ. lia.
Qed.

Lemma elem_of_scan c x :
  x ∈ concat ((λ b, concat (devices_at c b <$> seqZ 0 32)) <$> seqZ 0 256) ↔
  ∃ b d f, 0 ≤ b < 256 ∧ 0 ≤ d < 32 ∧ 0 ≤ f < 8 ∧ present c b d f ∧ x = function_at c b d f.
Proof.
  rewrite list_elem_of_In, in_concat. split.
  - intros (l & Hl & Hx). apply list_elem_of_In, list_elem_of_fmap in Hl as (b & -> & Hb).
    apply in_concat in Hx as (l' & Hl' & Hx). apply list_elem_of_In, list_elem_of_fmap in Hl' as (d & -> & Hd).
    apply list_elem_of_In, elem_of_devices_at in Hx as (f & Hf & Hp & ->).
    apply elem_of_seqZ in Hb, Hd. exists b, d, f. split; [lia|]. split; [lia|done].
  - intros (b & d & f & Hb & Hd & Hf & Hp & ->). eexists. split.
    + apply list_elem_of_In, list_elem_of_fmap. exists b. split; [done|]. apply elem_of_seqZ. lia.
    + apply in_concat. exists (devices_at c b d). split.
      * apply list_elem_of_In, list_elem_of_fmap. exists d. split; [done|]. apply elem_of_seqZ. lia.
      * apply list_elem_of_In, elem_of_devices_at. by exists f.
Qed.
End pci_scan.

(** Scan finds exactly the functions that answer on the bus (functions 1 to 7 of a device when
    its function 0 answers and is multi-function), with the fields read from their registers, and
    changes no register; and find_device returns a function with the wanted ids whenever one
    answers, and None only when none does. *)
Lemma pci_scan_complete {P : Type} `{!Ports P, !PciBus P} (p : P) (vendor device : Z) :
  ∃ l p', pci_scan p = (l, p') ∧ (∀ a, config p' a = config p a) ∧
    (∀ x, x ∈ l ↔ ∃ b d f, 0 ≤ b < 256 ∧ 0 ≤ d < 32 ∧ 0 ≤ f < 8 ∧ present (config p) b d f ∧
                           x = function_at (config p) b d f) ∧
    match (find_device vendor device p).1 with
    | Some x => x ∈ l ∧ vendor_id x = vendor ∧ device_id x = device
    | None => ∀ x, x ∈ l → vendor_id x = vendor → device_id x ≠ device
    end.
Proof.
  destruct (scan_view p) as (p' & E & Hs). eexists _, p'. split; [exact E|]. split; [exact Hs|].
  split; [apply elem_of_scan|]. unfold find_device. rewrite E. cbn [fst].
  destruct (List.find _ _) as [x|] eqn:Ef.
  - apply List.find_some in Ef as [Hin Hx]. apply andb_true_iff in Hx as [H1%Z.eqb_eq H2%Z.eqb_eq].
    split; [by apply list_elem_of_In|done].
  - intros x Hx Hv Hd. eapply List.find_none in Ef; [|by apply list_elem_of_In].
    apply andb_false_iff in Ef as [Ef%Z.eqb_neq|Ef%Z.eqb_neq]; done.
Qed.

(** enable_bus_master offers the device its command register with bit 2 set and touches nothing
    else. *)
Lemma enable_bus_master_spec {P : Type} `{!Ports P, !PciBus P} (dev : PciDevice) (p : P) :
  let a := config_address (bus dev) (device dev) (function dev) 0x04 in
  ∃ p1, same p p1 ∧ ∀ b, config (enable_bus_master dev p) b =
                         if b =? a then accept p1 a (Z.lor (config p a) 0x04) else config p b.
Proof.
  intros a. unfold enable_bus_master.
  destruct (config_read (bus dev) (device dev) (function dev) 0x04 p p (same_refl p)) as (p1 & -> & H1).
  exists p1. split; [done|]. intros b. unfold pci_config_write. rewrite config_write_value. unfold view. fold a.
  destruct (b =? a); [done|]. apply H1.
Qed.

(** ** A bus whose registers accept every value *)
Definition latch : Type := Z * (Z → Z).

#[global] Instance latch_ports : Ports latch := {
  in8 a p := (0, p);
  in16 a p := (0, p);
  in32 a p := (if a =? PCI_CONFIG_DATA then p.2 p.1 else 0, p);
  out8 a v p := p;
  out16 a v p := p;
  out32 a v p := if a =? PCI_CONFIG_ADDR then (v, p.2)
                 else if a =? PCI_CONFIG_DATA then (p.1, λ b, if b =? p.1 then v else p.2 b) else p;
}.

#[global] Instance latch_bus : PciBus latch.
Proof. refine {| config := λ p : latch, p.2; accept := λ p a v, v |}; done. Defined.

(** A virtio block device at 00:03.0 and nothing else. *)
Definition demo_bus : latch :=
  (0, λ a, if a =? config_address 0 3 0 0 then 0x10011AF4
           else if a =? config_address 0 3 0 0x08 then 0x01000000
           else if a =? config_address 0 3 0 0x10 then 0xC001
           else if (config_address 0 3 0 0 <=? a) && (a <=? config_address 0 3 0 0x3C) then 0
           else 0xFFFFFFFF).

Lemma pci_scan_example :
  match (find_device 0x1AF4 0x1001 demo_bus).1 with
  | Some x => vendor_id x = 0x1AF4 ∧ device_id x = 0x1001 ∧ class_code x = 1 ∧ bars x = [0xC001; 0; 0; 0; 0; 0]
  | None => False
  end.
Proof.
  destruct (pci_scan_complete demo_bus 0x1AF4 0x1001) as (l & p' & _ & _ & _ & H). revert H.
  assert (E : (find_device 0x1AF4 0x1001 demo_bus).1 =
              Some (mkPci 0 3 0 0x1AF4 0x1001 1 0 0 [0xC001; 0; 0; 0; 0; 0] 0)) by (vm_compute; reflexivity).
  rewrite E. intros (_ & Hv & Hd). split; [exact Hv|]. split; [exact Hd|]. split; reflexivity.
Defined.
End Pci.
