(* ===== verification/Vring.v ===== *)
(** * Vring: physical memory and the layout of a legacy virtqueue

    The virtqueues are shared memory: the driver writes descriptors and the available ring with ordinary stores, the
    device reads them and writes the used ring.  This file has physical memory as bytes, loads and stores of
    little-endian fields, and the layout that the device derives from the number of its entries and the page frame
    number it was given (virtio 1.1, 2.6.2). *)

From S2P Require Import Prelude Bytes.

Module Vring.

(** ** Physical memory *)
Definition memory : Type := Z → Z.

Definition read_mem (a n : Z) (m : memory) : list Z := m <$> seqZ a n.

Definition write_mem (a : Z) (l : list Z) (m : memory) : memory :=
  λ x, if decide (a ≤ x < a + Z.of_nat (length l)) then nth (Z.to_nat (x - a)) l 0 else m x.

(** A little-endian field of [n] bytes. *)
Definition load_le (n : nat) (a : Z) (m : memory) : Z := from_le_bytes (read_mem a (Z.of_nat n) m).
Definition store_le (n : nat) (a v : Z) (m : memory) : memory := write_mem a (to_le_bytes n v) m.

(** ** Descriptors *)
Record VirtqDesc : Type := mkDesc { d_addr : Z; d_len : Z; d_flags : Z; d_next : Z }.

Definition desc_bytes (d : VirtqDesc) : list Z :=
  to_le_bytes 8 (d_addr d) ++ to_le_bytes 4 (d_len d) ++ to_le_bytes 2 (d_flags d) ++ to_le_bytes 2 (d_next d).

Definition store_desc (a : Z) (d : VirtqDesc) (m : memory) : memory := write_mem a (desc_bytes d) m.

Definition load_desc (a : Z) (m : memory) : VirtqDesc :=
  mkDesc (load_le 8 a m) (load_le 4 (a + 8) m) (load_le 2 (a + 12) m) (load_le 2 (a + 14) m).

(** The fields have their width. *)
Record desc_ok (d : VirtqDesc) : Prop := {
  dk_addr : 0 ≤ d_addr d < 2 ^ 64;
  dk_len : 0 ≤ d_len d < 2 ^ 32;
  dk_flags : 0 ≤ d_flags d < 2 ^ 16;
  dk_next : 0 ≤ d_next d < 2 ^ 16;
}.

(** ** The layout of a queue of [n] entries at [base] *)
Definition align_page (x : Z) : Z := (x + 4095) / 4096 * 4096.
Definition desc_at (base i : Z) : Z := base + 16 * i.
Definition avail_at (n base : Z) : Z := base + 16 * n.
Definition used_at (n base : Z) : Z := base + align_page (16 * n + (6 + 2 * n)).
Definition ring_end (n base : Z) : Z := used_at n base + (6 + 8 * n).

(** Both rings: flags, idx, and the entries. *)
Definition idx_at (ring : Z) : Z := ring + 2.
Definition avail_slot_at (ring i : Z) : Z := ring + 4 + 2 * i.

(** ** Reading back *)
Lemma length_read_mem a n m : 0 ≤ n → length (read_mem a n m) = Z.to_nat n.
Proof. intros H. unfold read_mem. by rewrite length_fmap, length_seqZ. Qed.

Lemma read_write_mem a l m : read_mem a (Z.of_nat (length l)) (write_mem a l m) = l.
Proof.
  unfold read_mem. apply list_eq. intros i. rewrite list_lookup_fmap.
  destruct (decide (i < length l)%nat) as [Hi|Hi].
  - rewrite (lookup_seqZ_lt a (Z.of_nat (length l)) i) by lia. simpl. unfold write_mem. rewrite decide_True by lia.
    replace (Z.to_nat (a + Z.of_nat i - a)) with i by lia. by destruct (nth_lookup_or_length l i 0) as [->|]; [|lia].
  - rewrite (lookup_seqZ_ge a (Z.of_nat (length l)) i) by lia. symmetry. apply lookup_ge_None_2. lia.
Qed.

Lemma read_mem_ext a n m m' : (∀ x, a ≤ x < a + n → m' x = m x) → read_mem a n m' = read_mem a n m.
Proof. intros H. apply list_fmap_ext. intros i x [-> Hi]%lookup_seqZ. apply H. lia. Qed.

Lemma write_mem_other a l m x : ¬ (a ≤ x < a + Z.of_nat (length l)) → write_mem a l m x = m x.
Proof. intros H. unfold write_mem. by rewrite decide_False. Qed.

Lemma read_write_other a n b l m :
  a + n ≤ b ∨ b + Z.of_nat (length l) ≤ a → read_mem a n (write_mem b l m) = read_mem a n m.
Proof. intros H. apply read_mem_ext. intros x Hx. apply write_mem_other. lia. Qed.

Lemma write_mem_at sa v m : write_mem sa [v] m sa = v.
Proof. unfold write_mem. simpl. rewrite decide_True by lia. by rewrite Z.sub_diag. Qed.

Lemma read_mem_app a n k m : 0 ≤ n → 0 ≤ k → read_mem a (n + k) m = read_mem a n m ++ read_mem (a + n) k m.
Proof. intros Hn Hk. unfold read_mem. by rewrite seqZ_app, fmap_app. Qed.

(** A part of what was written. *)
Lemma read_write_part a l1 l2 l3 m :
  read_mem (a + Z.of_nat (length l1)) (Z.of_nat (length l2)) (write_mem a (l1 ++ l2 ++ l3) m) = l2.
Proof.
  pose proof (read_write_mem a (l1 ++ l2 ++ l3) m) as H. rewrite !length_app, !Nat2Z.inj_add in H.
  rewrite !read_mem_app in H by lia. apply app_inj_1 in H as [_ H]; [|rewrite length_read_mem; lia].
  apply app_inj_1 in H as [H _]; [done|]. rewrite length_read_mem; lia.
Qed.

Lemma load_le_ext n a m m' : (∀ x, a ≤ x < a + Z.of_nat n → m' x = m x) → load_le n a m' = load_le n a m.
Proof. intros H. unfold load_le. f_equal. by apply read_mem_ext. Qed.

Lemma load_le_zero n a m : (∀ x, a ≤ x < a + Z.of_nat n → m x = 0) → load_le n a m = 0.
Proof.
  intros H. unfold load_le, read_mem. assert (Hf : Forall (λ b, b = 0) (m <$> seqZ a (Z.of_nat n))).
  { apply Forall_fmap, Forall_forall. intros x Hx%elem_of_seqZ. apply H. lia. }
  induction Hf as [|b l -> _ IH]; simpl; lia.
Qed.

Lemma load_store_le n a v m : 0 ≤ v < 2 ^ (8 * Z.of_nat n) → load_le n a (store_le n a v m) = v.
Proof.
  intros Hv. unfold load_le, store_le. rewrite <- (length_to_le_bytes n v) at 1. rewrite read_write_mem.
  by apply from_to_le_bytes.
Qed.

Lemma length_desc_bytes d : length (desc_bytes d) = 16%nat.
Proof. unfold desc_bytes. by rewrite !length_app, !length_to_le_bytes. Qed.

Lemma store_desc_other a d m x : ¬ (a ≤ x < a + 16) → store_desc a d m x = m x.
Proof. intros H. apply write_mem_other. by rewrite length_desc_bytes. Qed.

Lemma store_le_other n a v m x : ¬ (a ≤ x < a + Z.of_nat n) → store_le n a v m x = m x.
Proof. intros H. apply write_mem_other. by rewrite length_to_le_bytes. Qed.

Lemma load_store_desc a d m : desc_ok d → load_desc a (store_desc a d m) = d.
Proof.
  intros []. destruct d as [x l f n]. cbn in *. unfold load_desc, store_desc, load_le, desc_bytes. cbn [d_addr d_len d_flags d_next].
  set (bytes := to_le_bytes 8 x ++ to_le_bytes 4 l ++ to_le_bytes 2 f ++ to_le_bytes 2 n).
  assert (Hpart : ∀ l1 l3 b k v, bytes = l1 ++ to_le_bytes k v ++ l3 → b = a + Z.of_nat (length l1) → 0 ≤ v < 2 ^ (8 * Z.of_nat k) →
    from_le_bytes (read_mem b (Z.of_nat k) (write_mem a bytes m)) = v).
  { intros l1 l3 b k v -> -> Hv. rewrite <- (length_to_le_bytes k v) at 1. rewrite read_write_part. by apply from_to_le_bytes. }
  f_equal.
  - by eapply (Hpart [] _ a 8%nat); [reflexivity|simpl; lia|].
  - by eapply (Hpart (to_le_bytes 8 x) _ (a + 8) 4%nat); [reflexivity|rewrite length_to_le_bytes; lia|].
  - eapply (Hpart (to_le_bytes 8 x ++ to_le_bytes 4 l) (to_le_bytes 2 n) (a + 12) 2%nat); [by rewrite <- !app_assoc| |done].
    rewrite length_app, !length_to_le_bytes. lia.
  - eapply (Hpart (to_le_bytes 8 x ++ to_le_bytes 4 l ++ to_le_bytes 2 f) [] (a + 14) 2%nat); [by rewrite <- !app_assoc, app_nil_r| |done].
    rewrite !length_app, !length_to_le_bytes. lia.
Qed.

Lemma load_desc_ext a m m' : (∀ x, a ≤ x < a + 16 → m' x = m x) → load_desc a m' = load_desc a m.
Proof. intros H. unfold load_desc. f_equal; apply load_le_ext; intros x Hx; apply H; lia. Qed.

(** With 128 entries the rings take the first 5126 bytes of their pages. *)
Lemma layout_128 base : avail_at 128 base = base + 2048 ∧ used_at 128 base = base + 4096 ∧ ring_end 128 base = base + 5126.
Proof. unfold ring_end, used_at, avail_at. change (align_page (16 * 128 + (6 + 2 * 128))) with 4096. lia. Qed.
End Vring.
