(* ===== verification/VirtioBlk.v ===== *)
(** * VirtioBlk: storage/virtio_blk.rs, the block driver

    The driver shares one virtqueue and a DMA page with the device.  Both lie in physical memory, which the driver
    reaches at a fixed offset (the HHDM): a request is a sequence of stores, and the device finds it at the offsets
    that follow from its own number of entries (Vring).  The device is the class [VirtioBlkHw]; its laws are what the
    virtio 1.1 specification (2.6 and 5.2.6) promises for one request of three chained descriptors.  They do not say
    that the request is done when the driver stops waiting, nor what a failed write leaves in its sector. *)

From S2P Require Import Prelude Bytes FrameAlloc BlockCache Pci Vring.

Module VirtioBlk.
Import Vring.

Definition VIRTIO_PCI_VENDOR : Z := 0x1AF4.
Definition VIRTIO_BLK_DEVICE_LEGACY : Z := 0x1001.
Definition VIRTIO_DEVICE_FEATURES : Z := 0x00.
Definition VIRTIO_GUEST_FEATURES : Z := 0x04.
Definition VIRTIO_QUEUE_ADDR : Z := 0x08.
Definition VIRTIO_QUEUE_SIZE : Z := 0x0C.
Definition VIRTIO_QUEUE_SELECT : Z := 0x0E.
Definition VIRTIO_QUEUE_NOTIFY : Z := 0x10.
Definition VIRTIO_DEVICE_STATUS : Z := 0x12.
Definition VIRTIO_BLK_CAPACITY : Z := 0x14.
Definition VIRTIO_STATUS_RESET : Z := 0.
Definition VIRTIO_STATUS_ACKNOWLEDGE : Z := 1.
Definition VIRTIO_STATUS_DRIVER : Z := 2.
Definition VIRTIO_STATUS_DRIVER_OK : Z := 4.
Definition VRING_DESC_F_NEXT : Z := 1.
Definition VRING_DESC_F_WRITE : Z := 2.
Definition VIRTIO_BLK_T_IN : Z := 0.
Definition VIRTIO_BLK_T_OUT : Z := 1.
Definition VIRTIO_BLK_S_OK : Z := 0.
Definition QUEUE_SIZE : Z := 128.
Definition REQUEST_QUEUE : Z := 0.

(** The rings: the addresses of the descriptors, the available and the used ring. *)
Record Virtqueue : Type := mkVq {
  descs : Z;
  avail : Z;
  used : Z;
  next_desc : Z;
  last_used_idx : Z;
}.

Record VirtioBlkDevice : Type := mkBlk {
  io_base : Z;
  capacity_blocks : Z;
  queue : option Virtqueue;
  dma_phys : Z;
  dma_virt : Z;
  initialized : bool;
}.

Definition empty : VirtioBlkDevice := mkBlk 0 0 None 0 0 false.

Definition capacity (d : VirtioBlkDevice) : Z := capacity_blocks d.

(** The bytes of a VirtioBlkReqHeader. *)
Definition header_bytes (type_ sector : Z) : list Z :=
  to_le_bytes 4 type_ ++ to_le_bytes 4 0 ++ to_le_bytes 8 sector.

(** ** The device *)
Class VirtioBlkHw (D : Type) : Type := {
  disk : D → Z → option block;
  queue_size : D → Z;
  queue_base : D → Z;  (** the physical address of its queue *)
  seen : D → Z;  (** the index of the available ring it looks at next *)
  (** after a reset and the page frame number in the queue address register *)
  program : Z → D → D;
  (** the port and value of a notification and memory: memory and the device when the driver stops waiting *)
  serve : Z → Z → memory → D → memory * D;
}.

(** One request, new in the available ring of the device: the head of a chain of a header, a data and a status
    buffer, which lie outside the rings. *)
Record requested {D : Type} `{!VirtioBlkHw D} (d : D) (m : memory) (type_ sector data_addr status_addr : Z) : Prop := {
  rq_idx : load_le 2 (idx_at (avail_at (queue_size d) (queue_base d))) m = (seen d + 1) mod 2 ^ 16;
  rq_chain : ∃ head a0 n1 n2 x,
    load_le 2 (avail_slot_at (avail_at (queue_size d) (queue_base d)) (seen d mod queue_size d)) m = head ∧
    0 ≤ head < queue_size d ∧ 0 ≤ n1 < queue_size d ∧ 0 ≤ n2 < queue_size d ∧
    load_desc (desc_at (queue_base d) head) m = mkDesc a0 16 VRING_DESC_F_NEXT n1 ∧
    load_desc (desc_at (queue_base d) n1) m =
      mkDesc data_addr 512 (Z.lor VRING_DESC_F_NEXT (if type_ =? VIRTIO_BLK_T_IN then VRING_DESC_F_WRITE else 0)) n2 ∧
    load_desc (desc_at (queue_base d) n2) m = mkDesc status_addr 1 VRING_DESC_F_WRITE x ∧
    read_mem a0 16 m = header_bytes type_ sector;
  rq_type : type_ = VIRTIO_BLK_T_IN ∨ type_ = VIRTIO_BLK_T_OUT;
  rq_sector : u64_ok sector;
  rq_apart : data_addr + 512 ≤ status_addr ∨ status_addr < data_addr;
  rq_data : ring_end (queue_size d) (queue_base d) ≤ data_addr ∨ data_addr + 512 ≤ queue_base d;
  rq_status : ring_end (queue_size d) (queue_base d) ≤ status_addr ∨ status_addr < queue_base d;
}.

(** The bytes the device may write for it: the used ring, the data of a read and the status. *)
Definition device_writes {D : Type} `{!VirtioBlkHw D} (d : D) (type_ data_addr status_addr x : Z) : Prop :=
  used_at (queue_size d) (queue_base d) ≤ x < ring_end (queue_size d) (queue_base d) ∨
  (type_ = VIRTIO_BLK_T_IN ∧ data_addr ≤ x < data_addr + 512) ∨ x = status_addr.

Definition used_idx {D : Type} `{!VirtioBlkHw D} (d : D) (m : memory) : Z :=
  load_le 2 (idx_at (used_at (queue_size d) (queue_base d))) m.

(** The device is done with the request when the driver stops waiting. *)
Definition completed {D : Type} `{!VirtioBlkHw D} (d : D) (m m' : memory) (d' : D) : Prop :=
  used_idx d m' = (used_idx d m + 1) mod 2 ^ 16 ∧ seen d' = (seen d + 1) mod 2 ^ 16.

(** Programming the queue leaves the disk alone.  A request reaches one sector, a read none; it is not yet used, or
    it is, and with status 0 it was carried out. *)
Class VirtioBlkHwLaws (D : Type) `{!VirtioBlkHw D} : Prop := {
  program_spec : ∀ pfn d,
    disk (program pfn d) = disk d ∧ queue_size (program pfn d) = queue_size d ∧
    queue_base (program pfn d) = pfn * 4096 ∧ seen (program pfn d) = 0;
  serve_spec : ∀ port m d type_ sector da sa,
    requested d m type_ sector da sa →
    match serve port REQUEST_QUEUE m d with
    | (m', d') =>
        queue_size d' = queue_size d ∧ queue_base d' = queue_base d ∧
        (∀ x, ¬ device_writes d type_ da sa x → m' x = m x) ∧
        (∀ k, k ≠ sector → disk d' k = disk d k) ∧ (type_ = VIRTIO_BLK_T_IN → disk d' = disk d) ∧
        (used_idx d m' = used_idx d m ∨
         completed d m m' d' ∧
         (m' sa = VIRTIO_BLK_S_OK →
            (type_ = VIRTIO_BLK_T_IN → disk d sector = Some (read_mem da 512 m')) ∧
            (type_ = VIRTIO_BLK_T_OUT → disk d' sector = Some (read_mem da 512 m))))
    end;
}.

(** ** The driver *)
Section driver.
Context {D : Type} `{!VirtioBlkHw D} (hhdm : Z).

(** DEVICE, physical memory and the hardware. *)
Record Blk : Type := mkState { b_dev : VirtioBlkDevice; b_mem : memory; b_hw : D }.

(** The physical address behind a virtual address of the HHDM. *)
Definition phys (virt : Z) : Z := virt - hhdm.
Definition store (virt : Z) (l : list Z) (m : memory) : memory := write_mem (phys virt) l m.
Definition load (virt n : Z) (m : memory) : list Z := read_mem (phys virt) n m.

Definition with_queue (d : VirtioBlkDevice) (q : Virtqueue) : VirtioBlkDevice :=
  mkBlk (io_base d) (capacity_blocks d) (Some q) (dma_phys d) (dma_virt d) (initialized d).

(** The three descriptors, the slot of the available ring and its index. *)
Definition enqueue_request (q : Virtqueue) (req_type header_phys data_phys status_phys : Z) (m : memory) : memory :=
  let desc_base := next_desc q in
  let d0 := desc_base mod QUEUE_SIZE in
  let d1 := (desc_base + 1) mod QUEUE_SIZE in
  let d2 := (desc_base + 2) mod QUEUE_SIZE in
  let m := store_desc (phys (desc_at (descs q) d0)) (mkDesc header_phys 16 VRING_DESC_F_NEXT d1) m in
  let m := store_desc (phys (desc_at (descs q) d1))
             (mkDesc data_phys 512 (Z.lor VRING_DESC_F_NEXT (if req_type =? VIRTIO_BLK_T_IN then VRING_DESC_F_WRITE else 0)) d2) m in
  let m := store_desc (phys (desc_at (descs q) d2)) (mkDesc status_phys 1 VRING_DESC_F_WRITE 0) m in
  let avail_idx := load_le 2 (phys (idx_at (avail q))) m in
  let avail_slot := avail_idx mod QUEUE_SIZE in
  let m := store_le 2 (phys (avail_slot_at (avail q) avail_slot)) d0 m in
  store_le 2 (phys (idx_at (avail q))) (wrapping_add16 avail_idx 1) m.

(** The value on success is the buffer, filled for a read. *)
Definition do_block_io (req_type sector : Z) (buffer : list Z) : cmd Blk string (list Z) :=
  λ s,
    let dev := b_dev s in
    match queue dev with
    | None => Ret (Err "no virtqueue", s)
    | Some q =>
        let? data_phys := checked_add64 (dma_phys dev) 16 in
        let? status_phys := checked_add64 data_phys 512 in
        let? data_virt := checked_add64 (dma_virt dev) 16 in
        let? status_virt := checked_add64 data_virt 512 in
        let m := store (dma_virt dev) (header_bytes req_type sector) (b_mem s) in
        let m := if req_type =? VIRTIO_BLK_T_OUT then store data_virt buffer m else m in
        let m := store status_virt [0xFF] m in
        let? next := checked_add16 (next_desc q) 3 in
        let m := enqueue_request q req_type (dma_phys dev) data_phys status_phys m in
        let? port := checked_add16 (io_base dev) VIRTIO_QUEUE_NOTIFY in
        let '(m', hw) := serve port REQUEST_QUEUE m (b_hw s) in
        let q' last := mkVq (descs q) (avail q) (used q) (next mod QUEUE_SIZE) last in
        if load_le 2 (phys (idx_at (used q))) m' =? last_used_idx q then
          Ret (Err "virtio-blk: timeout waiting for I/O", mkState (with_queue dev (q' (last_used_idx q))) m' hw)
        else
          let s' := mkState (with_queue dev (q' (wrapping_add16 (last_used_idx q) 1))) m' hw in
          if m' (phys status_virt) =? VIRTIO_BLK_S_OK then
            Ret (Ok (if req_type =? VIRTIO_BLK_T_IN then load data_virt 512 m' else buffer), s')
          else Ret (Err "virtio-blk: I/O error", s')
    end.

Definition read_block (block_num : Z) (buffer : list Z) : cmd Blk string (list Z) :=
  λ s, if negb (initialized (b_dev s)) then Ret (Err "not initialized", s)
       else if capacity_blocks (b_dev s) <=? block_num then Ret (Err "block out of range", s)
       else do_block_io VIRTIO_BLK_T_IN block_num buffer s.

Definition write_block (block_num : Z) (data : list Z) : cmd Blk string () :=
  λ s, if negb (initialized (b_dev s)) then Ret (Err "not initialized", s)
       else if capacity_blocks (b_dev s) <=? block_num then Ret (Err "block out of range", s)
       else (let! _ := do_block_io VIRTIO_BLK_T_OUT block_num data in ret ()) s.

(** The device once init has reset it and told it the queue's page frame number, a u32. *)
Definition programmed (dev : VirtioBlkDevice) (hw : D) : D :=
  match queue dev with
  | Some q => program ((phys (descs q) / 4096) mod 2 ^ 32) hw
  | None => hw
  end.
End driver.
Arguments Blk : clear implicits.

(** ** Initialisation

    The steps that both virtio drivers take, over the type [Dev] of their DEVICE. *)
Section boot.
Context {P : Type} `{!Ports P} {Dev : Type} (hhdm : Z).
Import Pci Frames.

(** The ports, FRAME_ALLOCATOR, physical memory, DEVICE and DEVICE_FOUND. *)
Record Boot : Type := mkBoot {
  bt_ports : P;
  bt_frames : option BitmapFrameAllocator;
  bt_mem : memory;
  bt_dev : Dev;
  bt_found : bool;
}.

Definition set_ports (b : Boot) (p : P) : Boot := mkBoot p (bt_frames b) (bt_mem b) (bt_dev b) (bt_found b).
Definition set_frames (b : Boot) (a : BitmapFrameAllocator) : Boot :=
  mkBoot (bt_ports b) (Some a) (bt_mem b) (bt_dev b) (bt_found b).
Definition set_mem (b : Boot) (m : memory) : Boot := mkBoot (bt_ports b) (bt_frames b) m (bt_dev b) (bt_found b).

(** Commands whose early return is [None]. *)
Definition boot (A : Type) : Type := cmd Boot () A.

(** A port of the device, [io_base + offset] on u16. *)
Definition write_port (out : Z → Z → P → P) (io offset v : Z) : boot () :=
  let! port := lift_outcome (checked_add16 io offset) in
  let! b := get_state in
  put_state (set_ports b (out port v (bt_ports b))).

Definition read_port (inp : Z → P → Z * P) (io offset : Z) : boot Z :=
  let! port := lift_outcome (checked_add16 io offset) in
  let! b := get_state in
  let '(v, p) := inp port (bt_ports b) in
  let! _ := put_state (set_ports b p) in
  ret v.

(** [alloc.as_mut()?.allocate_frame()?]. *)
Definition alloc_frame : boot Z :=
  let! b := get_state in
  let! a := ok_or (bt_frames b) () in
  let! '(f, a') := lift_outcome (allocate_frame a) in
  let! _ := put_state (set_frames b a') in
  ok_or f ().

Fixpoint alloc_frames (n : nat) : boot () :=
  match n with
  | O => ret ()
  | S n' => let! _ := alloc_frame in alloc_frames n'
  end.

Definition zero_mem (virt n : Z) : boot () :=
  let! b := get_state in
  put_state (set_mem b (store hhdm virt (replicate (Z.to_nat n) 0) (bt_mem b))).

Definition desc_size : Z := 16 * QUEUE_SIZE.
Definition avail_size : Z := 6 + 2 * QUEUE_SIZE.
Definition used_size : Z := 6 + 8 * QUEUE_SIZE.
Definition num_pages : Z := (desc_size + avail_size + used_size + 4096 + 4095) / 4096.
Definition used_offset : Z := ((desc_size + avail_size + 4095) / 4096) * 4096.

Definition setup_virtqueue (io queue_idx : Z) : boot (Virtqueue * Z * Z) :=
  let! _ := write_port out16 io VIRTIO_QUEUE_SELECT queue_idx in
  let! queue_size := read_port in16 io VIRTIO_QUEUE_SIZE in
  if queue_size =? 0 then throw ()
  else
    let! phys_base := alloc_frame in
    let! _ := alloc_frames (Z.to_nat (num_pages - 1)) in
    let! virt_base := lift_outcome (checked_add64 phys_base hhdm) in
    let! _ := zero_mem virt_base (num_pages * 4096) in
    let! avail := lift_outcome (checked_add64 virt_base desc_size) in
    let! used := lift_outcome (checked_add64 virt_base used_offset) in
    let! _ := write_port out32 io VIRTIO_QUEUE_ADDR ((phys_base / 4096) mod 2 ^ 32) in
    let! dma_phys := alloc_frame in
    let! dma_virt := lift_outcome (checked_add64 dma_phys hhdm) in
    let! _ := zero_mem dma_virt 4096 in
    ret (mkVq virt_base avail used 0 0, dma_phys, dma_virt).

Definition is_online (b : Boot) : bool := bt_found b.
End boot.
Arguments Boot : clear implicits.
Arguments boot P Dev A : clear implicits.

Section init.
Context {P : Type} `{!Ports P} (hhdm : Z).
Import Pci Frames.

(** The PCI function: by id, or the first mass storage function of the vendor. *)
Definition find_blk : boot P VirtioBlkDevice PciDevice :=
  let! b := get_state in
  let '(found, p) := find_device VIRTIO_PCI_VENDOR VIRTIO_BLK_DEVICE_LEGACY (bt_ports b) in
  match found with
  | Some dev => let! _ := put_state (set_ports b p) in ret dev
  | None =>
      let '(l, p) := find_by_vendor VIRTIO_PCI_VENDOR p in
      let! _ := put_state (set_ports b p) in
      ok_or (List.find (λ d, class_code d =? 0x01) l) ()
  end.

(** [init] without its messages; the product is one of the message's operands. *)
Definition init_blk : boot P VirtioBlkDevice () :=
  let! pci_dev := find_blk in
  let bar0 := default 0 (bars pci_dev !! 0%nat) in
  if Z.land bar0 1 =? 0 then throw ()
  else
    let io := Z.land bar0 0xFFFC in
    let! b := get_state in
    let! _ := put_state (set_ports b (enable_bus_master pci_dev (bt_ports b))) in
    let! _ := write_port out8 io VIRTIO_DEVICE_STATUS VIRTIO_STATUS_RESET in
    let! _ := write_port out8 io VIRTIO_DEVICE_STATUS VIRTIO_STATUS_ACKNOWLEDGE in
    let! status := read_port in8 io VIRTIO_DEVICE_STATUS in
    let! _ := write_port out8 io VIRTIO_DEVICE_STATUS (Z.lor status VIRTIO_STATUS_DRIVER) in
    let! _ := read_port in32 io VIRTIO_DEVICE_FEATURES in
    let! _ := write_port out32 io VIRTIO_GUEST_FEATURES 0 in
    let! cap_lo := read_port in32 io VIRTIO_BLK_CAPACITY in
    let! cap_hi := read_port in32 io (VIRTIO_BLK_CAPACITY + 4) in
    let capacity := Z.lor cap_lo (Z.shiftl cap_hi 32) in
    let! _ := lift_outcome (checked_mul64 capacity 512) in
    let! '(queue, dma_phys, dma_virt) := setup_virtqueue hhdm io REQUEST_QUEUE in
    let! status := read_port in8 io VIRTIO_DEVICE_STATUS in
    let! _ := write_port out8 io VIRTIO_DEVICE_STATUS (Z.lor status VIRTIO_STATUS_DRIVER_OK) in
    let! b := get_state in
    put_state (mkBoot (bt_ports b) (bt_frames b) (bt_mem b) (mkBlk io capacity (Some queue) dma_phys dma_virt true) true).
End init.

(** ** The invariant between requests *)
Section correct.
Context {D : Type} `{!VirtioBlkHw D, !VirtioBlkHwLaws D} (hhdm : Z).

(** The device has 128 entries and the rings where the driver has them; it has seen every request and the driver
    every answer; the DMA page lies outside the rings; addresses and ports are in range. *)
Record queue_ok (dev : VirtioBlkDevice) (q : Virtqueue) (m : memory) (hw : D) : Prop := {
  ok_size : queue_size hw = QUEUE_SIZE;
  ok_descs : descs q = queue_base hw + hhdm;
  ok_avail : avail q = avail_at QUEUE_SIZE (queue_base hw) + hhdm;
  ok_used : used q = used_at QUEUE_SIZE (queue_base hw) + hhdm;
  ok_next : 0 ≤ next_desc q < QUEUE_SIZE;
  ok_last : used_idx hw m = last_used_idx q;
  ok_last_range : 0 ≤ last_used_idx q < 2 ^ 16;
  ok_seen : load_le 2 (idx_at (avail_at QUEUE_SIZE (queue_base hw))) m = seen hw;
  ok_seen_range : 0 ≤ seen hw < 2 ^ 16;
  ok_apart : ring_end QUEUE_SIZE (queue_base hw) ≤ dma_phys dev ∨ dma_phys dev + 529 ≤ queue_base hw;
  ok_virt : dma_virt dev = dma_phys dev + hhdm;
  ok_dma : 0 ≤ dma_phys dev ∧ dma_phys dev + 528 ≤ U64_MAX ∧ dma_virt dev + 528 ≤ U64_MAX;
  ok_capacity : capacity_blocks dev ≤ U64_MAX;
  ok_port : io_base dev + VIRTIO_QUEUE_NOTIFY ≤ U16_MAX;
}.

Definition blk_ok (s : Blk D) : Prop :=
  initialized (b_dev s) = true → ∃ q, queue (b_dev s) = Some q ∧ queue_ok (b_dev s) q (b_mem s) (b_hw s).

(** ** What the driver posts *)
Lemma mod_slots n : 0 ≤ n < QUEUE_SIZE →
  let d0 := n mod QUEUE_SIZE in let d1 := (n + 1) mod QUEUE_SIZE in let d2 := (n + 2) mod QUEUE_SIZE in
  (0 ≤ d0 < 128 ∧ 0 ≤ d1 < 128 ∧ 0 ≤ d2 < 128) ∧ d0 ≠ d1 ∧ d1 ≠ d2 ∧ d0 ≠ d2.
Proof.
  intros Hn d0 d1 d2. subst d0 d1 d2. unfold QUEUE_SIZE in *.
  pose proof (Z.div_mod n 128 ltac:(lia)). pose proof (Z.mod_pos_bound n 128 ltac:(lia)).
  pose proof (Z.div_mod (n + 1) 128 ltac:(lia)). pose proof (Z.mod_pos_bound (n + 1) 128 ltac:(lia)).
  pose proof (Z.div_mod (n + 2) 128 ltac:(lia)). pose proof (Z.mod_pos_bound (n + 2) 128 ltac:(lia)). lia.
Qed.

(** Stores of the rings at their physical addresses. *)
Definition post_chain (base d0 d1 d2 idx : Z) (c0 c1 c2 : VirtqDesc) (m : memory) : memory :=
  store_le 2 (idx_at (avail_at QUEUE_SIZE base)) (wrapping_add16 idx 1)
    (store_le 2 (avail_slot_at (avail_at QUEUE_SIZE base) (idx mod QUEUE_SIZE)) d0
       (store_desc (desc_at base d2) c2 (store_desc (desc_at base d1) c1 (store_desc (desc_at base d0) c0 m)))).

(** Where the stores of [post_chain] go. *)
Ltac ring_addrs :=
  pose proof layout_128; unfold idx_at, avail_slot_at, desc_at, QUEUE_SIZE, ring_end, used_at, avail_at in *;
  change (align_page (16 * 128 + (6 + 2 * 128))) with 4096 in *.

Section post_chain.
Context (base d0 d1 d2 idx : Z) (c0 c1 c2 : VirtqDesc) (m : memory).
Hypothesis Hd : (0 ≤ d0 < 128 ∧ 0 ≤ d1 < 128 ∧ 0 ≤ d2 < 128) ∧ d0 ≠ d1 ∧ d1 ≠ d2 ∧ d0 ≠ d2.
Hypothesis Hidx : 0 ≤ idx < 2 ^ 16.
Local Abbreviation posted := (post_chain base d0 d1 d2 idx c0 c1 c2 m).

Lemma slot_range : 0 ≤ idx mod QUEUE_SIZE < 128.
Proof. unfold QUEUE_SIZE. apply Z.mod_pos_bound. lia. Qed.

(** The descriptors and the available ring, nothing else. *)
Lemma post_other x : ¬ (base ≤ x < base + 2310) → posted x = m x.
Proof.
  intros Hx. pose proof slot_range. unfold post_chain. ring_addrs.
  rewrite !store_le_other by lia. by rewrite !store_desc_other by lia.
Qed.

Lemma post_idx : load_le 2 (idx_at (avail_at QUEUE_SIZE base)) posted = wrapping_add16 idx 1.
Proof. unfold post_chain. apply load_store_le. unfold wrapping_add16. apply Z.mod_pos_bound. lia. Qed.

Lemma post_slot : load_le 2 (avail_slot_at (avail_at QUEUE_SIZE base) (idx mod QUEUE_SIZE)) posted = d0.
Proof.
  pose proof slot_range. unfold post_chain. erewrite load_le_ext; [apply load_store_le; simpl; lia|].
  intros x Hx. apply store_le_other. ring_addrs. lia.
Qed.

Lemma post_descs :
  desc_ok c0 → desc_ok c1 → desc_ok c2 →
  load_desc (desc_at base d0) posted = c0 ∧ load_desc (desc_at base d1) posted = c1 ∧ load_desc (desc_at base d2) posted = c2.
Proof.
  intros H0 H1 H2. pose proof slot_range. unfold post_chain. split; [|split].
  - etrans; [|by apply (load_store_desc (desc_at base d0) c0 m)]. apply load_desc_ext. intros x Hx. ring_addrs.
    rewrite !store_le_other by lia. by rewrite !(store_desc_other (base + 16 * d2)), !(store_desc_other (base + 16 * d1)) by lia.
  - etrans; [|by apply (load_store_desc (desc_at base d1) c1 (store_desc (desc_at base d0) c0 m))]. apply load_desc_ext.
    intros x Hx. ring_addrs. rewrite !store_le_other by lia. by rewrite (store_desc_other (base + 16 * d2)) by lia.
  - etrans; [|by apply (load_store_desc (desc_at base d2) c2 (store_desc (desc_at base d1) c1 (store_desc (desc_at base d0) c0 m)))].
    apply load_desc_ext. intros x Hx. ring_addrs. by rewrite !store_le_other by lia.
Qed.
End post_chain.

Lemma enqueue_request_post dev q m0 hw type_ hp dp sp m :
  queue_ok dev q m0 hw → load_le 2 (idx_at (avail_at QUEUE_SIZE (queue_base hw))) m = seen hw →
  enqueue_request hhdm q type_ hp dp sp m =
  post_chain (queue_base hw) (next_desc q mod QUEUE_SIZE) ((next_desc q + 1) mod QUEUE_SIZE) ((next_desc q + 2) mod QUEUE_SIZE) (seen hw)
    (mkDesc hp 16 VRING_DESC_F_NEXT ((next_desc q + 1) mod QUEUE_SIZE))
    (mkDesc dp 512 (Z.lor VRING_DESC_F_NEXT (if type_ =? VIRTIO_BLK_T_IN then VRING_DESC_F_WRITE else 0)) ((next_desc q + 2) mod QUEUE_SIZE))
    (mkDesc sp 1 VRING_DESC_F_WRITE 0) m.
Proof.
  intros Hq Hseen. pose proof (mod_slots _ (ok_next _ _ _ _ Hq)) as ((H0 & H1 & H2) & _).
  unfold enqueue_request. cbv zeta. rewrite (ok_descs _ _ _ _ Hq), (ok_avail _ _ _ _ Hq).
  assert (Hda : ∀ i, phys hhdm (desc_at (queue_base hw + hhdm) i) = desc_at (queue_base hw) i) by (intros i; unfold phys, desc_at; lia).
  assert (Hia : ∀ r, phys hhdm (idx_at (r + hhdm)) = idx_at r) by (intros r; unfold phys, idx_at; lia).
  assert (Hsa : ∀ r i, phys hhdm (avail_slot_at (r + hhdm) i) = avail_slot_at r i) by (intros r i; unfold phys, avail_slot_at; lia).
  rewrite !Hda, !Hia, !Hsa.
  erewrite (load_le_ext 2 (idx_at _) m); [rewrite Hseen; reflexivity|].
  intros x Hx. ring_addrs. by rewrite !store_desc_other by lia.
Qed.

(** The memory the device finds, before the rings are written. *)
Definition request_mem (type_ sector base : Z) (buffer : list Z) (m : memory) : memory :=
  write_mem (base + 528) [0xFF]
    (if type_ =? VIRTIO_BLK_T_OUT then write_mem (base + 16) buffer (write_mem base (header_bytes type_ sector) m)
     else write_mem base (header_bytes type_ sector) m).

Lemma length_header_bytes type_ sector : length (header_bytes type_ sector) = 16%nat.
Proof. unfold header_bytes. by rewrite !length_app, !length_to_le_bytes. Qed.

Lemma request_mem_header type_ sector base buffer m :
  length buffer = 512%nat → read_mem base 16 (request_mem type_ sector base buffer m) = header_bytes type_ sector.
Proof.
  intros Hb. unfold request_mem. rewrite read_write_other by (simpl; lia).
  assert (Hr : read_mem base 16 (write_mem base (header_bytes type_ sector) m) = header_bytes type_ sector).
  { rewrite <- (read_write_mem base (header_bytes type_ sector) m) at 2. by rewrite length_header_bytes. }
  destruct (type_ =? VIRTIO_BLK_T_OUT); [|done]. by rewrite read_write_other by lia.
Qed.

Lemma request_mem_data sector base buffer m :
  length buffer = 512%nat → read_mem (base + 16) 512 (request_mem VIRTIO_BLK_T_OUT sector base buffer m) = buffer.
Proof.
  intros Hb. unfold request_mem. rewrite read_write_other by (simpl; lia). simpl.
  rewrite <- (read_write_mem (base + 16) buffer (write_mem base (header_bytes VIRTIO_BLK_T_OUT sector) m)) at 2. by rewrite Hb.
Qed.

Lemma request_mem_other type_ sector base buffer m x :
  length buffer = 512%nat → ¬ (base ≤ x < base + 529) → request_mem type_ sector base buffer m x = m x.
Proof.
  intros Hb Hx. unfold request_mem. rewrite write_mem_other by (simpl; lia).
  destruct (type_ =? VIRTIO_BLK_T_OUT); rewrite ?write_mem_other; try done; rewrite ?length_header_bytes; lia.
Qed.

(** The descriptors of a request have fields of their width. *)
Lemma chain_ok base d1 d2 type_ :
  0 ≤ base → base + 528 ≤ U64_MAX → 0 ≤ d1 < 128 → 0 ≤ d2 < 128 →
  desc_ok (mkDesc base 16 VRING_DESC_F_NEXT d1) ∧
  desc_ok (mkDesc (base + 16) 512 (Z.lor VRING_DESC_F_NEXT (if type_ =? VIRTIO_BLK_T_IN then VRING_DESC_F_WRITE else 0)) d2) ∧
  desc_ok (mkDesc (base + 16 + 512) 1 VRING_DESC_F_WRITE 0).
Proof.
  intros H0 Hmax H1 H2. unfold U64_MAX in Hmax.
  assert (0 ≤ Z.lor VRING_DESC_F_NEXT (if type_ =? VIRTIO_BLK_T_IN then VRING_DESC_F_WRITE else 0) < 2 ^ 16)
    by (destruct (type_ =? VIRTIO_BLK_T_IN); vm_compute; split; congruence).
  unfold VRING_DESC_F_NEXT, VRING_DESC_F_WRITE in *. split; [|split]; split; cbn [d_addr d_len d_flags d_next]; lia.
Qed.

(** What the driver posts is a request for the device, and only the DMA page, the descriptors and the available ring
    have changed. *)
Lemma posted_requested dev q m hw type_ sector buffer :
  queue_ok dev q m hw → type_ = VIRTIO_BLK_T_IN ∨ type_ = VIRTIO_BLK_T_OUT → u64_ok sector → length buffer = 512%nat →
  let base := dma_phys dev in
  let m1 := enqueue_request hhdm q type_ base (base + 16) (base + 16 + 512) (request_mem type_ sector base buffer m) in
  requested hw m1 type_ sector (base + 16) (base + 16 + 512) ∧ used_idx hw m1 = used_idx hw m ∧
  (∀ x, base ≤ x < base + 529 → m1 x = request_mem type_ sector base buffer m x) ∧
  (∀ x, ¬ (base ≤ x < base + 529) → ¬ (queue_base hw ≤ x < queue_base hw + 2310) → m1 x = m x).
Proof.
  intros Hq Ht Hsec Hb base m1. pose proof (mod_slots _ (ok_next _ _ _ _ Hq)) as Hd.
  pose proof (ok_apart _ _ _ _ Hq) as Hap. fold base in Hap. pose proof (ok_seen_range _ _ _ _ Hq) as Hsr.
  pose proof (ok_dma _ _ _ _ Hq) as (Hp0 & Hp1 & _). fold base in Hp0, Hp1. pose proof (ok_size _ _ _ _ Hq) as Hsz.
  pose proof (layout_128 (queue_base hw)) as (Ela & Elu & Ele). change 128 with QUEUE_SIZE in Ela, Elu, Ele.
  set (mr := request_mem type_ sector base buffer m) in *.
  assert (Hmr : ∀ x, queue_base hw ≤ x < ring_end QUEUE_SIZE (queue_base hw) → mr x = m x).
  { intros x Hx. apply request_mem_other; [done|lia]. }
  assert (Hseen : load_le 2 (idx_at (avail_at QUEUE_SIZE (queue_base hw))) mr = seen hw).
  { rewrite <- (ok_seen _ _ _ _ Hq). apply load_le_ext. intros x Hx. apply Hmr. unfold idx_at in Hx. lia. }
  assert (Hm1 : ∀ x, ¬ (queue_base hw ≤ x < queue_base hw + 2310) → m1 x = mr x).
  { intros x Hx. unfold m1. rewrite (enqueue_request_post dev q m hw) by done. by apply post_other. }
  split; [|split; [|split]].
  - unfold m1 in *. rewrite (enqueue_request_post dev q m hw) in * by done. clear m1.
    set (d0 := next_desc q mod QUEUE_SIZE) in *. set (d1 := (next_desc q + 1) mod QUEUE_SIZE) in *. set (d2 := (next_desc q + 2) mod QUEUE_SIZE) in *.
    set (c0 := mkDesc base 16 _ d1). set (c1 := mkDesc (base + 16) 512 _ d2). set (c2 := mkDesc (base + 16 + 512) 1 _ 0).
    assert (desc_ok c0 ∧ desc_ok c1 ∧ desc_ok c2) as (Hc0 & Hc1 & Hc2) by (apply chain_ok; apply Hd || lia).
    destruct (post_descs (queue_base hw) d0 d1 d2 (seen hw) c0 c1 c2 mr Hd Hc0 Hc1 Hc2) as (E0 & E1 & E2).
    split; rewrite ?Hsz; [by rewrite post_idx| |done|done|lia|lia|lia].
    exists d0, base, d1, d2, 0. split; [by apply post_slot|]. do 3 (split; [apply Hd|]).
    do 3 (split; [eassumption|]). etrans; [|by apply (request_mem_header type_ sector base buffer m)].
    apply read_mem_ext. intros x Hx. apply Hm1. lia.
  - unfold used_idx. rewrite Hsz. apply load_le_ext. intros x Hx. unfold idx_at in Hx. rewrite Hm1 by lia. apply Hmr. lia.
  - intros x Hx. apply Hm1. lia.
  - intros x Hx1 Hx2. rewrite Hm1 by done. by apply request_mem_other.
Qed.

(** ** One request *)

(** The bytes that belong to the driver: its rings and its part of the DMA page. *)
Definition driver_mem (dev : VirtioBlkDevice) (hw : D) (x : Z) : Prop :=
  queue_base hw ≤ x < ring_end QUEUE_SIZE (queue_base hw) ∨ dma_phys dev ≤ x < dma_phys dev + 529.

Definition TIMEOUT : string := "virtio-blk: timeout waiting for I/O".

(** The notification of a request: [m'] and [d'] are memory and the device when the driver stops waiting; the answer
    is [r]. *)
Record io_done (type_ sector : Z) (buffer : list Z) (s s' : Blk D) (r : result string (list Z)) : Prop := {
  io_ok : blk_ok s' ∨ r = Err TIMEOUT;
  io_others : ∀ k, k ≠ sector → disk (b_hw s') k = disk (b_hw s) k;
  io_reads : type_ = VIRTIO_BLK_T_IN → disk (b_hw s') = disk (b_hw s);
  io_result : match r with
              | Ok b => (type_ = VIRTIO_BLK_T_IN → disk (b_hw s) sector = Some b) ∧
                        (type_ = VIRTIO_BLK_T_OUT → disk (b_hw s') sector = Some buffer)
              | Err _ => True
              end;
  io_memory : ∀ x, ¬ driver_mem (b_dev s) (b_hw s) x → b_mem s' x = b_mem s x;
  io_device : ∃ q', b_dev s' = with_queue (b_dev s) q';
  io_served : ∃ port m da sa, requested (b_hw s) m type_ sector da sa ∧ serve port REQUEST_QUEUE m (b_hw s) = (b_mem s', b_hw s') ∧
                (completed (b_hw s) m (b_mem s') (b_hw s') → b_mem s' sa = VIRTIO_BLK_S_OK → blk_ok s' ∧ ∃ b, r = Ok b);
}.

Lemma next_idx i : 0 ≤ i < 2 ^ 16 → (i + 1) mod 2 ^ 16 ≠ i.
Proof.
  intros Hi E. destruct (decide (i = 2 ^ 16 - 1)) as [Em|Em]; [rewrite Em in E; vm_compute in E; done|].
  rewrite Z.mod_small in E by lia. lia.
Qed.

(** After the device's answer the queue is in order again. *)
Lemma completed_ok dev q m hw m1 m' hw' nx :
  queue_ok dev q m hw → 0 ≤ nx < QUEUE_SIZE →
  queue_size hw' = queue_size hw → queue_base hw' = queue_base hw →
  used_idx hw m1 = used_idx hw m → completed hw m1 m' hw' →
  load_le 2 (idx_at (avail_at QUEUE_SIZE (queue_base hw))) m' = (seen hw + 1) mod 2 ^ 16 →
  let q' := mkVq (descs q) (avail q) (used q) nx (wrapping_add16 (last_used_idx q) 1) in
  queue_ok (with_queue dev q') q' m' hw'.
Proof.
  intros Hq Hnx Hsz Hbase Hu [Hc1 Hc2] Hav q'. destruct Hq.
  assert (Hu' : used_idx hw' m' = wrapping_add16 (last_used_idx q) 1).
  { unfold used_idx in *. rewrite Hsz, Hbase. rewrite Hc1, Hu, ok_last0. done. }
  split; cbn [descs avail used next_desc last_used_idx dma_phys dma_virt capacity_blocks io_base with_queue q'];
    rewrite ?Hsz, ?Hbase; try done.
  - unfold wrapping_add16. apply Z.mod_pos_bound. lia.
  - rewrite Hav. by rewrite Hc2.
  - rewrite Hc2. apply Z.mod_pos_bound. lia.
Qed.

(** The memory at the notification. *)
Definition notified_mem (dev : VirtioBlkDevice) (q : Virtqueue) (type_ sector : Z) (buffer : list Z) (m : memory) : memory :=
  enqueue_request hhdm q type_ (dma_phys dev) (dma_phys dev + 16) (dma_phys dev + 16 + 512)
    (request_mem type_ sector (dma_phys dev) buffer m).

(** The queue after a request; [last] is the used index seen. *)
Definition next_queue (q : Virtqueue) (last : Z) : Virtqueue :=
  mkVq (descs q) (avail q) (used q) ((next_desc q + 3) mod QUEUE_SIZE) last.

(** Up to the notification nothing overflows; then the device decides. *)
Lemma do_block_io_run type_ sector buffer dev m hw q :
  queue dev = Some q → queue_ok dev q m hw → length buffer = 512%nat →
  do_block_io hhdm type_ sector buffer (mkState dev m hw) =
  let '(m', hw') := serve (io_base dev + VIRTIO_QUEUE_NOTIFY) REQUEST_QUEUE (notified_mem dev q type_ sector buffer m) hw in
  if used_idx hw m' =? last_used_idx q then Ret (Err TIMEOUT, mkState (with_queue dev (next_queue q (last_used_idx q))) m' hw')
  else
    let s' := mkState (with_queue dev (next_queue q (wrapping_add16 (last_used_idx q) 1))) m' hw' in
    if m' (dma_phys dev + 16 + 512) =? VIRTIO_BLK_S_OK then
      Ret (Ok (if type_ =? VIRTIO_BLK_T_IN then read_mem (dma_phys dev + 16) 512 m' else buffer), s')
    else Ret (Err "virtio-blk: I/O error", s').
Proof.
  intros Hq Hok Hb. unfold do_block_io. cbn [b_dev b_mem b_hw]. rewrite Hq.
  pose proof (ok_dma _ _ _ _ Hok) as (_ & Hp & Hv). pose proof (ok_virt _ _ _ _ Hok) as Evirt. pose proof (ok_next _ _ _ _ Hok) as Hn.
  assert (Hadd : ∀ a b, a + b ≤ U64_MAX → checked_add64 a b = Ret (a + b)) by (intros; by apply checked_add64_Ret).
  assert (Hadd16 : ∀ a b, a + b ≤ U16_MAX → checked_add16 a b = Ret (a + b)).
  { intros a b Hab. unfold checked_add16. by rewrite decide_True. }
  rewrite (Hadd (dma_phys dev)) by lia. cbn [outcome_bind]. rewrite Hadd by lia. cbn [outcome_bind].
  rewrite (Hadd (dma_virt dev)) by lia. cbn [outcome_bind]. rewrite Hadd by lia. cbn [outcome_bind].
  rewrite (Hadd16 (next_desc q)) by (unfold U16_MAX, QUEUE_SIZE in *; lia). cbn [outcome_bind].
  rewrite (Hadd16 (io_base dev)) by apply Hok. cbn [outcome_bind]. cbv zeta.
  replace (store hhdm (dma_virt dev + 16 + 512) [255] _) with (request_mem type_ sector (dma_phys dev) buffer m).
  2:{ unfold request_mem, store, phys. rewrite Evirt. replace (dma_phys dev + hhdm - hhdm) with (dma_phys dev) by lia.
      replace (dma_phys dev + hhdm + 16 - hhdm) with (dma_phys dev + 16) by lia.
      by replace (dma_phys dev + hhdm + 16 + 512 - hhdm) with (dma_phys dev + 528) by lia. }
  fold (notified_mem dev q type_ sector buffer m). destruct (serve _ _ _ _) as [m' hw'].
  pose proof (ok_used _ _ _ _ Hok) as Eused. unfold used_idx, load, phys, idx_at. rewrite (ok_size _ _ _ _ Hok).
  replace (used q + 2 - hhdm) with (used_at QUEUE_SIZE (queue_base hw) + 2) by lia.
  replace (dma_virt dev + 16 + 512 - hhdm) with (dma_phys dev + 16 + 512) by lia.
  replace (dma_virt dev + 16 - hhdm) with (dma_phys dev + 16) by lia. reflexivity.
Qed.

(** What the device leaves of the rings. *)
Lemma device_keeps dev q m hw type_ m1 m' :
  queue_ok dev q m hw → (∀ x, ¬ device_writes hw type_ (dma_phys dev + 16) (dma_phys dev + 16 + 512) x → m' x = m1 x) →
  load_le 2 (idx_at (avail_at QUEUE_SIZE (queue_base hw))) m' = load_le 2 (idx_at (avail_at QUEUE_SIZE (queue_base hw))) m1.
Proof.
  intros Hok Hmem. pose proof (ok_apart _ _ _ _ Hok) as Hap. pose proof (layout_128 (queue_base hw)) as (Ela & Elu & Ele).
  change 128 with QUEUE_SIZE in Ela, Elu, Ele. apply load_le_ext. intros x Hx. apply Hmem. unfold device_writes.
  rewrite (ok_size _ _ _ _ Hok). unfold idx_at in Hx. lia.
Qed.

Lemma do_block_io_spec type_ sector buffer (s : Blk D) q :
  queue (b_dev s) = Some q → queue_ok (b_dev s) q (b_mem s) (b_hw s) → length buffer = 512%nat →
  type_ = VIRTIO_BLK_T_IN ∨ type_ = VIRTIO_BLK_T_OUT → u64_ok sector →
  ∃ r s', do_block_io hhdm type_ sector buffer s = Ret (r, s') ∧ io_done type_ sector buffer s s' r.
Proof.
  intros Hq Hok Hb Ht Hsec. destruct s as [dev m hw]. cbn [b_dev b_mem b_hw] in *. rewrite (do_block_io_run type_ sector buffer dev m hw q Hq Hok Hb).
  destruct (posted_requested dev q m hw type_ sector buffer Hok Ht Hsec Hb) as (Hreq & Hu & Hdma & Hother). cbv zeta in Hreq, Hu, Hdma, Hother.
  fold (notified_mem dev q type_ sector buffer m) in Hreq, Hu, Hdma, Hother. set (m1 := notified_mem _ _ _ _ _ _) in *.
  pose proof (serve_spec (io_base dev + VIRTIO_QUEUE_NOTIFY) m1 hw type_ sector _ _ Hreq) as Hs.
  destruct (serve (io_base dev + VIRTIO_QUEUE_NOTIFY) REQUEST_QUEUE m1 hw) as [m' hw'] eqn:Eserve.
  destruct Hs as (Hsz & Hbase & Hmem & Hdisk & Hin & Hres).
  assert (Hkeep : ∀ x, ¬ driver_mem dev hw x → m' x = m x).
  { intros x Hx. unfold driver_mem in Hx. pose proof (layout_128 (queue_base hw)) as (Ela & Elu & Ele). change 128 with QUEUE_SIZE in Ela, Elu, Ele.
    rewrite Hmem; [apply Hother; lia|]. unfold device_writes. rewrite (ok_size _ _ _ _ Hok). lia. }
  assert (Hne : completed hw m1 m' hw' → used_idx hw m' ≠ last_used_idx q).
  { intros [-> _]. rewrite Hu, (ok_last _ _ _ _ Hok). apply next_idx, Hok. }
  destruct Hres as [Hstill|[Hc Hdone]].
  { rewrite Hstill, Hu, (ok_last _ _ _ _ Hok), Z.eqb_refl. eexists _, _. split; [reflexivity|]. split; cbn [b_dev b_mem b_hw]; try done; [by right|by eexists|].
    eexists _, m1, _, _. split; [exact Hreq|]. split; [exact Eserve|]. intros Hc. exfalso. apply (Hne Hc). by rewrite Hstill, Hu, (ok_last _ _ _ _ Hok). }
  rewrite (proj2 (Z.eqb_neq _ _) (Hne Hc)). cbv zeta. set (s' := mkState _ m' hw').
  assert (Hok' : blk_ok s').
  { intros _. eexists. split; [reflexivity|]. cbn [b_dev b_mem b_hw s'].
    refine (completed_ok dev q m hw m1 m' hw' _ Hok _ Hsz Hbase Hu Hc _); [by apply Z.mod_pos_bound|].
    rewrite (device_keeps dev q m hw type_ m1 m' Hok Hmem), <- (rq_idx _ _ _ _ _ _ Hreq). by rewrite (ok_size _ _ _ _ Hok). }
  assert (Hserved : ∀ r : result string (list Z), (m' (dma_phys dev + 16 + 512) = VIRTIO_BLK_S_OK → ∃ b, r = Ok b) →
    ∃ port m0 da sa, requested hw m0 type_ sector da sa ∧ serve port REQUEST_QUEUE m0 hw = (m', hw') ∧
      (completed hw m0 m' hw' → m' sa = VIRTIO_BLK_S_OK → blk_ok s' ∧ ∃ b, r = Ok b)).
  { intros r Hr. eexists _, m1, _, _. split; [exact Hreq|]. split; [exact Eserve|]. intros _ E. split; [done|by apply Hr]. }
  destruct (Z.eqb_spec (m' (dma_phys dev + 16 + 512)) VIRTIO_BLK_S_OK) as [Est|Est]; eexists _, s'; (split; [reflexivity|]).
  - destruct (Hdone Est) as [Hdin Hdout]. split; try done; [by left| |by eexists|apply Hserved; by eexists]. split.
    + intros ->. by apply Hdin.
    + intros ->. cbn [Z.eqb VIRTIO_BLK_T_OUT VIRTIO_BLK_T_IN]. cbn [b_hw s']. rewrite (Hdout eq_refl). f_equal.
      etrans; [|by apply (request_mem_data sector (dma_phys dev) buffer m)]. apply read_mem_ext. intros x Hx. apply Hdma. lia.
  - split; try done; [by left|by eexists|by apply Hserved].
Qed.

(** What every call leaves: a state between two requests unless the device was too slow, all memory but the driver's
    own, and the whole state when the driver refuses the block. *)
Record call_done {A} (n : Z) (s s' : Blk D) (r : result string A) : Prop := {
  cd_ok : blk_ok s' ∨ r = Err TIMEOUT;
  cd_memory : ∀ x, ¬ driver_mem (b_dev s) (b_hw s) x → b_mem s' x = b_mem s x;
  cd_refused : initialized (b_dev s) = false ∨ capacity_blocks (b_dev s) ≤ n → (∃ e, r = Err e) ∧ s' = s;
}.

Lemma refused_done {A} n (s : Blk D) e : blk_ok s → call_done n s s (Err e : result string A).
Proof. intros Hok. split; [by left|done|]. intros _. split; [by eexists|done]. Qed.

Lemma read_block_ok n buffer (s : Blk D) :
  blk_ok s → 0 ≤ n → length buffer = 512%nat →
  ∃ r s', read_block hhdm n buffer s = Ret (r, s') ∧ call_done n s s' r ∧ disk (b_hw s') = disk (b_hw s) ∧
          match r with Ok b => disk (b_hw s) n = Some b | Err _ => True end.
Proof.
  intros Hok H0 Hb. unfold read_block. destruct (initialized (b_dev s)) eqn:Ei.
  2: { eexists _, s. split; [reflexivity|]. split; [by apply refused_done|done]. }
  cbn [negb]. destruct (Z.leb_spec (capacity_blocks (b_dev s)) n).
  { eexists _, s. split; [reflexivity|]. split; [by apply refused_done|done]. }
  destruct (Hok Ei) as (q & Hq & Hqok). pose proof (ok_capacity _ _ _ _ Hqok).
  destruct (do_block_io_spec VIRTIO_BLK_T_IN n buffer s q) as (r & s' & E & Hio);
    [done|done|done|by left|unfold u64_ok; lia|].
  exists r, s'. split; [done|]. split; [|split; [by apply Hio|]].
  - split; [apply Hio|apply Hio|]. intros [Hn|Hn]; [congruence|lia].
  - destruct r as [b|e]; [|done]. by apply (io_result _ _ _ _ _ _ Hio).
Qed.

Lemma write_block_ok n data (s : Blk D) :
  blk_ok s → 0 ≤ n → length data = 512%nat →
  ∃ r s', write_block hhdm n data s = Ret (r, s') ∧ call_done n s s' r ∧ (∀ k, k ≠ n → disk (b_hw s') k = disk (b_hw s) k) ∧
          match r with Ok _ => disk (b_hw s') n = Some data | Err _ => True end.
Proof.
  intros Hok H0 Hb. unfold write_block. destruct (initialized (b_dev s)) eqn:Ei.
  2: { eexists _, s. split; [reflexivity|]. split; [by apply refused_done|done]. }
  cbn [negb]. destruct (Z.leb_spec (capacity_blocks (b_dev s)) n).
  { eexists _, s. split; [reflexivity|]. split; [by apply refused_done|done]. }
  destruct (Hok Ei) as (q & Hq & Hqok). pose proof (ok_capacity _ _ _ _ Hqok).
  destruct (do_block_io_spec VIRTIO_BLK_T_OUT n data s q) as (r & s' & E & Hio);
    [done|done|done|by right|unfold u64_ok; lia|].
  assert (Hcd : ∀ r', (r = Err TIMEOUT → r' = Err TIMEOUT) → call_done n s s' (r' : result string ())).
  { intros r' Hr. split; [destruct (io_ok _ _ _ _ _ _ Hio); [by left|right; auto]|apply Hio|].
    intros [Hn|Hn]; [congruence|lia]. }
  unfold cmd_bind. rewrite E. destruct r as [b|e]; eexists _, s'; (split; [reflexivity|]).
  - split; [by apply Hcd|]. split; [apply Hio|]. by apply (io_result _ _ _ _ _ _ Hio).
  - split; [apply Hcd; by intros [= ->]|]. split; [apply Hio|done].
Qed.
End correct.

(** ** init establishes the invariant *)
Section gives.
Context {P : Type} `{!Ports P} {Dev : Type} (hhdm : Z).
Import Pci Frames.

(** When a command returns a value, the value and the state satisfy [Q]. *)
Definition gives {A} (m : boot P Dev A) (Q : A → Boot P Dev → Prop) : Prop := ∀ b a b', m b = Ret (Ok a, b') → Q a b'.

(** The same from the states of [Pre]. *)
Definition from (Pre : Boot P Dev → Prop) {A} (m : boot P Dev A) (Q : A → Boot P Dev → Prop) : Prop :=
  ∀ b a b', Pre b → m b = Ret (Ok a, b') → Q a b'.

Lemma gives_bind {A B} (m : boot P Dev A) (k : A → boot P Dev B) (R : A → Prop) Q :
  gives m (λ a _, R a) → (∀ a, R a → gives (k a) Q) → gives (cmd_bind m k) Q.
Proof.
  intros Hm Hk b x b' H. unfold cmd_bind in H. destruct (m b) as [[[a|e] b1]|] eqn:E; try done.
  eapply Hk; [by eapply Hm|done].
Qed.

Lemma gives_then {A B} (m : boot P Dev A) (k : A → boot P Dev B) Q : (∀ a, gives (k a) Q) → gives (cmd_bind m k) Q.
Proof. intros Hk. apply (gives_bind m k (λ _, True)); auto. done. Qed.

Lemma gives_ret {A} (a : A) (R : A → Prop) : R a → gives (ret a) (λ x _, R x).
Proof. intros H b x b' [= <- _]. done. Qed.

Lemma gives_any {A} (m : boot P Dev A) : gives m (λ _ _, True).
Proof. done. Qed.

Lemma gives_add64 x y : gives (lift_outcome (checked_add64 x y)) (λ z _, z = x + y ∧ x + y ≤ U64_MAX).
Proof.
  intros b a b'. unfold lift_outcome. destruct (checked_add64 x y) eqn:E; [|done]. intros [= <- _]. by apply checked_add64_Ret.
Qed.

Lemma gives_mul64 x y : gives (lift_outcome (checked_mul64 x y)) (λ _ _, x * y ≤ U64_MAX).
Proof.
  intros b a b'. unfold lift_outcome, checked_mul64. by destruct (decide (x * y ≤ U64_MAX)).
Qed.

Lemma gives_port inp io off : gives (read_port inp io off) (λ _ _, io + off ≤ U16_MAX).
Proof.
  intros b v b' H. unfold read_port, cmd_bind, lift_outcome, checked_add16 in H.
  by destruct (decide (io + off ≤ U16_MAX)).
Qed.

(** ** Commands that leave the frames and memory alone *)
Definition quiet {A} (m : boot P Dev A) : Prop :=
  ∀ b a b', m b = Ret (Ok a, b') → bt_frames b' = bt_frames b ∧ bt_mem b' = bt_mem b.

(** Facts about the frames and memory. *)
Definition stable (Pre : Boot P Dev → Prop) : Prop :=
  ∀ b b', bt_frames b' = bt_frames b → bt_mem b' = bt_mem b → Pre b → Pre b'.

Lemma from_bind {A B} Pre (m : boot P Dev A) (k : A → boot P Dev B) R Q :
  from Pre m R → (∀ a, from (R a) (k a) Q) → from Pre (cmd_bind m k) Q.
Proof.
  intros Hm Hk b x b' Hb H. unfold cmd_bind in H. destruct (m b) as [[[a|e] b1]|] eqn:E; try done.
  eapply Hk; [by eapply Hm|done].
Qed.

Lemma from_quiet {A B} Pre (m : boot P Dev A) (k : A → boot P Dev B) (R : A → Prop) Q :
  stable Pre → quiet m → gives m (λ a _, R a) → (∀ a, R a → from Pre (k a) Q) → from Pre (cmd_bind m k) Q.
Proof.
  intros Hst Hq Hr Hk. apply (from_bind _ _ _ (λ a b, R a ∧ Pre b)).
  - intros b a b' Hb H. destruct (Hq _ _ _ H) as [H1 H2]. split; [by eapply Hr|by eapply Hst].
  - intros a b x b' [Ha Hb] H. by eapply Hk.
Qed.

Lemma quiet_lift {A} (o : outcome A) : quiet (lift_outcome o).
Proof. intros b a b' H. unfold lift_outcome in H. destruct o; by simplify_eq. Qed.

Lemma quiet_bind {A B} (m : boot P Dev A) (k : A → boot P Dev B) : quiet m → (∀ a, quiet (k a)) → quiet (cmd_bind m k).
Proof.
  intros Hm Hk b x b' H. unfold cmd_bind in H. destruct (m b) as [[[a|e] b1]|] eqn:E; try done.
  destruct (Hm _ _ _ E) as [<- <-]. by eapply Hk.
Qed.

Lemma quiet_update (f : Boot P Dev → Boot P Dev) :
  (∀ b, bt_frames (f b) = bt_frames b ∧ bt_mem (f b) = bt_mem b) → quiet (cmd_bind get_state (λ b, put_state (f b))).
Proof. intros Hf b a b' H. injection H as _ <-. apply Hf. Qed.

Lemma quiet_write_port out io off v : quiet (write_port out io off v).
Proof. apply quiet_bind; [apply quiet_lift|]. intros port. by apply quiet_update. Qed.

Lemma quiet_read_port inp io off : quiet (read_port inp io off).
Proof.
  apply quiet_bind; [apply quiet_lift|]. intros port b v b' H. unfold cmd_bind, get_state, put_state, ret in H.
  destruct (inp port (bt_ports b)) as [w p]. by simplify_eq.
Qed.

(** ** Frames *)

(** The page frame numbers fit in the u32 of the queue address register, and no frame of [ks] is free. *)
Definition taken (ks : list Z) (b : Boot P Dev) : Prop :=
  ∃ a, bt_frames b = Some a ∧ alloc_wf a ∧ total_frames a ≤ 2 ^ 32 ∧ ∀ k, k ∈ ks → k ∉ free_set a.

Lemma taken_stable ks : stable (taken ks).
Proof. intros b b' Hf _ (a & Ha & H). exists a. by rewrite Hf. Qed.

(** Of an allocation: the frame, and that its successor is the next to be looked at. *)
Definition got (ks : list Z) (f : Z) (b : Boot P Dev) : Prop :=
  ∃ a k, f = k * PAGE_SIZE ∧ 0 ≤ k < 2 ^ 32 ∧ (k ∉ ks) ∧ bt_frames b = Some a ∧ alloc_wf a ∧ total_frames a ≤ 2 ^ 32 ∧
    (∀ k', k' ∈ k :: ks → k' ∉ free_set a) ∧ next_free a = k + 1.

Lemma from_alloc_frame ks : from (taken ks) alloc_frame (got ks).
Proof.
  intros b f b' (a & Ha & Hwf & Ht & Hks) H. unfold alloc_frame, cmd_bind, get_state, ok_or, lift_outcome, put_state in H. rewrite Ha in H.
  pose proof (allocate_frame_refines a Hwf) as Hal. destruct (allocate_frame a) as [[[g|] a']|] eqn:E; [|done..].
  destruct Hal as (Hwf' & k & -> & Hk & Hfs & _). injection H as <- <-. exists a', k. split; [done|].
  apply elem_of_free_set in Hk as Hk'. split; [lia|]. split; [intros Hin; by apply (Hks k)|]. split; [done|]. split; [done|].
  rewrite (allocate_frame_total _ _ _ Hwf E). split; [done|]. split; [|by eapply (allocate_next a k a')].
  intros k' [->|Hin]%elem_of_cons; rewrite Hfs; set_solver.
Qed.

Lemma from_got {A} ks (m : Z → boot P Dev A) Q :
  (∀ k, 0 ≤ k < 2 ^ 32 → (k ∉ ks) → from (got ks (k * PAGE_SIZE)) (m (k * PAGE_SIZE)) Q) → ∀ f, from (got ks f) (m f) Q.
Proof.
  intros H f b x b' Hgot. destruct Hgot as (a & k & -> & Hk & Hn & Hrest). apply (H k Hk Hn b x b'). by exists a, k.
Qed.

(** The next frame is then taken too: it was not free, or it is the one allocated. *)
Lemma from_next_frame k : from (got [] (k * PAGE_SIZE)) alloc_frame (λ _, taken [k; k + 1]).
Proof.
  intros b f b' (a & k0 & Ek & Hk0 & _ & Ha & Hwf & Ht & Hks & Hn) H. unfold PAGE_SIZE in Ek. assert (k0 = k) as -> by lia. clear Ek.
  unfold alloc_frame, cmd_bind, get_state, ok_or, lift_outcome, put_state in H. rewrite Ha in H.
  pose proof (allocate_frame_refines a Hwf) as Hal. destruct (allocate_frame a) as [[[g|] a']|] eqn:E; [|done..].
  destruct Hal as (Hwf' & j & -> & Hj & Hfs & _). injection H as _ <-. exists a'. split; [done|]. split; [done|].
  rewrite (allocate_frame_total _ _ _ Hwf E). split; [done|]. pose proof (Hks k ltac:(set_solver)) as Hkn.
  intros k' [->|[->|[]%elem_of_nil]%elem_of_cons]%elem_of_cons; rewrite Hfs; [set_solver|].
  intros [Hin Hne%not_elem_of_singleton]%elem_of_difference. apply Hne. rewrite <- Hn in Hin |- *. symmetry.
  by apply (allocate_next a j a').
Qed.

Lemma alloc_frame_mem b f b' : alloc_frame (P := P) (Dev := Dev) b = Ret (Ok f, b') → bt_mem b' = bt_mem b.
Proof.
  intros H. unfold alloc_frame, cmd_bind, get_state, ok_or, lift_outcome, put_state in H. destruct (bt_frames b) as [a|]; [|done].
  destruct (allocate_frame a) as [[[g|] a']|]; [|done..]. by injection H as _ <-.
Qed.

Lemma from_zero_mem (Pre : Boot P Dev → Prop) virt n :
  (∀ b1 b2, bt_frames b2 = bt_frames b1 → Pre b1 → Pre b2) →
  from Pre (zero_mem hhdm virt n) (λ _ b', Pre b' ∧ ∀ x, phys hhdm virt ≤ x < phys hhdm virt + n → bt_mem b' x = 0).
Proof.
  intros Hst b [] b' Hb H. injection H as <-. split; [by apply (Hst b)|]. intros x Hx. cbn [bt_mem set_mem]. unfold store, write_mem.
  rewrite length_replicate. rewrite decide_True by lia. rewrite nth_lookup. by rewrite (lookup_replicate_2 (Z.to_nat n)) by lia.
Qed.

Lemma zero_mem_keeps virt n (b b' : Boot P Dev) x : zero_mem hhdm virt n b = Ret (Ok (), b') → bt_mem b x = 0 → bt_mem b' x = 0.
Proof.
  intros H Hx. injection H as <-. cbn [bt_mem set_mem]. unfold store, write_mem. case_decide; [|done].
  rewrite nth_lookup. destruct (_ !! _) as [v|] eqn:E; [|done]. apply lookup_replicate_1 in E as [-> _]. done.
Qed.

(** The rings of a queue at [base]. *)
Definition queue_at (base : Z) : Virtqueue :=
  mkVq (base + hhdm) (avail_at QUEUE_SIZE base + hhdm) (used_at QUEUE_SIZE base + hhdm) 0 0.

(** What setup_virtqueue leaves: zeroed rings in two frames, and the DMA page in another one. *)
Definition set_up (q : Virtqueue) (dp dv : Z) (b : Boot P Dev) : Prop :=
  ∃ k j, q = queue_at (k * PAGE_SIZE) ∧ 0 ≤ k < 2 ^ 32 ∧ dp = j * PAGE_SIZE ∧ 0 ≤ j ∧ (j ∉ [k; k + 1]) ∧
    dv = dp + hhdm ∧ dv ≤ U64_MAX ∧ ∀ x, k * PAGE_SIZE ≤ x < (k + 2) * PAGE_SIZE → bt_mem b x = 0.

Lemma zeroed_stable (Pre : Boot P Dev → Prop) lo hi :
  stable Pre → stable (λ b, Pre b ∧ ∀ x, lo ≤ x < hi → bt_mem b x = 0).
Proof. intros Hst b b' Hf Hm [Hb Hz]. split; [by eapply Hst|by rewrite Hm]. Qed.

Lemma from_setup io idx : from (taken []) (setup_virtqueue hhdm io idx) (λ x b, let '(q, dp, dv) := x in set_up q dp dv b).
Proof.
  unfold setup_virtqueue. eapply from_quiet; [apply taken_stable|apply quiet_write_port|apply gives_any|]. intros _ _.
  eapply from_quiet; [apply taken_stable|apply quiet_read_port|apply gives_any|]. intros size _. destruct (size =? 0); [done|].
  eapply from_bind; [apply from_alloc_frame|]. apply from_got. intros k Hk _.
  change (Z.to_nat (num_pages - 1)) with 1%nat. cbn [alloc_frames].
  eapply (from_bind _ _ _ (λ _, taken [k; k + 1])).
  { eapply from_bind; [apply from_next_frame|]. intros g b [] b' Hb [= <-]. exact Hb. }
  intros []. eapply from_quiet; [apply taken_stable|apply quiet_lift|apply gives_add64|]. intros virt [-> _].
  eapply from_bind; [apply from_zero_mem; intros b b' Hf (a & Ha & H); exists a; by rewrite Hf|]. intros []. cbv beta.
  match goal with |- from ?Pr _ _ => set (Pre := Pr) end. assert (Hst : stable Pre) by apply zeroed_stable, taken_stable.
  eapply from_quiet; [exact Hst|apply quiet_lift|apply gives_add64|]. intros av [-> _].
  eapply from_quiet; [exact Hst|apply quiet_lift|apply gives_add64|]. intros us [-> _].
  eapply from_quiet; [exact Hst|apply quiet_write_port|apply gives_any|]. intros _ _.
  eapply (from_bind _ _ _ (λ f b, ∃ j, f = j * PAGE_SIZE ∧ 0 ≤ j ∧ (j ∉ [k; k + 1]) ∧ Pre b)).
  { intros b f b' [Hb Hz] H. destruct (from_alloc_frame _ b f b' Hb H) as (a & j & -> & Hj & Hnot & Ha & Hwf & Ht & Hks & _).
    exists j. split; [done|]. split; [lia|]. split; [done|]. split; [exists a; split; [done|]; set_solver|].
    intros x Hx. by rewrite (alloc_frame_mem _ _ _ H), Hz. }
  intros f. eapply from_quiet; [|apply quiet_lift|apply gives_add64|].
  { intros b b' Hf Hm (j & E & H0 & Hj & Hb). exists j. do 3 (split; [done|]). by eapply Hst. }
  intros dv [-> Hdv]. intros b x b' (j & -> & Hj0 & Hj & [_ Hz]) H. unfold cmd_bind in H.
  destruct (zero_mem hhdm (j * PAGE_SIZE + hhdm) 4096 b) as [[[[]|] b1]|] eqn:E; [|done..]. injection H as <- <-.
  exists k, j. split.
  { unfold queue_at, desc_size, avail_at, used_at, QUEUE_SIZE. change used_offset with 4096. change (align_page _) with 4096. f_equal; lia. }
  do 6 (split; [done|]). intros x Hx. eapply zero_mem_keeps; [exact E|]. apply Hz. unfold phys, PAGE_SIZE in *.
  change (num_pages * 4096) with 8192. lia.
Qed.
End gives.

Section boot_ok.
Context {P : Type} `{!Ports P} (hhdm : Z).
Import Pci Frames.

(** What the device record and memory are after a successful init. *)
Definition online (b : Boot P VirtioBlkDevice) : Prop :=
  ∃ io cap q dp dv, bt_dev b = mkBlk io cap (Some q) dp dv true ∧ set_up hhdm q dp dv b ∧
    cap * 512 ≤ U64_MAX ∧ io + VIRTIO_BLK_CAPACITY ≤ U16_MAX.

Lemma quiet_find_blk : quiet (find_blk (P := P)).
Proof.
  intros b d b' E. unfold find_blk, cmd_bind, get_state, put_state, ret, ok_or in E.
  destruct (find_device _ _ _) as [[dev|] p]; [by simplify_eq|]. destruct (find_by_vendor _ p) as [l p'].
  destruct (List.find _ l); by simplify_eq.
Qed.

Lemma quiet_step {A B} Pre (m : boot P VirtioBlkDevice A) (k : A → boot P VirtioBlkDevice B) Q :
  stable Pre → quiet m → (∀ a, from Pre (k a) Q) → from Pre (cmd_bind m k) Q.
Proof. intros Hst Hm Hk. eapply from_quiet; [done|done|apply gives_any|]. auto. Qed.

Lemma from_init : from (taken []) (init_blk hhdm) (λ _ b', online b' ∧ is_online b' = true).
Proof.
  unfold init_blk. apply quiet_step; [apply taken_stable|apply quiet_find_blk|]. intros dev. destruct (_ =? 0); [done|]. cbv zeta.
  set (io := Z.land _ 0xFFFC).
  apply (from_bind _ _ _ (λ b0 b, taken [] b ∧ b0 = b)); [by intros b ? b' Hb [= <- <-]|]. intros b0.
  apply (from_bind _ _ _ (λ _, taken [])); [intros b [] b' [Hb ->] [= <-]; exact Hb|]. intros [].
  do 6 (apply quiet_step; [apply taken_stable|apply quiet_write_port || apply quiet_read_port|]; intros ?).
  eapply from_quiet; [apply taken_stable|apply quiet_read_port|apply gives_port|]. intros lo Hio.
  apply quiet_step; [apply taken_stable|apply quiet_read_port|]. intros hi.
  eapply from_quiet; [apply taken_stable|apply quiet_lift|apply gives_mul64|]. intros prod Hcap.
  eapply from_bind; [apply from_setup|]. intros [[q dp] dv].
  assert (Hst : stable (set_up (P := P) (Dev := VirtioBlkDevice) hhdm q dp dv)).
  { intros b b' _ Hm (k & j & H). exists k, j. by rewrite Hm. }
  do 2 (apply quiet_step; [exact Hst|apply quiet_write_port || apply quiet_read_port|]; intros ?).
  apply (from_bind _ _ _ (λ b0 b, set_up hhdm q dp dv b ∧ b0 = b)); [by intros b ? b' Hb [= <- <-]|]. intros b1 b [] b' [Hb ->] [= <-].
  split; [|done]. eexists _, _, _, _, _. split; [reflexivity|]. split; [exact Hb|]. by split.
Qed.

(** A device of 128 entries and the rings of a successful init: the state between two requests. *)
Lemma init_blk_ok {D : Type} `{!VirtioBlkHw D, !VirtioBlkHwLaws D} (hw : D) b b' a :
  bt_frames b = Some a → alloc_wf a → total_frames a ≤ 2 ^ 32 →
  init_blk hhdm b = Ret (Ok (), b') → 0 ≤ hhdm → hhdm mod 4096 = 0 → queue_size hw = QUEUE_SIZE →
  blk_ok hhdm (mkState (bt_dev b') (bt_mem b') (programmed hhdm (bt_dev b') hw)) ∧ initialized (bt_dev b') = true ∧ is_online b' = true.
Proof.
  intros Ha Hwf Ht H H0 Hal Hs.
  assert (Hpre : taken [] b) by (exists a; do 3 (split; [done|]); set_solver).
  destruct (from_init b () b' Hpre H) as [(io & cap & q & dp & dv & E & Hset & Hcap & Hio) Hon].
  split; [|by rewrite E]. intros _. cbn [b_dev b_mem b_hw]. rewrite E. exists q. split; [done|].
  destruct Hset as (k & j & -> & Hk & -> & Hj0 & Hj & -> & Hdv & Hz). unfold programmed. cbn [queue queue_at descs].
  unfold phys. replace ((k * PAGE_SIZE + hhdm - hhdm) / 4096) with k by (unfold PAGE_SIZE; rewrite Z.add_simpl_r; by rewrite Z.div_mul).
  rewrite (Z.mod_small k) by lia. destruct (program_spec k hw) as (_ & Esz & Ebase & Eseen).
  pose proof (layout_128 (k * 4096)) as (Ela & Elu & Ele). change 128 with QUEUE_SIZE in Ela, Elu, Ele.
  assert (Hzero : ∀ y, k * 4096 ≤ y → y + 2 ≤ (k + 2) * 4096 → load_le 2 y (bt_mem b') = 0).
  { intros y Hy1 Hy2. apply load_le_zero. intros x Hx. apply Hz. unfold PAGE_SIZE. lia. }
  assert (Hroom : (j * 4096 + hhdm) + 4096 ≤ 2 ^ 64).
  { unfold U64_MAX, PAGE_SIZE in *. pose proof (Z.div_mod hhdm 4096 ltac:(lia)). change (2 ^ 64) with (4096 * 2 ^ 52) in *. lia. }
  split; cbn [dma_phys dma_virt capacity_blocks io_base queue_at descs avail used next_desc last_used_idx];
    rewrite ?Ebase, ?Esz, ?Eseen; unfold PAGE_SIZE, VIRTIO_BLK_CAPACITY, VIRTIO_QUEUE_NOTIFY, U64_MAX, U16_MAX in *; try done; try lia.
  - unfold used_idx. rewrite Esz, Ebase, Hs. apply Hzero; unfold idx_at; lia.
  - apply Hzero; unfold idx_at; lia.
  - rewrite Ele. assert (j ≠ k ∧ j ≠ k + 1) as [? ?] by set_solver. lia.
Qed.
End boot_ok.

(** C14: the driver implements a disk.  Over a device of 128 entries that serves its requests as the virtio
    specification says, and from any state between two requests, read_block and write_block return and never panic.
    A read leaves the disk as it was, and when it succeeds it returns the block of the disk.  A write leaves every
    other block as it was, and when it succeeds the block holds the data; a write that fails may have changed its
    block.  The state is again one between two requests, unless the device did not answer in time and the call
    reports the timeout.  Memory outside the rings and the DMA page is untouched, and a block out of range, or any
    block before init, is refused with the whole state unchanged. *)
Theorem virtio_blk_refines {D : Type} `{!VirtioBlkHw D, !VirtioBlkHwLaws D} (hhdm : Z) (s : Blk D) (n : Z) (data : list Z) :
  blk_ok hhdm s → 0 ≤ n → length data = 512%nat →
  (∃ r s', read_block hhdm n data s = Ret (r, s') ∧ call_done hhdm n s s' r ∧ disk (b_hw s') = disk (b_hw s) ∧
     match r with Ok b => disk (b_hw s) n = Some b | Err _ => True end) ∧
  (∃ r s', write_block hhdm n data s = Ret (r, s') ∧ call_done hhdm n s s' r ∧ (∀ k, k ≠ n → disk (b_hw s') k = disk (b_hw s) k) ∧
     match r with Ok _ => disk (b_hw s') n = Some data | Err _ => True end).
Proof. intros Hok H0 Hb. split; [by apply read_block_ok|by apply write_block_ok]. Qed.

(** ** A device over a finite map of blocks *)
Record Sim : Type := mkSim { sim_disk : gmap Z block; sim_seen : Z; sim_size : Z; sim_base : Z }.

Definition sim_avail (x : Sim) : Z := avail_at (sim_size x) (sim_base x).
Definition sim_used (x : Sim) : Z := used_at (sim_size x) (sim_base x).

(** The chain at the next slot: its head, type, sector, data and status address. *)
Definition decode (m : memory) (x : Sim) : Z * Z * Z * Z * Z :=
  let head := load_le 2 (avail_slot_at (sim_avail x) (sim_seen x mod sim_size x)) m in
  let h := load_desc (desc_at (sim_base x) head) m in
  let d := load_desc (desc_at (sim_base x) (d_next h)) m in
  let st := load_desc (desc_at (sim_base x) (d_next d)) m in
  let bytes := read_mem (d_addr h) 16 m in
  (head, from_le_bytes (take 4 bytes), from_le_bytes (drop 8 bytes), d_addr d, d_addr st).

(** The used element and the index. *)
Definition put_used (x : Sim) (head len : Z) (m : memory) : memory :=
  let idx := load_le 2 (idx_at (sim_used x)) m in
  let elem := sim_used x + 4 + 8 * (idx mod sim_size x) in
  store_le 2 (idx_at (sim_used x)) ((idx + 1) mod 2 ^ 16) (store_le 4 (elem + 4) len (store_le 4 elem head m)).

Definition sim_serve (m : memory) (x : Sim) : memory * Sim :=
  let next := load_le 2 (idx_at (sim_avail x)) m in
  let done d := mkSim d next (sim_size x) (sim_base x) in
  if next =? sim_seen x then (m, x)
  else
    let '(head, ty, sector, da, sa) := decode m x in
    if ty =? VIRTIO_BLK_T_IN then
      match sim_disk x !! sector with
      | Some b => if decide (length b = 512%nat) then (put_used x head 513 (write_mem sa [0] (write_mem da b m)), done (sim_disk x))
                  else (put_used x head 1 (write_mem sa [1] m), done (sim_disk x))
      | None => (put_used x head 1 (write_mem sa [1] m), done (sim_disk x))
      end
    else (put_used x head 1 (write_mem sa [0] m), done (<[sector := read_mem da 512 m]> (sim_disk x))).

#[global] Instance sim_hw : VirtioBlkHw Sim := {
  disk x k := sim_disk x !! k;
  queue_size := sim_size;
  queue_base := sim_base;
  seen := sim_seen;
  program pfn x := mkSim (sim_disk x) 0 (sim_size x) (pfn * 4096);
  serve port n m x := sim_serve m x;
}.

Lemma put_used_other x head len m a :
  0 < sim_size x → ¬ (sim_used x ≤ a < ring_end (sim_size x) (sim_base x)) → put_used x head len m a = m a.
Proof.
  intros Hs Ha. unfold put_used, ring_end in *. fold (sim_used x) in Ha. unfold idx_at.
  pose proof (Z.mod_pos_bound (load_le 2 (sim_used x + 2) m) (sim_size x) Hs).
  by rewrite !store_le_other by lia.
Qed.

Lemma put_used_idx x head len m :
  load_le 2 (idx_at (sim_used x)) (put_used x head len m) = (load_le 2 (idx_at (sim_used x)) m + 1) mod 2 ^ 16.
Proof. unfold put_used. apply load_store_le, Z.mod_pos_bound. lia. Qed.

Lemma decode_request (x : Sim) m type_ sector da sa :
  requested x m type_ sector da sa → ∃ head, decode m x = (head, type_, sector, da, sa).
Proof.
  intros [_ (head & a0 & n1 & n2 & y & Hh & _ & _ & _ & E0 & E1 & E2 & Hm) Ht Hsec _ _ _]. exists head. unfold decode. cbn in Hh, E0, E1, E2.
  fold (sim_avail x) in Hh. rewrite Hh. cbv zeta. rewrite E0. cbn [d_next d_addr]. rewrite E1. cbn [d_next d_addr]. rewrite E2. cbn [d_addr].
  rewrite Hm. unfold header_bytes.
  rewrite take_app_length' by by rewrite length_to_le_bytes.
  rewrite (assoc_L (++)), drop_app_length' by by rewrite length_app, !length_to_le_bytes.
  unfold u64_ok, U64_MAX in Hsec. rewrite !from_to_le_bytes; [done|simpl; lia|].
  destruct Ht as [-> | ->]; unfold VIRTIO_BLK_T_IN, VIRTIO_BLK_T_OUT; simpl; lia.
Qed.

(** What the simulated device writes; [m1] is memory with the data and the status. *)
Lemma sim_finish (x : Sim) m type_ sector da sa head len m1 d' :
  requested x m type_ sector da sa → (∀ a, ¬ (type_ = VIRTIO_BLK_T_IN ∧ da ≤ a < da + 512) → a ≠ sa → m1 a = m a) →
  let m' := put_used x head len m1 in
  let x' := mkSim d' (load_le 2 (idx_at (sim_avail x)) m) (sim_size x) (sim_base x) in
  (∀ a, ¬ device_writes x type_ da sa a → m' a = m a) ∧ completed x m m' x' ∧ m' sa = m1 sa ∧ read_mem da 512 m' = read_mem da 512 m1.
Proof.
  intros Hreq Hm1 m' x'. pose proof (rq_data _ _ _ _ _ _ Hreq) as Hda. pose proof (rq_status _ _ _ _ _ _ Hreq) as Hsa.
  destruct (rq_chain _ _ _ _ _ _ Hreq) as (head0 & _ & _ & _ & _ & _ & Hh & _). cbn in Hh, Hda, Hsa.
  assert (Hs : 0 < sim_size x) by lia. assert (Hu : sim_base x ≤ sim_used x).
  { unfold sim_used, used_at, align_page. pose proof (Z.div_pos (16 * sim_size x + (6 + 2 * sim_size x) + 4095) 4096 ltac:(lia) ltac:(lia)). lia. }
  assert (Hend : ring_end (sim_size x) (sim_base x) = sim_used x + (6 + 8 * sim_size x)) by reflexivity.
  split; [|split; [split|split]].
  - intros a Ha. unfold device_writes in Ha. cbn in Ha. fold (sim_used x) in Ha. unfold m'. rewrite put_used_other by (done || tauto).
    apply Hm1; tauto.
  - unfold m', used_idx. cbn. fold (sim_used x). rewrite put_used_idx. do 2 f_equal. apply load_le_ext.
    intros a Ha. unfold idx_at in Ha. apply Hm1; lia.
  - cbn. apply (rq_idx _ _ _ _ _ _ Hreq).
  - apply put_used_other; [done|lia].
  - apply read_mem_ext. intros a Ha. apply put_used_other; [done|lia].
Qed.

#[global] Instance sim_laws : VirtioBlkHwLaws Sim.
Proof.
  split; [done|]. intros port m d type_ sector da sa Hreq.
  change (serve port REQUEST_QUEUE m d) with (sim_serve m d). unfold sim_serve. cbv zeta.
  destruct (load_le 2 (idx_at (sim_avail d)) m =? sim_seen d).
  { do 5 (split; [done|]). by left. }
  destruct (decode_request d m type_ sector da sa Hreq) as [head ->]. pose proof (rq_apart _ _ _ _ _ _ Hreq) as Hap.
  pose proof (λ head len m1 d', sim_finish d m type_ sector da sa head len m1 d' Hreq) as Hfin. cbv zeta in Hfin.
  destruct (rq_type _ _ _ _ _ _ Hreq) as [-> | ->]; cbn [Z.eqb VIRTIO_BLK_T_IN VIRTIO_BLK_T_OUT].
  - assert (Hfail : ∀ a, a ≠ sa → write_mem sa [1] m a = m a) by (intros a Ha; apply write_mem_other; simpl; lia).
    destruct (sim_disk d !! sector) as [b|] eqn:Ed; [destruct (decide (length b = 512%nat)) as [Hb|]|].
    + destruct (Hfin head 513 (write_mem sa [0] (write_mem da b m)) (sim_disk d)) as (H1 & H2 & H3 & H4).
      { intros a Ha Hne. rewrite !write_mem_other; [done|rewrite Hb; unfold VIRTIO_BLK_T_IN in Ha; lia|simpl; lia]. }
      do 2 (split; [done|]). split; [exact H1|]. do 2 (split; [done|]). right. split; [exact H2|]. intros _. split; [|done]. intros _.
      etrans; [exact Ed|]. f_equal. rewrite H4, read_write_other by (simpl; lia). rewrite <- (read_write_mem da b m) at 1. by rewrite Hb.
    + destruct (Hfin head 1 (write_mem sa [1] m) (sim_disk d)) as (H1 & H2 & H3 & H4); [auto|].
      do 2 (split; [done|]). split; [exact H1|]. do 2 (split; [done|]). right. split; [exact H2|]. rewrite H3, write_mem_at. done.
    + destruct (Hfin head 1 (write_mem sa [1] m) (sim_disk d)) as (H1 & H2 & H3 & H4); [auto|].
      do 2 (split; [done|]). split; [exact H1|]. do 2 (split; [done|]). right. split; [exact H2|]. rewrite H3, write_mem_at. done.
  - destruct (Hfin head 1 (write_mem sa [0] m) (<[sector:=read_mem da 512 m]> (sim_disk d))) as (H1 & H2 & H3 & H4).
    { intros a _ Hne. apply write_mem_other. simpl. lia. }
    do 2 (split; [done|]). split; [exact H1|]. split; [intros k Hk; by apply lookup_insert_ne|]. split; [done|]. right.
    split; [exact H2|]. intros _. split; [done|]. intros _. apply lookup_insert_eq.
Qed.

(** The driver after init: zeroed rings at 0x3000, eight blocks, one of them written. *)
Definition demo_blk : Blk Sim :=
  mkState (mkBlk 0xC000 8 (Some (queue_at 0x10000 0x3000)) 0x5000 0x15000 true) (λ _, 0)
    (mkSim {[ 3 := replicate 512 7 ]} 0 128 0x3000).

Lemma demo_blk_ok : blk_ok 0x10000 demo_blk.
Proof.
  intros _. eexists. split; [reflexivity|]. pose proof (layout_128 0x3000) as (Ela & Elu & Ele). change 128 with QUEUE_SIZE in Ela, Elu, Ele.
  split; cbn [b_dev b_mem b_hw demo_blk]; try done; try (apply load_le_zero; done); cbn; unfold U64_MAX, U16_MAX, VIRTIO_QUEUE_NOTIFY; try lia.
Qed.

Lemma virtio_blk_refines_witness :
  (∃ r s', read_block 0x10000 3 (replicate 512 0) demo_blk = Ret (r, s') ∧ r = Ok (replicate 512 7)) ∧
  (∃ r s', write_block 0x10000 5 (replicate 512 0) demo_blk = Ret (r, s') ∧ r = Ok () ∧
           disk (b_hw s') 5 = Some (replicate 512 0) ∧ disk (b_hw s') 3 = Some (replicate 512 7)).
Proof.
  split.
  - destruct (virtio_blk_refines 0x10000 demo_blk 3 (replicate 512 0) demo_blk_ok) as [(r & s' & E & _ & _ & Hr) _]; [lia|done|].
    exists r, s'. split; [exact E|]. destruct r as [b|e].
    + vm_compute in Hr. injection Hr as <-. vm_compute. reflexivity.
    + assert (Ef : match read_block 0x10000 3 (replicate 512 0) demo_blk with Ret (Ok _, _) => true | _ => false end = true)
        by (vm_compute; reflexivity). rewrite E in Ef. discriminate Ef.
  - destruct (virtio_blk_refines 0x10000 demo_blk 5 (replicate 512 0) demo_blk_ok) as [_ (r & s' & E & _ & Ho & Hr)]; [lia|done|].
    exists r, s'. split; [exact E|]. destruct r as [[]|e].
    + split; [reflexivity|]. split; [exact Hr|]. rewrite Ho; [reflexivity|discriminate].
    + assert (Ef : match write_block 0x10000 5 (replicate 512 0) demo_blk with Ret (Ok _, _) => true | _ => false end = true)
        by (vm_compute; reflexivity). rewrite E in Ef. discriminate Ef.
Defined.

(** *** Further observation *)

(** The number of entries that the device reports is not used.  A device of 256 entries looks for the available ring
    at another offset: it never finds a request, and every call waits for its timeout. *)
Definition demo_large : Blk Sim :=
  mkState (b_dev demo_blk) (b_mem demo_blk) (mkSim (sim_disk (b_hw demo_blk)) 0 256 0x3000).

Lemma large_queue_times_out :
  match read_block 0x10000 3 (replicate 512 0) demo_large with Ret (Err e, _) => String.eqb e TIMEOUT | _ => false end = true.
Proof. vm_compute. reflexivity. Qed.
End VirtioBlk.
