(* ===== verification/Storage.v ===== *)
(** * Storage: the file system, the cache and the disk driver together

    storage/oxide_fs.rs over storage/block_cache.rs over storage/virtio_blk.rs: what init_blk
    establishes, that the driver is a block device whose requests succeed while the medium works, and
    that the files synced to it are there after the machine has been started again. *)
From S2P Require Import Prelude FrameAlloc Bytes BlockCache OxideFs Pci Vring VirtioBlk.

Module Storage.
Import Cache Fs Vring VirtioBlk.

(** ** A device whose medium works *)

(** [works n d]: every sector below [n] can be read and written; a request for one is done with status 0 before the
    driver stops waiting, and the medium still works. *)
Class VirtioBlkReliable (D : Type) `{!VirtioBlkHw D} : Type := {
  works : Z → D → Prop;
  program_works : ∀ n pfn d, works n d → works n (program pfn d);
  serve_works : ∀ n port m d type_ sector da sa,
    works n d → requested d m type_ sector da sa → 0 ≤ sector < n →
    match serve port REQUEST_QUEUE m d with
    | (m', d') => completed d m m' d' ∧ m' sa = VIRTIO_BLK_S_OK ∧ works n d'
    end;
}.

Section drive.
Context {D : Type} `{!VirtioBlkHw D, !VirtioBlkHwLaws D, !VirtioBlkReliable D} (hhdm c : Z).

(** The driver is initialised for a disk of [c] blocks that works. *)
Definition drive_ok (s : Blk D) : Prop :=
  blk_ok hhdm s ∧ initialized (b_dev s) = true ∧ capacity_blocks (b_dev s) = c ∧ works c (b_hw s).

(** The requests that the driver passes to the device. *)
Definition accepts (n : Z) (b : block) : Prop := 0 ≤ n < c ∧ length b = 512%nat.

Lemma drive_io type_ n buffer s :
  drive_ok s → type_ = VIRTIO_BLK_T_IN ∨ type_ = VIRTIO_BLK_T_OUT → 0 ≤ n < c → length buffer = 512%nat →
  ∃ b s', do_block_io hhdm type_ n buffer s = Ret (Ok b, s') ∧ drive_ok s' ∧ io_done hhdm type_ n buffer s s' (Ok b).
Proof.
  intros (Hok & Hi & Hc & Hw) Ht Hn Hb. destruct (Hok Hi) as (q & Hq & Hqok). pose proof (ok_capacity _ _ _ _ _ Hqok).
  destruct (do_block_io_spec hhdm type_ n buffer s q) as (r & s' & E & Hio); [done|done|done|done|unfold u64_ok; lia|].
  destruct (io_served _ _ _ _ _ _ _ Hio) as (port & m & da & sa & Hreq & Es & Hdone).
  pose proof (serve_works c port m (b_hw s) type_ n da sa Hw Hreq Hn) as Hs. rewrite Es in Hs. destruct Hs as (Hcomp & Hst & Hw').
  destruct (Hdone Hcomp Hst) as [Hok' [b ->]]. exists b, s'. split; [done|]. split; [|done].
  destruct (io_device _ _ _ _ _ _ _ Hio) as [q' Hq']. split; [done|]. by rewrite Hq'.
Qed.

Lemma drive_read n buffer s :
  drive_ok s → 0 ≤ n → length buffer = 512%nat →
  ∃ r s', read_block hhdm n buffer s = Ret (r, s') ∧ drive_ok s' ∧ (n < c → ∃ b, r = Ok b) ∧
    disk (b_hw s') = disk (b_hw s) ∧ match r with Ok b => disk (b_hw s) n = Some b | Err _ => True end.
Proof.
  intros Hd H0 Hb. pose proof Hd as (_ & Hi & Hc & _). unfold read_block. rewrite Hi, Hc. cbn [negb].
  destruct (Z.leb_spec c n); [eexists _, s; split; [done|]; split; [done|]; split; [lia|done]|].
  destruct (drive_io VIRTIO_BLK_T_IN n buffer s) as (b & s' & E & Hd' & Hio); [done|by left|done|done|].
  exists (Ok b), s'. split; [done|]. split; [done|]. split; [by eexists|].
  split; [by apply Hio|by apply (io_result _ _ _ _ _ _ _ Hio)].
Qed.

Lemma drive_write n data s :
  drive_ok s → 0 ≤ n → length data = 512%nat →
  ∃ r s', write_block hhdm n data s = Ret (r, s') ∧ drive_ok s' ∧ (n < c → r = Ok ()) ∧
    (∀ k, k ≠ n → disk (b_hw s') k = disk (b_hw s) k) ∧ match r with Ok _ => disk (b_hw s') n = Some data | Err _ => True end.
Proof.
  intros Hd H0 Hb. pose proof Hd as (_ & Hi & Hc & _). unfold write_block. rewrite Hi, Hc. cbn [negb].
  destruct (Z.leb_spec c n); [eexists _, s; split; [done|]; split; [done|]; split; [lia|done]|].
  destruct (drive_io VIRTIO_BLK_T_OUT n data s) as (b & s' & E & Hd' & Hio); [done|by right|done|done|].
  unfold cmd_bind. rewrite E. exists (Ok ()), s'. split; [done|]. split; [done|]. split; [done|].
  split; [apply Hio|by apply (io_result _ _ _ _ _ _ _ Hio)].
Qed.

(** ** The drive as a block device

    On the states of the invariant; a number below 0 or a list of another length is not a value of
    the argument types u64 and [u8; 512]. *)
Definition Drive : Type := sig drive_ok.

Lemma read_block_keeps n s r s' :
  drive_ok s → 0 ≤ n → read_block hhdm n (replicate 512 0) s = Ret (r, s') → drive_ok s'.
Proof.
  intros Hd H0 E. destruct (drive_read n (replicate 512 0) s Hd H0 eq_refl) as (r' & s'' & E' & H & _).
  rewrite E in E'. by injection E' as _ ->.
Qed.

Lemma write_block_keeps n b s r s' :
  drive_ok s → 0 ≤ n → length b = 512%nat → write_block hhdm n b s = Ret (r, s') → drive_ok s'.
Proof.
  intros Hd H0 Hb E. destruct (drive_write n b s Hd H0 Hb) as (r' & s'' & E' & H & _). rewrite E in E'. by injection E' as _ ->.
Qed.

Definition read_drive (n : Z) (x : Drive) : outcome (result string block * Drive) :=
  match decide (0 ≤ n) with
  | left H0 => keep drive_ok (read_block hhdm n (replicate 512 0) (proj1_sig x))
                 (λ r s', read_block_keeps n (proj1_sig x) r s' (proj2_sig x) H0)
  | right _ => Ret (Err "not a block number", x)
  end.

Definition write_drive (n : Z) (b : block) (x : Drive) : outcome (result string () * Drive) :=
  match decide (0 ≤ n), decide (length b = 512%nat) with
  | left H0, left Hb => keep drive_ok (write_block hhdm n b (proj1_sig x))
                          (λ r s', write_block_keeps n b (proj1_sig x) r s' (proj2_sig x) H0 Hb)
  | _, _ => Ret (Err "not a block", x)
  end.

#[global] Instance drive_device : BlockDevice Drive := {
  BlockCache.read_block := read_drive;
  BlockCache.write_block := write_drive;
  contents x := disk (b_hw (proj1_sig x));
}.

Lemma read_drive_spec n x :
  match read_drive n x with
  | Ret (Ok b, x') => contents x n = Some b ∧ contents x' = contents x
  | Ret (Err _, x') => contents x' = contents x ∧ ¬ (0 ≤ n < c)
  | Panic => False
  end.
Proof.
  unfold read_drive. destruct (decide (0 ≤ n)) as [H0|]; [|split; [done|lia]].
  destruct (drive_read n (replicate 512 0) (proj1_sig x) (proj2_sig x) H0 eq_refl) as (r & s' & E & _ & Hr & Hd & Hres).
  destruct r as [b|e]; destruct_keep Hk; rewrite E in Hk; simplify_eq; [done|]. split; [done|]. intros [_ Hn]. by destruct (Hr Hn).
Qed.

Lemma write_drive_spec n b x :
  match write_drive n b x with
  | Ret (Ok _, x') => ∀ m, contents x' m = if decide (m = n) then Some b else contents x m
  | Ret (Err _, x') => (∀ m, m ≠ n → contents x' m = contents x m) ∧ ¬ accepts n b
  | Panic => False
  end.
Proof.
  unfold write_drive, accepts. destruct (decide (0 ≤ n)) as [H0|]; [|split; [done|lia]].
  destruct (decide (length b = 512%nat)) as [Hb|]; [|split; [done|tauto]].
  destruct (drive_write n b (proj1_sig x) (proj2_sig x) H0 Hb) as (r & s' & E & _ & Hr & Hd & Hres).
  destruct r as [[]|e]; destruct_keep Hk; rewrite E in Hk; simplify_eq.
  - intros m. case_decide; [by subst|by apply Hd].
  - split; [exact Hd|]. intros [[_ Hn] _]. by apply Hr in Hn.
Qed.

#[global] Instance drive_laws : BlockDeviceLaws Drive.
Proof.
  split.
  - intros n x. pose proof (read_drive_spec n x) as H. cbn. destruct (read_drive n x) as [[[b|e] x']|]; [exact H|apply H|done].
  - intros n b x. pose proof (write_drive_spec n b x) as H. cbn. destruct (write_drive n b x) as [[[[]|e] x']|]; [exact H|apply H|done].
Qed.

Lemma drive_writes n b (x : Drive) : accepts n b → ∃ x', BlockCache.write_block n b x = Ret (Ok (), x').
Proof.
  intros Ha. pose proof (write_drive_spec n b x) as H. cbn. destruct (write_drive n b x) as [[[[]|e] x']|]; [by eexists|by destruct H|done].
Qed.

Lemma drive_reads n b (x : Drive) : accepts n b → ∃ b' x', BlockCache.read_block n x = Ret (Ok b', x').
Proof.
  intros [Hn _]. pose proof (read_drive_spec n x) as H. cbn. destruct (read_drive n x) as [[[b'|e] x']|]; [by eexists _, _|by destruct H|done].
Qed.
End drive.

(** ** Every block of the image has the size of a block *)
Lemma length_pad_block l : (length l ≤ BLOCK)%nat → length (pad_block l) = BLOCK.
Proof. intros H. unfold pad_block. rewrite length_app, length_replicate. lia. Qed.

Lemma cont_blocks_length fuel data : Forall (λ b, length b = BLOCK) (cont_blocks fuel data).
Proof.
  revert data. induction fuel as [|fuel IH]; intros data; [constructor|].
  destruct data as [|x data]; [constructor|]. cbn [cont_blocks]. constructor; [|apply IH].
  apply length_pad_block. rewrite length_take. lia.
Qed.

Lemma image_lengths fs : Forall (λ b, length b = BLOCK) (image fs).
Proof.
  unfold image. constructor; [|apply Forall_app; split].
  - apply length_pad_block. rewrite !length_app, !length_to_le_bytes. unfold BLOCK. simpl. lia.
  - apply Forall_bind, Forall_forall. intros [id data] _. constructor; [|apply cont_blocks_length].
    apply length_pad_block. rewrite !length_app, !length_to_le_bytes, length_take. unfold BLOCK. lia.
  - apply Forall_fmap, Forall_forall. intros [p e] _. unfold index_block. apply length_pad_block.
    rewrite !length_app, !length_to_le_bytes, length_take. unfold BLOCK. lia.
Qed.

(** What [init_blk] establishes. *)
Lemma init_drive {P D : Type} `{!Ports P, !VirtioBlkHw D, !VirtioBlkHwLaws D, !VirtioBlkReliable D} (hhdm : Z)
    (b b' : Boot P VirtioBlkDevice) (a : Frames.BitmapFrameAllocator) (hw : D) :
  bt_frames b = Some a → Frames.alloc_wf a → Frames.total_frames a ≤ 2 ^ 32 →
  init_blk hhdm b = Ret (Ok (), b') → 0 ≤ hhdm → hhdm mod 4096 = 0 → queue_size hw = VirtioBlk.QUEUE_SIZE →
  works (capacity_blocks (bt_dev b')) hw →
  drive_ok hhdm (capacity_blocks (bt_dev b')) (mkState (bt_dev b') (bt_mem b') (programmed hhdm (bt_dev b') hw)) ∧ is_online b' = true.
Proof.
  intros Ha Hwf Ht E H0 Hal Hs Hw. destruct (init_blk_ok hhdm hw b b' a Ha Hwf Ht E H0 Hal Hs) as (Hok & Hi & Hon).
  split; [|done]. split; [done|]. split; [done|]. split; [done|]. cbn [b_hw]. unfold programmed.
  destruct (queue (bt_dev b')); [by apply program_works|done].
Qed.

Lemma programmed_disk {D : Type} `{!VirtioBlkHw D, !VirtioBlkHwLaws D} hhdm dev (hw : D) : disk (programmed hhdm dev hw) = disk hw.
Proof. unfold programmed. destruct (queue dev) as [q|]; [|done]. by destruct (program_spec ((phys hhdm (descs q) / 4096) mod 2 ^ 32) hw). Qed.

(** The driver at boot as a drive. *)
Definition the_drive {D : Type} `{!VirtioBlkHw D, !VirtioBlkReliable D} (hhdm c : Z) (s : Blk D) (H : drive_ok hhdm c s) : Drive hhdm c :=
  exist _ s H.
Definition drive_state {D : Type} `{!VirtioBlkHw D, !VirtioBlkReliable D} (hhdm c : Z) (x : Drive hhdm c) : Blk D := proj1_sig x.

(** C12: files survive a restart of the machine, through the whole storage stack, when sync_to_disk was called.  The
    store is well formed, its paths are at most 255 bytes of UTF-8, its counts and blobs fit in 32 bits, and its
    image fits on a disk whose medium works and answers in time; the cache is coherent, whatever it holds.  Then
    sync_to_disk returns.  Let the machine start again: init_blk succeeds on any ports and memory of at most 2^32
    frames, for a device of 128 entries whose disk holds what it held.  Then init of the file system, with an empty
    cache over the new driver, loads the store: the same blobs and counters, the entries not deleted, and every path
    reads as before. *)
Theorem files_survive_reboot {P D : Type} `{!Ports P, !VirtioBlkHw D, !VirtioBlkHwLaws D, !VirtioBlkReliable D}
    (hhdm c : Z) (fs : OxideFs) (s : Disk (Drive (D := D) hhdm c)) :
  0 ≤ hhdm → hhdm mod 4096 = 0 → fs_wf fs → storable fs → disk_wf (accepts c) s → Z.of_nat (length (image fs)) ≤ c →
  0 ≤ access_counter (fst s) → access_counter (fst s) + Z.of_nat (length (image fs)) ≤ U64_MAX →
  ∃ s1, sync_to_disk fs s = Ret s1 ∧
    ∀ (b b' : Boot P VirtioBlkDevice) (a : Frames.BitmapFrameAllocator) (hw : D),
      bt_frames b = Some a → Frames.alloc_wf a → Frames.total_frames a ≤ 2 ^ 32 →
      init_blk hhdm b = Ret (Ok (), b') → capacity_blocks (bt_dev b') = c → queue_size hw = VirtioBlk.QUEUE_SIZE → works c hw →
      (∀ k, disk hw k = disk (b_hw (drive_state hhdm c (snd s1))) k) →
      ∃ x fs' s2, drive_state hhdm c x = mkState (bt_dev b') (bt_mem b') (programmed hhdm (bt_dev b') hw) ∧
        fs_init (cache_new, x) = Ret (Some (stats fs'), fs', s2) ∧
        fs_blobs fs' = fs_blobs fs ∧ fs_index fs' = filter (λ pe, f_deleted pe.2 = false) (fs_index fs) ∧
        fs_next fs' = fs_next fs ∧ fs_total fs' = fs_total fs ∧ ∀ p, read_file p fs' = read_file p fs.
Proof.
  intros H0 Ha Hwf Hst Hd Hfit Hc0 Hc.
  destruct (sync_load_roundtrip (accepts c) (drive_writes hhdm c) (drive_reads hhdm c) fs s) as (s1 & E & Hload); try done.
  { intros i b Hi. split; [apply lookup_lt_Some in Hi; lia|].
    by apply (proj1 (Forall_lookup _ _) (image_lengths fs) i). }
  exists s1. split; [done|]. intros b b' a hw Hfr Hfw Hft Hinit Hcap Hsize Hw Hdisk. rewrite <-Hcap in Hw.
  destruct (init_drive hhdm b b' a hw Hfr Hfw Hft Hinit H0 Ha Hsize Hw) as [Hok _]. rewrite Hcap in Hok.
  exists (the_drive hhdm c _ Hok). destruct (Hload (the_drive hhdm c _ Hok)) as (fs' & s2 & El & Hrest).
  { intros k. etrans; [|exact (Hdisk k)]. cbn [contents drive_device the_drive proj1_sig b_hw]. by rewrite programmed_disk. }
  exists fs', s2. split; [done|]. split; [|done]. unfold fs_init. by rewrite El.
Qed.

(** ** A machine with such a disk *)
#[global] Instance sim_reliable : VirtioBlkReliable Sim.
Proof.
  refine {| works n x := 0 ≤ sim_seen x < 2 ^ 16 ∧ ∀ k, 0 ≤ k < n → ∃ b, sim_disk x !! k = Some b ∧ length b = 512%nat |}.
  { intros n pfn d [_ Hd]. split; [cbn; lia|exact Hd]. }
  intros n port m d type_ sector da sa [Hs Hw] Hreq Hn.
  change (serve port REQUEST_QUEUE m d) with (sim_serve m d). unfold sim_serve. cbv zeta.
  pose proof (rq_idx _ _ _ _ _ _ Hreq) as Hidx. change (load_le 2 (idx_at (sim_avail d)) m = (sim_seen d + 1) mod 2 ^ 16) in Hidx.
  rewrite (proj2 (Z.eqb_neq _ _)) by (rewrite Hidx; by apply next_idx).
  destruct (decode_request d m type_ sector da sa Hreq) as [head ->].
  pose proof (λ head len m1 d', sim_finish d m type_ sector da sa head len m1 d' Hreq) as Hfin. cbv zeta in Hfin.
  assert (Hs' : 0 ≤ load_le 2 (idx_at (sim_avail d)) m < 2 ^ 16) by (rewrite Hidx; apply Z.mod_pos_bound; lia).
  destruct (rq_type _ _ _ _ _ _ Hreq) as [-> | ->]; cbn [Z.eqb VIRTIO_BLK_T_IN VIRTIO_BLK_T_OUT].
  - destruct (Hw sector Hn) as (b & -> & Hb). rewrite decide_True by done.
    destruct (Hfin head 513 (write_mem sa [0] (write_mem da b m)) (sim_disk d)) as (_ & H2 & H3 & _).
    { intros a Ha Hne. rewrite !write_mem_other; [done|rewrite Hb; unfold VIRTIO_BLK_T_IN in Ha; lia|simpl; lia]. }
    split; [exact H2|]. split; [by rewrite H3, write_mem_at|]. by split.
  - destruct (Hfin head 1 (write_mem sa [0] m) (<[sector:=read_mem da 512 m]> (sim_disk d))) as (_ & H2 & H3 & _).
    { intros a _ Hne. apply write_mem_other. simpl. lia. }
    split; [exact H2|]. split; [by rewrite H3, write_mem_at|]. split; [exact Hs'|]. intros k Hk. cbn [sim_disk]. rewrite lookup_insert.
    case_decide; [|by apply Hw]. eexists. split; [done|]. by rewrite length_read_mem.
Defined.

(** A bus with one virtio disk of eight blocks at 0:4.0 with I/O base 0xC040; the state is the
    address register. *)
Record bay : Type := mkBay { bay_addr : Z }.

Definition bay_config (a : Z) : Z :=
  if a =? Pci.config_address 0 4 0 0 then 0x10011AF4 else if a =? Pci.config_address 0 4 0 0x10 then 0xC041 else 0xFFFFFFFF.

#[global] Instance bay_ports : Ports bay := {
  in8 port c := (0, c);
  in16 port c := (128, c);
  in32 port c := (if port =? Pci.PCI_CONFIG_DATA then bay_config (bay_addr c) else if port =? 0xC054 then 8 else 0, c);
  out8 port v c := c;
  out16 port v c := c;
  out32 port v c := if port =? Pci.PCI_CONFIG_ADDR then mkBay v else c;
}.

Definition bay_frames : Frames.BitmapFrameAllocator := {| Frames.bitmap := [0; 0]; Frames.total_frames := 16; Frames.next_free := 0 |}.

Lemma bay_frames_wf : Frames.alloc_wf bay_frames.
Proof.
  split; simpl; [lia|unfold Frames.PAGE_SIZE, Frames.PHYS_LIMIT; lia|reflexivity|lia|]. intros i Hi. unfold Frames.bit. cbn [Frames.bitmap bay_frames].
  rewrite lookup_ge_None_2; [reflexivity|]. assert (2 ≤ i / 8) by (apply Z.div_le_lower_bound; lia). simpl. lia.
Qed.

Definition demo_bay : Boot bay VirtioBlkDevice := mkBoot (mkBay 0) (Some bay_frames) (λ _, 0) VirtioBlk.empty false.

Lemma demo_bay_init :
  match init_blk 0x10000 demo_bay with Ret (Ok _, b') => capacity_blocks (bt_dev b') =? 8 | _ => false end = true.
Proof. vm_compute. reflexivity. Qed.

Lemma bay_boots : ∃ b', init_blk 0x10000 demo_bay = Ret (Ok (), b') ∧ capacity_blocks (bt_dev b') = 8.
Proof.
  pose proof demo_bay_init as H. destruct (init_blk 0x10000 demo_bay) as [[[[]|e] b']|]; [|discriminate H..].
  exists b'. split; [reflexivity|]. by apply Z.eqb_eq.
Qed.

(** A disk of eight blocks of zeros. *)
Definition blank : Sim := mkSim (gset_to_gmap (replicate 512 0) (list_to_set (seqZ 0 8))) 0 128 0.

Lemma blank_works : works 8 blank.
Proof.
  split; [cbn; lia|]. intros k Hk. exists (replicate 512 0). split; [|by rewrite length_replicate].
  unfold blank. cbn [sim_disk]. rewrite lookup_gset_to_gmap_Some. split; [|done]. rewrite elem_of_list_to_set, elem_of_seqZ. lia.
Qed.

Lemma first_ok b' :
  init_blk 0x10000 demo_bay = Ret (Ok (), b') → capacity_blocks (bt_dev b') = 8 →
  drive_ok 0x10000 8 (mkState (bt_dev b') (bt_mem b') (programmed 0x10000 (bt_dev b') blank)).
Proof.
  intros E Hc. pose proof (init_drive 0x10000 demo_bay b' bay_frames blank eq_refl bay_frames_wf) as H. rewrite Hc in H.
  apply H; [vm_compute; discriminate|exact E|lia|reflexivity|reflexivity|exact blank_works].
Qed.

(** Two starts of the machine with the same disk. *)
Lemma files_survive_reboot_witness :
  ∃ (x y : Drive (D := Sim) 0x10000 8) s1 fs' s2, sync_to_disk demo_fs (cache_new, x) = Ret s1 ∧
    (∀ k, disk (b_hw (drive_state 0x10000 8 y)) k = disk (b_hw (drive_state 0x10000 8 (snd s1))) k) ∧
    fs_init (cache_new, y) = Ret (Some (1%nat, 1%nat, 3), fs', s2) ∧ read_file "/a" fs' = Some [1; 2; 3].
Proof.
  destruct bay_boots as (b' & E & Hc). pose (x := the_drive 0x10000 8 _ (first_ok b' E Hc)).
  destruct (files_survive_reboot (P := bay) 0x10000 8 demo_fs (cache_new, x)) as (s1 & Hs & Hr);
    [lia|done|apply demo_fs_wf|apply demo_fs_storable| |vm_compute; discriminate|done|vm_compute; discriminate|].
  { split; simpl; [rewrite map_size_empty; unfold CACHE_SIZE; lia|done..]. }
  pose (hw := mkSim (sim_disk (b_hw (drive_state 0x10000 8 (snd s1)))) 0 128 0).
  assert (Hw : works 8 hw) by (split; [cbn; lia|apply (proj2_sig (snd s1))]).
  destruct (Hr demo_bay b' bay_frames hw eq_refl bay_frames_wf ltac:(vm_compute; discriminate) E Hc eq_refl Hw)
    as (y & fs' & s2 & Hy & Hi & Hb & Hx & _ & Ht & Hf); [done|].
  exists x, y, s1, fs', s2. split; [exact Hs|]. split; [intros k; rewrite Hy; cbn [b_hw]; by rewrite programmed_disk|].
  split; [|rewrite Hf; reflexivity]. rewrite Hi. unfold stats, live_entries. rewrite Hx, Hb, Ht. reflexivity.
Defined.

(** *** Further observation *)

(** The pages of the queue are allocated one by one and only the first address is used.  Where the next frame belongs
    to somebody else, the rings lie in it all the same: here frame 1 is in use, and init zeroes it. *)
Definition split_bay : Boot bay VirtioBlkDevice :=
  mkBoot (mkBay 0) (Some (Frames.with_bitmap bay_frames [2; 0])) (λ _, 7) VirtioBlk.empty false.

Lemma split_frames_wiped :
  match init_blk 0x10000 split_bay with Ret (Ok _, b') => (bt_mem split_bay 0x1800 =? 7) && (bt_mem b' 0x1800 =? 0) | _ => false end = true.
Proof. vm_compute. reflexivity. Qed.
End Storage.
