(* ===== verification/Mount.v ===== *)
(** * Mount: the file system on the disk driver at boot

    storage/mod.rs [init]: what init of the file system finds behind the driver that virtio_blk::init
    left, whether it found a disk or not.  The driver's state is a block device here without the
    invariant of VirtioBlk, since [_start] goes on when the driver was not initialised; where it was, the file system
    does on it what it does on the drive of Storage. *)

From S2P Require Import Prelude FrameAlloc Bytes BlockCache OxideFs Pci VirtioBlk Storage.

Module Mount.
Import Cache Fs VirtioBlk Storage.

Section driver.
Context {D : Type} `{!VirtioBlkHw D} (hhdm : Z).

(** DEVICE, whatever its state: read_block into a zeroed buffer, write_block. *)
#[local] Instance blk_device : BlockDevice (Blk D) := {
  BlockCache.read_block n := read_block hhdm n (replicate 512 0);
  BlockCache.write_block n b := write_block hhdm n b;
  contents s := disk (b_hw s);
}.

(** block_cache::init and oxide_fs::init over the driver's state; the cache starts empty. *)
Definition mount (s : Blk D) : outcome (option (nat * nat * Z) * OxideFs * Disk (Blk D)) := fs_init (cache_new, s).

(** No disk: a fresh store. *)
Lemma mount_offline s : initialized (b_dev s) = false → ∃ s', mount s = Ret (None, fs_new, s').
Proof.
  intros Hi. unfold mount, fs_init, load_from_disk, read, bump. cbn [fst access_counter cache_new].
  unfold checked_add64. rewrite decide_True by (unfold U64_MAX; lia). cbn [outcome_bind fst snd cache cache_new]. rewrite lookup_empty.
  cbn [BlockCache.read_block blk_device]. unfold read_block. rewrite Hi. simpl. by eexists.
Qed.

Section drive.
Context `{!VirtioBlkHwLaws D, !VirtioBlkReliable D} (c : Z).
Local Abbreviation drive := (Drive (D := D) hhdm c).

(** ** From the drive to the driver's state *)
Definition lower (s : Disk drive) : Disk (Blk D) := (fst s, drive_state hhdm c (snd s)).

Definition clean (s : Disk drive) : Prop := ∀ n b, cache (fst s) !! n = Some b → dirty b = false.

(** [m'] does on the driver's state what [m] does on the drive, as long as no block of the cache is dirty. *)
Definition lowers {A} (m : Disk drive → outcome (A * Disk drive)) (m' : Disk (Blk D) → outcome (A * Disk (Blk D))) : Prop :=
  ∀ s, clean s → match m s with
                 | Ret (a, s') => m' (lower s) = Ret (a, lower s') ∧ clean s'
                 | Panic => m' (lower s) = Panic
                 end.

(** The device itself. *)
Lemma lower_read_block n (x : drive) :
  0 ≤ n → match BlockCache.read_block n x with
          | Ret (r, x') => read_block hhdm n (replicate 512 0) (drive_state hhdm c x) = Ret (r, drive_state hhdm c x')
          | Panic => read_block hhdm n (replicate 512 0) (drive_state hhdm c x) = Panic
          end.
Proof.
  intros Hn. destruct x as [s Hok]. cbn [BlockCache.read_block drive_device]. unfold read_drive, drive_state.
  destruct (decide (0 ≤ n)); [|lia]. destruct_keep Hk; exact Hk.
Qed.

(** Evicting a clean block writes nothing. *)
Lemma evict_lowers (k : BlockCache) (x : drive) :
  clean (k, x) → match evict_one (k, x) with
                 | Ret s' => evict_one (lower (k, x)) = Ret (lower s') ∧ clean s'
                 | Panic => False
                 end.
Proof.
  intros Hk. unfold evict_one, lower. cbn [fst snd]. destruct (fst <$> min_by_access (btree_iter_Z (cache k))) as [num|]; [|done].
  assert (Hd : clean ({| cache := delete num (cache k); access_counter := access_counter k |}, x)).
  { intros n b H. cbn [fst cache] in H. apply lookup_delete_Some in H as [_ H]. exact (Hk n b H). }
  destruct (cache k !! num) as [b|] eqn:E; [rewrite (Hk num b E)|]; done.
Qed.

Lemma read_lowers n : 0 ≤ n → lowers (read n) (read n).
Proof.
  intros Hn [k x] Hs. unfold read, bump, lower. cbn [fst snd]. destruct (checked_add64 (access_counter k) 1) as [i|]; [|done].
  cbn [outcome_bind fst snd cache access_counter]. destruct (cache k !! n) as [b|] eqn:E.
  - split; [done|]. intros n' b'. simpl. rewrite lookup_insert. case_decide; [intros [= <-]; exact (Hs n b E)|apply Hs].
  - pose proof (lower_read_block n x Hn) as Hr. cbn [BlockCache.read_block blk_device].
    destruct (BlockCache.read_block n x) as [[r x']|]; cbn [outcome_bind]; [|by rewrite Hr].
    rewrite Hr. cbn [outcome_bind]. destruct r as [b|e]; [|done].
    assert (Hs' : clean ({| cache := cache k; access_counter := i |}, x')) by exact Hs.
    case_decide; cbn [outcome_bind].
    + pose proof (evict_lowers _ _ Hs') as He. destruct (evict_one (_, x')) as [[k2 x2]|]; [|done]. destruct He as [He Hc2].
      unfold lower in He. cbn [fst snd] in He. rewrite He. cbn [outcome_bind]. split; [done|]. intros n' b'. simpl. rewrite lookup_insert.
      case_decide; [by intros [= <-]|apply Hc2].
    + split; [done|]. intros n' b'. simpl. rewrite lookup_insert. case_decide; [by intros [= <-]|apply Hs].
Qed.

Lemma read_or_zero_lowers n : 0 ≤ n → lowers (read_or_zero n) (read_or_zero n).
Proof.
  intros Hn s Hs. pose proof (read_lowers n Hn s Hs) as H. unfold read_or_zero. destruct (read n s) as [[[b|e] s']|]; cbn [outcome_bind].
  - by destruct H as [-> ?].
  - by destruct H as [-> ?].
  - by rewrite H.
Qed.

Lemma read_conts_lowers fuel remaining n data : 0 ≤ n → lowers (read_conts fuel remaining n data) (read_conts fuel remaining n data).
Proof.
  revert remaining n data. induction fuel as [|fuel IH]; intros remaining n data Hn s Hs; [done|]. cbn [read_conts].
  case_decide; [done|]. pose proof (read_or_zero_lowers n Hn s Hs) as Hr. destruct (read_or_zero n s) as [[b s']|]; cbn [outcome_bind fst snd].
  - destruct Hr as [-> Hs']. cbn [outcome_bind fst snd]. apply IH; [lia|done].
  - by rewrite Hr.
Qed.

Lemma read_conts_num {T} `{!BlockDevice T} fuel remaining n data (s : Disk T) data' n' s' :
  read_conts fuel remaining n data s = Ret (data', n', s') → n ≤ n'.
Proof.
  revert remaining n data s. induction fuel as [|fuel IH]; intros remaining n data s H; [simplify_eq/=; lia|]. cbn [read_conts] in H.
  case_decide; [simplify_eq; lia|]. destruct (read_or_zero n s) as [[b s1]|]; cbn [outcome_bind] in H; [|done]. apply IH in H. lia.
Qed.

Lemma load_blobs_lowers k n fs : 0 ≤ n → lowers (load_blobs k n fs) (load_blobs k n fs).
Proof.
  revert n fs. induction k as [|k IH]; intros n fs Hn s Hs; [done|]. cbn [load_blobs].
  pose proof (read_or_zero_lowers n Hn s Hs) as Hr. destruct (read_or_zero n s) as [[b s1]|]; cbn [outcome_bind]; [|by rewrite Hr].
  destruct Hr as [-> Hs1]. cbn [outcome_bind].
  set (size := Z.to_nat _). set (first := Nat.min size 500).
  pose proof (read_conts_lowers (size - first) (size - first) (n + 1) (slice 12 first b) ltac:(lia) s1 Hs1) as H.
  destruct (read_conts _ _ _ _ s1) as [[[data n'] s2]|] eqn:E; cbn [outcome_bind]; [|by rewrite H].
  destruct H as [-> Hs2]. cbn [outcome_bind]. apply read_conts_num in E. apply IH; [lia|done].
Qed.

Lemma load_index_lowers k n fs : 0 ≤ n → lowers (load_index k n fs) (load_index k n fs).
Proof.
  revert n fs. induction k as [|k IH]; intros n fs Hn s Hs; [done|]. cbn [load_index].
  pose proof (read_or_zero_lowers n Hn s Hs) as Hr. destruct (read_or_zero n s) as [[b s1]|]; cbn [outcome_bind]; [|by rewrite Hr].
  destruct Hr as [-> Hs1]. cbn [outcome_bind]. cbv zeta. case_decide; [|done]. apply IH; [lia|done].
Qed.

Lemma load_blobs_num {T} `{!BlockDevice T} k n fs (s : Disk T) fs' n' s' : load_blobs k n fs s = Ret (fs', n', s') → n ≤ n'.
Proof.
  revert n fs s. induction k as [|k IH]; intros n fs s H; [simplify_eq/=; lia|]. cbn [load_blobs] in H.
  destruct (read_or_zero n s) as [[b s1]|]; cbn [outcome_bind] in H; [|done]. cbv zeta in H.
  destruct (read_conts _ _ _ _ s1) as [[[data n1] s2]|] eqn:E; cbn [outcome_bind] in H; [|done].
  apply read_conts_num in E. apply IH in H. lia.
Qed.

Lemma load_lowers : lowers (load_from_disk fs_new) (load_from_disk fs_new).
Proof.
  intros s Hs. unfold load_from_disk. pose proof (read_lowers 0 ltac:(lia) s Hs) as H.
  destruct (read 0 s) as [[[sb|e] s1]|]; cbn [outcome_bind]; [| |by rewrite H]; destruct H as [-> Hs1]; cbn [outcome_bind]; [|done].
  case_decide; [|done]. cbv zeta. set (fs := {| fs_index := _ |}).
  pose proof (load_blobs_lowers (Z.to_nat (from_le_bytes (slice 12 4 sb))) 1 fs ltac:(lia) s1 Hs1) as H1.
  destruct (load_blobs _ 1 fs s1) as [[[fs1 n] s2]|] eqn:E; cbn [outcome_bind]; [|by rewrite H1].
  destruct H1 as [-> Hs2]. cbn [outcome_bind]. apply load_blobs_num in E.
  pose proof (load_index_lowers (Z.to_nat (from_le_bytes (slice 16 4 sb))) n fs1 ltac:(lia) s2 Hs2) as H1.
  destruct (load_index _ n fs1 s2) as [[fs2 s3]|]; cbn [outcome_bind]; [|by rewrite H1].
  by destruct H1 as [-> Hs3].
Qed.

(** ** What is on the disk *)

(** The first block, where there is one, is not a superblock. *)
Definition blank_disk (hw : D) : Prop := ∀ b, disk hw 0 = Some b → slice 0 8 b ≠ MAGIC.

(** The disk begins with the image of a store that sync_to_disk can write. *)
Record holds (fs : OxideFs) (hw : D) : Prop := {
  ho_wf : fs_wf fs;
  ho_storable : storable fs;
  ho_fits : Z.of_nat (length (image fs)) ≤ c;
  ho_blocks : ∀ i b, image fs !! i = Some b → disk hw (Z.of_nat i) = Some b;
}.

(** The store that comes up is the one on the disk, or a fresh one. *)
Definition mounted (fs0 : option OxideFs) (fs : OxideFs) : Prop :=
  match fs0 with
  | None => fs = fs_new
  | Some f => fs_wf fs ∧ fs_blobs fs = fs_blobs f ∧ fs_next fs = fs_next f ∧ fs_total fs = fs_total f ∧ ∀ p, read_file p fs = read_file p f
  end.

Lemma mount_drive s (H : drive_ok hhdm c s) (fs0 : option OxideFs) :
  match fs0 with None => blank_disk (b_hw s) | Some f => holds f (b_hw s) ∧ Z.of_nat (length (image f)) ≤ U64_MAX end →
  ∃ report fs s', mount s = Ret (report, fs, s') ∧ mounted fs0 fs.
Proof.
  intros Hdisk. set (x := the_drive hhdm c s H). assert (Hclean : clean (cache_new, x)) by done.
  pose proof (load_lowers (cache_new, x) Hclean) as Hlow. unfold mount, fs_init.
  change (cache_new, s) with (lower (cache_new, x)).
  assert (Hload : ∃ l fs s', load_from_disk fs_new (cache_new, x) = Ret (l, fs, s') ∧ mounted fs0 fs).
  { destruct fs0 as [f|].
    - destruct Hdisk as [[Hwf Hst Hfit Hb] Hmax].
      destruct (load_image (accepts c) (drive_writes hhdm c) (drive_reads hhdm c) f (cache_new, x) Hwf Hst) as (fs' & s' & E & B & I & N & T).
      { split; [split; simpl; [rewrite map_size_empty; unfold CACHE_SIZE; lia|done..]|]. split; [change (access_counter _) with 0; lia|].
        intros i b Hi. unfold view. simpl. rewrite lookup_empty. split; [by apply Hb|]. split; [apply lookup_lt_Some in Hi; lia|].
        by apply (proj1 (Forall_lookup _ _) (image_lengths f) i). }
      exists true, fs', s'. split; [done|]. split; [by eapply loaded_wf|]. split; [done|]. split; [done|]. split; [done|].
      intros p. by apply loaded_reads.
    - unfold load_from_disk. destruct (read_spec (accepts c) (drive_writes hhdm c) 0 (cache_new, x)) as (r & s' & -> & _ & _ & _ & Hr).
      + split; simpl; [rewrite map_size_empty; unfold CACHE_SIZE; lia|done..].
      + done.
      + cbn [outcome_bind]. destruct r as [b|e]; [|by eexists _, _, _]. unfold view in Hr. simpl in Hr. rewrite lookup_empty in Hr.
        rewrite decide_False by (by apply Hdisk). by eexists _, _, _. }
  destruct Hload as (l & fs & s' & E & Hm). rewrite E in Hlow. destruct Hlow as [-> _]. cbn [outcome_bind]. by eexists _, _, _.
Qed.
End drive.
End driver.
End Mount.
