(* ===== verification/VirtioNet.v ===== *)
(** * VirtioNet: net/virtio_net.rs, the network driver, and the device of net/stack.rs

    The queues hold the rings and the packet buffers.  The device reaches a buffer through the address in its
    descriptor: [bus] says which buffer, if any, the device finds there.  Constants and the descriptor
    are those of VirtioBlk.v and Vring.v where the two sources agree; the rings are the typed structures of the
    source, whose layout is that of a device of 256 entries. *)

From S2P Require Import Prelude Bytes FrameAlloc BlockCache Pci Vring VirtioBlk.

Module VirtioNet.
Import Vring VirtioBlk.

Definition VIRTIO_NET_DEVICE_LEGACY : Z := 0x1000.
Definition VIRTIO_NET_MAC : Z := 0x14.
Definition VIRTIO_NET_F_MAC : Z := Z.shiftl 1 5.
Definition QUEUE_SIZE : Z := 256.
Definition RX_QUEUE : Z := 0.
Definition TX_QUEUE : Z := 1.
Definition PACKET_BUF_SIZE : Z := 1514 + 12.
Definition VIRTIO_HEADER_SIZE : nat := 10.

Record VirtqAvail : Type := mkAvail { av_flags : Z; av_idx : Z; av_ring : list Z }.

Record VirtqUsed : Type := mkUsed { us_flags : Z; us_idx : Z; us_ring : list (Z * Z) }.

Record NetQueue : Type := mkNq {
  n_descs : list VirtqDesc;
  n_avail : VirtqAvail;
  n_used : VirtqUsed;
  buffers : list (list Z);
  num_free : Z;
  free_head : Z;
  n_last_used : Z;
}.

Record VirtioNetDevice : Type := mkNetDev {
  n_io_base : Z;
  mac : list Z;
  rx_queue : option NetQueue;
  tx_queue : option NetQueue;
  n_initialized : bool;
}.

Definition net_empty : VirtioNetDevice := mkNetDev 0 (replicate 6 0) None None false.

Definition mac_address (d : VirtioNetDevice) : list Z := mac d.

(** Put a descriptor at the next slot of the available ring. *)
Definition offer (avail : VirtqAvail) (desc_idx : Z) : VirtqAvail :=
  mkAvail (av_flags avail) (wrapping_add16 (av_idx avail) 1)
    (<[Z.to_nat (av_idx avail mod QUEUE_SIZE) := desc_idx mod 2 ^ 16]> (av_ring avail)).

Section driver.
Context {P : Type} `{!Ports P}.

(** DEVICE and the ports. *)
Record Nic : Type := mkNic { nic_dev : VirtioNetDevice; nic_ports : P }.

Definition notify (s : Nic) (dev : VirtioNetDevice) (queue_idx : Z) : outcome Nic :=
  let? port := checked_add16 (n_io_base dev) VIRTIO_QUEUE_NOTIFY in
  Ret (mkNic dev (out16 port queue_idx (nic_ports s))).

Definition with_rx (d : VirtioNetDevice) (q : NetQueue) : VirtioNetDevice :=
  mkNetDev (n_io_base d) (mac d) (Some q) (tx_queue d) (n_initialized d).
Definition with_tx (d : VirtioNetDevice) (q : NetQueue) : VirtioNetDevice :=
  mkNetDev (n_io_base d) (mac d) (rx_queue d) (Some q) (n_initialized d).

(** The bytes put at the front of a buffer of [size] bytes; indexing out of range panics. *)
Definition net_receive (size : nat) (s : Nic) : outcome (option (list Z) * Nic) :=
  let dev := nic_dev s in
  if negb (n_initialized dev) then Ret (None, s)
  else match rx_queue dev with
  | None => Ret (None, s)
  | Some rx =>
      if n_last_used rx =? us_idx (n_used rx) then Ret (None, s)
      else match us_ring (n_used rx) !! Z.to_nat (n_last_used rx mod QUEUE_SIZE) with
      | None => Panic
      | Some (id, len) =>
          let next := wrapping_add16 (n_last_used rx) 1 in
          if decide (Z.of_nat VIRTIO_HEADER_SIZE < len) then
            let copy_len := Nat.min (Z.to_nat len - VIRTIO_HEADER_SIZE) size in
            match buffers rx !! Z.to_nat id, n_descs rx !! Z.to_nat id with
            | Some buf, Some desc =>
                if decide (VIRTIO_HEADER_SIZE + copy_len ≤ length buf)%nat then
                  let packet := slice VIRTIO_HEADER_SIZE copy_len buf in
                  let descs' := <[Z.to_nat id := mkDesc (d_addr desc) PACKET_BUF_SIZE VRING_DESC_F_WRITE 0]> (n_descs rx) in
                  let rx' := mkNq descs' (offer (n_avail rx) id) (n_used rx) (buffers rx) (num_free rx) (free_head rx) next in
                  let? s' := notify s (with_rx dev rx') RX_QUEUE in
                  Ret (Some packet, s')
                else Panic
            | _, _ => Panic
            end
          else Ret (None, mkNic (with_rx dev (mkNq (n_descs rx) (n_avail rx) (n_used rx) (buffers rx) (num_free rx)
                                                (free_head rx) next)) (nic_ports s))
      end
  end.

(** The loop of reclaim_tx: one turn per index between the two. *)
Fixpoint reclaim_loop (fuel : nat) (free last used_idx : Z) : Z * Z :=
  match fuel with
  | O => (free, last)
  | S fuel' => if last =? used_idx then (free, last) else reclaim_loop fuel' (free + 1) (wrapping_add16 last 1) used_idx
  end.

Definition reclaim_tx (tx : NetQueue) : NetQueue :=
  let turns := Z.to_nat ((us_idx (n_used tx) - n_last_used tx) mod 2 ^ 16) in
  let '(free, last) := reclaim_loop turns (num_free tx) (n_last_used tx) (us_idx (n_used tx)) in
  mkNq (n_descs tx) (n_avail tx) (n_used tx) (buffers tx) free (free_head tx) last.

Definition transmit (data : list Z) (s : Nic) : outcome (result string () * Nic) :=
  let dev := nic_dev s in
  if negb (n_initialized dev) then Ret (Err "not initialized", s)
  else match tx_queue dev with
  | None => Ret (Err "no TX queue", s)
  | Some tx0 =>
      let tx := if num_free tx0 =? 0 then reclaim_tx tx0 else tx0 in
      if num_free tx =? 0 then Ret (Err "TX queue full", mkNic (with_tx dev tx) (nic_ports s))
      else
        let desc_idx := free_head tx in
        match buffers tx !! Z.to_nat desc_idx, n_descs tx !! Z.to_nat desc_idx with
        | Some buf, Some desc =>
            if decide (VIRTIO_HEADER_SIZE ≤ length buf)%nat then
              let copy_len := Nat.min (length data) (length buf - VIRTIO_HEADER_SIZE) in
              let buf' := replicate VIRTIO_HEADER_SIZE 0 ++ take copy_len data ++ drop (VIRTIO_HEADER_SIZE + copy_len) buf in
              let descs' := <[Z.to_nat desc_idx :=
                mkDesc (d_addr desc) (Z.of_nat (VIRTIO_HEADER_SIZE + copy_len)) 0 0]> (n_descs tx) in
              let tx' := mkNq descs' (offer (n_avail tx) desc_idx) (n_used tx)
                           (<[Z.to_nat desc_idx := buf']> (buffers tx)) (num_free tx - 1)
                           ((free_head tx + 1) mod QUEUE_SIZE) (n_last_used tx) in
              let? s' := notify s (with_tx dev tx') TX_QUEUE in
              Ret (Ok (), s')
            else Panic
        | _, _ => Panic
        end
  end.
End driver.
Arguments Nic : clear implicits.

(** ** net/stack.rs: OxideNetDevice *)
Definition stack_receive {P} `{!Ports P} (s : Nic P) : outcome (option (list Z) * Nic P) := net_receive 1514 s.

(** [consume]: a zeroed buffer, filled by [f], sent; the result of transmit is dropped. *)
Definition stack_transmit {P R} `{!Ports P} (len : nat) (f : list Z → R * list Z) (s : Nic P) : outcome (R * Nic P) :=
  let '(result, buffer) := f (replicate len 0) in
  let? r := transmit buffer s in
  Ret (result, snd r).

(** [capabilities]: the longest Ethernet frame, header included. *)
Definition max_transmission_unit : nat := 1514.

(** ** Indices modulo 2^16 *)
Lemma wrap_sub_0 a b : 0 ≤ a < 2 ^ 16 → 0 ≤ b < 2 ^ 16 → (a - b) mod 2 ^ 16 = 0 ↔ b = a.
Proof.
  intros Ha Hb. split; [|intros ->; by rewrite Z.sub_diag]. intros E.
  apply Z.mod_divide in E as [k Hk]; [|lia]. assert (k = 0) by lia. lia.
Qed.

Lemma wrap_sub_next a b :
  0 ≤ a < 2 ^ 16 → 0 ≤ b < 2 ^ 16 → b ≠ a → (a - wrapping_add16 b 1) mod 2 ^ 16 = (a - b) mod 2 ^ 16 - 1.
Proof.
  intros Ha Hb Hne. unfold wrapping_add16. rewrite Zminus_mod_idemp_r.
  pose proof (Z.mod_pos_bound (a - b) (2 ^ 16) ltac:(lia)). pose proof (wrap_sub_0 a b Ha Hb) as H0.
  replace (a - (b + 1)) with ((a - b) - 1) by lia. rewrite Zminus_mod. rewrite (Z.mod_small 1) by lia.
  apply Z.mod_small. split; [|lia]. assert ((a - b) mod 2 ^ 16 ≠ 0) by (intros E; apply Hne; tauto). lia.
Qed.

Lemma reclaim_loop_spec fuel free last u :
  0 ≤ last < 2 ^ 16 → 0 ≤ u < 2 ^ 16 → (u - last) mod 2 ^ 16 ≤ Z.of_nat fuel →
  reclaim_loop fuel free last u = (free + (u - last) mod 2 ^ 16, u).
Proof.
  revert free last. induction fuel as [|fuel IH]; intros free last Hl Hu Hf; cbn [reclaim_loop].
  - pose proof (Z.mod_pos_bound (u - last) (2 ^ 16) ltac:(lia)). assert ((u - last) mod 2 ^ 16 = 0) as E by lia.
    rewrite E. apply wrap_sub_0 in E as ->; [|done|done]. f_equal. lia.
  - destruct (Z.eqb_spec last u) as [->|Hne]; [rewrite Z.sub_diag; f_equal; change (0 mod 2 ^ 16) with 0; lia|].
    rewrite IH.
    + rewrite wrap_sub_next by done. f_equal. lia.
    + unfold wrapping_add16. apply Z.mod_pos_bound. lia.
    + done.
    + rewrite wrap_sub_next by done. lia.
Qed.

(** ** The buffers on the bus

    The queue and the number of the buffer that an address leads the device to. *)
Section bus.
Context (bus : Z → option (Z * nat)).

(** The descriptors of a queue lead to its buffers. *)
Definition reaches (queue : Z) (descs : list VirtqDesc) : Prop :=
  ∀ i d, descs !! i = Some d → bus (d_addr d) = Some (queue, i).

(** What the device reads for a descriptor of the transmit queue. *)
Definition dma_read (tx : NetQueue) (desc : VirtqDesc) : option (list Z) :=
  match bus (d_addr desc) with
  | Some (q, i) => if q =? TX_QUEUE then take (Z.to_nat (d_len desc)) <$> buffers tx !! i else None
  | None => None
  end.

(** A packet of the device for a descriptor of the receive queue: the bytes go where the address leads. *)
Definition dma_write (desc : VirtqDesc) (buf : list Z) (bufs : list (list Z)) : list (list Z) :=
  match bus (d_addr desc) with
  | Some (q, i) => if q =? RX_QUEUE then <[i := buf]> bufs else bufs
  | None => bufs
  end.

(** ** Transmission

    Packets in flight: offered and not yet seen used. *)
Definition in_flight (tx : NetQueue) : Z := (av_idx (n_avail tx) - n_last_used tx) mod 2 ^ 16.

(** A device with 256 entries: buffers of the packet size, the free count complements the packets
    in flight, and descriptors are taken in the order of the ring. *)
Record tx_ok (tx : NetQueue) : Prop := {
  tx_descs : length (n_descs tx) = 256%nat;
  tx_buffers : length (buffers tx) = 256%nat;
  tx_sizes : Forall (λ b, length b = Z.to_nat PACKET_BUF_SIZE) (buffers tx);
  tx_ring : length (av_ring (n_avail tx)) = 256%nat;
  tx_avail : 0 ≤ av_idx (n_avail tx) < 2 ^ 16;
  tx_last : 0 ≤ n_last_used tx < 2 ^ 16;
  tx_used : 0 ≤ us_idx (n_used tx) < 2 ^ 16;
  tx_order : (us_idx (n_used tx) - n_last_used tx) mod 2 ^ 16 ≤ in_flight tx;
  tx_free : num_free tx + in_flight tx = 256;
  tx_free_range : 0 ≤ num_free tx;
  tx_head : free_head tx = av_idx (n_avail tx) mod QUEUE_SIZE;
  tx_reach : reaches TX_QUEUE (n_descs tx);
}.

(** reclaim_tx terminates within its turns and takes back exactly the packets the device is done
    with. *)
Lemma reclaim_tx_ok tx :
  tx_ok tx →
  tx_ok (reclaim_tx tx) ∧ n_last_used (reclaim_tx tx) = us_idx (n_used tx) ∧
  num_free (reclaim_tx tx) = num_free tx + (us_idx (n_used tx) - n_last_used tx) mod 2 ^ 16.
Proof.
  intros Hok. unfold reclaim_tx. pose proof (Z.mod_pos_bound (us_idx (n_used tx) - n_last_used tx) (2 ^ 16) ltac:(lia)).
  rewrite reclaim_loop_spec by (apply Hok || lia). split; [|done]. destruct Hok. unfold in_flight in *.
  assert (Hsplit : (av_idx (n_avail tx) - us_idx (n_used tx)) mod 2 ^ 16 =
                   (av_idx (n_avail tx) - n_last_used tx) mod 2 ^ 16 - (us_idx (n_used tx) - n_last_used tx) mod 2 ^ 16).
  { replace (av_idx (n_avail tx) - us_idx (n_used tx))
      with ((av_idx (n_avail tx) - n_last_used tx) - (us_idx (n_used tx) - n_last_used tx)) by lia.
    rewrite Zminus_mod. apply Z.mod_small. pose proof (Z.mod_pos_bound (av_idx (n_avail tx) - n_last_used tx) (2 ^ 16) ltac:(lia)). lia. }
  split; simpl; try done; unfold in_flight; simpl; try lia.
  rewrite Z.sub_diag. change (0 mod 2 ^ 16) with 0. apply Z.mod_pos_bound. lia.
Qed.

(** The descriptors of the packets in flight, for a device that returns them in order. *)
Definition busy (tx : NetQueue) (d : Z) : Prop :=
  ∃ j, 0 ≤ j < in_flight tx ∧ d = (n_last_used tx + j) mod QUEUE_SIZE.

Lemma free_head_idle tx : tx_ok tx → 0 < num_free tx → ¬ busy tx (free_head tx).
Proof.
  intros Hok Hfree (j & Hj & E). rewrite (tx_head _ Hok) in E. pose proof (tx_free _ Hok) as Hf.
  unfold in_flight in *. set (a := av_idx (n_avail tx)) in *. set (l := n_last_used tx) in *.
  assert (Ha : (a - l) mod QUEUE_SIZE = ((a - l) mod 2 ^ 16) mod QUEUE_SIZE).
  { symmetry. apply Z.mod_mod_divide. by exists 256. }
  assert (Hz : (a - l - j) mod QUEUE_SIZE = 0).
  { rewrite <- Z.sub_add_distr. rewrite Zminus_mod, E, Z.sub_diag. done. }
  rewrite Zminus_mod, Ha, <- Zminus_mod in Hz. rewrite Z.mod_small in Hz by (unfold QUEUE_SIZE; lia). lia.
Qed.

Lemma reaches_insert queue ds i d : reaches queue ds → bus (d_addr d) = Some (queue, i) → reaches queue (<[i := d]> ds).
Proof.
  intros Hr Hd j d'. rewrite list_lookup_insert_Some. intros [(-> & -> & _)|[_ Hj]]; [done|by apply Hr].
Qed.

(** Taking the free head keeps the invariant. *)
Lemma take_head_ok tx buf desc buf' :
  tx_ok tx → 0 < num_free tx → buffers tx !! Z.to_nat (free_head tx) = Some buf → length buf' = length buf →
  bus (d_addr desc) = Some (TX_QUEUE, Z.to_nat (free_head tx)) →
  tx_ok (mkNq (<[Z.to_nat (free_head tx) := desc]> (n_descs tx)) (offer (n_avail tx) (free_head tx)) (n_used tx)
           (<[Z.to_nat (free_head tx) := buf']> (buffers tx)) (num_free tx - 1) ((free_head tx + 1) mod QUEUE_SIZE)
           (n_last_used tx)).
Proof.
  intros Hok Hfree Hbuf Hlen Hbus. pose proof Hok as []. unfold in_flight in *.
  pose proof (Z.mod_pos_bound (av_idx (n_avail tx) - n_last_used tx) (2 ^ 16) ltac:(lia)) as Hm.
  assert (Hfl : (wrapping_add16 (av_idx (n_avail tx)) 1 - n_last_used tx) mod 2 ^ 16 =
                (av_idx (n_avail tx) - n_last_used tx) mod 2 ^ 16 + 1).
  { unfold wrapping_add16. rewrite Zminus_mod_idemp_l.
    replace (av_idx (n_avail tx) + 1 - n_last_used tx) with (av_idx (n_avail tx) - n_last_used tx + 1) by lia.
    rewrite Zplus_mod. rewrite (Z.mod_small 1) by lia. apply Z.mod_small. lia. }
  split; simpl; rewrite ?length_insert; try done; unfold in_flight; simpl; rewrite ?Hfl; try lia.
  - apply Forall_insert; [done|]. rewrite Hlen. exact (Forall_lookup_1 _ _ _ _ tx_sizes0 Hbuf).
  - unfold wrapping_add16. apply Z.mod_pos_bound. lia.
  - unfold wrapping_add16. rewrite Z.mod_mod_divide by by exists 256.
    rewrite tx_head0. by rewrite Zplus_mod_idemp_l.
  - by apply reaches_insert.
Qed.

(** What a successful transmit posts: a descriptor that is not in flight, through which the device reads the
    header of zeros and the data. *)
Definition posted (data : list Z) (tx0 tx' : NetQueue) : Prop :=
  ∃ d desc, (¬ busy tx0 d) ∧
    av_idx (n_avail tx') = wrapping_add16 (av_idx (n_avail tx0)) 1 ∧
    av_ring (n_avail tx') !! Z.to_nat (av_idx (n_avail tx0) mod QUEUE_SIZE) = Some d ∧
    n_descs tx' !! Z.to_nat d = Some desc ∧ d_flags desc = 0 ∧
    dma_read tx' desc = Some (replicate VIRTIO_HEADER_SIZE 0 ++ take 1516 data).

(** A frame the stack may send is posted whole. *)
Lemma posted_whole data tx0 tx' :
  (length data ≤ max_transmission_unit)%nat → posted data tx0 tx' →
  ∃ d desc, (¬ busy tx0 d) ∧ n_descs tx' !! Z.to_nat d = Some desc ∧ dma_read tx' desc = Some (replicate VIRTIO_HEADER_SIZE 0 ++ data).
Proof.
  intros Hlen (d & desc & Hb & _ & _ & Hd & _ & Hr). exists d, desc. split; [done|]. split; [done|].
  unfold max_transmission_unit in Hlen. by rewrite take_ge in Hr by lia.
Qed.

Context {P : Type} `{!Ports P}.

Lemma transmit_head data (s : Nic P) tx :
  n_io_base (nic_dev s) + VIRTIO_QUEUE_NOTIFY ≤ U16_MAX → n_initialized (nic_dev s) = true → tx_queue (nic_dev s) = Some tx →
  let tx0 := if num_free tx =? 0 then reclaim_tx tx else tx in
  tx_ok tx0 → 0 < num_free tx0 →
  ∃ s' tx', transmit data s = Ret (Ok (), s') ∧ tx_queue (nic_dev s') = Some tx' ∧ tx_ok tx' ∧ posted data tx0 tx'.
Proof.
  intros Hio Hi Htx tx0 Hok Hfree. unfold transmit. rewrite Hi, Htx. cbn [negb]. fold tx0.
  rewrite (proj2 (Z.eqb_neq (num_free tx0) 0)) by lia.
  assert (Hd : 0 ≤ free_head tx0 < 256) by (rewrite (tx_head _ Hok); apply Z.mod_pos_bound; done).
  destruct (lookup_lt_is_Some_2 (buffers tx0) (Z.to_nat (free_head tx0))) as [buf Ebuf]; [rewrite (tx_buffers _ Hok); lia|].
  destruct (lookup_lt_is_Some_2 (n_descs tx0) (Z.to_nat (free_head tx0))) as [desc Edesc]; [rewrite (tx_descs _ Hok); lia|].
  rewrite Ebuf, Edesc. pose proof (Forall_lookup_1 _ _ _ _ (tx_sizes _ Hok) Ebuf) as Hlen. simpl in Hlen.
  change (Z.to_nat PACKET_BUF_SIZE) with 1526%nat in Hlen. unfold VIRTIO_HEADER_SIZE. rewrite decide_True by lia.
  unfold notify, checked_add16. rewrite decide_True by done. cbn [outcome_bind].
  pose proof (tx_reach _ Hok _ _ Edesc) as Hbus.
  eexists _, _. split; [reflexivity|]. split; [reflexivity|]. split.
  - eapply take_head_ok; [done|done|done| |done]. rewrite !length_app, length_replicate, length_take, length_drop. lia.
  - exists (free_head tx0). eexists. split; [by apply free_head_idle|]. split; [done|]. split; [|split; [|split]].
    + simpl. rewrite list_lookup_insert_eq; [|rewrite (tx_ring _ Hok); pose proof (Z.mod_pos_bound (av_idx (n_avail tx0)) 256 ltac:(lia)); unfold QUEUE_SIZE; lia].
      rewrite Z.mod_small by lia. done.
    + simpl. rewrite list_lookup_insert_eq by (rewrite (tx_descs _ Hok); lia). reflexivity.
    + done.
    + unfold dma_read. cbn [d_addr d_len n_descs buffers]. rewrite Hbus. cbn [Z.eqb TX_QUEUE Pos.eqb].
      rewrite list_lookup_insert_eq by (rewrite (tx_buffers _ Hok); lia). cbn [fmap option_fmap option_map]. f_equal.
      rewrite Nat2Z.id, (assoc_L (++)), take_app_length'.
      * f_equal. rewrite Hlen. destruct (decide (length data ≤ 1516)%nat); [by rewrite !take_ge by lia|]. f_equal. lia.
      * rewrite length_app, length_replicate, length_take. lia.
Qed.

(** From every well-formed queue, transmit returns and keeps it well formed: either it posts the
    packet, or all 256 descriptors are in flight and none has come back. *)
Lemma transmit_ok data (s : Nic P) tx :
  n_initialized (nic_dev s) = true → n_io_base (nic_dev s) + VIRTIO_QUEUE_NOTIFY ≤ U16_MAX →
  tx_queue (nic_dev s) = Some tx → tx_ok tx →
  ∃ r s' tx', transmit data s = Ret (r, s') ∧ tx_queue (nic_dev s') = Some tx' ∧ tx_ok tx' ∧
    match r with
    | Ok _ => posted data (if num_free tx =? 0 then reclaim_tx tx else tx) tx'
    | Err _ => in_flight tx' = 256 ∧ us_idx (n_used tx') = n_last_used tx'
    end.
Proof.
  intros Hi Hio Htx Hok. destruct (reclaim_tx_ok tx Hok) as (Hok' & Hlast & Hnum).
  set (tx0 := if num_free tx =? 0 then reclaim_tx tx else tx). assert (Hok0 : tx_ok tx0) by (subst tx0; by destruct (_ =? 0)).
  destruct (decide (num_free tx0 = 0)) as [E0|Hne].
  - exists (Err "TX queue full"), (mkNic (with_tx (nic_dev s) tx0) (nic_ports s)), tx0. unfold transmit. rewrite Hi, Htx.
    cbn [negb]. fold tx0. rewrite E0. simpl. do 3 (split; [done|]). pose proof (tx_free _ Hok0). split; [lia|].
    subst tx0. destruct (Z.eqb_spec (num_free tx) 0) as [|Hn]; [|lia]. rewrite Hlast. unfold reclaim_tx. by destruct (reclaim_loop _ _ _ _).
  - pose proof (tx_free_range _ Hok0). assert (Hf : 0 < num_free tx0) by lia.
    destruct (transmit_head data s tx Hio Hi Htx Hok0 Hf) as (s' & tx' & E & H1 & H2 & H3).
    by exists (Ok ()), s', tx'.
Qed.
End bus.

(** *** Further observation *)

(** reclaim_tx counts the used elements and does not look at them: whatever ids the device reports, the descriptors
    taken back are the oldest ones. *)
Lemma reclaim_ignores_ids ring tx :
  reclaim_tx (mkNq (n_descs tx) (n_avail tx) (mkUsed (us_flags (n_used tx)) (us_idx (n_used tx)) ring) (buffers tx) (num_free tx) (free_head tx) (n_last_used tx)) =
  mkNq (n_descs tx) (n_avail tx) (mkUsed (us_flags (n_used tx)) (us_idx (n_used tx)) ring) (buffers tx)
    (num_free (reclaim_tx tx)) (free_head (reclaim_tx tx)) (n_last_used (reclaim_tx tx)).
Proof. unfold reclaim_tx. cbn. by destruct (reclaim_loop _ _ _ _). Qed.
End VirtioNet.
