(* ===== verification/VirtioNetInit.v ===== *)
(** * VirtioNetInit: initialisation of net/virtio_net.rs, and the network card from then on

    [net_init] finds the PCI function, negotiates and sets up the two queues with packet buffers
    from the kernel heap, whose addresses are an argument.  [nic_run] is any history of the driver
    and the device after a successful initialisation: packets arrive and are received in order, and
    the driver never panics. *)

From S2P Require Import Prelude Bytes FrameAlloc BlockCache Pci Vring VirtioBlk VirtioNet.

Module NicInit.
Import Vring VirtioBlk VirtioNet Pci.

(** [m] where an early return is a value, as for the Option that setup_virtqueue returns. *)
Definition try_option {P Dev A} (m : boot P Dev A) : boot P Dev (option A) :=
  λ b, match m b with
       | Ret (Ok a, b') => Ret (Ok (Some a), b')
       | Ret (Err _, b') => Ret (Ok None, b')
       | Panic => Panic
       end.

Section init.
Context {P : Type} `{!Ports P} (hhdm : Z).

(** The address of the [i]-th packet buffer of a queue; [None] when the heap is exhausted, which
    ends in alloc_error. *)
Context (buf_ptr : Z → nat → option Z).

(** The offsets for a queue of [n] entries. *)
Definition net_desc_size (n : Z) : Z := 16 * n.
Definition net_avail_size (n : Z) : Z := 6 + 2 * n.
Definition net_used_size (n : Z) : Z := 6 + 8 * n.
Definition net_num_pages (n : Z) : Z := (net_desc_size n + net_avail_size n + net_used_size n + 4096 + 4095) / 4096.
Definition net_used_offset (n : Z) : Z := ((net_desc_size n + net_avail_size n + 4095) / 4096) * 4096.

(** The loop over the descriptors from [i] on; the arrays have 256 entries and indexing panics
    beyond. *)
Fixpoint fill_buffers (n i : nat) (queue_idx : Z) (is_rx : bool) (descs : list VirtqDesc) (ring : list Z)
    (bufs : list (list Z)) : outcome (list VirtqDesc * list Z * list (list Z)) :=
  match n with
  | O => Ret (descs, ring, bufs)
  | S n' =>
      match buf_ptr queue_idx i with
      | None => Panic
      | Some ptr =>
          let? _ := checked_sub64 ptr hhdm in
          if decide (i < length descs)%nat then
            let d := mkDesc ptr PACKET_BUF_SIZE (if is_rx then VRING_DESC_F_WRITE else 0) 0 in
            let ring' := if is_rx then <[i := Z.of_nat i mod 2 ^ 16]> ring else ring in
            fill_buffers n' (S i) queue_idx is_rx (<[i := d]> descs) ring'
              (bufs ++ [replicate (Z.to_nat PACKET_BUF_SIZE) 0])
          else Panic
      end
  end.

Definition zero_descs : list VirtqDesc := replicate (Z.to_nat QUEUE_SIZE) (mkDesc 0 0 0 0).
Definition zero_ring : list Z := replicate (Z.to_nat QUEUE_SIZE) 0.
Definition zero_used : VirtqUsed := mkUsed 0 0 (replicate (Z.to_nat QUEUE_SIZE) (0, 0)).

Definition net_setup_virtqueue (io queue_idx : Z) (is_rx : bool) : boot P VirtioNetDevice NetQueue :=
  let! _ := write_port out16 io VIRTIO_QUEUE_SELECT queue_idx in
  let! queue_size := read_port in16 io VIRTIO_QUEUE_SIZE in
  if queue_size =? 0 then throw ()
  else
    let! phys_base := alloc_frame in
    let! _ := alloc_frames (Z.to_nat (net_num_pages queue_size - 1)) in
    let! virt_base := lift_outcome (checked_add64 phys_base hhdm) in
    let! _ := zero_mem hhdm virt_base (net_num_pages queue_size * 4096) in
    let! _ := lift_outcome (checked_add64 virt_base (net_desc_size queue_size)) in
    let! _ := lift_outcome (checked_add64 virt_base (net_used_offset queue_size)) in
    let! _ := write_port out32 io VIRTIO_QUEUE_ADDR ((phys_base / 4096) mod 2 ^ 32) in
    let! '(descs, ring, bufs) :=
      lift_outcome (fill_buffers (Z.to_nat queue_size) 0 queue_idx is_rx zero_descs zero_ring []) in
    let! _ := (if is_rx then write_port out16 io VIRTIO_QUEUE_NOTIFY queue_idx else ret ()) in
    ret (mkNq descs (mkAvail 0 (if is_rx then queue_size mod 2 ^ 16 else 0) ring) zero_used bufs
           (if is_rx then 0 else queue_size) 0 0).

(** The PCI function: by id, or the first network controller of the vendor. *)
Definition find_net : boot P VirtioNetDevice PciDevice :=
  let! b := get_state in
  let '(found, p) := find_device VIRTIO_PCI_VENDOR VIRTIO_NET_DEVICE_LEGACY (bt_ports b) in
  match found with
  | Some dev => let! _ := put_state (set_ports b p) in ret dev
  | None =>
      let '(l, p) := find_by_vendor VIRTIO_PCI_VENDOR p in
      match List.find (λ d, (subclass d =? 0x00) && (class_code d =? 0x02)) l with
      | Some dev => let! _ := put_state (set_ports b p) in ret dev
      | None =>
          let d := bt_dev b in
          let! _ := put_state (mkBoot p (bt_frames b) (bt_mem b)
                      (mkNetDev (n_io_base d) [0x52; 0x54; 0x00; 0x12; 0x34; 0x56] (rx_queue d) (tx_queue d) false)
                      (bt_found b)) in
          throw ()
      end
  end.

(** The bytes [i..6] of the MAC address. *)
Fixpoint read_mac (n : nat) (io i : Z) : boot P VirtioNetDevice (list Z) :=
  match n with
  | O => ret []
  | S n' => let! v := read_port in8 io (VIRTIO_NET_MAC + i) in
            let! vs := read_mac n' io (i + 1) in ret (v :: vs)
  end.

(** [init] without its messages. *)
Definition net_init : boot P VirtioNetDevice () :=
  let! pci_dev := find_net in
  let bar0 := default 0 (bars pci_dev !! 0%nat) in
  if Z.land bar0 1 =? 0 then throw ()
  else
    let io := Z.land bar0 0xFFFC in
    let! b := get_state in
    let! _ := put_state (set_ports b (enable_bus_master pci_dev (bt_ports b))) in
    let! _ := write_port out8 io VIRTIO_DEVICE_STATUS VIRTIO_STATUS_RESET in
    let! _ := write_port out8 io VIRTIO_DEVICE_STATUS VIRTIO_STATUS_ACKNOWLEDGE in
    let! status := read_port in8 io VIRTIO_DEVICE_STATUS in
    let! _ := write_port out8 io VIRTIO_DEVICE_STATUS (Z.lor status VIRTIO_STATUS_DRIVER) in
    let! device_features := read_port in32 io VIRTIO_DEVICE_FEATURES in
    let! _ := write_port out32 io VIRTIO_GUEST_FEATURES (Z.land device_features VIRTIO_NET_F_MAC) in
    let! mac := read_mac 6 io 0 in
    let! rx := try_option (net_setup_virtqueue io RX_QUEUE true) in
    let! tx := try_option (net_setup_virtqueue io TX_QUEUE false) in
    let! status := read_port in8 io VIRTIO_DEVICE_STATUS in
    let! _ := write_port out8 io VIRTIO_DEVICE_STATUS (Z.lor status VIRTIO_STATUS_DRIVER_OK) in
    let! b := get_state in
    put_state (mkBoot (bt_ports b) (bt_frames b) (bt_mem b) (mkNetDev io mac rx tx true) true).
End init.

(** ** Reception

    The used elements the driver has not seen yet, and the packets in their buffers. *)
Definition unseen (rx : NetQueue) : Z := (us_idx (n_used rx) - n_last_used rx) mod 2 ^ 16.

Definition elem_at (rx : NetQueue) (j : Z) : Z * Z :=
  default (0, 0) (us_ring (n_used rx) !! Z.to_nat ((n_last_used rx + j) mod QUEUE_SIZE)).

Definition pending (rx : NetQueue) : list (Z * Z) := elem_at rx <$> seqZ 0 (unseen rx).

Definition packet_in (bufs : list (list Z)) (e : Z * Z) : list Z :=
  slice VIRTIO_HEADER_SIZE (Z.to_nat e.2 - VIRTIO_HEADER_SIZE) (default [] (bufs !! Z.to_nat e.1)).

Definition packets (rx : NetQueue) : list (list Z) := packet_in (buffers rx) <$> pending rx.

(** A used element that the driver can take: its id names a descriptor. *)
Definition elem_ok (e : Z * Z) : Prop := 0 ≤ e.1 < QUEUE_SIZE ∧ 0 ≤ e.2.

Section reception.
Context (bus : Z → option (Z * nat)).

Record rx_ok (rx : NetQueue) : Prop := {
  rx_descs : length (n_descs rx) = 256%nat;
  rx_buffers : length (buffers rx) = 256%nat;
  rx_sizes : Forall (λ b, length b = Z.to_nat PACKET_BUF_SIZE) (buffers rx);
  rx_ring : length (us_ring (n_used rx)) = 256%nat;
  rx_last : 0 ≤ n_last_used rx < 2 ^ 16;
  rx_used : 0 ≤ us_idx (n_used rx) < 2 ^ 16;
  rx_room : unseen rx ≤ QUEUE_SIZE;
  rx_ids : NoDup (pending rx).*1;
  rx_elems : Forall elem_ok (pending rx);
  rx_reach : reaches bus RX_QUEUE (n_descs rx);
}.

(** The device puts a packet: it writes it where the address of the descriptor leads and appends a used element. *)
Definition device_put (id len : Z) (buf : list Z) (rx : NetQueue) : NetQueue :=
  mkNq (n_descs rx) (n_avail rx)
    (mkUsed (us_flags (n_used rx)) (wrapping_add16 (us_idx (n_used rx)) 1)
       (<[Z.to_nat (us_idx (n_used rx) mod QUEUE_SIZE) := (id, len)]> (us_ring (n_used rx))))
    (match n_descs rx !! Z.to_nat id with Some d => dma_write bus d buf (buffers rx) | None => buffers rx end)
    (num_free rx) (free_head rx) (n_last_used rx).

(** The descriptor's own buffer, when the bus leads there. *)
Lemma device_put_buffers id len buf rx :
  rx_ok rx → 0 ≤ id < QUEUE_SIZE → buffers (device_put id len buf rx) = <[Z.to_nat id := buf]> (buffers rx).
Proof.
  intros Hok Hid. cbn [device_put buffers]. unfold QUEUE_SIZE in Hid.
  destruct (lookup_lt_is_Some_2 (n_descs rx) (Z.to_nat id)) as [d Ed]; [rewrite (rx_descs _ Hok); lia|].
  rewrite Ed. unfold dma_write. by rewrite (rx_reach _ Hok _ _ Ed).
Qed.

Lemma unseen_put id len buf rx :
  rx_ok rx → unseen rx < QUEUE_SIZE → unseen (device_put id len buf rx) = unseen rx + 1.
Proof.
  intros [] Hroom. unfold unseen in *. simpl. unfold wrapping_add16. rewrite Zminus_mod_idemp_l.
  replace (us_idx (n_used rx) + 1 - n_last_used rx) with (us_idx (n_used rx) - n_last_used rx + 1) by lia.
  pose proof (Z.mod_pos_bound (us_idx (n_used rx) - n_last_used rx) (2 ^ 16) ltac:(lia)).
  rewrite Zplus_mod, (Z.mod_small 1) by lia. apply Z.mod_small. unfold QUEUE_SIZE in Hroom. lia.
Qed.

(** The slot the device writes is the one behind the unseen elements. *)
Lemma used_slot rx :
  us_idx (n_used rx) mod QUEUE_SIZE = (n_last_used rx + unseen rx) mod QUEUE_SIZE.
Proof.
  unfold unseen. rewrite (Zplus_mod (n_last_used rx)).
  assert (((us_idx (n_used rx) - n_last_used rx) mod 2 ^ 16) mod QUEUE_SIZE = (us_idx (n_used rx) - n_last_used rx) mod QUEUE_SIZE)
    as -> by (apply Z.mod_mod_divide; by exists 256).
  rewrite <- Zplus_mod. f_equal. lia.
Qed.

Lemma slots_differ a j k : 0 ≤ j < QUEUE_SIZE → 0 ≤ k < QUEUE_SIZE → j ≠ k → (a + j) mod QUEUE_SIZE ≠ (a + k) mod QUEUE_SIZE.
Proof.
  intros Hj Hk Hne E. assert (Hz : ((a + j) - (a + k)) mod QUEUE_SIZE = 0) by (rewrite Zminus_mod, E, Z.sub_diag; done).
  replace (a + j - (a + k)) with (j - k) in Hz by lia. apply Z.mod_divide in Hz as [q Hq]; [|done]. unfold QUEUE_SIZE in *. lia.
Qed.

Lemma pending_put id len buf rx :
  rx_ok rx → unseen rx < QUEUE_SIZE → pending (device_put id len buf rx) = pending rx ++ [(id, len)].
Proof.
  intros Hok Hroom. unfold pending. rewrite unseen_put by done.
  assert (0 ≤ unseen rx) by (apply Z.mod_pos_bound; lia). rewrite seqZ_app by lia. rewrite fmap_app. simpl. f_equal.
  - apply list_fmap_ext. intros i x [-> Hi]%lookup_seqZ. unfold elem_at. simpl. rewrite used_slot.
    rewrite list_lookup_insert_ne; [done|]. intros E. apply (f_equal Z.of_nat) in E.
    rewrite !Z2Nat.id in E by (apply Z.mod_pos_bound; done). by apply slots_differ in E; [|lia..].
  - f_equal. unfold elem_at. simpl. rewrite used_slot, Z.add_0_l, list_lookup_insert_eq; [done|].
    rewrite (rx_ring _ Hok). pose proof (Z.mod_pos_bound (n_last_used rx + unseen rx) QUEUE_SIZE ltac:(done)).
    unfold QUEUE_SIZE in *. lia.
Qed.

Lemma device_put_ok id len buf rx :
  rx_ok rx → unseen rx < QUEUE_SIZE → (id ∉ (pending rx).*1) → elem_ok (id, len) → length buf = Z.to_nat PACKET_BUF_SIZE →
  rx_ok (device_put id len buf rx) ∧ packets (device_put id len buf rx) = packets rx ++ [packet_in [buf] (0, len)].
Proof.
  intros Hok Hroom Hid He Hlen. pose proof (pending_put id len buf rx Hok Hroom) as Hp.
  pose proof (unseen_put id len buf rx Hok Hroom) as Hu. pose proof (device_put_buffers id len buf rx Hok (proj1 He)) as Hbuf. split.
  - split; rewrite ?Hp, ?Hu, ?Hbuf; try (apply Hok); simpl; rewrite ?length_insert; try apply Hok.
    + apply Forall_insert; [apply Hok|done].
    + unfold wrapping_add16. apply Z.mod_pos_bound. lia.
    + lia.
    + rewrite fmap_app. apply NoDup_app. split; [apply Hok|]. split; [|apply NoDup_singleton]. simpl. set_solver.
    + apply Forall_app. split; [apply Hok|by constructor].
  - unfold packets. rewrite Hp, Hbuf, fmap_app. f_equal.
    + apply list_fmap_ext. intros i [id' len'] Hx. unfold packet_in. simpl. rewrite list_lookup_insert_ne; [done|].
      pose proof (Forall_lookup_1 _ _ _ _ (rx_elems _ Hok) Hx) as [Hr _]. destruct He as [Hr2 _]. simpl in *.
      intros E. apply Hid. assert (id = id') as -> by lia. apply list_elem_of_fmap. exists (id', len').
      split; [done|]. by eapply list_elem_of_lookup_2.
    + simpl. f_equal. unfold packet_in. simpl. rewrite list_lookup_insert_eq; [done|]. rewrite (rx_buffers _ Hok).
      destruct He as [Hr _]. unfold QUEUE_SIZE in Hr. simpl in Hr. lia.
Qed.

(** Going on to the next element. *)
Definition advance (descs : list VirtqDesc) (av : VirtqAvail) (rx : NetQueue) : NetQueue :=
  mkNq descs av (n_used rx) (buffers rx) (num_free rx) (free_head rx) (wrapping_add16 (n_last_used rx) 1).

Lemma unseen_pos rx : rx_ok rx → n_last_used rx ≠ us_idx (n_used rx) → 0 < unseen rx.
Proof.
  intros [] Hne. unfold unseen. pose proof (Z.mod_pos_bound (us_idx (n_used rx) - n_last_used rx) (2 ^ 16) ltac:(lia)).
  pose proof (wrap_sub_0 (us_idx (n_used rx)) (n_last_used rx) rx_used0 rx_last0). lia.
Qed.

Lemma pending_advance ds av rx :
  rx_ok rx → n_last_used rx ≠ us_idx (n_used rx) →
  unseen (advance ds av rx) = unseen rx - 1 ∧ pending rx = elem_at rx 0 :: pending (advance ds av rx).
Proof.
  intros Hok Hne. pose proof (unseen_pos rx Hok Hne) as Hpos.
  assert (Hu : unseen (advance ds av rx) = unseen rx - 1).
  { unfold unseen. simpl. apply wrap_sub_next; [exact (rx_used _ Hok)|exact (rx_last _ Hok)|done]. }
  split; [done|]. unfold pending. rewrite Hu. rewrite seqZ_cons by lia. rewrite fmap_cons. f_equal.
  replace (Z.succ 0) with (1 + 0) by lia. rewrite <- Z.sub_1_r, <- fmap_add_seqZ, <- list_fmap_compose.
  apply list_fmap_ext. intros i x [-> Hi]%lookup_seqZ. unfold elem_at. simpl. do 3 f_equal.
  unfold wrapping_add16. rewrite (Zplus_mod ((n_last_used rx + 1) mod 2 ^ 16)).
  rewrite Z.mod_mod_divide by by exists 256. rewrite <- Zplus_mod. f_equal. lia.
Qed.

Lemma advance_ok ds av rx :
  rx_ok rx → n_last_used rx ≠ us_idx (n_used rx) → length ds = 256%nat → reaches bus RX_QUEUE ds →
  rx_ok (advance ds av rx) ∧ packets rx = packet_in (buffers rx) (elem_at rx 0) :: packets (advance ds av rx).
Proof.
  intros Hok Hne Hds Hreach. destruct (pending_advance ds av rx Hok Hne) as [Hu Hp].
  pose proof (rx_ids _ Hok) as Hids. pose proof (rx_elems _ Hok) as Hel. rewrite Hp in Hids, Hel. split.
  - split; simpl; try apply Hok; try done.
    + unfold wrapping_add16. apply Z.mod_pos_bound. lia.
    + rewrite Hu. pose proof (rx_room _ Hok). lia.
    + simpl in Hids. by apply NoDup_cons in Hids as [_ ?].
    + by apply Forall_cons in Hel as [_ ?].
  - unfold packets. by rewrite Hp.
Qed.

(** What the driver makes of the packets: empty ones are skipped. *)
Definition received (size : nat) (pkt : list Z) : option (list Z) :=
  if decide (pkt = []) then None else Some (take size pkt).

Lemma net_receive_spec {P} `{!Ports P} size (s : Nic P) rx :
  n_initialized (nic_dev s) = true → n_io_base (nic_dev s) + VIRTIO_QUEUE_NOTIFY ≤ U16_MAX →
  rx_queue (nic_dev s) = Some rx → rx_ok rx → (0 < size ≤ 1514)%nat →
  match packets rx with
  | [] => net_receive size s = Ret (None, s)
  | pkt :: pkts => ∃ rx' s', net_receive size s = Ret (received size pkt, s') ∧ rx_ok rx' ∧ packets rx' = pkts ∧
                     nic_dev s' = with_rx (nic_dev s) rx'
  end.
Proof.
  intros Hi Hio Hrx Hok Hsize. unfold net_receive. rewrite Hi, Hrx. simpl negb. cbn match.
  destruct (Z.eqb_spec (n_last_used rx) (us_idx (n_used rx))) as [E|Hne].
  { unfold packets, pending, unseen. by rewrite <- E, Z.sub_diag. }
  destruct (pending_advance (n_descs rx) (n_avail rx) rx Hok Hne) as [_ Hp].
  pose proof (rx_elems _ Hok) as Hel. rewrite Hp in Hel. apply Forall_cons in Hel as [[Hid Hlen] _].
  destruct (lookup_lt_is_Some_2 (us_ring (n_used rx)) (Z.to_nat (n_last_used rx mod QUEUE_SIZE))) as [[id len] Ee].
  { rewrite (rx_ring _ Hok). pose proof (Z.mod_pos_bound (n_last_used rx) QUEUE_SIZE ltac:(done)). unfold QUEUE_SIZE in *. lia. }
  assert (He : elem_at rx 0 = (id, len)) by (unfold elem_at; by rewrite Z.add_0_r, Ee). rewrite He in *. simpl in Hid, Hlen.
  rewrite Ee. unfold QUEUE_SIZE in Hid.
  destruct (lookup_lt_is_Some_2 (buffers rx) (Z.to_nat id)) as [buf Eb]; [rewrite (rx_buffers _ Hok); lia|].
  destruct (lookup_lt_is_Some_2 (n_descs rx) (Z.to_nat id)) as [desc Ed]; [rewrite (rx_descs _ Hok); lia|].
  pose proof (Forall_lookup_1 _ _ _ _ (rx_sizes _ Hok) Eb) as Hbuf. simpl in Hbuf.
  change (Z.to_nat PACKET_BUF_SIZE) with 1526%nat in Hbuf.
  assert (Hpk : packet_in (buffers rx) (id, len) = slice 10 (Z.to_nat len - 10) buf) by (unfold packet_in; simpl; by rewrite Eb).
  case_decide as Hl; unfold VIRTIO_HEADER_SIZE in *.
  - rewrite Eb, Ed, decide_True by lia. unfold notify, checked_add16. simpl n_io_base. rewrite decide_True by done. simpl outcome_bind.
    destruct (advance_ok (<[Z.to_nat id := mkDesc (d_addr desc) PACKET_BUF_SIZE VRING_DESC_F_WRITE 0]> (n_descs rx)) (offer (n_avail rx) id)
                rx Hok Hne) as [Hok' Hpk']; [by rewrite length_insert, (rx_descs _ Hok)|apply reaches_insert; [apply Hok|exact (rx_reach _ Hok _ _ Ed)]|].
    rewrite Hpk', He, Hpk. assert (received size (slice 10 (Z.to_nat len - 10) buf) =
                                  Some (slice 10 ((Z.to_nat len - 10) `min` size) buf)) as ->.
    { assert (length (slice 10 (Z.to_nat len - 10) buf) = (Z.to_nat len - 10) `min` 1516)%nat as Hsl
        by (unfold slice; rewrite length_take, length_drop; lia).
      unfold received. rewrite decide_False by (intros E; rewrite E in Hsl; simpl in Hsl; lia).
      unfold slice. by rewrite take_take, Nat.min_comm. }
    eexists _, _. split; [reflexivity|]. split; [exact Hok'|done].
  - destruct (advance_ok (n_descs rx) (n_avail rx) rx Hok Hne (rx_descs _ Hok) (rx_reach _ Hok)) as [Hok' Hpk']. rewrite Hpk', He, Hpk.
    replace (Z.to_nat len - 10)%nat with O by lia. eexists _, _. split; [reflexivity|]. split; [exact Hok'|done].
Qed.
End reception.

(** ** Initialisation *)
Section init_ok.
Context {P : Type} `{!Ports P} (hhdm : Z) (buf_ptr : Z → nat → option Z) (bus : Z → option (Z * nat)).

Lemma fill_buffers_spec n i q is_rx ds ring bufs ds' ring' bufs' :
  fill_buffers hhdm buf_ptr n i q is_rx ds ring bufs = Ret (ds', ring', bufs') → (i ≤ length ds)%nat →
  (i + n ≤ length ds)%nat ∧ length ds' = length ds ∧ length ring' = length ring ∧
  bufs' = bufs ++ replicate n (replicate (Z.to_nat PACKET_BUF_SIZE) 0) ∧
  (∀ j, (j < i)%nat → ds' !! j = ds !! j) ∧ ∀ j d, (i ≤ j < i + n)%nat → ds' !! j = Some d → buf_ptr q j = Some (d_addr d).
Proof.
  revert i ds ring bufs. induction n as [|n IH]; intros i ds ring bufs H Hi; cbn [fill_buffers] in H.
  { simplify_eq. rewrite app_nil_r. split; [lia|]. do 4 (split; [done|]). intros; lia. }
  destruct (buf_ptr q i) as [ptr|] eqn:Eptr; [|done]. destruct (checked_sub64 ptr hhdm); cbn [outcome_bind] in H; [|done].
  case_decide as Hlt; [|done]. apply IH in H as (H1 & H2 & H3 & -> & Hlow & Hhigh); [|by rewrite length_insert].
  rewrite length_insert in H1, H2. split; [lia|]. split; [done|]. split; [|split; [|split]].
  - rewrite H3. by destruct is_rx; rewrite ?length_insert.
  - by rewrite <- app_assoc.
  - intros j Hj. rewrite Hlow by lia. by apply list_lookup_insert_ne; lia.
  - intros j d Hj Hd. destruct (decide (j = i)) as [->|]; [|apply Hhigh; [lia|done]].
    rewrite Hlow, list_lookup_insert_eq in Hd by lia. by injection Hd as <-.
Qed.

(** The queue as setup_virtqueue leaves it. *)
Record queue_fresh (idx : Z) (is_rx : bool) (q : NetQueue) : Prop := {
  qf_descs : length (n_descs q) = 256%nat;
  qf_ring : length (av_ring (n_avail q)) = 256%nat;
  qf_used : n_used q = zero_used;
  qf_last : n_last_used q = 0;
  qf_head : free_head q = 0;
  qf_size : (length (buffers q) ≤ 256)%nat;
  qf_buffers : buffers q = replicate (length (buffers q)) (replicate (Z.to_nat PACKET_BUF_SIZE) 0);
  qf_avail : av_idx (n_avail q) = if is_rx then Z.of_nat (length (buffers q)) else 0;
  qf_free : num_free q = if is_rx then 0 else Z.of_nat (length (buffers q));
  qf_addr : ∀ j d, (j < length (buffers q))%nat → n_descs q !! j = Some d → buf_ptr idx j = Some (d_addr d);
}.

Lemma gives_fill n q is_rx :
  gives (P := P) (Dev := VirtioNetDevice) (lift_outcome (fill_buffers hhdm buf_ptr n 0 q is_rx zero_descs zero_ring []))
    (λ x _, let '(ds, ring, bufs) := x in
            (n ≤ 256)%nat ∧ length ds = 256%nat ∧ length ring = 256%nat ∧ bufs = replicate n (replicate (Z.to_nat PACKET_BUF_SIZE) 0) ∧
            ∀ j d, (j < n)%nat → ds !! j = Some d → buf_ptr q j = Some (d_addr d)).
Proof.
  intros b [[ds ring] bufs] b'. unfold lift_outcome. destruct (fill_buffers _ _ _ _ _ _ _ _ _) as [x|] eqn:E; [|done].
  intros [= -> _]. apply fill_buffers_spec in E as (H1 & H2 & H3 & -> & _ & Hd); [|simpl; lia].
  do 4 (split; [done|]). intros j d Hj. apply Hd. lia.
Qed.

(** A read of a 16-bit port returns a u16. *)
Hypothesis in16_range : ∀ port (p : P), 0 ≤ (in16 port p).1 < 2 ^ 16.

Lemma gives_in16 io off : gives (Dev := VirtioNetDevice) (read_port in16 io off) (λ v _, 0 ≤ v).
Proof.
  intros b v b' H. unfold read_port, cmd_bind, lift_outcome, get_state, put_state, ret in H.
  destruct (checked_add16 io off) as [port|]; [|done]. pose proof (in16_range port (bt_ports b)) as Hr.
  destruct (in16 port (bt_ports b)) as [w p]. injection H as <- _. apply Hr.
Qed.

Lemma gives_queue io idx is_rx : gives (net_setup_virtqueue hhdm buf_ptr io idx is_rx) (λ q _, queue_fresh idx is_rx q).
Proof.
  unfold net_setup_virtqueue. apply gives_then. intros _. eapply gives_bind; [apply gives_in16|]. intros size Hsize.
  destruct (Z.eqb_spec size 0); [done|]. do 7 (apply gives_then; intros ?).
  eapply gives_bind; [apply gives_fill|]. intros [[ds ring] bufs] (Hn & Hds & Hring & -> & Hd). apply gives_then. intros _.
  apply (gives_ret _ (λ q, queue_fresh idx is_rx q)). split; simpl; rewrite ?length_replicate; try done.
  - destruct is_rx; [|done]. rewrite Z2Nat.id by done. apply Z.mod_small. lia.
  - destruct is_rx; [done|]. by rewrite Z2Nat.id.
Qed.

(** The driver between two calls: both queues in order, and the notification port in range. *)
Record nic_ok (s : Nic P) : Prop := {
  nic_online : n_initialized (nic_dev s) = true;
  nic_port : n_io_base (nic_dev s) + VIRTIO_QUEUE_NOTIFY ≤ U16_MAX;
  nic_rx : ∃ rx, rx_queue (nic_dev s) = Some rx ∧ rx_ok bus rx;
  nic_tx : ∃ tx, tx_queue (nic_dev s) = Some tx ∧ tx_ok bus tx;
}.

(** Queues of 256 entries. *)
Definition full_queues (d : VirtioNetDevice) : Prop :=
  ∃ rx tx, rx_queue d = Some rx ∧ tx_queue d = Some tx ∧ length (buffers rx) = 256%nat ∧ length (buffers tx) = 256%nat.

Lemma fresh_sizes idx is_rx q : queue_fresh idx is_rx q → Forall (λ b, length b = Z.to_nat PACKET_BUF_SIZE) (buffers q).
Proof. intros H. rewrite (qf_buffers _ _ _ H). apply Forall_replicate. apply length_replicate. Qed.

(** The device finds a buffer at the address that the driver put in its descriptor, the virtual address of the heap. *)
Definition heap_on_bus : Prop := ∀ idx i ptr, buf_ptr idx i = Some ptr → bus ptr = Some (idx, i).

Hypothesis Hbus : heap_on_bus.

Lemma fresh_reach idx is_rx q : queue_fresh idx is_rx q → length (buffers q) = 256%nat → reaches bus idx (n_descs q).
Proof.
  intros H Hlen j d Hd. apply Hbus. apply (qf_addr _ _ _ H); [|done]. rewrite Hlen, <- (qf_descs _ _ _ H). by eapply lookup_lt_Some.
Qed.

Lemma fresh_rx q : queue_fresh RX_QUEUE true q → length (buffers q) = 256%nat → rx_ok bus q ∧ packets q = [].
Proof.
  intros H Hlen. pose proof (fresh_sizes _ _ _ H) as Hs. pose proof (fresh_reach _ _ _ H Hlen) as Hr. destruct H.
  assert (unseen q = 0) as Hu by (unfold unseen; by rewrite qf_used0, qf_last0).
  assert (pending q = []) as Hp by (unfold pending; by rewrite Hu).
  split; [|unfold packets; by rewrite Hp]. split; rewrite ?Hp, ?Hu, ?qf_used0, ?qf_last0; simpl; try done; constructor.
Qed.

Lemma fresh_tx q : queue_fresh TX_QUEUE false q → length (buffers q) = 256%nat → tx_ok bus q.
Proof.
  intros H Hlen. pose proof (fresh_sizes _ _ _ H) as Hs. pose proof (fresh_reach _ _ _ H Hlen) as Hr. destruct H.
  split; unfold in_flight; rewrite ?qf_used0, ?qf_last0, ?qf_avail0, ?qf_free0, ?qf_head0, ?Hlen; try done; vm_compute; done.
Qed.

Lemma gives_try {A} (m : boot P VirtioNetDevice A) (R : A → Prop) :
  gives m (λ a _, R a) → gives (try_option m) (λ o _, match o with Some a => R a | None => True end).
Proof.
  intros Hm b o b' H. unfold try_option in H. destruct (m b) as [[[a|e] b1]|] eqn:E; simplify_eq; [|done]. by eapply Hm.
Qed.

(** A successful init has set up the queues and read the address. *)
Lemma gives_net_init :
  gives (net_init hhdm buf_ptr) (λ _ b', n_initialized (bt_dev b') = true ∧ is_online b' = true ∧
    n_io_base (bt_dev b') + VIRTIO_NET_MAC ≤ U16_MAX ∧
    (∀ q, rx_queue (bt_dev b') = Some q → queue_fresh RX_QUEUE true q) ∧ (∀ q, tx_queue (bt_dev b') = Some q → queue_fresh TX_QUEUE false q)).
Proof.
  unfold net_init. apply gives_then. intros dev. destruct (_ =? 0); [done|]. cbv zeta. set (io := Z.land _ 0xFFFC).
  do 8 (apply gives_then; intros ?). eapply (gives_bind _ _ (λ _, io + VIRTIO_NET_MAC ≤ U16_MAX)).
  { cbn [read_mac]. eapply gives_bind; [apply gives_port|]. intros v Hio. rewrite Z.add_0_r in Hio.
    intros ? ? ? _. exact Hio. }
  intros m Hio. eapply gives_bind; [apply gives_try, gives_queue|]. intros rx Hrx.
  eapply gives_bind; [apply gives_try, gives_queue|]. intros tx Htx. do 3 (apply gives_then; intros ?).
  intros b [] b' [= <-]. simpl. do 3 (split; [done|]). split; intros q ->; done.
Qed.

Lemma net_init_ok b b' :
  net_init hhdm buf_ptr b = Ret (Ok (), b') → full_queues (bt_dev b') →
  nic_ok (mkNic (bt_dev b') (bt_ports b')) ∧ (∀ rx, rx_queue (bt_dev b') = Some rx → packets rx = []).
Proof.
  intros H (rx & tx & Erx & Etx & Hrx & Htx). destruct (gives_net_init b () b' H) as (Hi & _ & Hio & Hr & Ht).
  destruct (fresh_rx rx (Hr _ Erx) Hrx) as [Hok Hp]. split.
  - split; simpl; [done| |by exists rx|exists tx; split; [done|by apply fresh_tx; [apply Ht|]]].
    unfold VIRTIO_NET_MAC, VIRTIO_QUEUE_NOTIFY in *. lia.
  - intros rx' E. rewrite Erx in E. by injection E as <-.
Qed.
End init_ok.

(** ** Histories *)
Section run.
Context {P : Type} `{!Ports P} (bus : Z → option (Z * nat)).

(** The device is done with [n] more packets. *)
Definition device_done (n : Z) (tx : NetQueue) : NetQueue :=
  mkNq (n_descs tx) (n_avail tx) (mkUsed (us_flags (n_used tx)) (wrapping_add16 (us_idx (n_used tx)) n) (us_ring (n_used tx)))
    (buffers tx) (num_free tx) (free_head tx) (n_last_used tx).

Definition on_dev (s : Nic P) (d : VirtioNetDevice) : Nic P := mkNic d (nic_ports s).

(** Steps of the device (a packet arrives in a descriptor that the driver is not about to take, packets have been
    sent, the oldest first) and of the driver, with the packets that come in and those that are handed to the stack. *)
Inductive nic_step (s : Nic P) : list (list Z) → list (list Z) → Nic P → Prop :=
| ns_arrive rx id len buf :
    rx_queue (nic_dev s) = Some rx → unseen rx < QUEUE_SIZE → (id ∉ (pending rx).*1) → elem_ok (id, len) →
    length buf = Z.to_nat PACKET_BUF_SIZE →
    nic_step s [packet_in [buf] (0, len)] [] (on_dev s (with_rx (nic_dev s) (device_put bus id len buf rx)))
| ns_sent tx n :
    tx_queue (nic_dev s) = Some tx → 0 ≤ n → (us_idx (n_used tx) - n_last_used tx) mod 2 ^ 16 + n ≤ in_flight tx →
    nic_step s [] [] (on_dev s (with_tx (nic_dev s) (device_done n tx)))
| ns_receive r s' : stack_receive s = Ret (r, s') → nic_step s [] (option_list r) s'
| ns_transmit data r s' : transmit data s = Ret (r, s') → nic_step s [] [] s'.

Inductive nic_run (s : Nic P) : list (list Z) → list (list Z) → Nic P → Prop :=
| nr_start : nic_run s [] [] s
| nr_step ins outs s1 ins' outs' s2 : nic_run s ins outs s1 → nic_step s1 ins' outs' s2 →
    nic_run s (ins ++ ins') (outs ++ outs') s2.

(** What reaches the stack of a sequence of packets: nothing of empty ones, at most the 1514 bytes
    of its buffer of the others. *)
Definition delivered (pkts : list (list Z)) : list (list Z) := omap (received 1514) pkts.

Definition waiting (s : Nic P) : list (list Z) :=
  match rx_queue (nic_dev s) with Some rx => packets rx | None => [] end.

Lemma device_done_ok n tx :
  tx_ok bus tx → 0 ≤ n → (us_idx (n_used tx) - n_last_used tx) mod 2 ^ 16 + n ≤ in_flight tx → tx_ok bus (device_done n tx).
Proof.
  intros Hok Hn Hle. pose proof Hok as []. unfold in_flight in *.
  pose proof (Z.mod_pos_bound (us_idx (n_used tx) - n_last_used tx) (2 ^ 16) ltac:(lia)) as Hm.
  pose proof (Z.mod_pos_bound (av_idx (n_avail tx) - n_last_used tx) (2 ^ 16) ltac:(lia)) as Ha.
  split; simpl; try done; unfold wrapping_add16.
  - apply Z.mod_pos_bound. lia.
  - unfold in_flight. simpl. rewrite Zminus_mod_idemp_l.
    replace (us_idx (n_used tx) + n - n_last_used tx) with (us_idx (n_used tx) - n_last_used tx + n) by lia.
    rewrite Zplus_mod, (Z.mod_small n) by lia. rewrite Z.mod_small by lia. done.
Qed.

(** transmit leaves everything but the transmit queue. *)
Lemma transmit_fields data (s : Nic P) r s' :
  transmit data s = Ret (r, s') →
  n_initialized (nic_dev s') = n_initialized (nic_dev s) ∧ n_io_base (nic_dev s') = n_io_base (nic_dev s) ∧
  rx_queue (nic_dev s') = rx_queue (nic_dev s).
Proof.
  unfold transmit. destruct (negb (n_initialized (nic_dev s))); [by intros [= _ <-]|].
  destruct (tx_queue (nic_dev s)) as [tx|]; [|by intros [= _ <-]]. cbv zeta.
  set (tx0 := if num_free tx =? 0 then reclaim_tx tx else tx). destruct (num_free tx0 =? 0); [by intros [= _ <-]|].
  destruct (buffers tx0 !! Z.to_nat (free_head tx0)) as [buf|], (n_descs tx0 !! Z.to_nat (free_head tx0)) as [desc|]; try done.
  case_decide; [|done].
  unfold notify. destruct (checked_add16 _ _); [|done]. simpl. by intros [= _ <-].
Qed.

Lemma nic_step_ok s ins outs s' :
  nic_ok bus s → nic_step s ins outs s' → nic_ok bus s' ∧ outs ++ delivered (waiting s') = delivered (waiting s ++ ins).
Proof.
  intros Hok Hstep. pose proof Hok as [Hi Hio (rx & Erx & Hrx) (tx & Etx & Htx)].
  destruct Hstep as [rx1 id len buf E Hroom Hid He Hlen|tx1 n E Hn Hle|r s1 E|data r s1 E].
  - rewrite Erx in E. injection E as <-. destruct (device_put_ok bus id len buf rx Hrx Hroom Hid He Hlen) as [Hrx' Hp].
    split; [split; simpl; eauto|]. unfold waiting. simpl. by rewrite Erx, Hp.
  - rewrite Etx in E. injection E as <-. split; [split; simpl; eauto using device_done_ok|]. simpl. rewrite app_nil_r. done.
  - unfold waiting at 2. rewrite Erx, app_nil_r. pose proof (net_receive_spec bus 1514 s rx Hi Hio Erx Hrx ltac:(lia)) as Hspec.
    unfold stack_receive in E. destruct (packets rx) as [|pkt pkts] eqn:Ep.
    + rewrite Hspec in E. injection E as <- <-. split; [done|]. unfold waiting. by rewrite Erx, Ep.
    + destruct Hspec as (rx' & s2 & E2 & Hrx' & Hp & Hdev). rewrite E2 in E. injection E as <- <-.
      split; [split; rewrite Hdev; simpl; eauto|]. unfold waiting. rewrite Hdev. simpl. rewrite Hp.
      destruct (received 1514 pkt); done.
  - destruct (transmit_ok bus data s tx Hi Hio Etx Htx) as (r2 & s2 & tx2 & E2 & Etx2 & Htx2 & _). rewrite E2 in E.
    injection E as <- <-. destruct (transmit_fields _ _ _ _ E2) as (Ei & Eio & Er).
    split; [split; rewrite ?Ei, ?Eio, ?Er; eauto|]. unfold waiting. by rewrite Er, app_nil_r.
Qed.

Lemma nic_run_ok s ins outs s' :
  nic_ok bus s → nic_run s ins outs s' → nic_ok bus s' ∧ outs ++ delivered (waiting s') = delivered (waiting s ++ ins).
Proof.
  intros Hok Hrun. induction Hrun as [|ins outs s1 ins' outs' s2 _ [Hok1 IH] Hstep].
  { split; [done|]. by rewrite app_nil_r. }
  destruct (nic_step_ok _ _ _ _ Hok1 Hstep) as [Hok2 Hs]. split; [done|].
  rewrite <- app_assoc, Hs. unfold delivered in *. rewrite !omap_app in *. rewrite (assoc_L (++)), IH. by rewrite <- (assoc_L (++)).
Qed.
End run.

(** *** Properties *)


(** *** Witnesses *)

(** A bus with one virtio network card at 0:3.0 with I/O base 0xC000, whose queues have [qs] entries;
    the state is the configuration address. *)
Record card : Type := mkCard { card_addr : Z; card_queue : Z }.

Definition card_config (a : Z) : Z :=
  if a =? config_address 0 3 0 0 then 0x10001AF4 else if a =? config_address 0 3 0 0x10 then 0xC001 else 0xFFFFFFFF.

#[global] Instance card_ports : Ports card := {
  in8 port c := (0, c);
  in16 port c := (card_queue c mod 2 ^ 16, c);
  in32 port c := (if port =? PCI_CONFIG_DATA then card_config (card_addr c) else 0, c);
  out8 port v c := c;
  out16 port v c := c;
  out32 port v c := if port =? PCI_CONFIG_ADDR then mkCard v (card_queue c) else c;
}.

Lemma card_range port (c : card) : 0 ≤ (in16 port c).1 < 2 ^ 16.
Proof. apply (Z.mod_pos_bound (card_queue c)). done. Qed.

Definition demo_boot (qs : Z) : Boot card VirtioNetDevice :=
  mkBoot (mkCard 0 qs) (Some {| Frames.bitmap := [0; 0]; Frames.total_frames := 16; Frames.next_free := 0 |}) (λ _, 0) net_empty false.

(** Buffers of 2048 bytes, 512 for each queue, and a bus on which they have these addresses. *)
Definition demo_ptr (q : Z) (i : nat) : option Z :=
  if decide (0 ≤ q < 2 ∧ Z.of_nat i < 512) then Some (0x20000 + (q * 512 + Z.of_nat i) * 2048) else None.

Definition demo_bus (a : Z) : option (Z * nat) :=
  let n := (a - 0x20000) / 2048 in Some (n / 512, Z.to_nat (n mod 512)).

Lemma demo_on_bus : heap_on_bus demo_ptr demo_bus.
Proof.
  intros q i ptr. unfold demo_ptr, demo_bus. case_decide as H; [|done]. intros [= <-]. cbv zeta.
  replace (0x20000 + (q * 512 + Z.of_nat i) * 2048 - 0x20000) with ((q * 512 + Z.of_nat i) * 2048) by lia.
  rewrite Z.div_mul by done. replace (q * 512 + Z.of_nat i) with (Z.of_nat i + q * 512) by lia.
  rewrite Z.div_add, Z.mod_add by done. rewrite Z.div_small, Z.mod_small by lia. by rewrite Nat2Z.id.
Qed.

(** The queue lengths of the device after a successful initialisation. *)
Definition queue_lengths (r : outcome (result () () * Boot card VirtioNetDevice)) : option (nat * nat) :=
  match r with
  | Ret (Ok _, b') =>
      match rx_queue (bt_dev b'), tx_queue (bt_dev b') with
      | Some rx, Some tx => Some (length (buffers rx), length (buffers tx))
      | _, _ => None
      end
  | _ => None
  end.

Lemma demo_init : queue_lengths (net_init 0x10000 demo_ptr (demo_boot 256)) = Some (256%nat, 256%nat).
Proof. vm_compute. reflexivity. Qed.

Lemma queue_lengths_full r n m :
  queue_lengths r = Some (n, m) → n = 256%nat → m = 256%nat → ∃ b', r = Ret (Ok (), b') ∧ full_queues (bt_dev b').
Proof.
  unfold queue_lengths, full_queues. destruct r as [[[[]|] b']|]; [|done..].
  destruct (rx_queue (bt_dev b')) as [rx|] eqn:Er, (tx_queue (bt_dev b')) as [tx|] eqn:Et; try done.
  intros [= <- <-] Hn Hm. exists b'. split; [done|]. by exists rx, tx.
Qed.


(** *** Further observations *)

(** A device with more than 256 entries is not usable: setting up its queues panics. *)
Lemma large_queue_panics : net_init 0x10000 demo_ptr (demo_boot 512) = Panic.
Proof. vm_compute. reflexivity. Qed.

(** A packet without payload is consumed without offering its descriptor again: the device has one
    buffer less for good. *)
Lemma runt_loses_buffer {P} `{!Ports P} (s s' : Nic P) size r rx rx' :
  n_initialized (nic_dev s) = true → rx_queue (nic_dev s) = Some rx →
  n_last_used rx ≠ us_idx (n_used rx) → (elem_at rx 0).2 ≤ 10 → net_receive size s = Ret (r, s') →
  rx_queue (nic_dev s') = Some rx' → 0 < in_flight rx → in_flight rx' = in_flight rx - 1.
Proof.
  intros Hi Erx Hne Hlen H Erx' Hf. unfold net_receive in H. rewrite Hi, Erx in H. simpl negb in H. cbn match in H.
  rewrite (proj2 (Z.eqb_neq _ _) Hne) in H. unfold elem_at in Hlen. rewrite Z.add_0_r in Hlen.
  destruct (us_ring (n_used rx) !! _) as [[id len]|] eqn:Ee; [|done]. simpl in Hlen.
  rewrite decide_False in H by (unfold VIRTIO_HEADER_SIZE; lia). injection H as _ <-. simpl in Erx'. injection Erx' as <-.
  unfold in_flight in *. simpl. unfold wrapping_add16. rewrite Zminus_mod_idemp_r.
  pose proof (Z.mod_pos_bound (av_idx (n_avail rx) - n_last_used rx) (2 ^ 16) ltac:(lia)).
  replace (av_idx (n_avail rx) - (n_last_used rx + 1)) with (av_idx (n_avail rx) - n_last_used rx - 1) by lia.
  rewrite Zminus_mod, (Z.mod_small 1) by lia. apply Z.mod_small. lia.
Qed.

(** The id of a used element is not checked: one that names no descriptor panics the kernel. *)
Lemma wild_id_panics {P} `{!Ports P} (s : Nic P) size rx id len :
  n_initialized (nic_dev s) = true → rx_queue (nic_dev s) = Some rx → n_last_used rx ≠ us_idx (n_used rx) →
  us_ring (n_used rx) !! Z.to_nat (n_last_used rx mod QUEUE_SIZE) = Some (id, len) → 10 < len → Z.of_nat (length (buffers rx)) ≤ id →
  net_receive size s = Panic.
Proof.
  intros Hi Erx Hne He Hlen Hid. unfold net_receive. rewrite Hi, Erx. cbn [negb]. rewrite (proj2 (Z.eqb_neq _ _) Hne), He.
  rewrite decide_True by (unfold VIRTIO_HEADER_SIZE; lia). by rewrite (lookup_ge_None_2 (buffers rx)) by lia.
Qed.

(** The descriptors hold virtual addresses.  Where the device finds no buffer at such an address, the driver hands
    on what the buffer held before, the zeros of its allocation, and not the packet that arrived. *)
Lemma virtual_address_loses_packet bus id len buf rx desc :
  unseen rx = 0 → 0 ≤ n_last_used rx < 2 ^ 16 → 0 ≤ us_idx (n_used rx) < 2 ^ 16 → length (us_ring (n_used rx)) = 256%nat →
  n_descs rx !! Z.to_nat id = Some desc → bus (d_addr desc) = None →
  packets (device_put bus id len buf rx) = [packet_in (buffers rx) (id, len)].
Proof.
  intros Hu Hl Hr Hlen Hd Hb. pose proof (proj1 (wrap_sub_0 _ _ Hr Hl) Hu) as Hn.
  assert (Hu1 : unseen (device_put bus id len buf rx) = 1).
  { unfold unseen. cbn. rewrite Hn. unfold wrapping_add16. rewrite Zminus_mod_idemp_l.
    by replace (us_idx (n_used rx) + 1 - us_idx (n_used rx)) with 1 by lia. }
  assert (He : elem_at (device_put bus id len buf rx) 0 = (id, len)).
  { unfold elem_at. cbn [device_put n_used n_last_used us_ring]. rewrite Hn, Z.add_0_r, list_lookup_insert_eq; [done|]. rewrite Hlen.
    pose proof (Z.mod_pos_bound (us_idx (n_used rx)) QUEUE_SIZE ltac:(done)). unfold QUEUE_SIZE in *. lia. }
  unfold packets, pending. rewrite Hu1. change (seqZ 0 1) with [0]. cbn [fmap list_fmap]. rewrite He.
  cbn [device_put buffers]. rewrite Hd. unfold dma_write. by rewrite Hb.
Qed.
End NicInit.
