(* ===== verification/Bringup.v ===== *)
(** * Bringup: the two virtio drivers' initialisation

    storage/virtio_blk.rs [init] and net/virtio_net.rs [init] return and take a bounded number of frames.  [platform]
    is what they rely on of the specifications and of the memory of the machine; [small_queues] is what the network
    driver relies on beyond them: a card may have more than 256 entries, and then init panics. *)

From S2P Require Import Prelude Bytes FrameAlloc BlockCache Pci Vring VirtioBlk VirtioNet VirtioNetInit.

Module Bringup.
Import Frames Vring VirtioBlk VirtioNet NicInit.

(** The base of the I/O registers, as both drivers take it from BAR0. *)
Definition bar0 (d : Pci.PciDevice) : Z := default 0 (Pci.bars d !! 0%nat).
Definition io_base_of (d : Pci.PciDevice) : Z := Z.land (bar0 d) 0xFFFC.

(** I/O ranges are aligned to their size (PCI), which is at least 32 bytes for a virtio function; disks have fewer
    than 2^55 sectors; the heap holds the packet buffers and lies above the direct map; the direct map of [top] bytes of memory ends below the end
    of the address space, and page frame numbers fit in the queue address register. *)
Record platform (P : Type) `{!Ports P} (hhdm top : Z) (buf_ptr : Z → nat → option Z) : Prop := {
  pf_aligned : ∀ (p : P) d, d ∈ (Pci.pci_scan p).1 → Pci.vendor_id d = VIRTIO_PCI_VENDOR → Z.land (bar0 d) 1 ≠ 0 →
               io_base_of d mod 32 = 0;
  pf_capacity : ∀ io (p : P), io mod 32 = 0 →
                0 ≤ (in32 (io + 0x14) p).1 < 2 ^ 32 ∧ 0 ≤ (in32 (io + 0x18) p).1 < 2 ^ 23;
  pf_buffers : ∀ q i, (i < 256)%nat → ∃ ptr, buf_ptr q i = Some ptr ∧ hhdm ≤ ptr;
  pf_direct : 0 ≤ hhdm ∧ hhdm + top + 2 ^ 20 ≤ U64_MAX;
  pf_frames : top ≤ 2 ^ 44;
}.

(** No queue has more than 256 entries: a limit of the network driver. *)
Definition small_queues (P : Type) `{!Ports P} : Prop := ∀ port (p : P), 0 ≤ (in16 port p).1 ≤ 256.

(** ** Commands that return and take at most [n] frames *)
Section takes.
Context {P : Type} `{!Ports P} {Dev : Type} (top : Z).

Definition takes {A} (n : nat) (m : boot P Dev A) (Q : A → Prop) : Prop :=
  ∀ b a, bt_frames b = Some a → alloc_wf a → total_frames a * PAGE_SIZE ≤ top →
    ∃ r b' a', m b = Ret (r, b') ∧ bt_frames b' = Some a' ∧ alloc_wf a' ∧ total_frames a' = total_frames a ∧
      (size (free_set a) ≤ size (free_set a') + n)%nat ∧ ∀ x, r = Ok x → Q x.

Lemma takes_bind {A B} n k (m : boot P Dev A) (f : A → boot P Dev B) Q R :
  takes n m Q → (∀ x, Q x → takes k (f x) R) → takes (n + k) (cmd_bind m f) R.
Proof.
  intros Hm Hf b a Ha Hwf Ht. destruct (Hm b a Ha Hwf Ht) as (r & b1 & a1 & E & Ha1 & Hwf1 & Ht1 & Hs1 & Hq).
  unfold cmd_bind. rewrite E. destruct r as [x|e].
  - destruct (Hf x (Hq x eq_refl) b1 a1 Ha1 Hwf1) as (r & b2 & a2 & E2 & Ha2 & Hwf2 & Ht2 & Hs2 & Hr); [lia|].
    exists r, b2, a2. split; [done|]. do 2 (split; [done|]). split; [lia|]. split; [lia|done].
  - exists (Err e), b1, a1. split; [done|]. do 3 (split; [done|]). split; [lia|done].
Qed.

(** [m] that takes nothing, then the rest. *)
Lemma takes_then {A B} n (m : boot P Dev A) (f : A → boot P Dev B) Q R :
  takes 0 m Q → (∀ x, Q x → takes n (f x) R) → takes n (cmd_bind m f) R.
Proof. apply (takes_bind 0 n). Qed.

Lemma takes_weaken {A} n k (m : boot P Dev A) (Q R : A → Prop) :
  takes n m Q → (n ≤ k)%nat → (∀ x, Q x → R x) → takes k m R.
Proof.
  intros H Hle Hqr b a Ha Hwf Ht. destruct (H b a Ha Hwf Ht) as (r & b' & a' & E & ? & ? & ? & ? & Hq).
  exists r, b', a'. do 4 (split; [done|]). split; [lia|auto].
Qed.

(** Commands that leave the allocator alone. *)
Lemma takes_free {A} n (m : boot P Dev A) (Q : A → Prop) :
  (∀ b, ∃ r b', m b = Ret (r, b') ∧ bt_frames b' = bt_frames b ∧ ∀ x, r = Ok x → Q x) → takes n m Q.
Proof.
  intros H b a Ha Hwf Ht. destruct (H b) as (r & b' & E & Ef & Hq). exists r, b', a. split; [done|]. split; [by rewrite Ef|].
  do 2 (split; [done|]). split; [lia|done].
Qed.

Lemma takes_ret {A} n (x : A) (Q : A → Prop) : Q x → takes n (ret x : boot P Dev A) Q.
Proof. intros HQ. apply takes_free. intros b. exists (Ok x), b. split; [done|]. split; [done|]. by intros y [= <-]. Qed.

Lemma takes_throw {A} n (Q : A → Prop) : takes n (throw () : boot P Dev A) Q.
Proof. apply takes_free. intros b. by exists (Err ()), b. Qed.

Lemma takes_lift {A} (o : outcome A) (v : A) : o = Ret v → takes 0 (lift_outcome o : boot P Dev A) (λ x, x = v).
Proof. intros ->. apply takes_free. intros b. exists (Ok v), b. split; [done|]. split; [done|]. by intros y [= <-]. Qed.

Lemma takes_add64 x y : x + y ≤ U64_MAX → takes 0 (lift_outcome (checked_add64 x y) : boot P Dev Z) (λ z, z = x + y).
Proof. intros H. apply takes_lift. unfold checked_add64. by rewrite decide_True. Qed.

(** [let! b := get_state in let! _ := put_state (f b) in g]. *)
Lemma takes_update n (f : Boot P Dev → Boot P Dev) :
  (∀ b, bt_frames (f b) = bt_frames b) → takes n (cmd_bind get_state (λ b, put_state (f b))) (λ _, True).
Proof. intros Hf. apply takes_free. intros b. eexists _, _. split; [reflexivity|]. by split; [apply Hf|]. Qed.

Lemma takes_update_then {A} n (f : Boot P Dev → Boot P Dev) (g : () → boot P Dev A) Q :
  (∀ b, bt_frames (f b) = bt_frames b) → (∀ x, takes n (g x) Q) →
  takes n (cmd_bind get_state (λ b, cmd_bind (put_state (f b)) g)) Q.
Proof.
  intros Hf Hg b a Ha Hwf Ht. destruct (Hg () (f b) a) as (r & b' & a' & E & H); [by rewrite Hf|done|done|]. by exists r, b', a'.
Qed.

(** The registers of a device whose I/O range is aligned. *)
Lemma takes_write_port n out io off v :
  io + off ≤ U16_MAX → takes n (write_port out io off v) (λ _, True).
Proof.
  intros Hp. apply (takes_weaken 0 n _ (λ _, True)); [|lia|done]. unfold write_port. eapply (takes_then 0 _ _ (λ port, port = io + off)).
  - apply takes_lift. unfold checked_add16. by rewrite decide_True.
  - intros port _. by apply takes_update.
Qed.

Lemma takes_read_port (inp : Z → P → Z * P) io off (Q : Z → Prop) :
  io + off ≤ U16_MAX → (∀ p, Q (inp (io + off) p).1) → takes 0 (read_port inp io off) Q.
Proof.
  intros Hp HQ. unfold read_port. eapply (takes_then 0 _ _ (λ port, port = io + off)).
  - apply takes_lift. unfold checked_add16. by rewrite decide_True.
  - intros port ->. apply takes_free. intros b. unfold cmd_bind, get_state, put_state, ret. specialize (HQ (bt_ports b)).
    destruct (inp (io + off) (bt_ports b)) as [v p]. eexists _, _. split; [reflexivity|]. split; [done|]. by intros x [= <-].
Qed.

Lemma takes_read n (inp : Z → P → Z * P) io off : io + off ≤ U16_MAX → takes n (read_port (Dev := Dev) inp io off) (λ _, True).
Proof. intros Hp. apply (takes_weaken 0 _ _ (λ _, True)); [by apply takes_read_port|lia|done]. Qed.

(** A frame is below the top of memory. *)
Definition frame_below (f : Z) : Prop := 0 ≤ f ∧ f + PAGE_SIZE ≤ top.

Lemma takes_alloc_frame : takes 1 (alloc_frame (P := P) (Dev := Dev)) frame_below.
Proof.
  intros b a Ha Hwf Ht. unfold alloc_frame, cmd_bind, get_state, ok_or, put_state, lift_outcome. rewrite Ha.
  pose proof (allocate_frame_refines a Hwf) as Hal. destruct (allocate_frame a) as [[[f|] a1]|] eqn:E; [| |done].
  - destruct Hal as (Hwf1 & k & -> & Hk & Hfs & _). exists (Ok (k * PAGE_SIZE)). eexists _, a1. split; [reflexivity|]. split; [done|].
    split; [done|]. split; [by eapply allocate_frame_total|]. split.
    + rewrite Hfs, size_difference by set_solver. rewrite size_singleton. lia.
    + intros x [= <-]. apply elem_of_free_set in Hk as [Hk _]. unfold frame_below, PAGE_SIZE in *. lia.
  - destruct Hal as [-> _]. exists (Err ()). eexists _, a. split; [reflexivity|]. split; [done|]. do 2 (split; [done|]). split; [lia|done].
Qed.

Lemma takes_alloc_frames n : takes n (alloc_frames (P := P) (Dev := Dev) n) (λ _, True).
Proof.
  induction n as [|n IH]; [by apply takes_ret|]. eapply (takes_bind 1 n); [apply takes_alloc_frame|]. by intros f _.
Qed.

Lemma takes_zero_mem n hhdm virt len : takes n (zero_mem (P := P) (Dev := Dev) hhdm virt len) (λ _, True).
Proof. by apply takes_update. Qed.

Lemma takes_try {A} n (m : boot P Dev A) Q : takes n m Q → takes n (try_option m) (λ _, True).
Proof.
  intros H b a Ha Hwf Ht. destruct (H b a Ha Hwf Ht) as (r & b' & a' & E & ? & ? & ? & ? & _). unfold try_option. rewrite E.
  destruct r as [x|e]; eexists _, b', a'; (split; [reflexivity|]); done.
Qed.
End takes.

(** An aligned range leaves room for the registers. *)
Lemma aligned_port io off : 0 ≤ io ≤ U16_MAX → io mod 32 = 0 → 0 ≤ off < 32 → io + off ≤ U16_MAX.
Proof. unfold U16_MAX. intros Hio Ha Hoff. pose proof (Z.div_mod io 32 ltac:(lia)). lia. Qed.

Lemma io_base_range d : 0 ≤ io_base_of d ≤ U16_MAX.
Proof.
  unfold io_base_of. assert (Z.land (bar0 d) 0xFFFC = Z.land (bar0 d) 0xFFFC mod 2 ^ 16) as ->.
  { rewrite <- Z.land_ones by lia. by rewrite <- Z.land_assoc. }
  pose proof (Z.mod_pos_bound (Z.land (bar0 d) 0xFFFC) (2 ^ 16) ltac:(lia)). unfold U16_MAX. lia.
Qed.

(** Walks down a command that takes nothing up to its next allocation. *)
Ltac takes_free port :=
  repeat first
    [ apply takes_throw | by apply takes_ret
    | eapply takes_then; [apply takes_write_port; by apply port|intros _ _]
    | eapply takes_then; [apply (takes_read _ _ in8); by apply port|intros ? _]
    | eapply takes_then; [apply takes_zero_mem|intros _ _]
    | apply takes_update_then; [done|intros _]
    | by apply takes_update ].

Section drivers.
Context {P : Type} `{!Ports P} (hhdm top : Z) (buf_ptr : Z → nat → option Z) (Hpf : platform P hhdm top buf_ptr) (Hsmall : small_queues P).

(** The function that a driver found. *)
Definition usable (d : Pci.PciDevice) : Prop := Z.land (bar0 d) 1 ≠ 0 → io_base_of d mod 32 = 0.

Lemma found_device vendor device (p : P) d :
  (Pci.find_device vendor device p).1 = Some d → vendor = VIRTIO_PCI_VENDOR → usable d.
Proof.
  unfold Pci.find_device. destruct (Pci.pci_scan p) as [l p'] eqn:E. simpl. intros [Hin Hb]%List.find_some -> Hbar.
  apply andb_true_iff in Hb as [Hv%Z.eqb_eq _]. apply (pf_aligned _ _ _ _ Hpf p); [|done|done]. rewrite E. by apply list_elem_of_In.
Qed.

Lemma found_by_vendor (p : P) f d :
  List.find f (Pci.find_by_vendor VIRTIO_PCI_VENDOR p).1 = Some d → usable d.
Proof.
  unfold Pci.find_by_vendor. destruct (Pci.pci_scan p) as [l p'] eqn:E. simpl. intros [Hin _]%List.find_some Hbar.
  apply list_elem_of_In, list_elem_of_filter in Hin as [Hv%Z.eqb_eq Hin]. apply (pf_aligned _ _ _ _ Hpf p); [by rewrite E|done|done].
Qed.

(** *** storage/virtio_blk.rs *)
Lemma takes_find_blk : takes top 0 (find_blk (P := P)) usable.
Proof.
  apply takes_free. intros b. unfold find_blk, cmd_bind, get_state, put_state, ret, ok_or.
  pose proof (found_device VIRTIO_PCI_VENDOR VIRTIO_BLK_DEVICE_LEGACY (bt_ports b)) as Hd.
  destruct (Pci.find_device _ _ _) as [[dev|] p]; [eexists _, _; split; [reflexivity|]; split; [done|]; intros x [= <-]; by apply Hd|].
  pose proof (found_by_vendor p (λ d, Pci.class_code d =? 0x01)) as Hv. destruct (Pci.find_by_vendor _ p) as [l p']. simpl in Hv.
  destruct (List.find _ l) as [dev|]; eexists _, _; (split; [reflexivity|]; split; [done|]); [intros x [= <-]; by apply Hv|done].
Qed.

Lemma takes_setup_virtqueue io idx :
  (∀ off, 0 ≤ off < 32 → io + off ≤ U16_MAX) →
  takes top 3 (setup_virtqueue (P := P) (Dev := VirtioBlkDevice) hhdm io idx) (λ _, True).
Proof.
  intros Hport. destruct (pf_direct _ _ _ _ Hpf) as [H0 Htop]. unfold setup_virtqueue. takes_free Hport.
  eapply takes_then; [apply takes_read; by apply Hport|]. intros size _. case_match; [takes_free Hport|].
  eapply (takes_bind _ 1 2); [apply takes_alloc_frame|]. intros phys [Hp0 Hp1]. unfold PAGE_SIZE in Hp1.
  change (Z.to_nat (num_pages - 1)) with 1%nat. eapply (takes_bind _ 1 1); [apply takes_alloc_frames|]. intros _ _.
  eapply takes_then; [apply takes_add64; lia|]. intros virt ->. takes_free Hport.
  eapply takes_then; [apply takes_add64; unfold desc_size, VirtioBlk.QUEUE_SIZE; lia|]. intros av _.
  eapply takes_then; [apply takes_add64; change used_offset with 4096; lia|]. intros us _. takes_free Hport.
  eapply (takes_bind _ 1 0); [apply takes_alloc_frame|]. intros dma [Hd0 Hd1]. unfold PAGE_SIZE in Hd1.
  eapply takes_then; [apply takes_add64; lia|]. intros dv ->. takes_free Hport.
Qed.

(** The capacity in bytes fits in 64 bits. *)
Lemma capacity_fits lo hi : 0 ≤ lo < 2 ^ 32 → 0 ≤ hi < 2 ^ 23 → Z.lor lo (Z.shiftl hi 32) * 512 ≤ U64_MAX.
Proof.
  intros Hlo Hhi. rewrite Z.lor_comm, Pci.shift_disjoint by lia. unfold U64_MAX. lia.
Qed.

Lemma takes_init_blk : takes top 3 (init_blk (P := P) hhdm) (λ _, True).
Proof.
  unfold init_blk. eapply takes_then; [apply takes_find_blk|]. intros dev Hdev. fold (bar0 dev). fold (io_base_of dev).
  destruct (Z.eqb_spec (Z.land (bar0 dev) 1) 0) as [|Hbar]; [apply takes_throw|]. specialize (Hdev Hbar).
  assert (Hport : ∀ off, 0 ≤ off < 32 → io_base_of dev + off ≤ U16_MAX) by (intros off Hoff; apply aligned_port; [apply io_base_range|done|done]).
  takes_free Hport. eapply takes_then; [apply takes_read; by apply Hport|]. intros features _. takes_free Hport. eapply takes_then.
  { apply (takes_read_port _ _ _ _ (λ v, 0 ≤ v < 2 ^ 32)); [by apply Hport|]. intros p. by apply (pf_capacity _ _ _ _ Hpf _ p). }
  intros lo Hlo. eapply takes_then.
  { apply (takes_read_port _ _ _ _ (λ v, 0 ≤ v < 2 ^ 23)); [by apply Hport|]. intros p. by apply (pf_capacity _ _ _ _ Hpf _ p). }
  intros hi Hhi. eapply takes_then.
  { apply takes_lift. unfold checked_mul64. rewrite decide_True by by apply capacity_fits. reflexivity. }
  intros _ _. eapply (takes_bind _ 3 0); [by apply takes_setup_virtqueue|]. intros [[q dp] dv] _. takes_free Hport.
Qed.

(** *** net/virtio_net.rs *)
Lemma takes_find_net : takes top 0 (find_net (P := P)) usable.
Proof.
  apply takes_free. intros b. unfold find_net, cmd_bind, get_state, put_state, ret, throw.
  pose proof (found_device VIRTIO_PCI_VENDOR VIRTIO_NET_DEVICE_LEGACY (bt_ports b)) as Hd.
  destruct (Pci.find_device _ _ _) as [[dev|] p]; [eexists _, _; split; [reflexivity|]; split; [done|]; intros x [= <-]; by apply Hd|].
  pose proof (found_by_vendor p (λ d, (Pci.subclass d =? 0x00) && (Pci.class_code d =? 0x02))) as Hv.
  destruct (Pci.find_by_vendor _ p) as [l p']. simpl in Hv.
  destruct (List.find _ l) as [dev|]; eexists _, _; (split; [reflexivity|]; split; [done|]); [intros x [= <-]; by apply Hv|done].
Qed.

Lemma fill_buffers_returns n i q is_rx ds ring bufs :
  (i + n ≤ 256)%nat → length ds = 256%nat → ∃ v, fill_buffers hhdm buf_ptr n i q is_rx ds ring bufs = Ret v.
Proof.
  revert i ds ring bufs. induction n as [|n IH]; intros i ds ring bufs Hn Hl; cbn [fill_buffers]; [by eexists|].
  destruct (pf_buffers _ _ _ _ Hpf q i) as (ptr & -> & Hp); [lia|]. unfold checked_sub64. rewrite decide_True by done.
  cbn [outcome_bind]. rewrite decide_True by lia. apply IH; [lia|by rewrite length_insert].
Qed.

(** A queue of at most 256 entries takes three pages. *)
Lemma net_pages n : 0 ≤ n ≤ 256 → (Z.to_nat (net_num_pages n - 1) ≤ 2)%nat.
Proof.
  intros Hn. unfold net_num_pages, net_desc_size, net_avail_size, net_used_size.
  assert ((16 * n + (6 + 2 * n) + (6 + 8 * n) + 4096 + 4095) / 4096 < 4) by (apply Z.div_lt_upper_bound; lia). lia.
Qed.

Lemma net_offset n : 0 ≤ n ≤ 256 → net_used_offset n ≤ 2 ^ 16.
Proof.
  intros Hn. unfold net_used_offset, net_desc_size, net_avail_size.
  assert ((16 * n + (6 + 2 * n) + 4095) / 4096 < 3) by (apply Z.div_lt_upper_bound; lia). lia.
Qed.

Lemma takes_net_queue io idx is_rx :
  (∀ off, 0 ≤ off < 32 → io + off ≤ U16_MAX) → takes top 3 (net_setup_virtqueue (P := P) hhdm buf_ptr io idx is_rx) (λ _, True).
Proof.
  intros Hport. destruct (pf_direct _ _ _ _ Hpf) as [H0 Htop]. unfold net_setup_virtqueue. takes_free Hport. eapply takes_then.
  { apply (takes_read_port _ _ _ _ (λ v, 0 ≤ v ≤ 256)); [by apply Hport|]. intros p. apply Hsmall. }
  intros size Hs. cbv beta in Hs. case_match; [takes_free Hport|].
  eapply (takes_bind _ 1 2); [apply takes_alloc_frame|]. intros phys [Hp0 Hp1]. unfold PAGE_SIZE in Hp1.
  eapply (takes_bind _ 2 0); [eapply takes_weaken; [apply takes_alloc_frames|by apply net_pages|done]|]. intros _ _.
  eapply takes_then; [apply takes_add64; lia|]. intros virt ->. takes_free Hport.
  eapply takes_then; [apply takes_add64; unfold net_desc_size; lia|]. intros _ _.
  pose proof (net_offset size Hs). eapply takes_then; [apply takes_add64; lia|]. intros _ _. takes_free Hport.
  destruct (fill_buffers_returns (Z.to_nat size) 0 idx is_rx zero_descs zero_ring []) as [[[ds ring] bufs] E]; [lia|done|].
  eapply takes_then; [apply takes_lift, E|]. intros x ->. eapply takes_then; [|intros _ _; takes_free Hport].
  destruct is_rx; [apply takes_write_port; by apply Hport|by apply takes_ret].
Qed.

Lemma takes_read_mac k io i :
  (∀ off, 0 ≤ off < 32 → io + off ≤ U16_MAX) → 0 ≤ i → i + Z.of_nat k ≤ 6 → takes top 0 (read_mac (P := P) k io i) (λ _, True).
Proof.
  intros Hport. revert i. induction k as [|k IH]; intros i Hi Hk; cbn [read_mac]; [by apply takes_ret|].
  eapply takes_then; [apply takes_read, Hport; unfold VIRTIO_NET_MAC; lia|]. intros v _.
  eapply takes_then; [apply IH; lia|]. intros vs _. by apply takes_ret.
Qed.

Lemma takes_net_init : takes top 6 (net_init (P := P) hhdm buf_ptr) (λ _, True).
Proof.
  unfold net_init. eapply takes_then; [apply takes_find_net|]. intros dev Hdev. fold (bar0 dev). fold (io_base_of dev).
  destruct (Z.eqb_spec (Z.land (bar0 dev) 1) 0) as [|Hbar]; [apply takes_throw|]. specialize (Hdev Hbar).
  assert (Hport : ∀ off, 0 ≤ off < 32 → io_base_of dev + off ≤ U16_MAX) by (intros off Hoff; apply aligned_port; [apply io_base_range|done|done]).
  takes_free Hport. eapply takes_then; [apply takes_read; by apply Hport|]. intros features _. takes_free Hport.
  eapply takes_then; [apply takes_read_mac; [done|lia|lia]|]. intros mac _.
  eapply (takes_bind _ 3 3); [by eapply takes_try, takes_net_queue|]. intros rx _.
  eapply (takes_bind _ 3 0); [by eapply takes_try, takes_net_queue|]. intros tx _. takes_free Hport.
Qed.
End drivers.

(** ** A failed initialisation leaves DEVICE and DEVICE_FOUND alone *)
Section device.
Context {P : Type} `{!Ports P} (hhdm : Z).
Local Abbreviation boots := (boot P VirtioBlkDevice).

Definition keeps_device {A} (m : boots A) : Prop := ∀ b r b', m b = Ret (r, b') → bt_dev b' = bt_dev b ∧ bt_found b' = bt_found b.
Definition fails_clean {A} (m : boots A) : Prop := ∀ b e b', m b = Ret (Err e, b') → bt_dev b' = bt_dev b ∧ bt_found b' = bt_found b.

Lemma keeps_fails {A} (m : boots A) : keeps_device m → fails_clean m.
Proof. intros H b e b' E. by eapply H. Qed.

Lemma keeps_bind {A B} (m : boots A) (f : A → boots B) :
  keeps_device m → (∀ x, keeps_device (f x)) → keeps_device (cmd_bind m f).
Proof.
  intros Hm Hf b r b' E. unfold cmd_bind in E. destruct (m b) as [[[x|e] b1]|] eqn:Em; [| |done].
  - destruct (Hm _ _ _ Em) as [<- <-]. by eapply Hf.
  - injection E as <- <-. by eapply Hm.
Qed.

Lemma fails_bind {A B} (m : boots A) (f : A → boots B) :
  keeps_device m → (∀ x, fails_clean (f x)) → fails_clean (cmd_bind m f).
Proof.
  intros Hm Hf b r b' E. unfold cmd_bind in E. destruct (m b) as [[[x|e] b1]|] eqn:Em; [| |done].
  - destruct (Hm _ _ _ Em) as [<- <-]. by eapply Hf.
  - injection E as <- <-. by eapply Hm.
Qed.

Lemma keeps_ret {A} (x : A) : keeps_device (ret x).
Proof. intros b r b' E. by injection E as _ <-. Qed.

Lemma keeps_throw {A} : keeps_device (throw () : boots A).
Proof. intros b r b' E. by injection E as _ <-. Qed.

Lemma keeps_lift {A} (o : outcome A) : keeps_device (lift_outcome o).
Proof. intros b r b' E. unfold lift_outcome in E. destruct o; by simplify_eq. Qed.

Lemma keeps_update (f : Boot P VirtioBlkDevice → Boot P VirtioBlkDevice) :
  (∀ b, bt_dev (f b) = bt_dev b ∧ bt_found (f b) = bt_found b) → keeps_device (cmd_bind get_state (λ b, put_state (f b))).
Proof. intros Hf b r b' E. injection E as _ <-. apply Hf. Qed.

Lemma keeps_write_port out io off v : keeps_device (write_port out io off v).
Proof. apply keeps_bind; [apply keeps_lift|]. intros port. by apply keeps_update. Qed.

Lemma keeps_read_port inp io off : keeps_device (read_port inp io off).
Proof.
  apply keeps_bind; [apply keeps_lift|]. intros port b r b' E. unfold cmd_bind, get_state, put_state, ret in E.
  destruct (inp port (bt_ports b)) as [v p]. by simplify_eq.
Qed.

Lemma keeps_alloc_frame : keeps_device alloc_frame.
Proof.
  intros b r b' E. unfold alloc_frame, cmd_bind, get_state, ok_or, put_state, lift_outcome in E. destruct (bt_frames b); [|by simplify_eq].
  destruct (allocate_frame _) as [[f a1]|]; [|done]. destruct f; by simplify_eq.
Qed.

Lemma keeps_alloc_frames n : keeps_device (alloc_frames n).
Proof. induction n as [|n IH]; [apply keeps_ret|]. apply keeps_bind; [apply keeps_alloc_frame|done]. Qed.

Lemma keeps_find_blk : keeps_device find_blk.
Proof.
  intros b r b' E. unfold find_blk, cmd_bind, get_state, put_state, ret, ok_or in E.
  destruct (Pci.find_device _ _ _) as [[dev|] p]; [by simplify_eq|]. destruct (Pci.find_by_vendor _ p) as [l p'].
  destruct (List.find _ l); by simplify_eq.
Qed.

Ltac keeps_device :=
  repeat first
    [ apply keeps_ret | apply keeps_throw | apply keeps_lift | apply keeps_write_port | apply keeps_read_port | apply keeps_alloc_frame
    | apply keeps_alloc_frames | by apply keeps_update | apply keeps_bind; [|intros ?] ].

Lemma init_blk_fails b e b' : init_blk hhdm b = Ret (Err e, b') → bt_dev b' = bt_dev b ∧ bt_found b' = bt_found b.
Proof.
  assert (H : fails_clean (init_blk hhdm)); [|apply H]. unfold init_blk. apply fails_bind; [apply keeps_find_blk|]. intros dev.
  case_match; [apply keeps_fails, keeps_throw|].
  intros b0 e0 b1 E. unfold cmd_bind at 1, get_state at 1 in E. cbv beta iota in E.
  unfold cmd_bind at 1, put_state at 1 in E. cbv beta iota in E.
  revert E. set (b2 := VirtioBlk.set_ports b0 _). change (bt_dev b0) with (bt_dev b2). change (bt_found b0) with (bt_found b2). clearbody b2. revert b2 e0 b1.
  match goal with |- ∀ b2 e0 b1, ?m b2 = _ → _ => change (fails_clean m) end.
  assert (Hq : ∀ io, keeps_device (setup_virtqueue hhdm io REQUEST_QUEUE)) by (intros io; unfold setup_virtqueue; keeps_device; case_match; keeps_device).
  do 9 (apply fails_bind; [keeps_device|intros ?]). apply fails_bind; [apply Hq|]. intros [[q dp] dv].
  do 2 (apply fails_bind; [keeps_device|intros ?]). intros b3 e3 b4 E. done.
Qed.

(** ** The capacity is what the device's registers say *)

(** The functions that the block driver may pick. *)
Definition picked (d : Pci.PciDevice) : Prop :=
  Pci.vendor_id d = VIRTIO_PCI_VENDOR ∧ (Pci.device_id d = VIRTIO_BLK_DEVICE_LEGACY ∨ Pci.class_code d = 0x01).

(** Sectors, from the two halves of the register at 0x14. *)
Definition capacity_read (d : Pci.PciDevice) (p1 p2 : P) : Z :=
  Z.lor (in32 (io_base_of d + VIRTIO_BLK_CAPACITY) p1).1 (Z.shiftl (in32 (io_base_of d + (VIRTIO_BLK_CAPACITY + 4)) p2).1 32).

Lemma gives_find_blk : gives (find_blk (P := P)) (λ d _, ∃ p : P, d ∈ (Pci.pci_scan p).1 ∧ picked d).
Proof.
  intros b d b' E. unfold find_blk, cmd_bind, get_state, put_state, ret, ok_or, Pci.find_device, Pci.find_by_vendor in E.
  destruct (Pci.pci_scan (bt_ports b)) as [l p1] eqn:E1. destruct (List.find _ l) as [dev|] eqn:Ef.
  - injection E as <- _. apply List.find_some in Ef as [Hin Hb]. apply andb_true_iff in Hb as [Hv%Z.eqb_eq Hi%Z.eqb_eq].
    exists (bt_ports b). rewrite E1. split; [by apply list_elem_of_In|]. split; [done|by left].
  - destruct (Pci.pci_scan p1) as [l2 p2] eqn:E2. destruct (List.find _ (filter _ l2)) as [dev|] eqn:Eg; [|done]. injection E as <- _.
    apply List.find_some in Eg as [Hin Hc%Z.eqb_eq]. apply list_elem_of_In, list_elem_of_filter in Hin as [Hv%Z.eqb_eq Hin].
    exists p1. rewrite E2. split; [done|]. split; [done|by right].
Qed.

Lemma gives_read inp io off : gives (read_port (P := P) (Dev := VirtioBlkDevice) inp io off) (λ v _, ∃ p : P, v = (inp (io + off) p).1).
Proof.
  intros b v b' E. unfold read_port, cmd_bind, lift_outcome, get_state, put_state, ret, checked_add16 in E.
  destruct (decide _); [|done]. destruct (inp (io + off) (bt_ports b)) as [w p] eqn:Ei. injection E as <- _. exists (bt_ports b). by rewrite Ei.
Qed.

Lemma init_blk_capacity b b' :
  init_blk hhdm b = Ret (Ok (), b') →
  ∃ (p : P) d p1 p2, d ∈ (Pci.pci_scan p).1 ∧ picked d ∧ Z.land (bar0 d) 1 ≠ 0 ∧ capacity_blocks (bt_dev b') = capacity_read d p1 p2.
Proof.
  assert (H : gives (init_blk hhdm) (λ _ b', ∃ (p : P) d p1 p2, d ∈ (Pci.pci_scan p).1 ∧ picked d ∧ Z.land (bar0 d) 1 ≠ 0 ∧
    capacity_blocks (bt_dev b') = capacity_read d p1 p2)); [|apply H].
  unfold init_blk. eapply gives_bind; [apply gives_find_blk|]. intros dev (p & Hin & Hp). fold (bar0 dev). fold (io_base_of dev).
  destruct (Z.eqb_spec (Z.land (bar0 dev) 1) 0) as [|Hbar]; [done|]. cbv zeta. do 8 (apply gives_then; intros ?).
  eapply gives_bind; [apply gives_read|]. intros lo [p1 ->]. eapply gives_bind; [apply gives_read|]. intros hi [p2 ->].
  apply gives_then. intros _. apply gives_then. intros [[q dp] dv]. do 3 (apply gives_then; intros ?).
  intros b1 [] b2 [= <-]. by exists p, dev, p1, p2.
Qed.
End device.
End Bringup.
