(* ===== verification/Apic.v ===== *)
(** * Apic: apic.rs, the local APIC and its timer

    The writes to the interrupt controllers in the order of [_start]: the legacy controllers masked, the APIC's
    page mapped, the APIC enabled and its timer started.  The device is memory mapped, so the order and
    the physical addresses of the writes are what the code has to get right. *)

From S2P Require Import Prelude Bytes Capability FrameAlloc Task Paging Timer Pci Console.

Module Apic.
Import Frames Tasks Paging.

Definition APIC_BASE_MSR : Z := 0x1B.
Definition APIC_SPURIOUS_VEC : Z := 0x0F0.
Definition APIC_TIMER_LVT : Z := 0x320.
Definition APIC_TIMER_INIT_COUNT : Z := 0x380.
Definition APIC_TIMER_DIVIDE : Z := 0x3E0.
Definition APIC_EOI : Z := 0x0B0.

Section apic.
Context {P PT : Type} `{!Ports P, !Mapper PT}.

(** The ports, the page tables, the frame allocator ([_start] has initialised it), APIC_VIRT_BASE and the
    volatile writes made, by virtual address. *)
Record ApicEnv : Type := mkApic {
  ap_ports : P;
  ap_pt : PT;
  ap_frames : BitmapFrameAllocator;
  ap_base : Z;
  ap_writes : list (Z * Z);
}.

Definition disable_pic (env : ApicEnv) : ApicEnv :=
  mkApic (out8 0xA1 0xFF (out8 0x21 0xFF (ap_ports env))) (ap_pt env) (ap_frames env) (ap_base env) (ap_writes env).

(** [rdmsr] gives the two halves. *)
Definition read_apic_base_phys (msr : Z → Z) : Z :=
  let low := msr APIC_BASE_MSR mod 2 ^ 32 in
  let high := msr APIC_BASE_MSR / 2 ^ 32 in
  Z.land (Z.lor (Z.shiftl high 32) low) 0xFFFFFFFFFFFFF000.

Definition write_reg (offset value : Z) (env : ApicEnv) : outcome ApicEnv :=
  let? ptr := checked_add64 (ap_base env) offset in
  Ret (mkApic (ap_ports env) (ap_pt env) (ap_frames env) (ap_base env) (ap_writes env ++ [(ptr, value)])).

Definition APIC_FLAGS : Z := Z.lor (Z.lor (Z.lor PRESENT WRITABLE) NO_EXECUTE) NO_CACHE.

(** A failure of [map_to] is ignored. *)
Definition init (msr : Z → Z) (hhdm_offset : Z) (env : ApicEnv) : outcome ApicEnv :=
  let apic_phys := read_apic_base_phys msr in
  let? apic_virt := checked_add64 hhdm_offset apic_phys in
  let? va := virt_addr apic_virt in
  let page := containing_page va in
  let? pa := phys_addr apic_phys in
  let frame := containing_page pa in
  let '(pt, frames) := match map_to (ap_pt env) page frame APIC_FLAGS (ap_frames env) with
                       | Some r => r
                       | None => (ap_pt env, ap_frames env)
                       end in
  write_reg APIC_SPURIOUS_VEC 0x1FF (mkApic (ap_ports env) pt frames apic_virt (ap_writes env)).

Definition configure_timer (vector interval : Z) (env : ApicEnv) : outcome ApicEnv :=
  let? env := write_reg APIC_TIMER_DIVIDE 0x03 env in
  let? env := write_reg APIC_TIMER_LVT (Z.lor (Z.shiftl 1 17) vector) env in
  write_reg APIC_TIMER_INIT_COUNT interval env.

Definition eoi (env : ApicEnv) : outcome ApicEnv := write_reg APIC_EOI 0 env.

(** "Initialize APIC and timer" of [_start]. *)
Definition start_timer (msr : Z → Z) (hhdm_offset : Z) (env : ApicEnv) : outcome ApicEnv :=
  let? env := init msr hhdm_offset (disable_pic env) in
  configure_timer Console.TIMER_VECTOR 0x20000 env.

(** The physical addresses written. *)
Definition phys_write (pt : PT) (w : Z * Z) : option (Z * Z) :=
  (λ frame, (frame + w.1 mod PAGE_SIZE, w.2)) <$> translate pt (containing_page w.1).

Definition phys_writes (pt : PT) (ws : list (Z * Z)) : list (option (Z * Z)) := phys_write pt <$> ws.
End apic.
Arguments ApicEnv : clear implicits.

Section apic_ok.
Context {P PT : Type} `{!Ports P, !Mapper PT, !MapperLaws PT, !MapperProgress PT}.

(** Where the APIC's registers are when the direct map starts at a page boundary. *)
Record apic_place (msr : Z → Z) (hhdm_offset : Z) : Prop := {
  place_msr : 0 ≤ msr APIC_BASE_MSR < 2 ^ 52;
  place_hhdm : 0 ≤ hhdm_offset ∧ hhdm_offset mod PAGE_SIZE = 0;
  place_fits : hhdm_offset + read_apic_base_phys msr + PAGE_SIZE ≤ U64_MAX;
  place_canonical : canonical (hhdm_offset + read_apic_base_phys msr);
}.

(** Clearing the low twelve bits. *)
Lemma page_mask v : 0 ≤ v < 2 ^ 64 → Z.land v 0xFFFFFFFFFFFFF000 = v / PAGE_SIZE * PAGE_SIZE.
Proof.
  intros Hv. change 0xFFFFFFFFFFFFF000 with (Z.shiftl (Z.ones 52) 12). change PAGE_SIZE with (2 ^ 12).
  rewrite <-Z.shiftr_div_pow2, <-Z.shiftl_mul_pow2 by lia. apply Z.bits_inj'. intros n Hn. rewrite Z.land_spec.
  destruct (decide (n < 12)) as [Hlow|Hhigh]; [rewrite !Z.shiftl_spec_low by lia; apply andb_false_r|].
  rewrite !Z.shiftl_spec, Z.shiftr_spec by lia. replace (n - 12 + 12) with n by lia.
  destruct (decide (n < 64)) as [H|H]; [rewrite Z.ones_spec_low by lia; apply andb_true_r|].
  rewrite <-(Z.mod_small v (2 ^ 64)) at 1 2 by done. by rewrite Z.mod_pow2_bits_high by lia.
Qed.

Lemma apic_base_phys msr :
  0 ≤ msr APIC_BASE_MSR < 2 ^ 52 → read_apic_base_phys msr = msr APIC_BASE_MSR / PAGE_SIZE * PAGE_SIZE.
Proof.
  unfold read_apic_base_phys. intros H. set (v := msr APIC_BASE_MSR) in *.
  rewrite Pci.shift_disjoint; [|lia|apply Z.mod_pos_bound; lia].
  rewrite (Z.mul_comm (v / 2 ^ 32)), <-Z.div_mod by lia. apply page_mask. lia.
Qed.

(** The page of an address in the APIC's page. *)
Lemma place_page msr hhdm off :
  apic_place msr hhdm → 0 ≤ off < PAGE_SIZE →
  containing_page (hhdm + read_apic_base_phys msr + off) = hhdm + read_apic_base_phys msr ∧
  (hhdm + read_apic_base_phys msr + off) mod PAGE_SIZE = off.
Proof.
  intros [Hmsr [_ Hh] _ _] Hoff. rewrite (apic_base_phys msr Hmsr). unfold containing_page, PAGE_SIZE in *.
  set (q := msr APIC_BASE_MSR / 4096). apply Z.div_exact in Hh; [|done]. set (h := hhdm / 4096) in *. rewrite Hh.
  replace (4096 * h + q * 4096 + off) with (off + (h + q) * 4096) by lia.
  rewrite Z.div_add, Z.mod_add, (Z.div_small off), (Z.mod_small off) by lia. lia.
Qed.

Lemma phys_write_place msr hhdm pt off v :
  apic_place msr hhdm → 0 ≤ off < PAGE_SIZE →
  translate pt (hhdm + read_apic_base_phys msr) = Some (read_apic_base_phys msr) →
  phys_write pt (hhdm + read_apic_base_phys msr + off, v) = Some (read_apic_base_phys msr + off, v).
Proof.
  intros Hp Hoff Ht. unfold phys_write. simpl. destruct (place_page msr hhdm off Hp Hoff) as [-> ->]. by rewrite Ht.
Qed.

Lemma write_reg_place msr hhdm off v (env : ApicEnv P PT) :
  apic_place msr hhdm → 0 ≤ off < PAGE_SIZE → ap_base env = hhdm + read_apic_base_phys msr →
  write_reg off v env = Ret (mkApic (ap_ports env) (ap_pt env) (ap_frames env) (ap_base env)
                               (ap_writes env ++ [(hhdm + read_apic_base_phys msr + off, v)])).
Proof.
  intros [_ _ Hf _] Hoff Hb. unfold write_reg, checked_add64. rewrite Hb, decide_True by lia. done.
Qed.

(** What [init] leaves: the registers' page mapped to the APIC, the others as they were. *)
Lemma init_spec msr hhdm (env : ApicEnv P PT) :
  let phys := read_apic_base_phys msr in
  apic_place msr hhdm →
  (translate (ap_pt env) (hhdm + phys) = Some phys ∨
   translate (ap_pt env) (hhdm + phys) = None ∧ alloc_wf (ap_frames env) ∧ (3 ≤ size (free_set (ap_frames env)))%nat) →
  ∃ pt a, init msr hhdm env = Ret (mkApic (ap_ports env) pt a (hhdm + phys) (ap_writes env ++ [(hhdm + phys + APIC_SPURIOUS_VEC, 0x1FF)])) ∧
    (∀ p, translate pt p = if decide (p = hhdm + phys) then Some phys else translate (ap_pt env) p) ∧
    (∀ p, page_flags pt p = if decide (p = hhdm + phys ∧ translate (ap_pt env) p = None) then Some APIC_FLAGS
                            else page_flags (ap_pt env) p) ∧
    (alloc_wf (ap_frames env) → alloc_wf a ∧ (size (free_set (ap_frames env)) ≤ size (free_set a) + 3)%nat).
Proof.
  intros phys Hp Hmap. unfold init. fold phys.
  assert (Hphys : 0 ≤ phys < 2 ^ 52 ∧ containing_page phys = phys).
  { unfold phys. destruct Hp as [Hmsr _ _ _]. rewrite (apic_base_phys msr Hmsr). unfold containing_page, PAGE_SIZE.
    rewrite Z.div_mul by lia. split; [|done]. split; [apply Z.mul_nonneg_nonneg; [apply Z.div_pos; lia|lia]|].
    pose proof (Z.mul_div_le (msr APIC_BASE_MSR) 4096). lia. }
  destruct Hphys as [Hr Hcp]. destruct (place_page msr hhdm 0 Hp) as [Hpage _]; [unfold PAGE_SIZE; lia|].
  rewrite Z.add_0_r in Hpage. fold phys in Hpage. pose proof (place_fits _ _ Hp) as Hfit. pose proof (place_canonical _ _ Hp) as Hcan.
  fold phys in Hfit, Hcan. unfold checked_add64 at 1. rewrite decide_True by (unfold PAGE_SIZE in Hfit; lia). cbn [outcome_bind].
  unfold virt_addr. rewrite decide_True by done. cbn [outcome_bind]. unfold phys_addr. rewrite decide_True by (unfold PHYS_LIMIT; lia). cbn [outcome_bind].
  rewrite Hpage, Hcp. destruct Hmap as [Hm|(Hm & Hwf & Hsize)].
  - rewrite (map_to_mapped _ _ _ _ _ (mk_is_Some _ _ Hm)). exists (ap_pt env), (ap_frames env).
    rewrite (write_reg_place msr hhdm); [|done|unfold APIC_SPURIOUS_VEC, PAGE_SIZE; lia|done]. split; [done|].
    split; [intros p; case_decide; congruence|]. split; [intros p; by rewrite decide_False by (intros [-> ?]; congruence)|].
    intros Hwf. split; [done|lia].
  - destruct (map_to_progress _ _ phys APIC_FLAGS _ Hm Hwf Hsize) as (pt & a & n & fs & E & Hn & Htake). rewrite E. exists pt, a.
    rewrite (write_reg_place msr hhdm); [|done|unfold APIC_SPURIOUS_VEC, PAGE_SIZE; lia|done]. split; [done|].
    split; [by destruct (map_to_Some _ _ _ _ _ _ _ E) as [Ht _]|]. split.
    { intros p. rewrite (map_to_flags _ _ _ _ _ _ _ E). repeat case_decide; naive_solver. }
    intros _.
    destruct (take_frames_spec n _ fs a Hwf Htake) as (Hwf' & _ & _ & Hsz). split; [done|lia].
Qed.
End apic_ok.

Lemma start_timer_spec {P PT : Type} `{!Ports P, !Mapper PT, !MapperLaws PT, !MapperProgress PT} (msr : Z → Z) (hhdm_offset : Z)
    (env : ApicEnv P PT) :
  let phys := read_apic_base_phys msr in
  apic_place msr hhdm_offset → ap_writes env = [] →
  (translate (ap_pt env) (hhdm_offset + phys) = Some phys ∨
   translate (ap_pt env) (hhdm_offset + phys) = None ∧ alloc_wf (ap_frames env) ∧ (3 ≤ size (free_set (ap_frames env)))%nat) →
  ∃ env' lvt, start_timer msr hhdm_offset env = Ret env' ∧
    ap_ports env' = out8 0xA1 0xFF (out8 0x21 0xFF (ap_ports env)) ∧
    phys_writes (ap_pt env') (ap_writes env') =
      Some <$> [(phys + 0x0F0, 0x1FF); (phys + 0x3E0, 3); (phys + 0x320, lvt); (phys + 0x380, 0x20000)] ∧
    (Z.testbit lvt 17 = true ∧ Z.testbit lvt 16 = false ∧ Console.IDT !! (lvt mod 256) = Some (Console.TimerInterrupt, None)) ∧
    (∀ p, p ≠ hhdm_offset + phys → translate (ap_pt env') p = translate (ap_pt env) p) ∧
    (∀ p, page_flags (ap_pt env') p = if decide (p = hhdm_offset + phys ∧ translate (ap_pt env) p = None) then Some APIC_FLAGS
                                      else page_flags (ap_pt env) p) ∧
    translate (ap_pt env') (hhdm_offset + phys) = Some phys ∧
    (alloc_wf (ap_frames env) → alloc_wf (ap_frames env') ∧ (size (free_set (ap_frames env)) ≤ size (free_set (ap_frames env')) + 3)%nat) ∧
    ∃ env'', eoi env' = Ret env'' ∧ ap_pt env'' = ap_pt env' ∧
      phys_writes (ap_pt env'') (ap_writes env'') = phys_writes (ap_pt env') (ap_writes env') ++ [Some (phys + 0x0B0, 0)].
Proof.
  intros phys Hp Hw Hmap. unfold start_timer.
  destruct (init_spec msr hhdm_offset (disable_pic env) Hp Hmap) as (pt & a & -> & Ht & Hfl & Hfr). cbn [outcome_bind].
  fold phys in Ht |- *. simpl ap_writes. rewrite Hw. unfold configure_timer.
  assert (Hm : translate pt (hhdm_offset + phys) = Some phys) by (rewrite Ht; by rewrite decide_True).
  assert (Hoff : Forall (λ off, 0 ≤ off < PAGE_SIZE) [0x0F0; 0x3E0; 0x320; 0x380; 0x0B0])
    by (repeat constructor; unfold PAGE_SIZE; lia).
  rewrite !Forall_cons in Hoff. destruct Hoff as (Ho1 & Ho2 & Ho3 & Ho4 & Ho5 & _).
  rewrite (write_reg_place msr hhdm_offset APIC_TIMER_DIVIDE) by done. cbn [outcome_bind ap_ports ap_pt ap_frames ap_base ap_writes].
  rewrite (write_reg_place msr hhdm_offset APIC_TIMER_LVT) by done. cbn [outcome_bind ap_ports ap_pt ap_frames ap_base ap_writes].
  rewrite (write_reg_place msr hhdm_offset APIC_TIMER_INIT_COUNT) by done. fold phys. eexists _, _. split; [reflexivity|]. split; [done|].
  cbn [ap_ports ap_pt ap_frames ap_base ap_writes].
  assert (Hph : ∀ off v, 0 ≤ off < PAGE_SIZE → phys_write pt (hhdm_offset + phys + off, v) = Some (phys + off, v))
    by (intros off v Ho; by apply phys_write_place).
  split; [unfold phys_writes; cbn [app fmap list_fmap]; rewrite !Hph by done; reflexivity|].
  split; [vm_compute; done|]. split; [intros p Hne; rewrite Ht; by rewrite decide_False|]. split; [exact Hfl|].
  split; [exact Hm|]. split; [exact Hfr|].
  unfold eoi. rewrite (write_reg_place msr hhdm_offset APIC_EOI) by done. eexists. split; [done|]. split; [done|]. fold phys.
  cbn [ap_pt ap_writes]. unfold phys_writes. rewrite fmap_app. f_equal. cbn [fmap list_fmap]. by rewrite Hph.
Qed.

(** *** Properties *)

(** C28: programming the interrupt controllers.  When the APIC's page is either already mapped to it or
    unmapped with three frames left, [_start] masks both legacy controllers and then writes, in this order and
    at the APIC's physical registers: the spurious vector with the enable bit, the divider, the timer entry
    and the count.  The timer entry is periodic, not masked, and its vector is the one whose entry of the IDT is the
    timer handler; the other pages keep their mapping; a page that was not mapped before becomes writable, not executable and uncached; and [eoi] writes 0 to the EOI register of the same APIC. *)
Theorem apic_programmed {P PT : Type} `{!Ports P, !Mapper PT, !MapperLaws PT, !MapperProgress PT} (msr : Z → Z) (hhdm_offset : Z)
    (env : ApicEnv P PT) :
  let phys := read_apic_base_phys msr in
  apic_place msr hhdm_offset → ap_writes env = [] →
  (translate (ap_pt env) (hhdm_offset + phys) = Some phys ∨
   translate (ap_pt env) (hhdm_offset + phys) = None ∧ alloc_wf (ap_frames env) ∧ (3 ≤ size (free_set (ap_frames env)))%nat) →
  ∃ env' lvt, start_timer msr hhdm_offset env = Ret env' ∧
    ap_ports env' = out8 0xA1 0xFF (out8 0x21 0xFF (ap_ports env)) ∧
    phys_writes (ap_pt env') (ap_writes env') =
      Some <$> [(phys + 0x0F0, 0x1FF); (phys + 0x3E0, 3); (phys + 0x320, lvt); (phys + 0x380, 0x20000)] ∧
    (Z.testbit lvt 17 = true ∧ Z.testbit lvt 16 = false ∧ Console.IDT !! (lvt mod 256) = Some (Console.TimerInterrupt, None)) ∧
    (∀ p, p ≠ hhdm_offset + phys → translate (ap_pt env') p = translate (ap_pt env) p) ∧
    (∀ p, page_flags (ap_pt env') p = if decide (p = hhdm_offset + phys ∧ translate (ap_pt env) p = None) then Some APIC_FLAGS
                                      else page_flags (ap_pt env) p) ∧
    ∃ env'', eoi env' = Ret env'' ∧ ap_pt env'' = ap_pt env' ∧
      phys_writes (ap_pt env'') (ap_writes env'') = phys_writes (ap_pt env') (ap_writes env') ++ [Some (phys + 0x0B0, 0)].
Proof.
  intros phys Hp Hw Hmap. destruct (start_timer_spec msr hhdm_offset env Hp Hw Hmap)
    as (env' & lvt & ? & ? & ? & ? & ? & ? & _ & _ & ?). by exists env', lvt.
Qed.

(** *** Witnesses *)

(** The APIC where the processor puts it, with the bootstrap and enable bits set. *)
Definition demo_msr (r : Z) : Z := if r =? APIC_BASE_MSR then 0xFEE00900 else 0.
Definition demo_hhdm : Z := 0xFFFF800000000000.
Definition demo_env : ApicEnv Pci.latch flat := mkApic (0, λ _, 0) no_pages heap_frames 0 [].

Lemma demo_place : apic_place demo_msr demo_hhdm.
Proof.
  split.
  - vm_compute. split; [discriminate|reflexivity].
  - vm_compute. split; [discriminate|reflexivity].
  - vm_compute. discriminate.
  - right. vm_compute. split; [discriminate|reflexivity].
Qed.

Lemma apic_programmed_witness :
  read_apic_base_phys demo_msr = 0xFEE00000 ∧
  ∃ env' lvt, start_timer demo_msr demo_hhdm demo_env = Ret env' ∧
    phys_writes (ap_pt env') (ap_writes env') =
      Some <$> [(0xFEE000F0, 0x1FF); (0xFEE003E0, 3); (0xFEE00320, lvt); (0xFEE00380, 0x20000)].
Proof.
  split; [reflexivity|].
  destruct (apic_programmed demo_msr demo_hhdm demo_env demo_place eq_refl) as (env' & lvt & E & _ & Hw & _).
  - right. split; [reflexivity|]. split; [apply heap_frames_wf|]. change (ap_frames demo_env) with heap_frames. rewrite (proj2 heap_frames_wf). lia.
  - exists env', lvt. split; [exact E|exact Hw].
Defined.
End Apic.
