(* ===== verification/Elf.v ===== *)
(** * Elf: userspace/elf.rs and the data of userspace/process.rs

    The headers are read through references into the byte slice.  In the dev profile a reference at
    a misaligned address panics, so the address of the slice is an argument. *)

From S2P Require Import Prelude Bytes.

Module Elf.

Definition ELF_MAGIC : list Z := [0x7F; 69; 76; 70].

Record ElfHeader : Type := mkElf {
  e_ident : list Z;
  e_type : Z;
  e_machine : Z;
  e_version : Z;
  e_entry : Z;
  e_phoff : Z;
  e_shoff : Z;
  e_flags : Z;
  e_ehsize : Z;
  e_phentsize : Z;
  e_phnum : Z;
  e_shentsize : Z;
  e_shnum : Z;
  e_shstrndx : Z;
}.

Record ProgramHeader : Type := mkPh {
  p_type : Z;
  p_flags : Z;
  p_offset : Z;
  p_vaddr : Z;
  p_paddr : Z;
  p_filesz : Z;
  p_memsz : Z;
  p_align : Z;
}.

Definition PT_LOAD : Z := 1.

(** [size_of] of the two structures, whose alignment is 8. *)
Definition ELF_HEADER_SIZE : nat := 64.
Definition PROGRAM_HEADER_SIZE : nat := 56.

(** A little-endian field of [n] bytes at [off]. *)
Definition field (off n : nat) (l : list Z) : Z := from_le_bytes (slice off n l).

Definition elf_header (l : list Z) : ElfHeader :=
  mkElf (slice 0 16 l) (field 16 2 l) (field 18 2 l) (field 20 4 l) (field 24 8 l) (field 32 8 l) (field 40 8 l)
    (field 48 4 l) (field 52 2 l) (field 54 2 l) (field 56 2 l) (field 58 2 l) (field 60 2 l) (field 62 2 l).

Definition program_header (l : list Z) : ProgramHeader :=
  mkPh (field 0 4 l) (field 4 4 l) (field 8 8 l) (field 16 8 l) (field 24 8 l) (field 32 8 l) (field 40 8 l)
    (field 48 8 l).

(** [&*(ptr as *const ElfHeader)] and [&*(ptr as *const ProgramHeader)] on the bytes from [ptr]. *)
Definition header_at (addr : Z) (l : list Z) : outcome ElfHeader :=
  if addr mod 8 =? 0 then Ret (elf_header l) else Panic.
Definition ph_at (addr : Z) (l : list Z) : outcome ProgramHeader :=
  if addr mod 8 =? 0 then Ret (program_header l) else Panic.

Definition elf_validate (base : Z) (binary : list Z) : outcome (result string Z) :=
  if decide (length binary < ELF_HEADER_SIZE)%nat then Ret (Err "binary too small")
  else
    let? header := header_at base binary in
    if decide (take 4 (e_ident header) = ELF_MAGIC) then
      if negb (default 0 (e_ident header !! 4%nat) =? 2) then Ret (Err "not 64-bit")
      else if negb (e_machine header =? 0x3E) then Ret (Err "not x86_64")
      else Ret (Ok (e_entry header))
    else Ret (Err "not a valid ELF").

(** The loop from index [i] on; [n] entries are left. *)
Fixpoint count_from (n : nat) (i base : Z) (header : ElfHeader) (binary : list Z) (count : nat) : outcome nat :=
  match n with
  | O => Ret count
  | S n' =>
      let? rel := checked_mul64 i (e_phentsize header) in
      let? offset := checked_add64 (e_phoff header) rel in
      let? last := checked_add64 offset (Z.of_nat PROGRAM_HEADER_SIZE) in
      if decide (Z.of_nat (length binary) < last) then Ret count
      else
        let? ph := ph_at (base + offset) (drop (Z.to_nat offset) binary) in
        count_from n' (i + 1) base header binary (if p_type ph =? PT_LOAD then S count else count)
  end.

(** [None]: the header is read although the slice is shorter than it. *)
Definition count_load_segments (base : Z) (binary : list Z) : option (outcome nat) :=
  if decide (length binary < ELF_HEADER_SIZE)%nat then None
  else Some (let? header := header_at base binary in
             count_from (Z.to_nat (e_phnum header)) 0 base header binary 0).

(** ** userspace/process.rs *)
Record Process : Type := mkProcess {
  pid : Z;
  p_name : string;
  p_capabilities : list Z;
  entry_point : Z;
  user_stack_top : Z;
}.

Definition USER_CODE_SELECTOR : Z := 0x1B.
Definition USER_DATA_SELECTOR : Z := 0x23.

Definition process_new (pid : Z) (name : string) (entry_point : Z) : Process :=
  mkProcess pid name [] entry_point 0x00007FFFFFFFF000.

(** The frame that enter_usermode pushes, in the order [iretq] pops it: rip, cs, rflags, rsp, ss. *)
Definition iret_frame (p : Process) : list Z :=
  [entry_point p; USER_CODE_SELECTOR; 0x200; user_stack_top p; USER_DATA_SELECTOR].

(** gdt.rs appends user data at index 3 and user code at index 4, with requested privilege 3. *)
Definition gdt_user_data : Z := 3 * 8 + 3.
Definition gdt_user_code : Z := 4 * 8 + 3.

(** ** Validation *)

(** validate accepts exactly the slices that hold a header with the ELF magic, class 2 and machine
    0x3E, and returns the entry point. *)
Lemma elf_validate_ok base binary entry :
  base mod 8 = 0 →
  elf_validate base binary = Ret (Ok entry) ↔
  (64 ≤ length binary)%nat ∧ slice 0 4 binary = ELF_MAGIC ∧ binary !! 4%nat = Some 2 ∧
  field 18 2 binary = 0x3E ∧ entry = field 24 8 binary.
Proof.
  intros Hb. unfold elf_validate, header_at. rewrite Hb. simpl Z.eqb. cbn [outcome_bind e_ident elf_header e_machine e_entry].
  destruct (decide (length binary < ELF_HEADER_SIZE)%nat) as [Hl|Hl].
  { split; [done|]. intros (Hge & _). unfold ELF_HEADER_SIZE in Hl. lia. }
  unfold ELF_HEADER_SIZE in Hl. assert (take 4 (slice 0 16 binary) = slice 0 4 binary) as ->.
  { unfold slice. rewrite take_take. done. }
  assert (slice 0 16 binary !! 4%nat = binary !! 4%nat) as ->.
  { unfold slice. rewrite drop_0. apply lookup_take_lt. lia. }
  destruct (decide (slice 0 4 binary = ELF_MAGIC)) as [Hm|Hm]; [|split; [done|by intros (_ & ? & _)]].
  destruct (lookup_lt_is_Some_2 binary 4 ltac:(lia)) as [c Ec]. rewrite Ec. simpl.
  destruct (Z.eqb_spec c 2) as [->|Hc]; simpl; [|split; [done|by intros (_ & _ & [= ?] & _)]].
  destruct (Z.eqb_spec (field 18 2 binary) 62) as [Hx|Hx]; simpl; [|split; [done|by intros (_ & _ & _ & ? & _)]].
  split; [intros [= <-]; split; [lia|done]|]. intros (_ & _ & _ & _ & ->). done.
Qed.

(** Every program header counted lies inside the slice, so the count never exceeds the entries. *)
Lemma count_from_bound n i base h binary c r :
  count_from n i base h binary c = Ret r → (c ≤ r ≤ c + n)%nat.
Proof.
  revert i c. induction n as [|n IH]; intros i c H; cbn [count_from] in H; [simplify_eq; lia|].
  destruct (checked_mul64 i (e_phentsize h)) as [rel|]; cbn [outcome_bind] in H; [|done].
  destruct (checked_add64 (e_phoff h) rel) as [off|]; cbn [outcome_bind] in H; [|done].
  destruct (checked_add64 off _) as [last|]; cbn [outcome_bind] in H; [|done].
  destruct (decide _); [simplify_eq; lia|]. destruct (ph_at _ _) as [ph|]; cbn [outcome_bind] in H; [|done].
  apply IH in H. destruct (p_type ph =? PT_LOAD); lia.
Qed.

(** The selectors that enter_usermode loads are the other way round than those of the table. *)
Lemma selectors_swapped p :
  iret_frame p !! 1%nat = Some gdt_user_data ∧ iret_frame p !! 4%nat = Some gdt_user_code ∧ gdt_user_data ≠ gdt_user_code.
Proof. done. Qed.
End Elf.
