(* ===== verification/Segments.v ===== *)
(** * Segments: gdt.rs, the model-specific registers of syscall/mod.rs, enter_usermode of
      userspace/process.rs

    The descriptor table and its selectors, STAR, LSTAR, SFMASK and EFER, and what the instructions
    syscall, sysretq and iretq make of them.  Composed with the entry stub of Syscall this is the
    round trip of a system call. *)

From S2P Require Import Prelude Bytes Capability FrameAlloc Task Scheduler Kernel Elf Syscall.

(** ** The descriptor table of the x86_64 crate

    [append] of GlobalDescriptorTable: the first free entry, a selector with the descriptor's
    privilege level, two entries for a system segment, a panic beyond eight entries. *)
Inductive descriptor : Type := KernelCode | KernelData | UserData | UserCode | TssSegment.

Definition dpl (d : descriptor) : Z :=
  match d with UserData | UserCode => 3 | _ => 0 end.

Definition entries (d : descriptor) : Z :=
  match d with TssSegment => 2 | _ => 1 end.

Class GdtOps (G : Type) : Type := {
  gdt_new : G;
  append : descriptor → G → outcome (Z * G);
  used : G → Z;
  segment : G → Z → option descriptor;
}.

Class GdtLaws (G : Type) `{!GdtOps G} : Prop := {
  used_new : used gdt_new = 1;
  append_fits : ∀ d g, 1 ≤ used g → used g + entries d ≤ 8 →
    ∃ g', append d g = Ret (8 * used g + dpl d, g') ∧ used g' = used g + entries d ∧
          segment g' (used g) = Some d ∧ ∀ i, i < used g → segment g' i = segment g i;
}.

Module Segments.
Import Elf Syscall.

Section gdt.
Context {G : Type} `{!GdtOps G}.

Record Selectors : Type := mkSelectors { code_selector : Z; data_selector : Z; tss_selector : Z }.

(** The initialiser of the static GDT. *)
Definition GDT : outcome (G * Selectors) :=
  let? '(code, g) := append KernelCode gdt_new in
  let? '(data, g) := append KernelData g in
  let? '(_, g) := append UserData g in
  let? '(_, g) := append UserCode g in
  let? '(tss, g) := append TssSegment g in
  Ret (g, mkSelectors code data tss).

(** The segment registers, the table and the task register after [init]. *)
Record SegRegs : Type := mkSegs { seg_gdt : G; seg_cs : Z; seg_ds : Z; seg_ss : Z; seg_tr : Z }.

Definition gdt_init : outcome SegRegs :=
  let? '(g, s) := GDT in
  Ret (mkSegs g (code_selector s) (data_selector s) 0 (tss_selector s)).
End gdt.
Arguments SegRegs : clear implicits.

(** The top of the stack that entry 0 of the interrupt stack table gets. *)
Definition STACK_SIZE : Z := 4096 * 5.
Definition double_fault_stack_top (stack_start : Z) : outcome Z := checked_add64 stack_start STACK_SIZE.

(** ** Model-specific registers *)
Definition IA32_EFER : Z := 0xC0000080.
Definition IA32_STAR : Z := 0xC0000081.
Definition IA32_LSTAR : Z := 0xC0000082.
Definition IA32_FMASK : Z := 0xC0000084.
Definition INTERRUPT_FLAG : Z := 0x200.

Definition msrs : Type := Z → Z.
Definition write_msr (r v : Z) (f : msrs) : msrs := λ x, if decide (x = r) then v else f x.

(** [wrmsr] of edx:eax. *)
Definition wrmsr (ecx eax edx : Z) (f : msrs) : msrs := write_msr ecx (Z.lor (Z.shiftl edx 32) eax) f.

Definition star_value : Z := Z.lor (Z.shiftl 0x08 32) (Z.shiftl 0x13 48).

Definition setup_syscall_msrs (syscall_entry_addr : Z) (f : msrs) : msrs :=
  let f1 := write_msr IA32_EFER (Z.lor (f IA32_EFER) 1) f in
  let f2 := write_msr IA32_LSTAR syscall_entry_addr f1 in
  let f3 := write_msr IA32_FMASK INTERRUPT_FLAG f2 in
  wrmsr 0xC0000081 (star_value mod 2 ^ 32) (Z.shiftr star_value 32 mod 2 ^ 32) f3.

(** ** syscall and sysretq

    The processor's state that the two instructions use.  [syscall] is undefined without EFER.SCE;
    both load the selectors from STAR and take the segments as flat. *)
Record Cpu : Type := mkCpu {
  cpu_regs : regs;
  cpu_rip : Z;
  cpu_rflags : Z;
  cpu_cs : Z;
  cpu_ss : Z;
  cpu_stack : list Z;
}.

Definition do_syscall (f : msrs) (c : Cpu) : option Cpu :=
  if Z.testbit (f IA32_EFER) 0 then
    let sel := Z.shiftr (f IA32_STAR) 32 mod 2 ^ 16 in
    Some (mkCpu (set_reg_to R11 (cpu_rflags c) (set_reg_to RCX (cpu_rip c) (cpu_regs c)))
            (f IA32_LSTAR) (Z.land (cpu_rflags c) (Z.lnot (f IA32_FMASK))) (Z.land sel 0xFFFC) (sel + 8) (cpu_stack c))
  else None.

Definition do_sysretq (f : msrs) (c : Cpu) : option Cpu :=
  if Z.testbit (f IA32_EFER) 0 then
    let sel := Z.shiftr (f IA32_STAR) 48 mod 2 ^ 16 in
    Some (mkCpu (cpu_regs c) (cpu_regs c RCX) (Z.lor (Z.land (cpu_regs c R11) 0x3C7FD7) 2)
            (Z.lor (sel + 16) 3) (Z.lor (sel + 8) 3) (cpu_stack c))
  else None.

(** The entry stub between them. *)
Definition run_stub (dispatched : args → Z) (scratch : reg → Z) (c : Cpu) : option (Cpu * option args) :=
  (λ '(f, st, called), (mkCpu f (cpu_rip c) (cpu_rflags c) (cpu_cs c) (cpu_ss c) st, called)) <$>
    run dispatched scratch syscall_entry (cpu_regs c, cpu_stack c, None).

(** A system call: the instruction, the stub at LSTAR, the return.  [in_kernel] is the state in which the
    stub starts. *)
Definition system_call (f : msrs) (dispatched : args → Z) (scratch : reg → Z) (c : Cpu) : option (Cpu * option args * Cpu) :=
  match do_syscall f c with
  | Some in_kernel =>
      match run_stub dispatched scratch in_kernel with
      | Some (c2, called) => (λ c3, (in_kernel, called, c3)) <$> do_sysretq f c2
      | None => None
      end
  | None => None
  end.

(** ** enter_usermode

    The inline assembly with the registers the compiler chose for the operands. *)
Inductive operand : Type := UserDs | UserSs | UserRsp | UserCs | Entry.

Inductive uinstr : Type :=
| Cli
| MovAx (o : operand)          (* mov ax, {o:x} *)
| MovSeg (s : nat)             (* mov ds/es/fs/gs, ax *)
| PushOp (o : operand)
| PushImm (v : Z).

Definition enter_usermode : list uinstr :=
  [Cli; MovAx UserDs; MovSeg 0; MovSeg 1; MovSeg 2; MovSeg 3; PushOp UserSs; PushOp UserRsp; PushImm 0x200;
   PushOp UserCs; PushOp Entry].

Definition operand_value (p : Process) (o : operand) : Z :=
  match o with
  | UserDs | UserSs => USER_DATA_SELECTOR
  | UserRsp => user_stack_top p
  | UserCs => USER_CODE_SELECTOR
  | Entry => entry_point p
  end.

Record UserEntry : Type := mkUserEntry { ue_regs : regs; ue_segs : list Z; ue_stack : list Z; ue_if : bool }.

(** [mov ax] replaces the low half of the lower word of rax. *)
Definition uexec (alloc : operand → reg) (i : uinstr) (u : UserEntry) : UserEntry :=
  match i with
  | Cli => mkUserEntry (ue_regs u) (ue_segs u) (ue_stack u) false
  | MovAx o =>
      mkUserEntry (set_reg_to RAX (ue_regs u RAX / 2 ^ 16 * 2 ^ 16 + ue_regs u (alloc o) mod 2 ^ 16) (ue_regs u))
        (ue_segs u) (ue_stack u) (ue_if u)
  | MovSeg s => mkUserEntry (ue_regs u) (<[s := ue_regs u RAX mod 2 ^ 16]> (ue_segs u)) (ue_stack u) (ue_if u)
  | PushOp o => mkUserEntry (ue_regs u) (ue_segs u) (ue_regs u (alloc o) :: ue_stack u) (ue_if u)
  | PushImm v => mkUserEntry (ue_regs u) (ue_segs u) (v :: ue_stack u) (ue_if u)
  end.

Definition urun (alloc : operand → reg) (code : list uinstr) (u : UserEntry) : UserEntry :=
  foldl (λ u i, uexec alloc i u) u code.

(** [iretq] to another privilege level: the code selector has to name a code segment of that level, the stack
    selector a data segment of it; otherwise a general protection fault. *)
Definition iretq {G : Type} `{!GdtOps G} (g : G) (st : list Z) : option (Z * Z * Z * Z * Z * list Z) :=
  match st with
  | rip :: cs :: rflags :: rsp :: ss :: st' =>
      match segment g (cs / 8), segment g (ss / 8) with
      | Some UserCode, Some UserData =>
          if (cs mod 4 =? 3) && (ss mod 4 =? 3) then Some (rip, cs, rflags, rsp, ss, st') else None
      | _, _ => None
      end
  | _ => None
  end.

(** ** The table *)
Section table.
Context {G : Type} `{!GdtOps G, !GdtLaws G}.

Lemma GDT_spec : ∃ g : G, GDT = Ret (g, mkSelectors 0x08 0x10 0x28) ∧
  segment g 1 = Some KernelCode ∧ segment g 2 = Some KernelData ∧ segment g 3 = Some UserData ∧
  segment g 4 = Some UserCode ∧ segment g 5 = Some TssSegment.
Proof.
  pose proof used_new as H0. unfold GDT.
  destruct (append_fits KernelCode gdt_new) as (g1 & -> & H1 & S1 & K1); [lia|rewrite H0; simpl; lia|].
  rewrite H0 in *. simpl entries in H1. cbn [outcome_bind].
  destruct (append_fits KernelData g1) as (g2 & -> & H2 & S2 & K2); [lia|rewrite H1; simpl; lia|].
  rewrite H1 in *. simpl entries in H2. cbn [outcome_bind].
  destruct (append_fits UserData g2) as (g3 & -> & H3 & S3 & K3); [lia|rewrite H2; simpl; lia|].
  rewrite H2 in *. simpl entries in H3. cbn [outcome_bind].
  destruct (append_fits UserCode g3) as (g4 & -> & H4 & S4 & K4); [lia|rewrite H3; simpl; lia|].
  rewrite H3 in *. simpl entries in H4. cbn [outcome_bind].
  destruct (append_fits TssSegment g4) as (g5 & -> & H5 & S5 & K5); [lia|rewrite H4; simpl; lia|].
  rewrite H4 in *. cbn [outcome_bind]. exists g5. split; [done|].
  rewrite !K5, !K4, !K3, !K2 by lia. done.
Qed.

(** ** enter_usermode *)

(** With no operand but the first in rax, the frame is the one of process.rs and all four data
    segments are loaded with interrupts off. *)
Lemma enter_usermode_frame alloc p rs s0 s1 s2 s3 st fl :
  (∀ o, rs (alloc o) = operand_value p o) → (∀ o, o ≠ UserDs → alloc o ≠ RAX) →
  let u := urun alloc enter_usermode (mkUserEntry rs [s0; s1; s2; s3] st fl) in
  ue_stack u = iret_frame p ++ st ∧ ue_segs u = replicate 4 USER_DATA_SELECTOR ∧ ue_if u = false.
Proof.
  intros Hv Hr. simpl. unfold set_reg_to. rewrite !(decide_False (P := alloc _ = RAX)) by (by apply Hr).
  rewrite !decide_True by done. rewrite !Hv. simpl operand_value. split; [done|]. split; [|done].
  assert (Hm : ∀ z, (z / 2 ^ 16 * 2 ^ 16 + USER_DATA_SELECTOR mod 2 ^ 16) mod 2 ^ 16 = USER_DATA_SELECTOR).
  { intros z. rewrite Z.add_comm, Z.mod_add by lia. done. }
  by rewrite !Hm.
Qed.

(** The frame names the data segment as code: [iretq] faults. *)
Lemma enter_usermode_faults (g : G) sel p st : GDT = Ret (g, sel) → iretq g (iret_frame p ++ st) = None.
Proof.
  intros E. destruct GDT_spec as (g' & E' & _ & _ & H3 & H4 & _). rewrite E in E'. injection E' as <- _.
  unfold iretq, iret_frame. cbn [app]. change (USER_CODE_SELECTOR / 8) with 3. by rewrite H3.
Qed.

(** An operand in rax is overwritten by [mov ax]: the entry point, for one. *)
Lemma enter_usermode_clobbers alloc p rs segs st fl :
  (∀ o, rs (alloc o) = operand_value p o) → alloc Entry = RAX →
  head (ue_stack (urun alloc enter_usermode (mkUserEntry rs segs st fl))) =
    Some (entry_point p / 2 ^ 16 * 2 ^ 16 + USER_DATA_SELECTOR).
Proof.
  intros Hv Hr. simpl. unfold set_reg_to. rewrite (decide_True (P := alloc Entry = RAX)) by done.
  rewrite <-Hr, !Hv. done.
Qed.
End table.

Lemma setup_star A f : setup_syscall_msrs A f IA32_STAR = star_value.
Proof. reflexivity. Qed.

Lemma setup_sce A f : Z.testbit (setup_syscall_msrs A f IA32_EFER) 0 = true.
Proof.
  change (setup_syscall_msrs A f IA32_EFER) with (Z.lor (f IA32_EFER) 1). rewrite Z.lor_spec. by rewrite orb_true_r.
Qed.

(** *** Properties *)

(** C22: the round trip of a system call.  With the table of gdt.rs and the registers of
    setup_syscall_msrs, [syscall] from any user state enters the stub at LSTAR with interrupts off, on the
    kernel code and data segments that gdt::init loads; the dispatcher gets the number and the arguments
    in order; and [sysretq] goes back to the instruction after the call with the user code and data
    segments at level 3, the flags, the callee-saved registers and the stack as they were, and the result
    in rax. *)
Theorem syscall_round_trip {G : Type} `{!GdtOps G, !GdtLaws G} (A : Z) (f : msrs) (dispatched : args → Z) (scratch : reg → Z)
    (sr : SegRegs G) (c : Cpu) :
  gdt_init = Ret sr → Z.lor (Z.land (cpu_rflags c) 0x3C7FD7) 2 = cpu_rflags c →
  ∃ k called c', system_call (setup_syscall_msrs A f) dispatched scratch c = Some (k, Some called, c') ∧
    (cpu_rip k = A ∧ Z.testbit (cpu_rflags k) 9 = false ∧ cpu_cs k = seg_cs sr ∧ cpu_ss k = seg_ds sr ∧
     segment (seg_gdt sr) (cpu_cs k / 8) = Some KernelCode ∧ segment (seg_gdt sr) (cpu_ss k / 8) = Some KernelData) ∧
    called = (cpu_regs c RAX, cpu_regs c RDI, cpu_regs c RSI, cpu_regs c RDX, cpu_regs c R10, cpu_regs c R8) ∧
    (cpu_rip c' = cpu_rip c ∧ cpu_rflags c' = cpu_rflags c ∧ cpu_stack c' = cpu_stack c ∧
     segment (seg_gdt sr) (cpu_cs c' / 8) = Some UserCode ∧ cpu_cs c' mod 4 = 3 ∧
     segment (seg_gdt sr) (cpu_ss c' / 8) = Some UserData ∧ cpu_ss c' mod 4 = 3) ∧
    cpu_regs c' RAX = dispatched called ∧ Forall (λ r, cpu_regs c' r = cpu_regs c r) [RBP; RBX; R12; R13; R14; R15].
Proof.
  intros Hinit Hfl. destruct GDT_spec as (g & E & H1 & H2 & H3 & H4 & _). unfold gdt_init in Hinit. rewrite E in Hinit.
  injection Hinit as <-. unfold system_call, do_syscall, do_sysretq. rewrite setup_sce, setup_star. unfold run_stub.
  cbn [cpu_regs cpu_stack]. set (f1 := set_reg_to R11 _ _).
  destruct (syscall_entry_spec dispatched scratch f1 (cpu_stack c)) as (f2 & -> & Hrax & Hsaved).
  cbn [fmap option_fmap option_map]. eexists _, _, _. split; [reflexivity|].
  rewrite !Forall_cons in Hsaved. destruct Hsaved as (Hrcx & Hr11 & Hs3 & Hs4 & Hs5 & Hs6 & Hs7 & Hs8 & _).
  cbn [cpu_rip cpu_rflags cpu_cs cpu_ss cpu_stack cpu_regs seg_cs seg_ds seg_gdt code_selector data_selector]. split; [|split; [|split; [|split]]].
  - split; [done|]. split; [|done]. rewrite Z.land_spec. change (setup_syscall_msrs A f IA32_FMASK) with 0x200.
    change (Z.testbit (Z.lnot 0x200) 9) with false. apply andb_false_r.
  - reflexivity.
  - rewrite Hrcx, Hr11. split; [done|]. split; [exact Hfl|]. done.
  - exact Hrax.
  - repeat constructor; assumption.
Qed.

(** *** Witnesses *)

(** The table as a list. *)
#[global] Instance list_gdt : GdtOps (list descriptor) := {|
  gdt_new := [KernelCode];
  append d g := if decide (Z.of_nat (length g) + entries d ≤ 8)
                then Ret (8 * Z.of_nat (length g) + dpl d, g ++ replicate (Z.to_nat (entries d)) d) else Panic;
  used g := Z.of_nat (length g);
  segment g i := if decide (1 ≤ i) then g !! Z.to_nat i else None;
|}.

#[global] Instance list_gdt_laws : GdtLaws (list descriptor).
Proof.
  split; [done|]. intros d g H1 H. simpl in *. rewrite decide_True by done. eexists. split; [done|].
  rewrite length_app, length_replicate. split; [destruct d; simpl; lia|]. split.
  - rewrite decide_True by lia. rewrite Nat2Z.id, lookup_app_r by lia. rewrite Nat.sub_diag. by destruct d.
  - intros i Hi. case_decide; [|done]. rewrite lookup_app_l by lia. done.
Qed.

Lemma syscall_round_trip_witness :
  ∃ (sr : SegRegs (list descriptor)) k called c', gdt_init = Ret sr ∧
    system_call (setup_syscall_msrs 0x7000 (λ _, 0)) (λ _, 42) (λ _, 0) (mkCpu (λ _, 5) 0x400010 0x202 0x23 0x1B [1; 2]) =
      Some (k, Some called, c') ∧
    cpu_rip c' = 0x400010 ∧ cpu_cs k = 0x08 ∧ cpu_regs c' RAX = 42.
Proof.
  destruct (gdt_init (G := list descriptor)) as [sr|] eqn:E; [|discriminate E].
  destruct (syscall_round_trip 0x7000 (λ _, 0) (λ _, 42) (λ _, 0) sr (mkCpu (λ _, 5) 0x400010 0x202 0x23 0x1B [1; 2]) E eq_refl)
    as (k & called & c' & Hs & (_ & _ & Hcs & _) & _ & (Hrip & _) & Hrax & _).
  exists sr, k, called, c'. split; [reflexivity|]. split; [exact Hs|]. split; [exact Hrip|]. split; [|exact Hrax].
  rewrite Hcs. vm_compute in E. injection E as <-. reflexivity.
Defined.
End Segments.
