(* ===== verification/Boot.v ===== *)
(** * Boot: main.rs, the swarm of agents it starts and what they do

    [setup_swarm] is the part of [_start] that creates the capabilities, the channel, the mailboxes
    and the four agents, on the kernel statics, the agent registry and the page tables.  The agents'
    entry functions are the turns of their loops, between two of which the scheduler may run
    anything; [swarm_step] interleaves them. *)

From S2P Require Import Prelude Capability FrameAlloc Task Scheduler Kernel Switch Ipc Agent Bytes ContextStore Text Paging.

Module Boot.
Import Perm Res Frames CapTable Tasks Sched Kern Switch Agents Paging.

(** ** Capabilities, channel and mailboxes *)
Definition setup_capabilities (t : CapabilityTable) : outcome CapabilityTable :=
  let? r := create_root t 1 AgentSpawn (union (union SPAWN KILL) DELEGATE) in
  let? r := create_root (snd r) 2 (Res.Agent 4) WRITE in
  let? r := create_root (snd r) 3 (Res.Agent 4) WRITE in
  let? r := create_root (snd r) 4 (Res.Channel "results") PUBLISH in
  let? r := create_root (snd r) 4 (Res.Agent 0) READ in
  Ret (snd r).

(** [for id in 1..=4]. *)
Definition register_mailboxes (k : Kernel) : Kernel := foldl (λ k id, register_mailbox id k) k (seqZ 1 4).

(** ** The agents *)
Definition supervisor_config : AgentConfig :=
  mkConfig "supervisor" (Some "Manage the research swarm") (Auto ["gpt-4"]) [] [1] Permanent default_limits.
Definition research1_config : AgentConfig :=
  mkConfig "researcher-1" (Some "Research AI safety papers") (Remote "https://api.openai.com/v1/chat" 0) ["web-fetch"] [2]
    RestartOne default_limits.
Definition research2_config : AgentConfig :=
  mkConfig "researcher-2" (Some "Research ML optimization techniques") (Remote "https://api.openai.com/v1/chat" 0)
    ["web-fetch"] [3] RestartOne default_limits.
Definition aggregator_config : AgentConfig :=
  mkConfig "aggregator" (Some "Collect and summarize research findings") (Auto ["gpt-4"]) [] [4; 5] RestartOne default_limits.

Section start.
Context {PT : Type} `{!Mapper PT}.

(** The addresses of the entry functions and of the trampoline. *)
Record Entries : Type := mkEntries { supervisor_fn : Z; researcher1_fn : Z; researcher2_fn : Z; aggregator_fn : Z; trampoline_fn : Z }.

(** [spawn(..).expect(..)]. *)
Definition spawn_or_panic (parent : option Z) (config : AgentConfig) (entry trampoline : Z) (w : World PT) : outcome (World PT) :=
  let? r := Agents.spawn parent config entry trampoline w in
  match r with (Ok _, w') => Ret w' | (Err _, _) => Panic end.

Definition spawn_agents (e : Entries) (w : World PT) : outcome (World PT) :=
  let? w := spawn_or_panic None supervisor_config (supervisor_fn e) (trampoline_fn e) w in
  let? w := spawn_or_panic (Some 1) research1_config (researcher1_fn e) (trampoline_fn e) w in
  let? w := spawn_or_panic (Some 1) research2_config (researcher2_fn e) (trampoline_fn e) w in
  spawn_or_panic (Some 1) aggregator_config (aggregator_fn e) (trampoline_fn e) w.

(** The demonstration part of [_start], up to the printed tree. *)
Definition setup_swarm (e : Entries) (w : World PT) : outcome (World PT) :=
  let? caps := setup_capabilities (k_caps (w_k w)) in
  let k1 := set_caps (w_k w) caps in
  let k2 := snd (Ipc.create "results" k1) in
  let k3 := register_mailboxes k2 in
  spawn_agents e (mkWorld k3 (w_reg w) (w_pt w)).
End start.

(** The idle loop after [hlt]. *)
Definition idle_turn (RESUME TRAMPOLINE : Z) (m : Machine) : outcome (bool * Machine) :=
  if should_reschedule m then yield_now RESUME TRAMPOLINE m else Ret (false, m).

(** ** Entry functions

    An agent waits until its target tick, yielding, and then runs the body of its loop. *)
Definition ready_at (target : Z) (k : Kernel) : bool := target <=? k_ticks k.

Definition QUOTE : string := of_bytes [34].

(** [format!] of a finding. *)
Definition finding (agent topic : string) (n : Z) : list Z :=
  as_bytes ("{" +:+ QUOTE +:+ "agent" +:+ QUOTE +:+ ":" +:+ QUOTE +:+ agent +:+ QUOTE +:+ "," +:+
            QUOTE +:+ "finding" +:+ QUOTE +:+ ":" +:+ fmt_u64 n +:+ "," +:+
            QUOTE +:+ "topic" +:+ QUOTE +:+ ":" +:+ QUOTE +:+ topic +:+ QUOTE +:+ "}").

(** The local variables of a researcher: finding_num and the target of its wait loop; the supervisor's
    report_num and target likewise. *)
Record Researcher : Type := mkResearcher { finding_num : Z; target : Z }.

(** The code before the loop; [delay] is 100 or 200, and 500 for the supervisor. *)
Definition researcher_start (delay : Z) (k : Kernel) : outcome Researcher :=
  let? t := checked_add64 (k_ticks k) delay in Ret (mkResearcher 0 t).

(** The body of the loop. [free] is SCHEDULER.try_lock() in send. *)
Definition researcher_turn (free : bool) (me cap cadence : Z) (payload : Z → list Z) (r : Researcher) (k : Kernel)
    : outcome (result IpcError Z * Researcher * Kernel) :=
  let? n := checked_add32 (finding_num r) 1 in
  let? s := Ipc.send free me 4 Data (payload n) None None cap k in
  let? t := checked_add64 (k_ticks (snd s)) cadence in
  Ret (fst s, mkResearcher n t, snd s).

Definition agent_researcher_1 (free : bool) (r : Researcher) (k : Kernel) : outcome (result IpcError Z * Researcher * Kernel) :=
  researcher_turn free 2 2 300 (finding "researcher-1" "AI alignment") r k.

Definition agent_researcher_2 (free : bool) (r : Researcher) (k : Kernel) : outcome (result IpcError Z * Researcher * Kernel) :=
  researcher_turn free 3 3 400 (finding "researcher-2" "gradient optimization") r k.

(** [while let Some(msg) = receive(4)]: total_findings, the messages and the summaries printed. *)
Fixpoint collect_findings (fuel : nat) (total : Z) (k : Kernel) : outcome (option (Z * list Message * list Z * Kernel)) :=
  match fuel with
  | O => Ret None
  | S fuel' =>
      match Ipc.receive 4 k with
      | (None, k') => Ret (Some (total, [], [], k'))
      | (Some msg, k') =>
          let? total' := checked_add32 total 1 in
          let? r := collect_findings fuel' total' k' in
          Ret ((λ '(t, msgs, sums, k2), (t, msg :: msgs, (if total' mod 5 =? 0 then [total'] else []) ++ sums, k2)) <$> r)
      end
  end.

(** One turn of the loop: a mailbox never holds more than its capacity. *)
Definition agent_aggregator (total : Z) (k : Kernel) : outcome (option (Z * list Message * list Z * Kernel)) :=
  collect_findings (S Ipc.MAILBOX_CAPACITY) total k.

(** The supervisor, whose local variables are report_num and its target: a status report (its number, the agents,
    the tasks and the tick), and the target of the next turn of the loop. *)
Definition agent_supervisor (r : Researcher) (reg : AgentRegistry) (k : Kernel) : outcome (Researcher * (Z * nat * nat * Z)) :=
  let? n := checked_add32 (finding_num r) 1 in
  let? next := checked_add64 (k_ticks k) 500 in
  Ret (mkResearcher n next, (n, count reg, task_count (k_sched k), k_ticks k)).

(** ** Starting the swarm *)
Section start_ok.
Context {PT : Type} `{!Mapper PT, !MapperLaws PT, !MapperProgress PT}.
Implicit Types w : World PT.

(** Before the agent with id [n] is spawned: the ids below it are taken and their tasks are ready in
    order; from [n] on the stack slots are unmapped; frames for the agents up to 4 are free. *)
Record spawn_ready (n : Z) (w : World PT) : Prop := {
  sr_sys : sys_wf (w_sys w);
  sr_ids : k_ids (w_k w) = {| ids_next := n; ids_free_list := [] |};
  sr_frames : ∃ a, k_frames (w_k w) = Some a ∧ alloc_wf a ∧ (Z.to_nat (16 * (5 - n)) ≤ size (free_set a))%nat;
  sr_slots : ∀ id base p, n ≤ id < 256 → slot_base id = Ret base → base ≤ p < base + STACK_SLOT_SIZE →
             translate (w_pt w) p = None;
  sr_tasks : ∃ ts, abstract (k_sched (w_k w)) = (ts, None, []) ∧ t_id <$> ts = seqZ 1 (n - 1) ∧
             Forall (λ t, t_priority t = Normal) ts;
}.

(** What spawning leaves alone. *)
Definition same_ipc (k k' : Kernel) : Prop :=
  k_caps k' = k_caps k ∧ k_channels k' = k_channels k ∧ k_ticks k' = k_ticks k ∧ k_next_msg k' = k_next_msg k.

Lemma spawn_returns parent config entry tramp n w :
  spawn_ready n w → 1 ≤ n ≤ 4 → at_limit (w_reg w) parent = false →
  ∃ w' a', Agents.spawn parent config entry tramp w = Ret (Ok n, w') ∧ same_ipc (w_k w) (w_k w') ∧
    k_ids (w_k w') = {| ids_next := n + 1; ids_free_list := [] |} ∧ k_frames (w_k w') = Some a' ∧ alloc_wf a' ∧
    (Z.to_nat (16 * (5 - (n + 1))) ≤ size (free_set a'))%nat ∧
    (∀ i, i ≠ Z.to_nat n → k_contexts (w_k w') !! i = k_contexts (w_k w) !! i) ∧
    (∀ id base p, n + 1 ≤ id < 256 → slot_base id = Ret base → base ≤ p < base + STACK_SLOT_SIZE →
       translate (w_pt w') p = None).
Proof.
  intros [Hsys Hids (a & Ha & Hwf & Hsize) Hslots _] Hn Hlim.
  assert (Hal : ids_alloc (k_ids (w_k w)) = Ret (n, {| ids_next := n + 1; ids_free_list := [] |})).
  { rewrite Hids. unfold ids_alloc, checked_add64. simpl. rewrite decide_True by (unfold U64_MAX; lia). done. }
  destruct (task_new_total (cfg_name config) Normal entry tramp
              {| e_ids := k_ids (w_k w); e_frames := k_frames (w_k w); e_pt := w_pt w |} a n _ Hal)
    as (t & env & a' & Et & Hid & Hids' & Ha' & Hwf' & Hsz & Hout); [lia|done|done|lia| |].
  { intros base p Hb Hp. apply (Hslots n base p); [lia|done..]. }
  unfold Agents.spawn, cmd_bind, get_state. rewrite Hlim. unfold lift_outcome, put_state, ret. rewrite Et.
  cbn [k_sched k_contexts register_mailbox set_mailboxes set_frames set_ids]. unfold Sched.spawn.
  rewrite Hid, (proj2 (Z.ltb_lt n MAX_TASKS)) by (unfold MAX_TASKS; lia).
  eexists _, a'. split; [reflexivity|]. split; [done|]. split; [done|]. split; [done|]. split; [done|]. split; [lia|].
  split; [intros i Hi; simpl; by apply list_lookup_insert_ne|]. intros id base p Hid' Hb Hp. simpl. destruct (stack_addresses n) as [Hbn _]; [lia|].
  destruct (stack_addresses id) as [Hbi _]; [lia|]. rewrite (Hout _ p Hbn).
  - apply (Hslots id base p); [lia|done..].
  - rewrite Hbi in Hb. injection Hb as <-. unfold STACK_SLOT_SIZE, STACK_PAGES, PAGE_SIZE in *. lia.
Qed.

Lemma spawn_step parent config entry tramp n w :
  spawn_ready n w → 1 ≤ n ≤ 4 → at_limit (w_reg w) parent = false → parent ≠ Some n →
  ∃ w', spawn_or_panic parent config entry tramp w = Ret w' ∧ spawn_ready (n + 1) w' ∧ same_ipc (w_k w) (w_k w') ∧
    w_reg w' = enroll (w_reg w) n config parent ∧ k_mailboxes (w_k w') = <[n := []]> (k_mailboxes (w_k w)) ∧
    (∀ i, i ≠ Z.to_nat n → k_contexts (w_k w') !! i = k_contexts (w_k w) !! i) ∧
    (∃ ctx, k_contexts (w_k w') !! Z.to_nat n = Some ctx ∧ rip ctx = tramp ∧ r12 ctx = entry).
Proof.
  intros Hr Hn Hlim Hne. destruct (spawn_returns parent config entry tramp n w Hr Hn Hlim)
    as (w' & a' & E & Hipc & Hids & Ha & Hwf & Hsize & Hctxs & Hslots).
  destruct (spawn_effect parent config entry tramp w w' (Ok n) (sr_sys _ _ Hr) E)
    as (_ & Hsys & (t & Htid & _ & Hprio & Habs) & Hctx & Hmail & Hreg & _).
  exists w'. unfold spawn_or_panic. rewrite E. split; [done|]. split; [|done]. split; [done|done|by exists a'|done|].
  destruct (sr_tasks _ _ Hr) as (ts & Hts & Hidl & Hnorm). unfold abstract in Hts. injection Hts as Hrdy Hcur Hblk.
  exists (ts ++ [t]). rewrite Habs, Hrdy, Hcur, Hblk. split; [|split].
  - rewrite enqueue_level; [done|]. apply Forall_forall. intros u Hu. rewrite Forall_forall in Hnorm.
    unfold prio. by rewrite (Hnorm u Hu), Hprio.
  - rewrite fmap_app, Hidl. replace (n + 1 - 1) with ((n - 1) + 1) by lia. rewrite seqZ_app by lia.
    f_equal. simpl. rewrite Htid. replace (1 + (n - 1)) with n by lia. done.
  - apply Forall_app. split; [done|]. by constructor.
Qed.

(** The statics at boot, with a frame allocator and page tables. *)
Definition boot_world (a : BitmapFrameAllocator) (pt : PT) : World PT :=
  mkWorld (set_frames kernel_new (Some a)) registry_new pt.

(** The registry with the four agents. *)
Definition swarm_registry : AgentRegistry :=
  enroll (enroll (enroll (enroll registry_new 1 supervisor_config None) 2 research1_config (Some 1))
    3 research2_config (Some 1)) 4 aggregator_config (Some 1).

Definition swarm_caps : CapabilityTable :=
  {| capabilities := [None;
       Some (mkCap 1 AgentSpawn (union (union SPAWN KILL) DELEGATE) 1 None false);
       Some (mkCap 2 (Res.Agent 4) WRITE 2 None false); Some (mkCap 3 (Res.Agent 4) WRITE 3 None false);
       Some (mkCap 4 (Res.Channel "results") PUBLISH 4 None false); Some (mkCap 5 (Res.Agent 0) READ 4 None false)];
     next_id := 6 |}.

Lemma setup_capabilities_new : setup_capabilities CapTable.new = Ret swarm_caps.
Proof. reflexivity. Qed.

(** No page of the 256 stack slots is mapped. *)
Definition stacks_unmapped (pt : PT) : Prop :=
  ∀ p, STACK_REGION_BASE ≤ p < STACK_REGION_BASE + 256 * STACK_SLOT_SIZE → translate pt p = None.

Lemma boot_ready a pt :
  alloc_wf a → (64 ≤ size (free_set a))%nat →
  stacks_unmapped pt → spawn_ready 1 (boot_world a pt).
Proof.
  intros Hwf Hsize Hun. split; [apply sys_init_wf|done|by exists a| |by exists []].
  intros id base p Hid Hb Hp. apply Hun. destruct (stack_addresses id) as [E _]; [lia|]. rewrite E in Hb.
  injection Hb as <-. unfold STACK_SLOT_SIZE, STACK_PAGES, PAGE_SIZE in *. lia.
Qed.

(** [_start] sets up the swarm; the facts the agents rely on. *)
Lemma setup_swarm_spec (e : Entries) (a : BitmapFrameAllocator) (pt : PT) :
  alloc_wf a → (64 ≤ size (free_set a))%nat → stacks_unmapped pt →
  ∃ w, setup_swarm e (boot_world a pt) = Ret w ∧ spawn_ready 5 w ∧ k_caps (w_k w) = swarm_caps ∧
    w_reg w = swarm_registry ∧ k_mailboxes (w_k w) = <[4 := []]> (<[3 := []]> (<[2 := []]> (<[1 := []]>
      (k_mailboxes (register_mailboxes kernel_new))))) ∧
    k_channels (w_k w) = {[ "results" := {| ch_id := 1; ch_name := "results"; ch_subscribers := [] |} ]} ∧
    k_ticks (w_k w) = 0 ∧
    (∃ ctx, k_contexts (w_k w) !! 1%nat = Some ctx ∧ rip ctx = trampoline_fn e ∧ r12 ctx = supervisor_fn e).
Proof.
  intros Hwf Hsize Hun. unfold setup_swarm.
  change (setup_capabilities (k_caps (w_k (boot_world a pt)))) with (setup_capabilities CapTable.new).
  rewrite setup_capabilities_new. cbn [outcome_bind]. set (w0 := mkWorld _ _ _).
  assert (H1 : spawn_ready 1 w0) by (destruct (boot_ready a pt Hwf Hsize Hun); by split).
  unfold spawn_agents.
  destruct (spawn_step None supervisor_config (supervisor_fn e) (trampoline_fn e) 1 w0 H1)
    as (w1 & -> & H2 & (Ec1 & Eh1 & Et1 & _) & Er1 & Em1 & Ex1 & Ey1); [lia|done|done|]. cbn [outcome_bind].
  destruct (spawn_step (Some 1) research1_config (researcher1_fn e) (trampoline_fn e) 2 w1 H2)
    as (w2 & -> & H3 & (Ec2 & Eh2 & Et2 & _) & Er2 & Em2 & Ex2 & Ey2); [lia|by rewrite Er1|done|]. cbn [outcome_bind].
  destruct (spawn_step (Some 1) research2_config (researcher2_fn e) (trampoline_fn e) 3 w2 H3)
    as (w3 & -> & H4 & (Ec3 & Eh3 & Et3 & _) & Er3 & Em3 & Ex3 & Ey3); [lia|by rewrite Er2, Er1|done|]. cbn [outcome_bind].
  destruct (spawn_step (Some 1) aggregator_config (aggregator_fn e) (trampoline_fn e) 4 w3 H4)
    as (w4 & -> & H5 & (Ec4 & Eh4 & Et4 & _) & Er4 & Em4 & Ex4 & Ey4); [lia|by rewrite Er3, Er2, Er1|done|].
  exists w4. split; [done|]. split; [done|]. split; [by rewrite Ec4, Ec3, Ec2, Ec1|].
  split; [by rewrite Er4, Er3, Er2, Er1|]. split; [by rewrite Em4, Em3, Em2, Em1|].
  split; [by rewrite Eh4, Eh3, Eh2, Eh1|]. split; [by rewrite Et4, Et3, Et2, Et1|].
  by rewrite Ex4, Ex3, Ex2 by done.
Qed.

(** With nobody running, the idle loop starts the first ready task. *)
Lemma idle_starts RESUME TRAMPOLINE m t ts ctx :
  sys_wf (k_sys (m_k m)) → m_need_resched m = true → abstract (k_sched (m_k m)) = (t :: ts, None, []) →
  k_contexts (m_k m) !! Z.to_nat (t_id t) = Some ctx →
  ∃ m', idle_turn RESUME TRAMPOLINE m = Ret (true, m') ∧ current_id (k_sched (m_k m')) = t_id t ∧
        m_cpu m' = load_context ctx ∧ m_idle m' = save_context RESUME (m_cpu m) ∧
        m_if m' = lands_enabled RESUME TRAMPOLINE (load_context ctx) false.
Proof.
  intros Hwf Hneed Habs Hctx. unfold idle_turn, should_reschedule. rewrite Hneed.
  unfold abstract in Habs. injection Habs as Hr Hc Hb. pose proof Hwf as (Hs & _ & _ & _).
  assert (1 ≤ t_id t) as Hid.
  { pose proof (wf_ids _ Hs) as Hi. rewrite Forall_forall in Hi. apply (Hi (t_id t)). unfold Sched.all_ids, all_tasks.
    unfold ready in Hr. rewrite Hr. simpl. by left. }
  destruct (reschedule_spec cleanup_dead_task (k_sched (m_k m)) (m_k m) Hs) as (s1 & _ & Habs1 & _ & Heq).
  unfold abstract in Habs1. rewrite Hr, Hc, Hb in Habs1. simpl in Habs1. injection Habs1 as _ Hc1 _.
  assert (current_id s1 = t_id t) as Hid1 by (unfold current_id; by rewrite Hc1).
  unfold yield_now, k_reschedule. rewrite Heq. unfold reap. rewrite Hc. cbn [outcome_bind].
  assert (current_id (k_sched (m_k m)) = 0) as -> by (unfold current_id; by rewrite Hc). rewrite Hid1.
  rewrite (proj2 (Z.eqb_neq 0 (t_id t))), (proj2 (Z.eqb_neq (t_id t) 0)) by lia. cbn [negb andb Z.eqb outcome_bind fst snd].
  change (k_contexts (set_sched (m_k m) s1)) with (k_contexts (m_k m)). rewrite Hctx. eexists. split; [reflexivity|]. done.
Qed.
End start_ok.

Lemma swarm_registry_wf : tree_wf swarm_registry.
Proof.
  unfold swarm_registry. eapply tree_step_wf; [|apply ts_spawn; [reflexivity|intros p [= <-]; by eexists]].
  eapply tree_step_wf; [|apply ts_spawn; [reflexivity|intros p [= <-]; by eexists]].
  eapply tree_step_wf; [|apply ts_spawn; [reflexivity|intros p [= <-]; by eexists]].
  eapply tree_step_wf; [|apply ts_spawn; [reflexivity|discriminate]]. apply registry_new_wf.
Qed.

(** ** The swarm

    The kernel, the local variables of the researchers and the supervisor ([None] before their first turn) and the
    aggregator's total_findings. *)
Record Swarm : Type := mkSwarm {
  s_k : Kernel;
  s_r1 : option Researcher;
  s_r2 : option Researcher;
  s_total : Z;
  s_sup : option Researcher;
}.

Inductive event : Type :=
| Sent (me n : Z) (res : result IpcError Z)
| Collected (msgs : list Message) (sums : list Z).

(** A turn of one of the agents, or anything else that leaves the capabilities and the aggregator's
    mailbox alone while time goes on. *)
Inductive swarm_step (s : Swarm) : list event → Swarm → Prop :=
| sw_start1 r : s_r1 s = None → researcher_start 100 (s_k s) = Ret r →
    swarm_step s [] (mkSwarm (s_k s) (Some r) (s_r2 s) (s_total s) (s_sup s))
| sw_start2 r : s_r2 s = None → researcher_start 200 (s_k s) = Ret r →
    swarm_step s [] (mkSwarm (s_k s) (s_r1 s) (Some r) (s_total s) (s_sup s))
| sw_find1 free r res r' k' : s_r1 s = Some r → ready_at (target r) (s_k s) = true →
    agent_researcher_1 free r (s_k s) = Ret (res, r', k') →
    swarm_step s [Sent 2 (finding_num r') res] (mkSwarm k' (Some r') (s_r2 s) (s_total s) (s_sup s))
| sw_find2 free r res r' k' : s_r2 s = Some r → ready_at (target r) (s_k s) = true →
    agent_researcher_2 free r (s_k s) = Ret (res, r', k') →
    swarm_step s [Sent 3 (finding_num r') res] (mkSwarm k' (s_r1 s) (Some r') (s_total s) (s_sup s))
| sw_collect total msgs sums k' : agent_aggregator (s_total s) (s_k s) = Ret (Some (total, msgs, sums, k')) →
    swarm_step s [Collected msgs sums] (mkSwarm k' (s_r1 s) (s_r2 s) total (s_sup s))
| sw_start_sup r : s_sup s = None → researcher_start 500 (s_k s) = Ret r →
    swarm_step s [] (mkSwarm (s_k s) (s_r1 s) (s_r2 s) (s_total s) (Some r))
| sw_report r reg r' report : s_sup s = Some r → ready_at (target r) (s_k s) = true →
    agent_supervisor r reg (s_k s) = Ret (r', report) →
    swarm_step s [] (mkSwarm (s_k s) (s_r1 s) (s_r2 s) (s_total s) (Some r'))
| sw_other k' : k_caps k' = k_caps (s_k s) → k_mailboxes k' !! 4 = k_mailboxes (s_k s) !! 4 → k_ticks (s_k s) ≤ k_ticks k' →
    swarm_step s [] (mkSwarm k' (s_r1 s) (s_r2 s) (s_total s) (s_sup s)).

Inductive swarm_run (s : Swarm) : list event → Swarm → Prop :=
| swr_start : swarm_run s [] s
| swr_step tr s1 ev s2 : swarm_run s tr s1 → swarm_step s1 ev s2 → swarm_run s (tr ++ ev) s2.

Definition swarm_start (k : Kernel) : Swarm := mkSwarm k None None 0 None.

(** What the events say: the messages accepted, the messages collected, the summaries and the
    findings of one researcher. *)
Definition finding_by (me n : Z) : list Z :=
  if me =? 2 then finding "researcher-1" "AI alignment" n else finding "researcher-2" "gradient optimization" n.

Definition accepted (tr : list event) : list Message :=
  tr ≫= λ ev, match ev with Sent me n (Ok id) => [mkMsg id me 4 Data (finding_by me n) None None] | _ => [] end.

Definition collected (tr : list event) : list Message := tr ≫= λ ev, match ev with Collected msgs _ => msgs | _ => [] end.

Definition summaries (tr : list event) : list Z := tr ≫= λ ev, match ev with Collected _ sums => sums | _ => [] end.

Definition findings_of (me : Z) (tr : list event) : list Z :=
  tr ≫= λ ev, match ev with Sent me' n _ => if me' =? me then [n] else [] | _ => [] end.

Definition found (r : option Researcher) : Z := match r with Some r => finding_num r | None => 0 end.

(** One turn of a researcher with its capability. *)
Lemma researcher_turn_spec free me cap cadence payload r k res r' k' c q :
  researcher_turn free me cap cadence payload r k = Ret (res, r', k') →
  validate (k_caps k) cap me WRITE = Ok c → k_mailboxes k !! 4 = Some q →
  finding_num r' = finding_num r + 1 ∧ finding_num r < U32_MAX ∧ target r' = k_ticks k + cadence ∧
  k_caps k' = k_caps k ∧ k_ticks k' = k_ticks k ∧
  match res with
  | Ok id => (length q < 256)%nat ∧
             k_mailboxes k' !! 4 = Some (q ++ [mkMsg id me 4 Data (payload (finding_num r')) None None])
  | Err err => err = MailboxFull ∧ (256 ≤ length q)%nat ∧ k_mailboxes k' !! 4 = Some q
  end.
Proof.
  intros H Hc Hq. unfold researcher_turn in H. destruct (checked_add32 (finding_num r) 1) as [n|] eqn:En; [|done].
  apply checked_add32_Ret in En as [-> Hmax]. cbn [outcome_bind] in H. rewrite Ipc.send_eq, Hc in H.
  cbn [Ipc.transfer] in H. unfold ret in H. cbn match in H. rewrite Hq in H. unfold Ipc.MAILBOX_CAPACITY in H.
  case_decide as Hfull; cbn [outcome_bind fst snd] in H.
  - destruct (checked_add64 _ cadence) as [t|] eqn:Et; [|done]. apply checked_add64_Ret in Et as [-> _].
    simplify_eq/=. split; [done|]. split; [lia|]. done.
  - destruct (checked_add64 _ cadence) as [t|] eqn:Et; [|done]. apply checked_add64_Ret in Et as [-> _].
    cbn [outcome_bind] in H. injection H as <- <- <-. simpl finding_num. simpl target.
    split; [done|]. split; [lia|]. destruct free; simpl; rewrite lookup_insert_eq; (split; [done|]; split; [done|];
      split; [done|]; split; [lia|done]).
Qed.

(** The collecting loop empties the mailbox in order. *)
Lemma collect_findings_spec fuel total k q :
  k_mailboxes k !! 4 = Some q → (length q < fuel)%nat → 0 ≤ total → total + Z.of_nat (length q) ≤ U32_MAX →
  ∃ k', collect_findings fuel total k =
          Ret (Some (total + Z.of_nat (length q), q, filter (λ n, n mod 5 = 0) (seqZ (total + 1) (Z.of_nat (length q))), k')) ∧
        k_mailboxes k' !! 4 = Some [] ∧ k_caps k' = k_caps k ∧ k_ticks k' = k_ticks k.
Proof.
  revert total k q. induction fuel as [|fuel IH]; intros total k q Hq Hf H0 Hmax; [lia|].
  cbn [collect_findings]. unfold Ipc.receive. rewrite Hq. destruct q as [|msg q]; simpl Ipc.pop; cbv beta iota.
  - eexists. split; [do 3 f_equal; simpl; rewrite Z.add_0_r; done|]. simpl. by rewrite lookup_insert_eq.
  - unfold checked_add32. rewrite decide_True by (simpl in Hmax; lia). cbn [outcome_bind].
    destruct (IH (total + 1) (set_mailboxes k (<[4 := q]> (k_mailboxes k))) q) as (k' & -> & Hq' & Hc & Ht);
      [apply lookup_insert_eq|simpl in Hf; lia|lia|simpl in Hmax; lia|].
    cbn [outcome_bind]. exists k'. split; [|done]. simpl. do 2 f_equal.
    replace (Z.of_nat (S (length q))) with (1 + Z.of_nat (length q)) by lia.
    rewrite (seqZ_cons (total + 1)) by lia. rewrite filter_cons. replace (Z.pred (1 + Z.of_nat (length q))) with (Z.of_nat (length q)) by lia.
    replace (Z.succ (total + 1)) with (total + 1 + 1) by lia.
    replace (total + (1 + Z.of_nat (length q))) with (total + 1 + Z.of_nat (length q)) by lia.
    f_equal. f_equal. destruct (Z.eqb_spec ((total + 1) mod 5) 0) as [E|E]; [rewrite decide_True by done|rewrite decide_False by done]; done.
Qed.

Lemma collect_findings_overflows fuel total k q :
  k_mailboxes k !! 4 = Some q → (length q < fuel)%nat → total ≤ U32_MAX → U32_MAX < total + Z.of_nat (length q) →
  collect_findings fuel total k = Panic.
Proof.
  revert total k q. induction fuel as [|fuel IH]; intros total k q Hq Hf H0 Hmax; [lia|].
  cbn [collect_findings]. unfold Ipc.receive. rewrite Hq. destruct q as [|msg q]; [simpl in Hmax; lia|]. simpl Ipc.pop. cbv beta iota.
  unfold checked_add32. case_decide; [|done]. cbn [outcome_bind].
  rewrite (IH (total + 1) _ q); [done|apply lookup_insert_eq|simpl in Hf; lia|lia|simpl in Hmax; lia].
Qed.

Lemma agent_aggregator_spec total k q r :
  agent_aggregator total k = Ret r → k_mailboxes k !! 4 = Some q → (length q ≤ 256)%nat → 0 ≤ total ≤ U32_MAX →
  ∃ k', r = Some (total + Z.of_nat (length q), q, filter (λ n, n mod 5 = 0) (seqZ (total + 1) (Z.of_nat (length q))), k') ∧
        total + Z.of_nat (length q) ≤ U32_MAX ∧
        k_mailboxes k' !! 4 = Some [] ∧ k_caps k' = k_caps k ∧ k_ticks k' = k_ticks k.
Proof.
  unfold agent_aggregator, Ipc.MAILBOX_CAPACITY. intros H Hq Hlen H0.
  destruct (decide (total + Z.of_nat (length q) ≤ U32_MAX)) as [Hmax|Hmax].
  - destruct (collect_findings_spec 257 total k q) as (k' & E & ?); [done|lia|lia|done|].
    rewrite E in H. injection H as <-. exists k'. done.
  - rewrite (collect_findings_overflows 257 total k q) in H; [done|done|lia|lia|lia].
Qed.

(** The pace of a researcher that starts after [d] ticks and works [c] ticks between findings. *)
Definition paced (d c : Z) (o : option Researcher) (now : Z) : Prop :=
  ∀ r, o = Some r → 0 ≤ finding_num r ∧ d + c * finding_num r ≤ target r ∧ (0 < finding_num r → target r ≤ now + c).

Lemma paced_start d c r k now :
  researcher_start d k = Ret r → 0 ≤ k_ticks k → paced d c (Some r) now.
Proof.
  unfold researcher_start. destruct (checked_add64 _ d) as [t|] eqn:Et; [|done]. apply checked_add64_Ret in Et as [-> _].
  intros H H0 ? [= <-]. injection H as <-. simpl. lia.
Qed.

Lemma paced_turn d c r r' now :
  paced d c (Some r) now → 0 ≤ c → target r ≤ now → finding_num r' = finding_num r + 1 → target r' = now + c →
  paced d c (Some r') now.
Proof. intros H Hc Ht Hn Ht' ? [= <-]. destruct (H r eq_refl) as (? & ? & _). rewrite Hn, Ht'. split; [lia|]. split; nia. Qed.

Lemma paced_later d c o now now' : paced d c o now → now ≤ now' → paced d c o now'.
Proof. intros H Hle r Hr. destruct (H r Hr) as (? & ? & ?). split; [done|]. split; [done|]. lia. Qed.

Lemma paced_found d c o now : paced d c o now → 0 < c → 0 ≤ d → 0 ≤ now → 0 ≤ found o ∧ (found o - 1) * c + d ≤ now ∨ found o = 0.
Proof.
  intros H Hc Hd Hn. destruct o as [r|]; simpl; [|by right]. destruct (H r eq_refl) as (? & ? & Hle).
  destruct (decide (finding_num r = 0)); [by right|left]. specialize (Hle ltac:(lia)). lia.
Qed.

(** The invariant of the swarm. *)
Record swarm_ok (s : Swarm) (tr : list event) : Prop := {
  so_caps : k_caps (s_k s) = swarm_caps;
  so_mail : ∃ q, k_mailboxes (s_k s) !! 4 = Some q ∧ (length q ≤ 256)%nat ∧ accepted tr = collected tr ++ q;
  so_total : s_total s = Z.of_nat (length (collected tr)) ∧ s_total s ≤ U32_MAX;
  so_sums : summaries tr = filter (λ n, n mod 5 = 0) (seqZ 1 (s_total s));
  so_full : ∀ me n err, Sent me n (Err err) ∈ tr → err = MailboxFull;
  so_found1 : findings_of 2 tr = seqZ 1 (found (s_r1 s));
  so_found2 : findings_of 3 tr = seqZ 1 (found (s_r2 s));
  so_ticks : 0 ≤ k_ticks (s_k s);
  so_pace1 : paced 100 300 (s_r1 s) (k_ticks (s_k s));
  so_pace2 : paced 200 400 (s_r2 s) (k_ticks (s_k s));
  so_pace3 : paced 500 500 (s_sup s) (k_ticks (s_k s));
  so_count : Z.of_nat (length (accepted tr)) ≤ found (s_r1 s) + found (s_r2 s);
}.

Lemma accepted_app tr ev : accepted (tr ++ ev) = accepted tr ++ accepted ev.
Proof. apply bind_app. Qed.
Lemma collected_app tr ev : collected (tr ++ ev) = collected tr ++ collected ev.
Proof. apply bind_app. Qed.
Lemma summaries_app tr ev : summaries (tr ++ ev) = summaries tr ++ summaries ev.
Proof. apply bind_app. Qed.
Lemma findings_of_app me tr ev : findings_of me (tr ++ ev) = findings_of me tr ++ findings_of me ev.
Proof. apply bind_app. Qed.

Lemma seqZ_snoc a n : 0 ≤ n → seqZ a (n + 1) = seqZ a n ++ [a + n].
Proof. intros Hn. rewrite seqZ_app by lia. f_equal. Qed.

(** What a send adds to the trace, accepted or refused. *)
Lemma sent_ok s tr me n res k' :
  swarm_ok s tr →
  (∀ q, k_mailboxes (s_k s) !! 4 = Some q →
     match res with
     | Ok id => (length q < 256)%nat ∧ k_mailboxes k' !! 4 = Some (q ++ [mkMsg id me 4 Data (finding_by me n) None None])
     | Err err => err = MailboxFull ∧ (256 ≤ length q)%nat ∧ k_mailboxes k' !! 4 = Some q
     end) →
  let tr' := tr ++ [Sent me n res] in
  (∃ q, k_mailboxes k' !! 4 = Some q ∧ (length q ≤ 256)%nat ∧ accepted tr' = collected tr' ++ q) ∧
  collected tr' = collected tr ∧ summaries tr' = summaries tr ∧
  (∀ me n err, Sent me n (Err err) ∈ tr' → err = MailboxFull) ∧
  Z.of_nat (length (accepted tr')) ≤ Z.of_nat (length (accepted tr)) + 1.
Proof.
  intros Hok Hres tr'. unfold tr'. destruct (so_mail _ _ Hok) as (q & Hq & Hlen & Hacc). specialize (Hres q Hq).
  rewrite !accepted_app, !collected_app, !summaries_app, length_app, Hacc. simpl. rewrite !app_nil_r.
  destruct res as [id|err].
  - destruct Hres as [Hlt Hq']. split; [|split; [done|]; split; [done|]; split; [|simpl; lia]].
    + exists (q ++ [mkMsg id me 4 Data (finding_by me n) None None]). rewrite length_app, <-app_assoc. simpl. split; [done|]. split; [lia|done].
    + intros me' n' err [H|H]%elem_of_app; [by eapply so_full|]. apply list_elem_of_singleton in H. done.
  - destruct Hres as (-> & _ & Hq'). split; [|split; [done|]; split; [done|]; split; [|simpl; lia]].
    + exists q. simpl. by rewrite app_nil_r.
    + intros me' n' err [H|H]%elem_of_app; [by eapply so_full|]. apply list_elem_of_singleton in H. congruence.
Qed.

(** The researchers hold the capabilities they send with. *)
Lemma researcher_caps :
  validate swarm_caps 2 2 WRITE = Ok (mkCap 2 (Res.Agent 4) WRITE 2 None false) ∧
  validate swarm_caps 3 3 WRITE = Ok (mkCap 3 (Res.Agent 4) WRITE 3 None false).
Proof. split; vm_compute; reflexivity. Qed.

Lemma start_found d k r : researcher_start d k = Ret r → found (Some r) = 0.
Proof. unfold researcher_start. destruct (checked_add64 _ _); [|done]. intros H. by injection H as <-. Qed.

Lemma agent_supervisor_spec r reg k r' report :
  agent_supervisor r reg k = Ret (r', report) → finding_num r' = finding_num r + 1 ∧ target r' = k_ticks k + 500.
Proof.
  unfold agent_supervisor. destruct (checked_add32 _ _) as [n|] eqn:En; [|done]. cbn [outcome_bind].
  destruct (checked_add64 _ _) as [t|] eqn:Et; [|done]. intros [= <- _].
  apply checked_add32_Ret in En as [-> _]. apply checked_add64_Ret in Et as [-> _]. done.
Qed.

Lemma supervisor_paced r reg k r' report :
  paced 500 500 (Some r) (k_ticks k) → ready_at (target r) k = true → agent_supervisor r reg k = Ret (r', report) →
  paced 500 500 (Some r') (k_ticks k).
Proof.
  intros Hp Hready%Z.leb_le [Hn Ht]%agent_supervisor_spec. by eapply paced_turn.
Qed.

Lemma swarm_start_ok s tr ev s' :
  swarm_ok s tr → swarm_step s ev s' → ev = [] → swarm_ok s' (tr ++ ev).
Proof.
  intros Hok Hstep ->. rewrite app_nil_r. inversion Hstep as [r Hr E|r Hr E| | | |r Hr E|r reg r' rep Hr Hready E|k' Hc Hm Ht]; subst; destruct Hok; split;
    cbn [s_k s_r1 s_r2 s_total s_sup]; try done.
  - rewrite (start_found _ _ _ E). by rewrite Hr in so_found3.
  - by eapply paced_start.
  - rewrite (start_found _ _ _ E). by rewrite Hr in so_count0.
  - rewrite (start_found _ _ _ E). by rewrite Hr in so_found4.
  - by eapply paced_start.
  - rewrite (start_found _ _ _ E). by rewrite Hr in so_count0.
  - by eapply paced_start.
  - rewrite Hr in so_pace6. by eapply supervisor_paced.
  - congruence.
  - by rewrite Hm.
  - lia.
  - by eapply paced_later.
  - by eapply paced_later.
  - by eapply paced_later.
Qed.

Lemma swarm_find1_ok s tr free r res r' k' :
  swarm_ok s tr → s_r1 s = Some r → ready_at (target r) (s_k s) = true →
  agent_researcher_1 free r (s_k s) = Ret (res, r', k') →
  swarm_ok (mkSwarm k' (Some r') (s_r2 s) (s_total s) (s_sup s)) (tr ++ [Sent 2 (finding_num r') res]).
Proof.
  intros Hok Hr Hready E. destruct (so_mail _ _ Hok) as (q & Hq & _).
  unfold agent_researcher_1 in E. eapply researcher_turn_spec in E as (Hn & _ & Ht & Hc & Hk & Hres); [|rewrite (so_caps _ _ Hok); apply researcher_caps|done].
  edestruct (sent_ok s tr 2 (finding_num r') res k' Hok) as (Hmail & Hcol & Hsum & Hfull & Hcnt).
  { intros q' Hq'. replace q' with q by congruence. exact Hres. }
  destruct (so_pace1 _ _ Hok r Hr) as [H0 _]. pose proof (so_count _ _ Hok) as Hcount. rewrite Hr in Hcount.
  unfold ready_at in Hready. apply Z.leb_le in Hready. split; simpl.
  - by rewrite Hc, (so_caps _ _ Hok).
  - done.
  - rewrite Hcol. apply Hok.
  - rewrite Hsum. apply Hok.
  - done.
  - rewrite findings_of_app, (so_found1 _ _ Hok), Hr. simpl. rewrite Hn, seqZ_snoc by done. do 2 f_equal. lia.
  - rewrite findings_of_app, app_nil_r. apply Hok.
  - rewrite Hk. apply Hok.
  - rewrite Hk. eapply paced_turn; [rewrite <-Hr; apply Hok|lia|done|done|done].
  - rewrite Hk. apply Hok.
  - rewrite Hk. apply Hok.
  - simpl in Hcount. lia.
Qed.

Lemma swarm_find2_ok s tr free r res r' k' :
  swarm_ok s tr → s_r2 s = Some r → ready_at (target r) (s_k s) = true →
  agent_researcher_2 free r (s_k s) = Ret (res, r', k') →
  swarm_ok (mkSwarm k' (s_r1 s) (Some r') (s_total s) (s_sup s)) (tr ++ [Sent 3 (finding_num r') res]).
Proof.
  intros Hok Hr Hready E. destruct (so_mail _ _ Hok) as (q & Hq & _).
  unfold agent_researcher_2 in E. eapply researcher_turn_spec in E as (Hn & _ & Ht & Hc & Hk & Hres); [|rewrite (so_caps _ _ Hok); apply researcher_caps|done].
  edestruct (sent_ok s tr 3 (finding_num r') res k' Hok) as (Hmail & Hcol & Hsum & Hfull & Hcnt).
  { intros q' Hq'. replace q' with q by congruence. exact Hres. }
  destruct (so_pace2 _ _ Hok r Hr) as [H0 _]. pose proof (so_count _ _ Hok) as Hcount. rewrite Hr in Hcount.
  unfold ready_at in Hready. apply Z.leb_le in Hready. split; simpl.
  - by rewrite Hc, (so_caps _ _ Hok).
  - done.
  - rewrite Hcol. apply Hok.
  - rewrite Hsum. apply Hok.
  - done.
  - rewrite findings_of_app, app_nil_r. apply Hok.
  - rewrite findings_of_app, (so_found2 _ _ Hok), Hr. simpl. rewrite Hn, seqZ_snoc by done. do 2 f_equal. lia.
  - rewrite Hk. apply Hok.
  - rewrite Hk. apply Hok.
  - rewrite Hk. eapply paced_turn; [rewrite <-Hr; apply Hok|lia|done|done|done].
  - rewrite Hk. apply Hok.
  - simpl in Hcount. lia.
Qed.

Lemma swarm_collect_ok s tr total msgs sums k' :
  swarm_ok s tr → agent_aggregator (s_total s) (s_k s) = Ret (Some (total, msgs, sums, k')) →
  swarm_ok (mkSwarm k' (s_r1 s) (s_r2 s) total (s_sup s)) (tr ++ [Collected msgs sums]).
Proof.
  intros Hok E. destruct (so_mail _ _ Hok) as (q & Hq & Hlen & Hacc). destruct (so_total _ _ Hok) as [Htot Hmax].
  eapply agent_aggregator_spec in E as (k1 & Heq & Hb & Hq' & Hc & Ht); [|done|done|lia].
  injection Heq as -> -> -> ->. split; simpl.
  - by rewrite Hc, (so_caps _ _ Hok).
  - exists []. rewrite accepted_app, collected_app, Hacc. simpl. rewrite !app_nil_r. split; [done|]. split; [lia|done].
  - rewrite collected_app, length_app. simpl. rewrite app_nil_r. lia.
  - rewrite summaries_app, (so_sums _ _ Hok). simpl. rewrite app_nil_r.
    rewrite (seqZ_app 1 (s_total s) (Z.of_nat (length q))) by lia. rewrite filter_app. do 3 f_equal. lia.
  - intros me n err [H|H]%elem_of_app; [by eapply so_full|]. by apply list_elem_of_singleton in H.
  - rewrite findings_of_app, app_nil_r. apply Hok.
  - rewrite findings_of_app, app_nil_r. apply Hok.
  - rewrite Ht. apply Hok.
  - rewrite Ht. apply Hok.
  - rewrite Ht. apply Hok.
  - rewrite Ht. apply Hok.
  - rewrite accepted_app, app_nil_r. apply Hok.
Qed.

Lemma swarm_run_ok k tr s :
  k_caps k = swarm_caps → k_mailboxes k !! 4 = Some [] → 0 ≤ k_ticks k →
  swarm_run (swarm_start k) tr s → swarm_ok s tr.
Proof.
  intros Hc Hq Ht. induction 1 as [|tr s1 ev s2 _ IH Hstep].
  - split; simpl; try done; [exists []; split; [done|]; split; [apply Nat.le_0_l|done]|].
    intros me n err H. by apply elem_of_nil in H.
  - destruct ev as [|e ev]; [by eapply swarm_start_ok|].
    inversion Hstep; subst; [by eapply swarm_find1_ok|by eapply swarm_find2_ok|by apply swarm_collect_ok].
Qed.

Lemma researcher_turn_returns free me cap cadence payload r k c q :
  validate (k_caps k) cap me WRITE = Ok c → k_mailboxes k !! 4 = Some q →
  finding_num r < U32_MAX → k_ticks k + cadence ≤ U64_MAX →
  ∃ out, researcher_turn free me cap cadence payload r k = Ret out.
Proof.
  intros Hc Hq Hn Ht. unfold researcher_turn. unfold checked_add32. rewrite decide_True by lia. cbn [outcome_bind].
  rewrite Ipc.send_eq, Hc. cbn [Ipc.transfer]. unfold ret. cbn match. rewrite Hq.
  case_decide; cbn [outcome_bind fst snd]; unfold checked_add64; (rewrite decide_True; [by eexists|]); [done|].
  by destruct free.
Qed.

(** The number of findings in [now] ticks. *)
Lemma paced_bound d c o now : paced d c o now → 0 < c → 0 ≤ d ≤ c → 0 ≤ now → found o ≤ (now + c - d) / c.
Proof.
  intros H Hc Hd Hn. apply Z.div_le_lower_bound; [done|].
  destruct (paced_found d c o now H) as [[? ?]| ->]; nia.
Qed.

Lemma swarm_from_boot {PT : Type} `{!Mapper PT, !MapperLaws PT, !MapperProgress PT} e a (pt : PT) w tr s :
  alloc_wf a → (64 ≤ size (free_set a))%nat → stacks_unmapped pt →
  setup_swarm e (boot_world a pt) = Ret w → swarm_run (swarm_start (w_k w)) tr s → swarm_ok s tr.
Proof.
  intros Hwf Hsize Hun E Hrun. destruct (setup_swarm_spec e a pt Hwf Hsize Hun) as (w' & E' & _ & Hcaps & _ & Hmail & _ & Ht & _).
  rewrite E in E'. injection E' as <-. eapply swarm_run_ok; [exact Hcaps| |rewrite Ht; lia|exact Hrun].
  rewrite Hmail. apply lookup_insert_eq.
Qed.

(** *** Properties *)

(** Booting the swarm.  With 64 free frames and the stack slots unmapped, and with any mapper
    that needs at most three tables for a page, [_start] sets up the swarm without a panic: the
    agents get the ids 1 to 4 that their capabilities and mailboxes were made for; the supervisor
    has the other three as children and the registry is a forest; each researcher may send to the
    aggregator and the aggregator may publish; the mailboxes are empty; the tasks are ready in the
    order of their creation, and the first idle turn with a pending reschedule starts the
    supervisor in its trampoline with interrupts enabled. *)
Theorem boot_swarm {PT : Type} `{!Mapper PT, !MapperLaws PT, !MapperProgress PT} (e : Entries) (a : BitmapFrameAllocator)
    (pt : PT) (RESUME : Z) (idle cpu : CpuContext) :
  alloc_wf a → (64 ≤ size (free_set a))%nat → stacks_unmapped pt →
  ∃ w, setup_swarm e (boot_world a pt) = Ret w ∧ sys_wf (w_sys w) ∧ tree_wf (w_reg w) ∧
    (find_by_name (w_reg w) "supervisor" = Some 1 ∧ find_by_name (w_reg w) "researcher-1" = Some 2 ∧
     find_by_name (w_reg w) "researcher-2" = Some 3 ∧ find_by_name (w_reg w) "aggregator" = Some 4 ∧
     (a_children <$> get (w_reg w) 1) = Some [2; 3; 4]) ∧
    (∃ c2 c3 c4, validate (k_caps (w_k w)) 2 2 WRITE = Ok c2 ∧ validate (k_caps (w_k w)) 3 3 WRITE = Ok c3 ∧
       validate (k_caps (w_k w)) 4 4 PUBLISH = Ok c4 ∧ c_resource c2 = Res.Agent 4 ∧ c_resource c3 = Res.Agent 4 ∧
       c_resource c4 = Res.Channel "results") ∧
    (∀ i, 1 ≤ i ≤ 4 → k_mailboxes (w_k w) !! i = Some []) ∧ is_Some (k_channels (w_k w) !! "results") ∧
    t_id <$> ready (k_sched (w_k w)) = [1; 2; 3; 4] ∧
    ∃ m', idle_turn RESUME (trampoline_fn e) (mkMachine (w_k w) idle cpu true true) = Ret (true, m') ∧
      current_id (k_sched (m_k m')) = 1 ∧ rip (m_cpu m') = trampoline_fn e ∧ r12 (m_cpu m') = supervisor_fn e ∧ m_if m' = true.
Proof.
  intros Hwf Hsize Hun. destruct (setup_swarm_spec e a pt Hwf Hsize Hun) as (w & E & Hr & Hcaps & Hreg & Hmail & Hch & _ & Hctx).
  exists w. split; [done|]. split; [apply Hr|]. split; [rewrite Hreg; apply swarm_registry_wf|].
  split; [rewrite Hreg; done|]. split; [rewrite Hcaps; eexists _, _, _; done|].
  split; [|split; [rewrite Hch; by eexists|]].
  { intros i Hi. rewrite Hmail. assert (i = 1 ∨ i = 2 ∨ i = 3 ∨ i = 4) as [->|[->|[->| ->]]] by lia; reflexivity. }
  destruct (sr_tasks _ _ Hr) as (ts & Hts & Hids & _). change (seqZ 1 (5 - 1)) with [1; 2; 3; 4] in Hids.
  assert (ready (k_sched (w_k w)) = ts) as -> by (unfold abstract in Hts; congruence). split; [done|].
  destruct ts as [|t ts]; [done|]. injection Hids as Hid Hids. destruct Hctx as (ctx & Hctx & Hrip & Hr12).
  destruct (idle_starts RESUME (trampoline_fn e) (mkMachine (w_k w) idle cpu true true) t ts ctx)
    as (m' & Em & Hcur & Hcpu & _ & Hif); [apply Hr|done|done|by rewrite Hid|].
  exists m'. split; [done|]. split; [congruence|]. rewrite Hcpu, Hif. simpl. split; [done|]. split; [done|].
  unfold lands_enabled. rewrite decide_True; [done|]. by right.
Qed.

(** C20: the swarm loses no finding it accepted.  From the booted state and for any order of the
    agents' turns, with anything in between that leaves the capabilities and mailbox 4 alone: a send
    of a researcher only fails because the mailbox is full; the messages accepted are the messages
    collected followed by those waiting, in the same order; total_findings is the number collected and
    a summary was printed for exactly the multiples of five; and each researcher numbered its
    findings 1, 2, 3, ... *)
Theorem swarm_accounting {PT : Type} `{!Mapper PT, !MapperLaws PT, !MapperProgress PT} (e : Entries)
    (a : BitmapFrameAllocator) (pt : PT) (w : World PT) (tr : list event) (s : Swarm) :
  alloc_wf a → (64 ≤ size (free_set a))%nat → stacks_unmapped pt →
  setup_swarm e (boot_world a pt) = Ret w → swarm_run (swarm_start (w_k w)) tr s →
  (∀ me n err, Sent me n (Err err) ∈ tr → err = MailboxFull) ∧
  (∃ q, k_mailboxes (s_k s) !! 4 = Some q ∧ (length q ≤ Ipc.MAILBOX_CAPACITY)%nat ∧ accepted tr = collected tr ++ q) ∧
  s_total s = Z.of_nat (length (collected tr)) ∧
  summaries tr = filter (λ n, n mod 5 = 0) (seqZ 1 (s_total s)) ∧
  findings_of 2 tr = seqZ 1 (found (s_r1 s)) ∧ findings_of 3 tr = seqZ 1 (found (s_r2 s)).
Proof.
  intros Hwf Hsize Hun E Hrun. destruct (swarm_from_boot e a pt w tr s Hwf Hsize Hun E Hrun) as [_ Hmail [Ht _] ? ? ? ? _ _ _ _ _].
  done.
Qed.

(** C21: the agents' u32 counters.  The researchers start after 100 and 200 ticks and wait 300 and 400 ticks between
    findings, so by tick [t] they have at most (t + 200) / 300 and (t + 200) / 400; the supervisor has made at
    most t / 500 reports; the aggregator has counted at most the researchers' sum; and up to tick 2^39 no turn of
    the four agents panics on an overflow, and the aggregator's loop ends with the mailbox empty. *)
Theorem swarm_counters_bounded {PT : Type} `{!Mapper PT, !MapperLaws PT, !MapperProgress PT} (e : Entries)
    (a : BitmapFrameAllocator) (pt : PT) (w : World PT) (tr : list event) (s : Swarm) :
  alloc_wf a → (64 ≤ size (free_set a))%nat → stacks_unmapped pt →
  setup_swarm e (boot_world a pt) = Ret w → swarm_run (swarm_start (w_k w)) tr s →
  found (s_r1 s) ≤ (k_ticks (s_k s) + 200) / 300 ∧ found (s_r2 s) ≤ (k_ticks (s_k s) + 200) / 400 ∧
  found (s_sup s) ≤ k_ticks (s_k s) / 500 ∧ s_total s ≤ found (s_r1 s) + found (s_r2 s) ∧
  (k_ticks (s_k s) ≤ 2 ^ 39 →
   (∀ free r, s_r1 s = Some r → ∃ out, agent_researcher_1 free r (s_k s) = Ret out) ∧
   (∀ free r, s_r2 s = Some r → ∃ out, agent_researcher_2 free r (s_k s) = Ret out) ∧
   (∀ reg r, s_sup s = Some r → ∃ out, agent_supervisor r reg (s_k s) = Ret out) ∧
   ∃ total msgs sums k', agent_aggregator (s_total s) (s_k s) = Ret (Some (total, msgs, sums, k')) ∧
     k_mailboxes k' !! 4 = Some []).
Proof.
  intros Hwf Hsize Hun E Hrun. pose proof (swarm_from_boot e a pt w tr s Hwf Hsize Hun E Hrun) as Hok.
  destruct (so_mail _ _ Hok) as (q & Hq & Hlen & Hacc). destruct (so_total _ _ Hok) as [Htot _].
  pose proof (so_count _ _ Hok) as Hcnt. rewrite Hacc, length_app in Hcnt. pose proof (so_ticks _ _ Hok) as H0.
  pose proof (paced_bound _ _ _ _ (so_pace1 _ _ Hok) ltac:(lia) ltac:(lia) H0) as H1.
  pose proof (paced_bound _ _ _ _ (so_pace2 _ _ Hok) ltac:(lia) ltac:(lia) H0) as H2.
  replace (k_ticks (s_k s) + 300 - 100) with (k_ticks (s_k s) + 200) in H1 by lia.
  replace (k_ticks (s_k s) + 400 - 200) with (k_ticks (s_k s) + 200) in H2 by lia.
  pose proof (paced_bound _ _ _ _ (so_pace3 _ _ Hok) ltac:(lia) ltac:(lia) H0) as H3.
  replace (k_ticks (s_k s) + 500 - 500) with (k_ticks (s_k s)) in H3 by lia.
  split; [done|]. split; [done|]. split; [done|]. split; [lia|]. intros Hticks.
  assert (Hd : ∀ c, 0 < c → (k_ticks (s_k s) + 200) / c ≤ (2 ^ 39 + 200) / c) by (intros c Hc; apply Z.div_le_mono; lia).
  pose proof (Hd 300 ltac:(lia)) as Hd1. pose proof (Hd 400 ltac:(lia)) as Hd2.
  assert (k_ticks (s_k s) / 500 ≤ 2 ^ 39 / 500) as Hd3 by (apply Z.div_le_mono; lia).
  change (2 ^ 39 / 500) with 1099511627 in Hd3.
  change ((2 ^ 39 + 200) / 300) with 1832519380 in Hd1. change ((2 ^ 39 + 200) / 400) with 1374389535 in Hd2.
  assert (found (s_r1 s) + found (s_r2 s) < U32_MAX ∧ found (s_r1 s) < U32_MAX ∧ found (s_r2 s) < U32_MAX ∧
    found (s_sup s) < U32_MAX ∧ k_ticks (s_k s) + 500 ≤ U64_MAX) as (Hs & Hs1 & Hs2 & Hs3 & Hu) by (unfold U32_MAX, U64_MAX; lia).
  split; [|split; [|split]].
  - intros free r Hr. rewrite Hr in Hs1. unfold agent_researcher_1.
    eapply researcher_turn_returns; [rewrite (so_caps _ _ Hok); apply researcher_caps|exact Hq|exact Hs1|lia].
  - intros free r Hr. rewrite Hr in Hs2. unfold agent_researcher_2.
    eapply researcher_turn_returns; [rewrite (so_caps _ _ Hok); apply researcher_caps|exact Hq|exact Hs2|lia].
  - intros reg r Hr. rewrite Hr in Hs3. simpl in Hs3. unfold agent_supervisor, checked_add32, checked_add64.
    rewrite decide_True by lia. cbn [outcome_bind]. rewrite decide_True by lia. by eexists.
  - destruct (collect_findings_spec 257 (s_total s) (s_k s) q) as (k' & E' & Hq' & _); [done|lia|lia|lia|].
    eexists _, _, _, k'. split; [exact E'|exact Hq'].
Qed.

(** *** Witnesses *)
Definition demo_entries : Entries := mkEntries 0x1000 0x2000 0x3000 0x4000 0x5000.

Lemma no_stacks : stacks_unmapped no_pages.
Proof. intros p _. apply no_pages_unmapped. Qed.

Lemma heap_frames_enough : alloc_wf heap_frames ∧ (64 ≤ size (free_set heap_frames))%nat.
Proof. destruct heap_frames_wf as [H ->]. split; [done|lia]. Qed.

(** Researcher 1 starts, waits 100 ticks and sends its first finding. *)
Lemma demo_swarm_run : ∃ w res s,
  setup_swarm demo_entries (boot_world heap_frames no_pages) = Ret w ∧
  swarm_run (swarm_start (w_k w)) [Sent 2 1 res] s ∧ k_ticks (s_k s) = 100.
Proof.
  destruct heap_frames_enough as [Hwf Hsize].
  destruct (setup_swarm_spec demo_entries heap_frames no_pages Hwf Hsize no_stacks)
    as (w & E & _ & Hcaps & _ & Hmail & _ & Ht & _).
  set (r := mkResearcher 0 100). set (k := set_ticks (w_k w) 100).
  assert (Hq : k_mailboxes k !! 4 = Some []) by (simpl; rewrite Hmail; apply lookup_insert_eq).
  assert (Hc : validate (k_caps k) 2 2 WRITE = Ok (mkCap 2 (Res.Agent 4) WRITE 2 None false))
    by (simpl; rewrite Hcaps; apply researcher_caps).
  destruct (researcher_turn_returns true 2 2 300 (finding "researcher-1" "AI alignment") r k _ _ Hc Hq)
    as [[[res r'] k'] Er]; [reflexivity|simpl; unfold U64_MAX; lia|].
  destruct (researcher_turn_spec _ _ _ _ _ _ _ _ _ _ _ _ Er Hc Hq) as (Hn & _ & _ & _ & Ht' & _).
  exists w, res, (mkSwarm k' (Some r') None 0 None). split; [exact E|]. split; [|exact Ht'].
  change [Sent 2 1 res] with ([] ++ [Sent 2 1 res]). replace 1 with (finding_num r') by exact Hn.
  apply (swr_step _ _ (mkSwarm k (Some r) None 0 None));
    [|apply (sw_find1 (mkSwarm k (Some r) None 0 None) true r res r' k'); [done|done|exact Er]].
  change (@nil event) with ([] ++ @nil event). apply (swr_step _ _ (mkSwarm (w_k w) (Some r) None 0 None));
    [|apply (sw_other (mkSwarm (w_k w) (Some r) None 0 None) k); [done|done|simpl; lia]].
  change (@nil event) with ([] ++ @nil event). apply (swr_step _ _ (swarm_start (w_k w))); [constructor|].
  apply (sw_start1 (swarm_start (w_k w))); [done|]. unfold researcher_start. simpl. by rewrite Ht.
Qed.

Lemma boot_swarm_witness : ∃ w m', setup_swarm demo_entries (boot_world heap_frames no_pages) = Ret w ∧
  t_id <$> ready (k_sched (w_k w)) = [1; 2; 3; 4] ∧
  idle_turn 0x6000 0x5000 (mkMachine (w_k w) empty_context empty_context true true) = Ret (true, m') ∧
  r12 (m_cpu m') = 0x1000.
Proof.
  destruct (boot_swarm demo_entries heap_frames no_pages 0x6000 empty_context empty_context)
    as (w & E & _ & _ & _ & _ & _ & _ & Hr & m' & Hi & _ & _ & Hr12 & _).
  - apply heap_frames_enough.
  - apply heap_frames_enough.
  - apply no_stacks.
  - exists w, m'. split; [exact E|]. split; [exact Hr|]. split; [exact Hi|exact Hr12].
Defined.

Lemma swarm_accounting_witness : ∃ res s q,
  k_mailboxes (s_k s) !! 4 = Some q ∧ accepted [Sent 2 1 res] = [] ++ q ∧ findings_of 2 [Sent 2 1 res] = seqZ 1 (found (s_r1 s)).
Proof.
  destruct demo_swarm_run as (w & res & s & E & Hrun & _).
  destruct (swarm_accounting demo_entries heap_frames no_pages w [Sent 2 1 res] s)
    as (_ & (q & Hq & _ & Hacc) & _ & _ & Hf & _).
  - apply heap_frames_enough.
  - apply heap_frames_enough.
  - apply no_stacks.
  - exact E.
  - exact Hrun.
  - exists res, s, q. split; [exact Hq|]. split; [exact Hacc|exact Hf].
Defined.

Lemma swarm_counters_bounded_witness : ∃ (s : Swarm) total msgs sums k',
  found (s_r1 s) ≤ 1 ∧ agent_aggregator (s_total s) (s_k s) = Ret (Some (total, msgs, sums, k')).
Proof.
  destruct demo_swarm_run as (w & res & s & E & Hrun & Ht).
  destruct (swarm_counters_bounded demo_entries heap_frames no_pages w [Sent 2 1 res] s)
    as (H1 & _ & _ & _ & Hturns).
  - apply heap_frames_enough.
  - apply heap_frames_enough.
  - apply no_stacks.
  - exact E.
  - exact Hrun.
  - destruct Hturns as (_ & _ & _ & total & msgs & sums & k' & Ea & _); [rewrite Ht; lia|].
    exists s, total, msgs, sums, k'. split; [rewrite Ht in H1; exact H1|exact Ea].
Defined.
End Boot.
