(* ===== verification/Start.v ===== *)
(** * Start: [_start] of main.rs, and qemu.rs

    Everything [_start] does before its idle loop, in its order: the answers of the bootloader, the
    segments and the interrupt table, the frame allocator, the page tables, the heap, the bus, the network, the
    storage, the key of the capability tags, the clock, the system call registers, the APIC timer,
    and the agents.  Its result is the state of Os, the kernel's statics and page tables, with what
    the devices were told.  A timer interrupt that arrives after they are enabled counts as
    arriving when the agents are set up: until then it finds no request, deadline or task. *)

From S2P Require Import Prelude Bytes Capability FrameAlloc Task Paging Scheduler Kernel Ownership Switch Ipc Agent AgentTree BlockCache OxideFs ContextStore Heap Timer Gpu Crypto Text Net Syscall Os Console Pci Vring VirtioBlk Storage Mount VirtioNet VirtioNetInit Bringup Apic Elf Segments Boot.

Module Start.
Import Frames CapTable Tasks Paging Sched Kern Ownership Switch Vring VirtioBlk VirtioNet NicInit Bringup Mount Apic Boot Syscall Os.

(** ** qemu.rs *)
Inductive ExitCode : Type := Success | Failure.

Definition exit_code (c : ExitCode) : Z := match c with Success => 0x10 | Failure => 0x11 end.

Definition qemu_exit {P : Type} `{!Ports P} (code : ExitCode) (p : P) : P := out32 0xf4 (exit_code code) p.

(** ** What [_start] is given *)

(** BASE_REVISION, HHDM_REQUEST and MEMMAP_REQUEST. *)
Record Limine : Type := mkLimine {
  is_supported : bool;
  hhdm_response : option Z;
  memmap_response : option (list Entry);
}.

(** CR3, the model-specific registers, ecx of CPUID leaf 1, the halves of RDTSC when the generator
    and when the clock read it, RDRAND, and the registers when the idle loop starts. *)
Record Processor : Type := mkProc {
  cr3 : Z;
  cpu_msrs : Segments.msrs;
  cpuid_ecx : Z;
  rng_tsc : Z * Z;
  clock_tsc : Z * Z;
  rdrand : nat → option Z;
  idle_regs : CpuContext;
}.

(** The state of the kernel, and what the processor and the devices hold. *)
Record Started (P PT D I S G : Type) : Type := mkStarted {
  st_os : Os (PT := PT) (N := Net.NetState I S);
  st_segments : Segments.SegRegs G;
  st_idt : gmap Z (Console.handler * option Z);
  st_tables : Z * Z;
  st_heap : Z * Z * Z;
  st_nic : VirtioNetDevice;
  st_disk : Cache.Disk (Blk D);
  st_online : bool;
  st_rng : Crypto.Rng;
  st_key : list Z;
  st_tsc : Z;
  st_msrs : Segments.msrs;
  st_apic : ApicEnv P PT;
  st_tree : option (list string);
  st_stats : list Z;
}.
Arguments mkStarted {P PT D I S G}.
Arguments st_os {P PT D I S G}.
Arguments st_segments {P PT D I S G}.
Arguments st_idt {P PT D I S G}.
Arguments st_tables {P PT D I S G}.
Arguments st_heap {P PT D I S G}.
Arguments st_nic {P PT D I S G}.
Arguments st_disk {P PT D I S G}.
Arguments st_online {P PT D I S G}.
Arguments st_rng {P PT D I S G}.
Arguments st_key {P PT D I S G}.
Arguments st_tsc {P PT D I S G}.
Arguments st_msrs {P PT D I S G}.
Arguments st_apic {P PT D I S G}.
Arguments st_tree {P PT D I S G}.
Arguments st_stats {P PT D I S G}.

(** What [_start] allocates on the heap: the list of functions on the bus, the network stack, the files of the disk,
    the agents with their names, tasks and queues. *)
Inductive heap_use : Type :=
| Functions (l : list Pci.PciDevice)
| NetworkStack
| Files (fs : Fs.OxideFs)
| Swarm.

(** The bytes of the blobs of a store. *)
Definition blob_bytes (fs : Fs.OxideFs) : Z := map_fold (λ _ d n, Z.of_nat (length d) + n) 0 (Fs.fs_blobs fs).

Section start.
Context {P PT D I S G : Type} `{!Ports P, !Mapper PT, !VirtioBlkHw D, !Net.SmoltcpInit I S, !GdtOps G}.

(** The entry types of the Limine protocol, the packet buffers of the network driver, the address of
    syscall_entry and the entry functions of the agents. *)
Context (USABLE RECLAIMABLE EXECUTABLE : Z) (buf_ptr : Z → nat → option Z) (syscall_entry : Z) (e : Entries).

(** Whether the kernel heap of 1 MiB serves what a part of [_start] allocates; if not, alloc_error panics.  The packet
    buffers of the network driver are in [buf_ptr]. *)
Context (heap : heap_use → bool).

Definition allocate (u : heap_use) : outcome () := if heap u then Ret () else Panic.

(** The statics of net/stack.rs, net/socket.rs and net/dns.rs before init. *)
Definition net_statics : Net.NetState I S := Net.mkNet None None 49152 None.

(** net/mod.rs [init]. *)
Definition init_net (hhdm : Z) (b : Boot P VirtioNetDevice) : outcome (Boot P VirtioNetDevice * Net.NetState I S) :=
  let? '(_, b') := net_init hhdm buf_ptr b in
  let? _ := allocate NetworkStack in
  let? n := Net.net_start (mac_address (bt_dev b')) net_statics in
  Ret (b', n).

(** storage/mod.rs [init]; [hw] is the disk, which the driver resets and gives its queue. *)
Definition init_storage (hhdm : Z) (hw : D) (b : Boot P VirtioBlkDevice)
    : outcome (Boot P VirtioBlkDevice * Ctx.ContextStore * Cache.Disk (Blk D)) :=
  let? '(_, b') := init_blk hhdm b in
  let? '(_, fs, dk) := mount hhdm (mkState (bt_dev b') (bt_mem b') (programmed hhdm (bt_dev b') hw)) in
  let? _ := allocate (Files fs) in
  Ret (b', Ctx.mkStore ∅ fs, dk).

(** crypto/mod.rs [init]: the generator and the key. *)
Definition init_crypto (cpu : Processor) : list Z * Crypto.Rng :=
  Crypto.hmac_init (rdrand cpu) (Crypto.rng_init (cpuid_ecx cpu) (rng_tsc cpu).1 (rng_tsc cpu).2 Crypto.rng_new).

(** [None]: the loop of the heap ran out of fuel, or there is no frame allocator after its init. *)
Definition start (boot : Limine) (cpu : Processor) (ports : P) (mem : memory) (pt : PT) (hw : D)
    : outcome (option (Started P PT D I S G)) :=
  if negb (is_supported boot) then Panic else
  let? segs := Segments.gdt_init in
  match hhdm_response boot, memmap_response boot with
  | Some hhdm, Some entries =>
      let? a := Frames.init USABLE RECLAIMABLE EXECUTABLE entries hhdm in
      let? tables := paging_init (cr3 cpu) hhdm in
      let? mapped := heap_init 256 (mkEnv ids_new (Some a) pt) in
      match mapped with
      | None => Ret None
      | Some (heap_start, heap_size, heap_pages, env) =>
          let '(functions, p) := Pci.pci_scan ports in
          let? _ := allocate (Functions functions) in
          let? '(bn, net) := init_net hhdm (mkBoot p (e_frames env) mem net_empty false) in
          let? '(bb, store, dk) := init_storage hhdm hw (mkBoot (bt_ports bn) (bt_frames bn) (bt_mem bn) VirtioBlk.empty false) in
          let '(key, rng) := init_crypto cpu in
          let tsc := Timer.boot_tsc (clock_tsc cpu).1 (clock_tsc cpu).2 in
          let msrs := Segments.setup_syscall_msrs syscall_entry (cpu_msrs cpu) in
          match bt_frames bb with
          | None => Ret None
          | Some frames =>
              let? ap := start_timer msrs hhdm (mkApic (bt_ports bb) (e_pt env) frames 0 []) in
              let? _ := allocate Swarm in
              let? w := setup_swarm e (boot_world (ap_frames ap) (ap_pt ap)) in
              let tree := AgentTree.print_tree (Datatypes.S (Agents.count (Agents.w_reg w))) (Agents.w_reg w) in
              let? stats := print_stats (k_sched (Agents.w_k w)) in
              let s := mkSystem (mkMachine (Agents.w_k w) empty_context (idle_regs cpu) true false) (Agents.w_reg w) store Timer.queue_new [] in
              Ret (Some (mkStarted (mkOs s (Agents.w_pt w) (Gpu.gpu_new, Gpu.mkHistory 0 0) net) segs Console.IDT tables
                           (heap_start, heap_size, heap_pages) (bt_dev bn) dk (is_online bb) rng key tsc msrs ap tree stats))
          end
      end
  | _, _ => Panic
  end.
End start.

(** ** The kernel state after the agents were started *)
Section swarm.
Context {PT : Type} `{!Mapper PT, !MapperLaws PT}.
Implicit Types w : Agents.World PT.

Lemma setup_capabilities_wf t t' : table_wf t → setup_capabilities t = Ret t' → table_wf t'.
Proof.
  intros Hwf. unfold setup_capabilities.
  repeat match goal with
         | H : table_wf ?t |- context [create_root ?t ?o ?r ?p] =>
             let E := fresh in
             destruct (create_root t o r p) as [[? ?]|] eqn:E; cbn [outcome_bind snd]; [apply (create_root_wf _ _ _ _ _ _ H) in E; clear H|done]
         end.
  by intros [= <-].
Qed.

Lemma kern_wf_mailbox k (pt : PT) id : kern_wf k pt → kern_wf (register_mailbox id k) pt.
Proof.
  intros [Hsys Hcaps Hmail Hboxes Hchan Hmem]. split; try done.
  - intros t q. simpl. rewrite lookup_insert. case_decide; [intros [= <-]; simpl; lia|apply Hmail].
  - intros t Ht. simpl. apply lookup_insert_is_Some'. right. by apply Hboxes.
Qed.

Lemma spawn_kern_wf parent config entry tramp w w' :
  kern_wf (Agents.w_k w) (Agents.w_pt w) → spawn_or_panic parent config entry tramp w = Ret w' →
  kern_wf (Agents.w_k w') (Agents.w_pt w').
Proof.
  unfold spawn_or_panic. destruct w as [k reg pt]. intros Hwf E.
  destruct (Agents.spawn _ _ _ _ _) as [[[id|e] [k1 reg1 pt1]]|] eqn:Es; [|done..]. injection E as <-.
  by destruct (spawn_ok _ _ _ _ _ _ _ _ _ _ _ Hwf Es).
Qed.

Lemma register_mailboxes_wf k (pt : PT) : kern_wf k pt → kern_wf (register_mailboxes k) pt.
Proof.
  unfold register_mailboxes. generalize (seqZ 1 4) as l. intros l. revert k.
  induction l as [|id l IH]; intros k Hk; [done|]. by apply IH, kern_wf_mailbox.
Qed.

Lemma spawn_agents_wf e w w' :
  kern_wf (Agents.w_k w) (Agents.w_pt w) → spawn_agents e w = Ret w' → kern_wf (Agents.w_k w') (Agents.w_pt w').
Proof.
  intros Hwf E. unfold spawn_agents, outcome_bind in E.
  destruct (spawn_or_panic None _ _ _ w) as [w1|] eqn:E1; [|done].
  destruct (spawn_or_panic (Some 1) research1_config _ _ w1) as [w2|] eqn:E2; [|done].
  destruct (spawn_or_panic (Some 1) research2_config _ _ w2) as [w3|] eqn:E3; [|done].
  exact (spawn_kern_wf _ _ _ _ _ _ (spawn_kern_wf _ _ _ _ _ _ (spawn_kern_wf _ _ _ _ _ _ (spawn_kern_wf _ _ _ _ _ _ Hwf E1) E2) E3) E).
Qed.

Lemma setup_swarm_wf e w w' :
  kern_wf (Agents.w_k w) (Agents.w_pt w) → setup_swarm e w = Ret w' → kern_wf (Agents.w_k w') (Agents.w_pt w').
Proof.
  intros Hwf E. unfold setup_swarm, outcome_bind in E. destruct (setup_capabilities (k_caps (Agents.w_k w))) as [t|] eqn:Ec; [|done].
  refine (spawn_agents_wf _ _ _ _ E). apply register_mailboxes_wf.
  refine (kern_wf_quiet _ _ _ (create_quiet "results" (set_caps (Agents.w_k w) t) _ _ (surjective_pairing _)) _).
  eapply kern_wf_quiet; [|exact Hwf]. apply quiet_caps. intros Ht. by eapply setup_capabilities_wf.
Qed.

Lemma swarm_kern_wf e a (pt : PT) w :
  alloc_wf a → setup_swarm e (boot_world a pt) = Ret w → kern_wf (Agents.w_k w) (Agents.w_pt w).
Proof.
  intros Ha. apply setup_swarm_wf. exact (so_kern _ _ (boot_sys_ok a empty_context store_new [] pt Ha store_new_wf)).
Qed.

(** The registry of the swarm uses the ids 1 to 4. *)
Lemma swarm_agents id : is_Some (Agents.agents swarm_registry !! id) → 1 ≤ id < 5.
Proof.
  unfold swarm_registry. rewrite !Agents.is_Some_enroll. intros [->|[->|[->|[->|[a Ha]]]]]; [lia..|]. simpl in Ha. by rewrite lookup_empty in Ha.
Qed.
End swarm.

(** ** What [_start] relies on *)

(** The page tables the bootloader leaves: nothing in the heap and stack ranges; the page of the APIC in the direct
    map, outside of them, unmapped or mapped to the APIC. *)
Record loader_tables {PT : Type} `{!Mapper PT} (msr : Z → Z) (hhdm : Z) (pt : PT) : Prop := {
  lt_heap : ∀ p, HEAP_START ≤ p < HEAP_START + HEAP_SIZE → translate pt p = None;
  lt_stacks : stacks_unmapped pt;
  lt_apic : apic_place msr hhdm;
  lt_apic_page : let page := hhdm + read_apic_base_phys msr in
                 ¬ (HEAP_START ≤ page < HEAP_START + HEAP_SIZE) ∧
                 ¬ (STACK_REGION_BASE ≤ page < STACK_REGION_BASE + 256 * STACK_SLOT_SIZE) ∧
                 (translate pt page = None ∨ translate pt page = Some (read_apic_base_phys msr));
}.

(** The disk behind a function that the driver may pick: its queue has 128 entries, its registers say how many sectors
    it has, they can be read and written in time, and it holds an image that sync_to_disk wrote or none at all. *)
Record attached (P : Type) {D : Type} `{!Ports P, !VirtioBlkHw D, !Storage.VirtioBlkReliable D} (c : Z) (hw : D)
    (files : option Fs.OxideFs) : Prop := {
  at_size : queue_size hw = VirtioBlk.QUEUE_SIZE;
  at_works : Storage.works c hw;
  at_registers : ∀ (p : P) d p1 p2, d ∈ (Pci.pci_scan p).1 → picked d → Z.land (bar0 d) 1 ≠ 0 → capacity_read d p1 p2 = c;
  at_contents : match files with
                | None => blank_disk hw
                | Some f => holds c f hw ∧ Z.of_nat (length (Fs.image f)) ≤ U64_MAX
                end;
}.

(** The heap serves what [_start] allocates, with the files of the disk or without. *)
Record heap_enough {P : Type} `{!Ports P} (heap : heap_use → bool) (ports : P) (files : option Fs.OxideFs) : Prop := {
  he_functions : heap (Functions (Pci.pci_scan ports).1) = true;
  he_network : heap NetworkStack = true;
  he_files : ∀ fs, mounted files fs ∨ mounted None fs → heap (Files fs) = true;
  he_swarm : heap Swarm = true;
}.

Lemma heap_below_stacks p :
  STACK_REGION_BASE ≤ p < STACK_REGION_BASE + 256 * STACK_SLOT_SIZE → ¬ (HEAP_START ≤ p < HEAP_START + HEAP_SIZE).
Proof. unfold STACK_REGION_BASE, HEAP_START, HEAP_SIZE, STACK_SLOT_SIZE, STACK_PAGES, PAGE_SIZE. lia. Qed.

Section parts.
Context {P PT D I S G : Type} `{!Ports P, !Mapper PT, !MapperLaws PT, !MapperProgress PT, !VirtioBlkHw D, !VirtioBlkHwLaws D,
  !Storage.VirtioBlkReliable D, !Net.SmoltcpInit I S, !Net.SmoltcpInitLaws I S}.
Context (hhdm top : Z) (buf_ptr : Z → nat → option Z) (Hpf : platform P hhdm top buf_ptr) (Hsmall : small_queues P) (heap : heap_use → bool).

(** The network comes up, with or without a card. *)
Lemma init_net_ok b a :
  heap NetworkStack = true → bt_frames b = Some a → alloc_wf a → total_frames a * PAGE_SIZE ≤ top →
  ∃ b' (n : Net.NetState I S) a', init_net (P := P) buf_ptr heap hhdm b = Ret (b', n) ∧ bt_frames b' = Some a' ∧ alloc_wf a' ∧
    total_frames a' = total_frames a ∧ (size (free_set a) ≤ size (free_set a') + 6)%nat ∧
    is_Some (Net.interface n) ∧ is_Some (Net.sockets n) ∧ Net.resolver n = Some Net.resolver_new.
Proof.
  intros Hheap Ha Hwf Ht. destruct (takes_net_init hhdm top buf_ptr Hpf Hsmall b a Ha Hwf Ht) as (r & b' & a' & E & Ha' & Hwf' & Ht' & Hs & _).
  unfold init_net. rewrite E. cbn [outcome_bind]. unfold allocate. rewrite Hheap. cbn [outcome_bind].
  destruct (Net.net_start_returns (mac_address (bt_dev b')) (net_statics (I := I) (S := S))) as (n & -> & Hn).
  cbn [outcome_bind]. by exists b', n, a'.
Qed.

(** The files come up: those of the disk, or none when there is no disk. *)
Lemma init_storage_ok c hw files b a :
  (∀ fs, mounted files fs ∨ mounted None fs → heap (Files fs) = true) →
  attached P c hw files → hhdm mod 4096 = 0 → bt_dev b = VirtioBlk.empty → bt_found b = false →
  bt_frames b = Some a → alloc_wf a → total_frames a * PAGE_SIZE ≤ top →
  ∃ b' fs (dk : Cache.Disk (Blk D)) a', init_storage heap hhdm hw b = Ret (b', Ctx.mkStore ∅ fs, dk) ∧ bt_frames b' = Some a' ∧ alloc_wf a' ∧
    (size (free_set a) ≤ size (free_set a') + 3)%nat ∧ mounted (if is_online b' then files else None) fs.
Proof.
  intros Hheap [Hr Hw Hreg Hc] Hal Hd Hfd Ha Hwf Ht.
  destruct (takes_init_blk hhdm top buf_ptr Hpf b a Ha Hwf Ht) as (r & b' & a' & E & Ha' & Hwf' & _ & Hs & _).
  unfold init_storage, allocate. rewrite E. cbn [outcome_bind]. destruct r as [[]|[]].
  - destruct (init_blk_capacity hhdm b b' E) as (p & d & p1 & p2 & Hin & Hp & Hbar & Hcap). rewrite (Hreg p d p1 p2 Hin Hp Hbar) in Hcap.
    destruct (Storage.init_drive hhdm b b' a hw Ha Hwf) as [Hok Hon];
      [pose proof (pf_frames _ _ _ _ Hpf); unfold PAGE_SIZE in Ht; lia|exact E|apply (pf_direct _ _ _ _ Hpf)|done|done|by rewrite Hcap|].
    rewrite Hcap in Hok.
    destruct (mount_drive hhdm c _ Hok files) as (report & fs & dk & -> & Hm).
    { cbn [b_hw]. destruct files as [f|]; [|intros b0; rewrite Storage.programmed_disk; apply Hc]. destruct Hc as [[? ? ? Hb] ?].
      split; [|done]. split; try done. intros i b0 Hi. rewrite Storage.programmed_disk. by apply Hb. }
    cbn [outcome_bind]. rewrite (Hheap fs (or_introl Hm)). cbn [outcome_bind].
    exists b', fs, dk, a'. do 4 (split; [done|]). by rewrite Hon.
  - destruct (init_blk_fails hhdm _ _ _ E) as [Hd' Hf']. assert (Hi : initialized (bt_dev b') = false) by (by rewrite Hd', Hd).
    destruct (mount_offline hhdm (mkState (bt_dev b') (bt_mem b') (programmed hhdm (bt_dev b') hw)) Hi) as [dk ->]. cbn [outcome_bind].
    rewrite (Hheap Fs.fs_new) by (by right). cbn [outcome_bind].
    exists b', Fs.fs_new, dk, a'. do 4 (split; [done|]). unfold is_online. by rewrite Hf', Hfd.
Qed.

(** A store that the heap cannot hold: the kernel panics at boot. *)
Lemma init_storage_exhausted hw b r b' report fs (dk : Cache.Disk (Blk D)) :
  (∀ fs, heap (Files fs) = true → blob_bytes fs ≤ HEAP_SIZE) →
  init_blk hhdm b = Ret (r, b') → mount hhdm (mkState (bt_dev b') (bt_mem b') (programmed hhdm (bt_dev b') hw)) = Ret (report, fs, dk) →
  HEAP_SIZE < blob_bytes fs → init_storage heap hhdm hw b = Panic.
Proof.
  intros Hheap E Em Hbig. unfold init_storage. rewrite E. cbn [outcome_bind]. rewrite Em. cbn [outcome_bind]. unfold allocate.
  destruct (heap (Files fs)) eqn:Eh; [|done]. apply Hheap in Eh. lia.
Qed.
End parts.

Lemma mounted_wf files fs : mounted files fs → Fs.fs_wf fs.
Proof. destruct files as [f|]; [by intros [? _]|]. intros ->. apply Fs.fs_new_wf. Qed.

Lemma fresh_store_wf fs : Fs.fs_wf fs → Ctx.store_wf (Ctx.mkStore ∅ fs).
Proof. intros Hfs. by split. Qed.

(** Setting up the system call registers leaves the base of the APIC alone. *)
Lemma syscall_msrs_apic entry (f : Segments.msrs) : Segments.setup_syscall_msrs entry f APIC_BASE_MSR = f APIC_BASE_MSR.
Proof. reflexivity. Qed.

Lemma syscall_msrs_base entry (f : Segments.msrs) : read_apic_base_phys (Segments.setup_syscall_msrs entry f) = read_apic_base_phys f.
Proof. unfold read_apic_base_phys. by rewrite syscall_msrs_apic. Qed.

Lemma loader_tables_msr {PT : Type} `{!Mapper PT} (f g : Z → Z) hhdm (pt : PT) :
  f APIC_BASE_MSR = g APIC_BASE_MSR → loader_tables f hhdm pt → loader_tables g hhdm pt.
Proof.
  intros E. assert (Ep : read_apic_base_phys f = read_apic_base_phys g) by (unfold read_apic_base_phys; by rewrite E).
  intros [Hh Hs [H1 H2 H3 H4] Hp]. rewrite E in H1. rewrite Ep in H3, H4, Hp. split; [exact Hh|exact Hs|split; assumption|exact Hp].
Qed.

(** The report of the swarm has a line for each agent. *)
Definition swarm_tree : option (list string) := AgentTree.print_tree (Datatypes.S (Agents.count swarm_registry)) swarm_registry.

Lemma swarm_tree_lines : match swarm_tree with Some ls => (length ls =? 4)%nat | None => false end = true.
Proof. vm_compute. reflexivity. Qed.

(** The agents come up, and with them the state that the idle loop starts in. *)
Lemma swarm_up {PT : Type} `{!Mapper PT, !MapperLaws PT, !MapperProgress PT} e a (pt : PT) :
  alloc_wf a → (64 ≤ size (free_set a))%nat → stacks_unmapped pt →
  ∃ w stats, setup_swarm e (boot_world a pt) = Ret w ∧ print_stats (k_sched (Agents.w_k w)) = Ret stats ∧
    Agents.w_reg w = swarm_registry ∧ k_caps (Agents.w_k w) = swarm_caps ∧ t_id <$> ready (k_sched (Agents.w_k w)) = [1; 2; 3; 4] ∧
    ∀ (N : Type) fs regs (net : N), Fs.fs_wf fs →
      os_wf (mkOs (mkSystem (mkMachine (Agents.w_k w) empty_context regs true false) (Agents.w_reg w) (Ctx.mkStore ∅ fs) Timer.queue_new [])
               (Agents.w_pt w) (Gpu.gpu_new, Gpu.mkHistory 0 0) net).
Proof.
  intros Ha Hsize Hst. destruct (setup_swarm_spec e a pt Ha Hsize Hst) as (w & Ew & Hr & Hcaps & Hreg & _).
  destruct (print_stats_sums (k_sched (Agents.w_k w)) (proj1 (sr_sys _ _ Hr))) as (rt & no & bg & Es).
  eexists w, _. split; [exact Ew|]. split; [exact Es|]. do 2 (split; [done|]). split.
  - destruct (sr_tasks _ _ Hr) as (ts & Hts & Hids & _). unfold abstract in Hts. injection Hts as -> _ _. exact Hids.
  - intros N fs regs net Hfs. split; [|split; [apply heap_nil|done]]. split; cbn.
    + by eapply swarm_kern_wf.
    + rewrite Hreg. apply swarm_registry_wf.
    + rewrite Hreg, (sr_ids _ _ Hr). apply swarm_agents.
    + by apply fresh_store_wf.
    + apply heap_nil.
Qed.

(** The heap comes up on the first frames. *)
Lemma heap_up {PT : Type} `{!Mapper PT, !MapperLaws PT, !MapperProgress PT} a (pt : PT) :
  alloc_wf a → (1024 ≤ size (free_set a))%nat →
  (∀ p, HEAP_START ≤ p < HEAP_START + HEAP_SIZE → translate pt p = None) →
  ∃ ks env a', heap_init 256 (mkEnv ids_new (Some a) pt) = Ret (Some (HEAP_START, HEAP_SIZE, 256, env)) ∧
    (length ks = 256%nat ∧ NoDup ks ∧ ∀ j k, ks !! j = Some k → translate (e_pt env) (heap_page (Z.of_nat j)) = Some (k * PAGE_SIZE) ∧
       page_flags (e_pt env) (heap_page (Z.of_nat j)) = Some DATA_FLAGS) ∧
    (∀ p, ¬ (HEAP_START ≤ p < HEAP_START + HEAP_SIZE) → translate (e_pt env) p = translate pt p) ∧
    e_frames env = Some a' ∧ alloc_wf a' ∧ total_frames a' = total_frames a ∧ (size (free_set a) ≤ size (free_set a') + 1024)%nat.
Proof.
  intros Hwf Hsize Hun. destruct (heap_init_ok (mkEnv ids_new (Some a) pt) a eq_refl Hwf Hsize Hun)
    as (ks & env & a1 & Emap & Hlen & Hnd & Hin & Hout & Ha1 & Hwf1 & _ & Hs1 & _).
  destruct (heap_init_fewer _ (mkEnv ids_new (Some a) pt) env _ _ _ a eq_refl Hwf Emap) as (a1' & Ha1' & _ & Ht1 & _).
  rewrite Ha1 in Ha1'. injection Ha1' as <-. exists ks, env, a1.
  split; [exact Emap|]. split; [split; [exact Hlen|split; [assumption|]]|].
  { intros j k Hj. pose proof (Hin j k Hj) as Ht. split; [exact Ht|].
    destruct (heap_init_data _ _ _ _ _ _ Emap (heap_page (Z.of_nat j))) as [Hf|[_ Hsame]]; [exact Hf|]. cbn [e_pt] in Hsame.
    rewrite Ht, Hun in Hsame; [done|]. apply lookup_lt_Some in Hj. unfold heap_page, HEAP_SIZE, PAGE_SIZE. lia. }
  repeat (split; [assumption|]). assumption.
Qed.

(** ** The turns of the agents and of the idle loop are steps of the kernel *)
Section turns.
Context {PT N : Type} `{!Mapper PT} (RESUME TRAMPOLINE : Z) (poll : N → N).
Local Abbreviation os := (Os (PT := PT) (N := N)).

Inductive turn (o : os) : os → Prop :=
| turn_idle b m : idle_turn RESUME TRAMPOLINE (o_m o) = Ret (b, m) → turn o (with_machine o m)
| turn_researcher_1 free r res r' k : agent_researcher_1 free r (m_k (o_m o)) = Ret (res, r', k) → turn o (with_machine o (with_k (o_m o) k))
| turn_researcher_2 free r res r' k : agent_researcher_2 free r (m_k (o_m o)) = Ret (res, r', k) → turn o (with_machine o (with_k (o_m o) k))
| turn_aggregator total total' msgs sums k :
    agent_aggregator total (m_k (o_m o)) = Ret (Some (total', msgs, sums, k)) → turn o (with_machine o (with_k (o_m o) k)).

Lemma researcher_turn_op free me cap cadence payload r k res r' k' :
  researcher_turn free me cap cadence payload r k = Ret (res, r', k') → kernel_op k k'.
Proof.
  unfold researcher_turn. destruct (checked_add32 _ _) as [n|]; [|done]. cbn [outcome_bind].
  destruct (Ipc.send _ _ _ _ _ _ _ _ k) as [[res0 k0]|] eqn:E; [|done]. cbn [outcome_bind fst snd].
  destruct (checked_add64 _ _); [|done]. intros [= _ _ <-]. by eapply op_send.
Qed.

Lemma collect_ops fuel total k total' msgs sums k' :
  collect_findings fuel total k = Ret (Some (total', msgs, sums, k')) → rtc kernel_op k k'.
Proof.
  revert total k total' msgs sums. induction fuel as [|fuel IH]; intros total k total' msgs sums E; cbn [collect_findings] in E; [done|].
  destruct (Ipc.receive 4 k) as [[msg|] k1] eqn:Er; [|injection E as _ _ _ <-; by eapply rtc_once, op_receive].
  destruct (checked_add32 total 1) as [t1|]; [|done]. cbn [outcome_bind] in E.
  destruct (collect_findings fuel t1 k1) as [[[[[t2 ms] ss] k2]|]|] eqn:Ec; [|done..]. injection E as _ _ _ <-.
  eapply rtc_l; [by eapply op_receive|by eapply IH].
Qed.

Lemma kernel_ops_steps (o : os) k : rtc kernel_op (m_k (o_m o)) k → rtc (os_step RESUME TRAMPOLINE poll) o (with_machine o (with_k (o_m o) k)).
Proof.
  intros H. remember (m_k (o_m o)) as k0 eqn:E0. revert o E0. induction H as [k|k k1 k2 Hop _ IH]; intros o ->.
  - destruct o as [[[]] ? ? ?]. apply rtc_refl.
  - eapply rtc_l; [by apply os_kernel|]. exact (IH (with_machine o (with_k (o_m o) k1)) eq_refl).
Qed.

Lemma turn_steps (o o' : os) : turn o o' → rtc (os_step RESUME TRAMPOLINE poll) o o'.
Proof.
  intros [b m E|free r res r' k E|free r res r' k E|total total' msgs sums k E].
  - unfold idle_turn in E. destruct (should_reschedule _); [by eapply rtc_once, os_yield|]. injection E as _ <-.
    destruct o as [[[]] ? ? ?]. apply rtc_refl.
  - apply kernel_ops_steps, rtc_once. by eapply researcher_turn_op.
  - apply kernel_ops_steps, rtc_once. by eapply researcher_turn_op.
  - apply kernel_ops_steps. by eapply collect_ops.
Qed.

(** What happens after boot: turns of the idle loop and of the agents, and every operation of Os. *)
Definition life (o o' : os) : Prop := turn o o' ∨ os_step RESUME TRAMPOLINE poll o o'.

Lemma life_steps (o o' : os) : rtc life o o' → rtc (os_step RESUME TRAMPOLINE poll) o o'.
Proof.
  induction 1 as [|o o1 o2 [Ht|Hs] _ IH]; [done|etrans; [by apply turn_steps|done]|by eapply rtc_l].
Qed.
End turns.

(** Without the bootloader's answers, [_start] panics. *)
Lemma start_refuses {P PT D I S G : Type} `{!Ports P, !Mapper PT, !VirtioBlkHw D, !Net.SmoltcpInit I S, !GdtOps G, !GdtLaws G}
    U R X buf_ptr entry e heap boot cpu (ports : P) mem (pt : PT) (hw : D) :
  is_supported boot = false ∨ hhdm_response boot = None ∨ memmap_response boot = None →
  start (I := I) (S := S) (G := G) U R X buf_ptr entry e heap boot cpu ports mem pt hw = Panic.
Proof.
  unfold start, Segments.gdt_init. destruct (Segments.GDT_spec (G := G)) as (g & -> & _). cbn [outcome_bind].
  intros [-> | Hb]; [reflexivity|]. destruct (is_supported boot); [|reflexivity]. cbn [negb].
  destruct Hb as [-> | ->]; [reflexivity|]. by destruct (hhdm_response boot).
Qed.

(** *** Properties *)


(** *** Witnesses *)

(** Eight MiB of memory, a bus with a network card at 0:3.0 and a disk of eight blocks at 0:4.0, and
    one file on the disk.  The state of the bus is the address register. *)
Record rig : Type := mkRig { rig_addr : Z }.

Definition rig_config (a : Z) : Z :=
  if a =? Pci.config_address 0 3 0 0 then 0x10001AF4 else if a =? Pci.config_address 0 3 0 0x10 then 0xC001
  else if a =? Pci.config_address 0 4 0 0 then 0x10011AF4 else if a =? Pci.config_address 0 4 0 0x10 then 0xC041 else 0xFFFFFFFF.

#[export] Instance rig_ports : Ports rig := {
  in8 port r := (0, r);
  in16 port r := (128, r);
  in32 port r := (if port =? Pci.PCI_CONFIG_DATA then rig_config (rig_addr r) else if port =? 0xC054 then 8 else 0, r);
  out8 port v r := r;
  out16 port v r := r;
  out32 port v r := if port =? Pci.PCI_CONFIG_ADDR then mkRig v else r;
}.

Definition demo_entries_map : list Entry := [{| e_base := 0x100000; e_length := 0x800000; e_type := 0 |}].

Definition demo_buffers (q : Z) (i : nat) : option Z := Some (HEAP_START + 2048 * Z.of_nat i).

Definition demo_cpu : Processor := mkProc 0x1000 demo_msr 0 (0, 5) (0, 7) (λ _, None) empty_context.

Definition demo_blocks : list BlockCache.block := Fs.image Fs.demo_fs ++ replicate 5 (replicate 512 0).

Definition demo_disk : Sim := mkSim (list_to_map (zip (seqZ 0 8) demo_blocks)) 0 128 0.

(** A heap that holds stores of up to 1 MiB. *)
Definition demo_heap (u : heap_use) : bool := match u with Files fs => blob_bytes fs <=? HEAP_SIZE | _ => true end.

#[export] Instance canned_init : Net.SmoltcpInit () (list Net.Sock) := {
  Net.iface_new _ _ := ();
  Net.push_addr _ _ i := Some i;
  Net.add_default_route _ i := Some i;
  Net.sockets_new := [];
}.

#[export] Instance canned_init_laws : Net.SmoltcpInitLaws () (list Net.Sock).
Proof. split; [by eexists|]. intros. by eexists. Qed.

Definition demo_start : outcome (option (Started rig flat Sim () (list Net.Sock) (list descriptor))) :=
  start 0 5 6 demo_buffers 0x7000 demo_entries demo_heap (mkLimine true (Some demo_hhdm) (Some demo_entries_map)) demo_cpu (mkRig 0) (λ _, 0) ∅ demo_disk.

Lemma demo_online : match demo_start with Ret (Some k) => st_online k | _ => false end = true.
Proof. vm_compute. reflexivity. Qed.

(** The frames free after the initialisation of the allocator. *)
Lemma demo_frames_free :
  match Frames.init 0 5 6 demo_entries_map demo_hhdm with
  | Ret a => ((1100 <=? length (free_list a))%nat && (total_frames a =? 2304))%bool
  | Panic => false
  end = true.
Proof. vm_compute. reflexivity. Qed.

Lemma demo_tables : loader_tables demo_msr demo_hhdm no_pages.
Proof.
  split; [intros p _; apply no_pages_unmapped|intros p _; apply no_pages_unmapped|apply demo_place|].
  cbv zeta. change (read_apic_base_phys demo_msr) with 0xFEE00000. unfold demo_hhdm, HEAP_START, HEAP_SIZE, STACK_REGION_BASE.
  unfold STACK_SLOT_SIZE, STACK_PAGES, PAGE_SIZE. split; [lia|]. split; [lia|]. left. apply no_pages_unmapped.
Qed.

(** Whatever the address register holds, the scan finds the card and the disk. *)
Lemma rig_scan (r : rig) : (Pci.pci_scan r).1 = (Pci.pci_scan (mkRig 0)).1.
Proof. destruct r as [a]. vm_compute. reflexivity. Qed.

Lemma rig_devices :
  forallb (λ d, bool_decide (io_base_of d mod 32 = 0) && (bool_decide (¬ picked d) || (io_base_of d =? 0xC040))) (Pci.pci_scan (mkRig 0)).1 = true.
Proof. vm_compute. reflexivity. Qed.

Lemma rig_device (r : rig) d : d ∈ (Pci.pci_scan r).1 → io_base_of d mod 32 = 0 ∧ (picked d → io_base_of d = 0xC040).
Proof.
  rewrite rig_scan. intros Hin%list_elem_of_In. pose proof (proj1 (List.forallb_forall _ _) rig_devices d Hin) as H.
  apply andb_true_iff in H as [H1%bool_decide_eq_true H2]. split; [done|]. intros Hp.
  apply orb_true_iff in H2 as [H2%bool_decide_eq_true|H2%Z.eqb_eq]; [by destruct H2|done].
Qed.

Lemma rig_platform top : 0 ≤ top ≤ 2 ^ 40 → platform rig demo_hhdm top demo_buffers.
Proof.
  intros Ht. split.
  - intros r d Hin _ _. by apply (rig_device r d).
  - intros io r Hio. unfold in32. cbn [rig_ports fst].
    pose proof (Z.div_mod io 32 ltac:(lia)). unfold Pci.PCI_CONFIG_DATA.
    destruct (Z.eqb_spec (io + 0x14) 0xCFC); [lia|]. destruct (Z.eqb_spec (io + 0x18) 0xCFC); [lia|].
    destruct (io + 0x14 =? 0xC054), (io + 0x18 =? 0xC054); lia.
  - intros q i Hi. eexists. split; [reflexivity|]. unfold HEAP_START, demo_hhdm. lia.
  - unfold demo_hhdm, U64_MAX. lia.
  - lia.
Qed.

Lemma rig_small : small_queues rig.
Proof. intros port r. simpl. lia. Qed.

Lemma demo_disk_blocks :
  forallb (λ k, match sim_disk demo_disk !! k with
                | Some b => (length b =? 512)%nat && bool_decide (demo_blocks !! Z.to_nat k = Some b)
                | None => false
                end) (seqZ 0 8) = true.
Proof. vm_compute. reflexivity. Qed.

Lemma demo_disk_block k : 0 ≤ k < 8 → ∃ b, sim_disk demo_disk !! k = Some b ∧ length b = 512%nat ∧ demo_blocks !! Z.to_nat k = Some b.
Proof.
  intros Hk. assert (Hin : In k (seqZ 0 8)) by (apply list_elem_of_In, elem_of_seqZ; lia).
  pose proof (proj1 (List.forallb_forall _ _) demo_disk_blocks k Hin) as H. cbv beta in H.
  destruct (sim_disk demo_disk !! k) as [b|]; [|discriminate H]. apply andb_true_iff in H as [H1%Nat.eqb_eq H2%bool_decide_eq_true].
  exists b. split; [reflexivity|]. split; [exact H1|exact H2].
Qed.

Lemma demo_attached : attached rig 8 demo_disk (Some Fs.demo_fs).
Proof.
  assert (Hlen : length (Fs.image Fs.demo_fs) = 3%nat) by (vm_compute; reflexivity). split.
  - reflexivity.
  - split; [cbn; lia|]. intros k Hk. destruct (demo_disk_block k Hk) as (b & Hb & Hl & _). exists b. split; [exact Hb|exact Hl].
  - intros r d p1 p2 Hin Hp _. unfold capacity_read. rewrite (proj2 (rig_device r d Hin) Hp). reflexivity.
  - split; [|rewrite Hlen; unfold U64_MAX; lia]. split; [apply Fs.demo_fs_wf|apply Fs.demo_fs_storable|rewrite Hlen; lia|].
    intros i b Hi. pose proof (lookup_lt_Some _ _ _ Hi) as Hlt. destruct (demo_disk_block (Z.of_nat i)) as (b' & Hb & _ & Hd); [lia|].
    assert (Hi' : demo_blocks !! i = Some b) by (unfold demo_blocks; rewrite lookup_app_l; [exact Hi|exact Hlt]).
    rewrite Nat2Z.id in Hd. pose proof (eq_trans (eq_sym Hi') Hd) as [= ->]. exact Hb.
Qed.

Lemma demo_bytes : blob_bytes Fs.demo_fs = 3.
Proof. vm_compute. reflexivity. Qed.

Lemma demo_heap_enough : heap_enough demo_heap (mkRig 0) (Some Fs.demo_fs).
Proof.
  split; [reflexivity|reflexivity| |reflexivity]. intros fs [(_ & Hb & _)|Hn]; apply Z.leb_le; unfold HEAP_SIZE.
  - replace (blob_bytes fs) with (blob_bytes Fs.demo_fs) by (unfold blob_bytes; rewrite Hb; reflexivity). rewrite demo_bytes. lia.
  - simpl in Hn. rewrite Hn. vm_compute. discriminate.
Qed.

End Start.
